(* ===== verification/_CoqProject ===== *)
-Q . S2P
Prelude.v
Identity.v
Predicate.v
LocalCycle.v
Tarjan.v
Contract.v
Assessment.v
Evaluator.v
EvalEvidence.v
EvalResolve.v
EvalCycles.v
EvalSpec.v
Demo.v
EvalMeaning.v
Profile.v
ActionTypes.v
Journal.v
Proposal.v
Recovery.v
Engine.v
EngineSpec.v
StepSpec.v
Fleet.v
DemoEngine.v
OpsStatus.v
Interaction.v
InteractionSpec.v
InteractionFacts.v
ActionStatus.v
DemoInteraction.v
Text.v
Release.v
ReleaseSpec.v
Loading.v
Planner.v
DemoRelease.v
Candidates.v
Investigator.v
InvestigatorSteps.v
InvestigatorSpec.v
InvestigatorSelect.v
DemoInvestigator.v
OpsSpec.v
OpsWire.v
OpsWireSpec.v
OpsPublish.v
Operational.v
DemoOps.v
Revision.v
Shadow.v
Deploy.v
DeploySpec.v
Redact.v
DataPlane.v
DemoDeploy.v
Adapters.v
DemoAdapters.v
Process.v
Gate.v
Render.v
Artifact.v
Host.v
GateRun.v
Measure.v
VerifyCmd.v
VerifySpec.v
Deployers.v
DeployCmd.v
HostSpec.v
DeployCmdSpec.v
ReportCmd.v
Flags.v
Main.v
DevSpace.v
ActionTest.v
OperatorCmd.v
DemoCli.v
DemoOperator.v
