(* ===== verification/Prelude.v ===== *)
(** * Bori: a verified model of the operational contract control plane

    Bori watches declared operational contracts of workloads, asks evidence
    providers about them, decides which capabilities hold, asks people or
    providers to act, and plans and deploys releases.  This library models the
    packages that carry that logic, as they are written, and proves what they
    promise.

    ** Parts and files

    - pkg/operations (contracts and their evaluation).  Identity.v (identity.go),
      Predicate.v (predicate.go and the slots of contract.go), Contract.v with
      LocalCycle.v (contract.go: Validate, localCycle), Assessment.v (target.go,
      result.go), Evaluator.v with Tarjan.v (evaluator.go).  The evaluator's
      mutable target states are an indexed list in the record [evaluator]; its
      memo maps are threaded by the state monad of this file.
    - pkg/action (acting on assessments).  ActionTypes.v (types.go, approval.go,
      provider.go), Journal.v (journal.go), Proposal.v (proposal.go), Recovery.v
      (recovery.go), Engine.v (engine.go), ActionStatus.v (status.go).
      [Engine.Step] is one call of Step; the state of *step is [estate], the
      journal any type with an instance of [Journal], a provider a function of
      the log of calls made so far.
    - pkg/interaction (what operators read).  Profile.v (profile.go),
      Interaction.v (project.go) over the status types of OpsStatus.v
      (apis/ops/v1alpha1).
    - pkg/investigate (what evidence to ask for).  Candidates.v (requests.go,
      candidates.go, limits.go, the data of pkg/providers), Investigator.v
      (investigator.go).  [Run] threads the record [Investigator]; its log holds
      the calls sent and the episodes begun.  Clock, contexts and providers are
      the record [World], functions of how often they were used.
    - pkg/providers (who answers): Adapters.v (registry.go, kubestatus.go,
      http.go).
    - pkg/opswire (between the API objects and the evaluator).  OpsSpec.v (the
      objects of apis/ops/v1alpha1), OpsWire.v (contract.go, snapshot.go,
      status.go).
    - controllers/operational_reconciler.go: Operational.v.  [Reconcile] composes
      the parts above in the order of the code; the API server is the record
      [Cluster], what it answers during one reconcile, and what survives from
      one reconcile to the next is the record [Memory].
    - pkg/release, pkg/model, pkg/planner, pkg/imageref (what a release deploys):
      Release.v, Loading.v (the files of a repository), Planner.v.
    - pkg/revision, pkg/rollout, pkg/shadow, pkg/reconcile and the other
      controllers (deploying it).  Revision.v (the revisions on disk), Shadow.v
      (desired and actual state), Deploy.v ([Run], one pass: the clock, the
      disk's answers and the adapters are the record [Site], the files a pass
      changes the record [Disk]), DataPlane.v (dataplane_controller.go,
      release_reconciler.go, verificationrun_reconciler.go).

    - pkg/verification, pkg/security, pkg/artifact, pkg/collect, pkg/adapter,
      adapters (what the commands run and leave behind).  Gate.v (provider.go,
      version.go), Redact.v (redact.go), Render.v (pkg/interaction/render.go),
      Artifact.v (the documents), Deployers.v (the seven adapters), GateRun.v
      (collect.go, summary.go, gate_runner.go, kubeslint.go).
    - cmd (the processes).  Measure.v (sliprofile.go, measure.go of cmd/bori),
      VerifyCmd.v, DeployCmd.v, ReportCmd.v and Main.v (main.go and
      opsinteraction.go), DevSpace.v (cmd/bori-devspace), OperatorCmd.v
      (cmd/bori-operator).  A process is a [prog] (Process.v): it threads a state
      and returns, exits or panics, and only os.Exit skips deferred calls.  Its
      state is the record [Shell] of Host.v, what it did so far and the
      revisions on disk; what it asks is answered by the record [Host], by the
      log of what was done.  Text.v has the functions on text, Flags.v the
      package flag.
    - pkg/action/actiontest (the reference actor): ActionTest.v; its journal with
      faults is an instance of [Journal].

    ** What is proved

    - Evaluation.  EvalEvidence.v: evidence is Current exactly on unanimous,
      current, well-formed latest statements, in whatever order they arrive.
      EvalResolve.v, EvalCycles.v: which targets stay valid, by the declarative
      [wf_target] and the cycles of [depends_on].  EvalSpec.v: Evaluate is the
      unique solution of the capability equations and always ends; EvalMeaning.v:
      AVAILABLE exactly with a finite derivation from current evidence.
    - Acting.  EngineSpec.v states the protocol of a step as a relation over its
      log; StepSpec.v shows every Step follows it, whatever the journal and the
      providers answer.  Fleet.v interleaves any number of engines, call by call,
      on one journal; its theorems: exclusive targets, numbered attempts, bounded
      sends, and that Step runs inside that model.
    - Operators.  InteractionSpec.v (the level, exactly), InteractionFacts.v
      (bounds, order, history, when a response is ready), ActionStatus.v (which
      unresolved actions are told, and that no bound cuts them).
    - Investigating.  InvestigatorSteps.v gives [Run] as a step relation and shows
      it always ends; InvestigatorSpec.v proves by induction on the steps the
      typed state, the call budget, the cooldown and that only authorised
      queries are sent; InvestigatorSelect.v: which query is next, which
      statements are kept, which hypotheses, and when to wake.  Adapters.v:
      a provider's value is a genuine fact of the subject asked about, and what a
      registry holds.
    - Translating and publishing.  OpsWireSpec.v: what is handed to the evaluator
      is granted and pinned, and a denied reference reveals nothing;
      also: the contract digest is one of meaning; OpsPublish.v: a status
      discloses only its own namespace, is bounded, and is written once.
      Operational.v: the same of a whole reconcile.
    - Releases.  ReleaseSpec.v (dependency order, affected components, versions,
      the matrix), Planner.v (plans, their errors).  The order is proved for
      releases that list no component twice; DemoRelease.v has what becomes of
      the others.
    - Deploying.  Shadow.v (drift, exactly); DeploySpec.v: when a pass does
      nothing, what it may call, that a promotion outside a deploy dry run means
      every call succeeded, that a promoted release settles and a failed one
      leaves the actual state; DataPlane.v: failures and violations are published and retried, a
      promoted release is published and comes to rest, and a changed one wakes
      its data planes; the first verification run linked to a revision stays;
      every event but the one of a deletion is redacted, and warns exactly in
      trouble.
      The release controller counts exactly, and a release survives its object.
    - Commands.  Gate.v: severity is a total preorder whose worst is kept, and
      blocking is a threshold on known results.  Redact.v: what redaction leaves.
      Deployers.v gives each adapter its work, the list of programs and
      objects, and shows it does a beginning of it, all of it without an error,
      nothing on a dry run.  GateRun.v: what scraping yields, and when it panics.
      Measure.v: which profiles and summaries are accepted.  VerifySpec.v,
      DeployCmdSpec.v, ReportCmd.v, DevSpace.v: exit status, status files,
      promotions and work done agree, from the relations [keeps] and [noted]
      between the states of a process (Process.v, HostSpec.v); and the root
      bori-devspace finds is the nearest directory above its executable.
      Main.v: commands that only look act on nothing.  OperatorCmd.v: the
      operator starts only under flags that agree, with the providers and the
      profile it was given, checked, and its engine hands nothing off.
      ActionTest.v: the reference actor executes a key once, and
      faults keep a journal lawful.  Render.v: the text does not depend on the
      order of the targets.
    - Demo.v, DemoEngine.v, DemoInteraction.v, DemoInvestigator.v, DemoOps.v,
      DemoRelease.v, DemoDeploy.v, DemoAdapters.v, DemoCli.v, DemoOperator.v
      evaluate the theorems on small inputs, and hold counterexamples to comments
      of the code.

    ** Conventions and bounds

    Integers of the code are Z (or N), with wrap-around or saturation written
    out where the code can reach it: times and durations below, uint64 versions
    and epochs in Journal.v, int32 attempts in ActionStatus.v.  sort.Slice is the
    class [SortSlice], of which only its contract is known.  Loops that are not
    structural take fuel, and the theorems show the fuel given is enough: the
    number of nodes for the graph searches, one unit per listed component for
    [Release.Order], [MaxSteps] and two for a run of the investigator, the height
    of the dependency graph for the evaluator.

    ** Parameters

    SHA-256 digests, JSON forms, printing of quoted text and times, the order of
    sort.Slice, the text of files and its YAML decoding, and the parser of image
    references are classes, of which nothing more than documented behaviour is assumed; so
    are two functions of apimachinery (semantic equality, setting a condition), and
    the parsers of URLs, addresses, times and JSON in Adapters.v, of numbers
    and durations in GateRun.v and Flags.v, and the kube-slint module in
    Measure.v.  A journal is assumed to fence epochs and swap by version only where a theorem
    says so ([JournalLaws], discharged for MemJournal).

    ** Not modelled

    The libraries around the program -- HTTP and Kubernetes clients, encoders and
    decoders, the kube-slint module -- which are oracles or parameters; the
    wiring of watches; the text of usage messages and of logs; generated deep
    copies, which are the identity on values; fields that nothing reads.
    Concurrency inside a process (contexts that are cancelled, locks) is left
    out: every function here is called by one goroutine at a time. *)

From stdpp Require Export base gmap sets list relations strings sorting pretty.
From Stdlib Require Export ZArith Lia.

#[export] Set Default Goal Selector "!".
#[export] Set Warnings "-clear-no-such-hyp".

Declare Scope go_scope.
Delimit Scope go_scope with go.
Open Scope go_scope.

(** ** Go integers and times

    A [time.Duration] is an int64 count of nanoseconds.  A [time.Time] is an
    instant in nanoseconds since Go's zero time (1 January of year 1, UTC), so
    that [IsZero] is equality with 0. *)
Abbreviation Duration := Z (only parsing).
Abbreviation Time := Z (only parsing).

Definition int64_min : Z := (- 2 ^ 63)%Z.
Definition int64_max : Z := (2 ^ 63 - 1)%Z.
Definition uint64_max : Z := (2 ^ 64 - 1)%Z.

Definition IsZero (t : Time) : bool := bool_decide (t = 0%Z).
Definition After (t u : Time) : bool := Z.ltb u t.
Definition Before (t u : Time) : bool := Z.ltb t u.

(** [Time.Sub] saturates at the bounds of an int64. *)
Definition Sub (t u : Time) : Duration := Z.max int64_min (Z.min int64_max (t - u)).

(** [Time.Add] is exact. *)
Definition Add (t : Time) (d : Duration) : Time := (t + d)%Z.

Definition Second : Duration := 1000000000%Z.

(** ** Text the source produces through fmt, strconv and time

    [quote] is the verb %q (strconv.Quote) and [rfc3339] the layout
    time.RFC3339.  They only ever build human-readable details; no definition
    branches on them and every theorem holds for all of them. *)
Class GoText := {
  quote : string -> string;
  rfc3339 : Time -> string;
}.

(** An executable instance: %q of printable ASCII without quotes or
    backslashes, and an instant printed as its nanosecond count. *)
Definition quote_char : string := String (Ascii.ascii_of_nat 34) EmptyString.

#[export] Instance plain_text : GoText := {|
  quote s := quote_char +:+ s +:+ quote_char;
  rfc3339 t := pretty t;
|}.

(** %v of a bool *)
Definition text_of_bool (b : bool) : string := if b then "true" else "false".

(** strings.Join *)
Fixpoint join (sep : string) (l : list string) : string :=
  match l with
  | [] => ""
  | [x] => x
  | x :: l => x +:+ sep +:+ join sep l
  end.

(** strings.Split at one character *)
Fixpoint split_on (sep : Ascii.ascii) (s : string) : list string :=
  match s with
  | EmptyString => [""]
  | String c t =>
      if Ascii.eqb c sep then "" :: split_on sep t
      else match split_on sep t with
           | [] => [String c ""]
           | x :: xs => String c x :: xs
           end
  end.

(** strings.HasPrefix *)
Fixpoint has_prefix (p s : string) : bool :=
  match p, s with
  | EmptyString, _ => true
  | String a p, String b s => bool_decide (a = b) && has_prefix p s
  | _, _ => false
  end.

(** The verb %v of a []string. *)
Definition show_strings (l : list string) : string := "[" +:+ join " " l +:+ "]".

(** The verb %t of a bool. *)
Definition show_bool (b : bool) : string := if b then "true" else "false".

(** ** Lexicographic comparison

    Go compares strings bytewise, as [String.ltb] does.  Every [less] of the
    source compares a few string fields in turn; [lex_ltb] is that comparison
    on the list of the fields. *)
Fixpoint lex_ltb (xs ys : list string) : bool :=
  match xs, ys with
  | x :: xs, y :: ys => if decide (x = y) then lex_ltb xs ys else String.ltb x y
  | [], _ :: _ => true
  | _, [] => false
  end.

(** A strict weak order, as package sort requires of [less]. *)
Class StrictWeak {A} (less : A -> A -> bool) : Prop := {
  sw_irrefl x : less x x = false;
  sw_trans x y z : less x y = true -> less y z = true -> less x z = true;
  sw_incomp x y z : less y x = false -> less z y = false -> less z x = false;
}.

(** [x] may stand before [y] in a list sorted by [less]. *)
Definition le_of {A} (less : A -> A -> bool) (x y : A) : Prop := less y x = false.

(** ** Sorting

    sort.Slice is not stable: its contract fixes the result only up to the
    order of elements that compare equal.  The class states that contract and
    nothing more, so what is proved against it holds for every sorting
    algorithm the Go runtime may use. *)
Class SortSlice := {
  sort_slice : forall {A : Type}, (A -> A -> bool) -> list A -> list A;
  sort_slice_perm : forall A (less : A -> A -> bool) l, sort_slice less l ≡ₚ l;
  sort_slice_sorted : forall A (less : A -> A -> bool) l,
    StrictWeak less -> StronglySorted (le_of less) (sort_slice less l);
}.

(** Insertion sort: the stable sort of sort.SliceStable, and an executable
    instance of [SortSlice] (sort.Slice itself uses insertion sort on short
    slices). *)
Fixpoint insert_by {A} (less : A -> A -> bool) (x : A) (l : list A) : list A :=
  match l with
  | [] => [x]
  | y :: l' => if less x y then x :: l else y :: insert_by less x l'
  end.

Definition slice_stable {A} (less : A -> A -> bool) (l : list A) : list A :=
  foldl (fun acc x => insert_by less x acc) [] l.

(** sort.Strings *)
Definition sort_strings `{SortSlice} (l : list string) : list string :=
  sort_slice String.ltb l.

(** ** Grouping: the map[K][]V idiom [m[k] = append(m[k], v)] *)
Definition group_add {K V} `{Countable K} (k : K) (v : V) (m : gmap K (list V)) :
    gmap K (list V) :=
  <[k := default [] (m !! k) ++ [v]]> m.

Definition group_by {K V} `{Countable K} (key : V -> K) (l : list V) : gmap K (list V) :=
  foldl (fun m v => group_add (key v) v m) ∅ l.

(** ** Loops that collect messages: the body returns the messages it appends
    and the updated local state *)
Fixpoint collect {B M A : Type} (step : M -> A -> list B * M) (m : M) (l : list A) :
    list B * M :=
  match l with
  | [] => ([], m)
  | a :: l =>
      let '(errs, m) := step m a in
      let '(errs', m) := collect step m l in (errs ++ errs', m)
  end.

(** [if b { add(msg) }] *)
Definition add_if (b : bool) (msg : string) : list string := if b then [msg] else [].

(** ** The state monad with fuel exhaustion *)
Definition st (S A : Type) : Type := S -> option (A * S).

#[export] Instance st_ret (S : Type) : MRet (st S) := fun A x s => Some (x, s).
#[export] Instance st_bind (S : Type) : MBind (st S) :=
  fun A B f m s => match m s with Some (x, s') => f x s' | None => None end.

Definition get_st {S} : st S S := fun s => Some (s, s).
Definition modify_st {S} (f : S -> S) : st S unit := fun s => Some (tt, f s).

(** A for loop over a slice that threads an accumulator and the state. *)
Fixpoint fold_st {S A B : Type} (f : A -> B -> st S A) (acc : A) (l : list B) : st S A :=
  match l with
  | [] => mret acc
  | x :: l => acc ← f acc x; fold_st f acc l
  end.

(** ** The state monad, for code that always returns *)
Definition sm (S A : Type) : Type := S -> A * S.

#[export] Instance sm_ret (S : Type) : MRet (sm S) := fun A x s => (x, s).
#[export] Instance sm_bind (S : Type) : MBind (sm S) := fun A B f m s => let '(x, s) := m s in f x s.

Definition get_sm {S} : sm S S := fun s => (s, s).
Definition modify_sm {S} (f : S -> S) : sm S unit := fun s => (tt, f s).

Fixpoint fold_sm {S A B : Type} (f : A -> B -> sm S A) (acc : A) (l : list B) : sm S A :=
  match l with
  | [] => mret acc
  | x :: l => acc ← f acc x; fold_sm f acc l
  end.

(** A for loop with no accumulator. *)
Fixpoint each_sm {S B : Type} (f : B -> sm S unit) (l : list B) : sm S unit :=
  match l with
  | [] => mret tt
  | x :: l => _ ← f x; each_sm f l
  end.

(** * Automation *)

(** Nothing is a member of the empty list. *)
Ltac nil_elem :=
  match goal with
  | H : _ ∈ [] |- _ => by apply not_elem_of_nil in H
  | H : _ ∈ _ |- _ => by apply not_elem_of_nil in H
  end.

(** Membership, for [auto with bori]. *)
Create HintDb bori.
#[export] Hint Resolve list_elem_of_here list_elem_of_further : bori.
#[export] Hint Extern 1 => nil_elem : bori.

(** * Lemmas *)

(** ** Strings *)
Lemma string_leb_le s1 s2 : String.leb s1 s2 = true <-> String.le s1 s2.
Proof. unfold String.le. destruct (String.leb s1 s2); naive_solver. Qed.

Lemma string_ltb_leb s1 s2 : String.ltb s1 s2 = negb (String.leb s2 s1).
Proof.
  unfold String.ltb, String.leb. rewrite (String.compare_antisym s2 s1).
  by destruct (String.compare s1 s2).
Qed.

Lemma string_ltb_irrefl s : String.ltb s s = false.
Proof.
  rewrite string_ltb_leb. apply negb_false_iff, string_leb_le. reflexivity.
Qed.

Lemma string_ltb_le s1 s2 : String.ltb s1 s2 = true <-> String.le s1 s2 /\ s1 <> s2.
Proof.
  rewrite string_ltb_leb, negb_true_iff, <- not_true_iff_false, string_leb_le. split.
  - intros Hn. destruct (total String.le s1 s2) as [H|H]; [|done].
    split; [done|]. by intros ->.
  - intros [H Hne] H'. apply Hne. by apply (anti_symm String.le).
Qed.

Lemma string_ltb_trans s1 s2 s3 :
  String.ltb s1 s2 = true -> String.ltb s2 s3 = true -> String.ltb s1 s3 = true.
Proof.
  rewrite !string_ltb_le. intros [H1 N1] [H2 N2]. split; [by etrans|].
  intros ->. apply N1. by apply (anti_symm String.le).
Qed.

Lemma string_ltb_total s1 s2 : s1 <> s2 -> String.ltb s1 s2 = false -> String.ltb s2 s1 = true.
Proof.
  intros Hne. rewrite <- not_true_iff_false, !string_ltb_le. intros Hn.
  destruct (total String.le s1 s2) as [H|H]; naive_solver.
Qed.

Lemma substring_length n s : String.length (String.substring 0 n s) = Nat.min n (String.length s).
Proof. revert s. induction n as [|n IH]; intros [|c s]; cbn; [done..|]. by rewrite IH. Qed.

(** ** Lexicographic order *)
Lemma lex_ltb_irrefl xs : lex_ltb xs xs = false.
Proof. induction xs as [|x xs IH]; simpl; [done|]. by rewrite decide_True. Qed.

Lemma lex_ltb_trans xs ys zs :
  lex_ltb xs ys = true -> lex_ltb ys zs = true -> lex_ltb xs zs = true.
Proof.
  revert ys zs. induction xs as [|x xs IH]; intros [|y ys] [|z zs]; simpl; try done.
  repeat case_decide; subst; eauto using string_ltb_trans; try congruence.
  intros H1 H2. pose proof (string_ltb_trans _ _ _ H1 H2) as H3.
  by rewrite string_ltb_irrefl in H3.
Qed.

Lemma lex_ltb_total xs ys : xs <> ys -> lex_ltb xs ys = false -> lex_ltb ys xs = true.
Proof.
  revert ys. induction xs as [|x xs IH]; intros [|y ys]; simpl; try done.
  intros Hne. repeat case_decide; subst; try congruence.
  - apply IH. congruence.
  - by apply string_ltb_total.
Qed.

(** ** Strict weak orders *)

(** A [less] that compares a key lexicographically is a strict weak order. *)
Lemma key_strict_weak {A} (key : A -> list string) (less : A -> A -> bool) :
  (forall x y, less x y = lex_ltb (key x) (key y)) -> StrictWeak less.
Proof.
  intros Hk. split.
  - intros x. rewrite Hk. apply lex_ltb_irrefl.
  - intros x y z. rewrite !Hk. apply lex_ltb_trans.
  - intros x y z. rewrite !Hk. intros H1 H2.
    destruct (lex_ltb (key z) (key x)) eqn:E; [|done].
    destruct (decide (key x = key y)) as [Heq|Hne]; [congruence|].
    apply (lex_ltb_total _ _ (not_eq_sym Hne)) in H1.
    by rewrite (lex_ltb_trans _ _ _ E H1) in H2.
Qed.

(** Sorting by a rank first. *)
Lemma ranked_strict_weak {A} (rank : A -> N) (less : A -> A -> bool) :
  StrictWeak less ->
  StrictWeak (fun a b => if negb (N.eqb (rank a) (rank b)) then N.ltb (rank a) (rank b) else less a b).
Proof.
  intros HS. split.
  - intros x. rewrite N.eqb_refl. apply sw_irrefl.
  - intros x y z. destruct (N.eqb_spec (rank x) (rank y)), (N.eqb_spec (rank y) (rank z)), (N.eqb_spec (rank x) (rank z));
      cbn [negb]; rewrite ?N.ltb_lt; try lia. apply sw_trans.
  - intros x y z. rewrite !(N.eqb_sym (rank y)), !(N.eqb_sym (rank z)).
    destruct (N.eqb_spec (rank x) (rank y)), (N.eqb_spec (rank y) (rank z)), (N.eqb_spec (rank x) (rank z));
      cbn [negb]; rewrite ?N.ltb_ge; try lia. apply sw_incomp.
Qed.

#[export] Instance string_ltb_strict_weak : StrictWeak String.ltb.
Proof.
  apply (key_strict_weak (fun s => [s])). intros x y. simpl.
  case_decide; subst; [apply string_ltb_irrefl|done].
Qed.

Lemma le_of_trans {A} (less : A -> A -> bool) `{!StrictWeak less} : Transitive (le_of less).
Proof. intros x y z. apply sw_incomp. Qed.

Lemma sorted_after {A} (R : relation A) pre x post y :
  StronglySorted R (pre ++ x :: post) -> y ∈ post -> R x y.
Proof.
  intros (_ & _ & Hs)%StronglySorted_app Hy. apply StronglySorted_cons in Hs as [Hx _].
  by eapply Forall_forall in Hx.
Qed.

(** ** Insertion sort *)
Section insertion.
Context {A : Type} (less : A -> A -> bool).

Lemma insert_by_perm x l : insert_by less x l ≡ₚ x :: l.
Proof.
  induction l as [|y l IH]; simpl; [done|].
  destruct (less x y); [done|]. rewrite IH. apply Permutation_swap.
Qed.

Lemma slice_stable_perm l : slice_stable less l ≡ₚ l.
Proof.
  unfold slice_stable. rewrite <- (app_nil_r l) at 2. generalize (@nil A) as acc.
  induction l as [|x l IH]; intros acc; simpl; [done|].
  rewrite IH, insert_by_perm. symmetry. apply Permutation_middle.
Qed.

Context `{!StrictWeak less}.

Lemma insert_by_sorted x l :
  StronglySorted (le_of less) l -> StronglySorted (le_of less) (insert_by less x l).
Proof.
  induction l as [|y l IH]; simpl; [by repeat constructor|].
  intros [HF HS]%StronglySorted_cons. destruct (less x y) eqn:E.
  - apply StronglySorted_cons. split; [|by apply StronglySorted_cons].
    assert (le_of less x y) as Hxy.
    { unfold le_of. destruct (less y x) eqn:E'; [|done].
      pose proof (sw_trans _ _ _ E E') as H. by rewrite sw_irrefl in H. }
    constructor; [done|]. eapply Forall_impl; [exact HF|].
    intros z Hz. by eapply (le_of_trans less).
  - apply StronglySorted_cons. split; [|by apply IH].
    rewrite insert_by_perm. by constructor.
Qed.

Lemma slice_stable_sorted l : StronglySorted (le_of less) (slice_stable less l).
Proof.
  unfold slice_stable. assert (StronglySorted (le_of less) []) as H by constructor.
  revert H. generalize (@nil A) as acc.
  induction l as [|x l IH]; intros acc Hacc; simpl; [done|].
  apply IH, insert_by_sorted, Hacc.
Qed.

End insertion.

#[export] Instance insertion_sort : SortSlice := {|
  sort_slice := @slice_stable;
  sort_slice_perm := @slice_stable_perm;
  sort_slice_sorted A less l H := @slice_stable_sorted A less H l;
|}.

(** ** What every sort.Slice guarantees *)
Section sort_slice.
Context `{SortSlice}.

Lemma elem_of_sort_slice {A} (less : A -> A -> bool) x l : x ∈ sort_slice less l <-> x ∈ l.
Proof. by rewrite sort_slice_perm. Qed.

Lemma length_sort_slice {A} (less : A -> A -> bool) l : length (sort_slice less l) = length l.
Proof. by rewrite sort_slice_perm. Qed.

Lemma sort_slice_nil {A} (less : A -> A -> bool) : sort_slice less [] = [].
Proof. apply Permutation_nil. symmetry. apply sort_slice_perm. Qed.

(** Where elements that compare equal are equal, the result depends only on
    the multiset of the elements. *)
Lemma sort_slice_unique {A} (less : A -> A -> bool) l1 l2 :
  StrictWeak less ->
  (forall x y, x ∈ l1 -> y ∈ l1 -> le_of less x y -> le_of less y x -> x = y) ->
  l1 ≡ₚ l2 -> sort_slice less l1 = sort_slice less l2.
Proof.
  intros HS Hanti Hp.
  apply (StronglySorted_unique_strong (le_of less)).
  - intros x y Hx Hy. rewrite elem_of_sort_slice in Hx. rewrite elem_of_sort_slice in Hy.
    apply Hanti; [done|by rewrite Hp].
  - by apply sort_slice_sorted.
  - by apply sort_slice_sorted.
  - by rewrite !sort_slice_perm.
Qed.

Lemma lex_le_antisym {A} (key : A -> list string) (less : A -> A -> bool) x y :
  (forall x y, less x y = lex_ltb (key x) (key y)) ->
  le_of less x y -> le_of less y x -> key x = key y.
Proof.
  unfold le_of. intros Hk. rewrite !Hk. intros H1 H2.
  destruct (decide (key x = key y)) as [|Hne]; [done|].
  apply (lex_ltb_total _ _ (not_eq_sym Hne)) in H1. congruence.
Qed.

(** The same for a [less] given by a key that is injective on the slice. *)
Lemma sort_slice_key_unique {A} (key : A -> list string) (less : A -> A -> bool) l1 l2 :
  (forall x y, less x y = lex_ltb (key x) (key y)) ->
  (forall x y, x ∈ l1 -> y ∈ l1 -> key x = key y -> x = y) ->
  l1 ≡ₚ l2 -> sort_slice less l1 = sort_slice less l2.
Proof.
  intros Hk Hinj. apply sort_slice_unique; [by eapply key_strict_weak|].
  intros x y Hx Hy H1 H2. eauto using lex_le_antisym.
Qed.

Lemma sort_strings_unique l1 l2 : l1 ≡ₚ l2 -> sort_strings l1 = sort_strings l2.
Proof.
  apply (sort_slice_key_unique (fun s => [s])).
  - intros x y. simpl. case_decide; subst; [apply string_ltb_irrefl|done].
  - intros x y _ _ [= ->]. done.
Qed.

End sort_slice.

(** ** Grouping *)
Section group_by.
Context {K V : Type} `{Countable K} (key : V -> K).

Lemma group_by_app l1 l2 :
  group_by key (l1 ++ l2) = foldl (fun m v => group_add (key v) v m) (group_by key l1) l2.
Proof. unfold group_by. apply foldl_app. Qed.

(** The group of a key is the sublist of the values with that key, in order. *)
Lemma lookup_group_by l k :
  default [] (group_by key l !! k) = filter (fun v => key v = k) l.
Proof.
  induction l as [|v l IH] using rev_ind.
  - unfold group_by. simpl. by rewrite lookup_empty.
  - rewrite group_by_app, filter_app. simpl. unfold group_add.
    destruct (decide (key v = k)) as [<-|Hne].
    + rewrite lookup_insert_eq. simpl. rewrite IH.
      by rewrite filter_cons_True, filter_nil.
    + rewrite lookup_insert_ne by done. rewrite IH.
      rewrite (filter_cons_False _ v []) by done. by rewrite filter_nil, app_nil_r.
Qed.

Lemma group_by_is_Some l k : is_Some (group_by key l !! k) <-> exists v, v ∈ l /\ key v = k.
Proof.
  induction l as [|v l IH] using rev_ind.
  - unfold group_by. simpl. rewrite lookup_empty. split; [by intros []|].
    intros (? & Hv & _). nil_elem.
  - rewrite group_by_app. simpl. unfold group_add. rewrite lookup_insert. case_decide; [set_solver|].
    rewrite IH. split; [set_solver|]. intros (x & Hx & Hk). exists x. split; [|done].
    apply elem_of_app in Hx as [Hx|Hx]; [done|]. apply list_elem_of_singleton in Hx as ->. done.
Qed.

End group_by.

(** ** Lists *)
Lemma find_Some_elem {A} (f : A -> bool) l x : List.find f l = Some x -> x ∈ l /\ f x = true.
Proof. intros [H1 H2]%List.find_some. by rewrite list_elem_of_In. Qed.

Lemma find_None_elem {A} (f : A -> bool) l x : List.find f l = None -> x ∈ l -> f x = false.
Proof. rewrite list_elem_of_In. intros H. by apply List.find_none. Qed.

Lemma find_is_Some {A} (f : A -> bool) l x : x ∈ l -> f x = true -> is_Some (List.find f l).
Proof.
  intros Hx Hf. destruct (List.find f l) eqn:E; [eauto|].
  by rewrite (find_None_elem _ _ _ E Hx) in Hf.
Qed.

(** The first element with an injective key is the element with that key. *)
Lemma find_unique {A} (f : A -> bool) l x :
  x ∈ l -> f x = true -> (forall y, y ∈ l -> f y = true -> y = x) -> List.find f l = Some x.
Proof.
  intros Hx Hf Hu. destruct (find_is_Some f l x Hx Hf) as [y Hy]. rewrite Hy.
  apply find_Some_elem in Hy as [H1 H2]. f_equal. by apply Hu.
Qed.

Lemma find_first {A} (f : A -> bool) xs x :
  List.find f xs = Some x -> f x = true /\ exists pre post, xs = pre ++ x :: post /\ forall y, y ∈ pre -> f y = false.
Proof.
  induction xs as [|y xs IH]; cbn; [done|]. destruct (f y) eqn:Hy.
  - intros [= ->]. split; [done|]. exists [], xs. split; [done|]. intros z Hz. nil_elem.
  - intros (Hx & pre & post & -> & Hpre)%IH. split; [done|]. exists (y :: pre), post. split; [done|].
    intros z [->|?]%elem_of_cons; auto.
Qed.

Lemma NoDup_fmap_inj {A B} (f : A -> B) l x y :
  NoDup (f <$> l) -> x ∈ l -> y ∈ l -> f x = f y -> x = y.
Proof.
  intros Hnd [i Hi]%list_elem_of_lookup [j Hj]%list_elem_of_lookup Hf.
  assert (i = j) as ->; [|congruence].
  eapply NoDup_lookup; [exact Hnd| |].
  - rewrite list_lookup_fmap, Hi. done.
  - rewrite list_lookup_fmap, Hj. simpl. congruence.
Qed.

Lemma list_exists_elem {A} (l : list A) : l <> [] -> exists x, x ∈ l.
Proof. destruct l as [|x l]; [done|]. exists x. left. Qed.

Lemma filter_split_perm {A} (f : A -> bool) xs : List.filter f xs ++ List.filter (fun x => negb (f x)) xs ≡ₚ xs.
Proof.
  induction xs as [|x xs IH]; cbn; [done|]. destruct (f x); cbn; [by rewrite IH|].
  by rewrite <- Permutation_middle, IH.
Qed.

Lemma elem_of_lfilter {A} (f : A -> bool) xs x : x ∈ List.filter f xs <-> x ∈ xs /\ f x = true.
Proof. rewrite !list_elem_of_In. apply filter_In. Qed.

(** ** Loops over a slice *)
Lemma foldl_same {A B} (f g : A -> B -> A) xs a : (forall a x, x ∈ xs -> f a x = g a x) -> foldl f a xs = foldl g a xs.
Proof.
  revert a. induction xs as [|x xs IH]; intros a Hfg; cbn; [done|].
  rewrite Hfg by (apply elem_of_cons; by left). apply IH. intros a' y Hy. apply Hfg. apply elem_of_cons. by right.
Qed.

Lemma foldl_union {A} `{Countable K} (f : gset K -> A -> gset K) (P : A -> K -> Prop) xs m :
  (forall m x k, k ∈ f m x <-> k ∈ m \/ P x k) ->
  forall k, k ∈ foldl f m xs <-> k ∈ m \/ exists x, x ∈ xs /\ P x k.
Proof.
  intros Hf k. revert m. induction xs as [|x xs IH]; intros m; cbn.
  - split; [by left|]. intros [?|(x & Hx & _)]; [done|nil_elem].
  - rewrite IH, Hf. setoid_rewrite elem_of_cons. naive_solver.
Qed.

(** ** Splitting text *)
#[local] Arguments Ascii.eqb : simpl never.
#[local] Arguments String.append : simpl nomatch.

Fixpoint has_char (c : Ascii.ascii) (s : string) : bool :=
  match s with EmptyString => false | String d t => Ascii.eqb d c || has_char c t end.

Lemma split_on_app sep a b : split_on sep (a +:+ String sep b) = split_on sep a ++ split_on sep b.
Proof.
  induction a as [|c a IH]; cbn; [by rewrite Ascii.eqb_refl|].
  destruct (Ascii.eqb c sep); [by rewrite IH|]. rewrite IH.
  assert (split_on sep a <> []) as Hne by (destruct a as [|d a]; cbn; [done|destruct (Ascii.eqb d sep); [done|by destruct (split_on sep a)]]).
  by destruct (split_on sep a).
Qed.

Lemma split_on_nonempty sep s : split_on sep s <> [].
Proof. destruct s as [|c s]; cbn; [done|]. destruct (Ascii.eqb c sep); [done|]. by destruct (split_on sep s). Qed.

Lemma string_app_assoc (a b c : string) : a +:+ (b +:+ c) = (a +:+ b) +:+ c.
Proof. induction a as [|d a IH]; cbn; [done|by rewrite IH]. Qed.

Lemma length_string_app s1 s2 : String.length (s1 +:+ s2) = String.length s1 + String.length s2.
Proof. induction s1 as [|c s1 IH]; simpl; [done|]. by rewrite IH. Qed.

Lemma has_char_app c a b : has_char c (a +:+ b) = has_char c a || has_char c b.
Proof. induction a as [|d a IH]; cbn; [done|by rewrite IH, orb_assoc]. Qed.

(** The first piece of a text that begins with [u]. *)
Lemma split_on_head sep u s :
  has_char sep u = false -> exists x xs, split_on sep (u +:+ s) = (u +:+ x) :: xs.
Proof.
  induction u as [|c u IH]; cbn.
  - intros _. destruct (split_on sep s) as [|x xs] eqn:E; [by apply split_on_nonempty in E|]. by exists x, xs.
  - intros [Hc Hu]%orb_false_iff. rewrite Hc. destruct (IH Hu) as (x & xs & ->). by exists x, xs.
Qed.

Lemma split_on_join sep xs x :
  x ∈ xs -> forall p, p ∈ split_on sep x -> p ∈ split_on sep (join (String sep "") xs).
Proof.
  induction xs as [|y xs IH]; [intros Hx; nil_elem|].
  intros Hx p Hp. destruct xs as [|z xs].
  - apply list_elem_of_singleton in Hx as ->. done.
  - cbn [join]. change (String sep "" +:+ ?t) with (String sep t). rewrite split_on_app, elem_of_app.
    apply elem_of_cons in Hx as [->|Hx]; [by left|right]. by apply IH.
Qed.

Lemma split_on_single sep s : has_char sep s = false -> split_on sep s = [s].
Proof. induction s as [|c s IH]; cbn; [done|]. intros [-> Hs]%orb_false_iff. by rewrite IH. Qed.

(** Splitting undoes joining. *)
Lemma split_on_joined sep xs :
  xs <> [] -> Forall (fun x => has_char sep x = false) xs -> split_on sep (join (String sep "") xs) = xs.
Proof.
  intros Hne Hxs. induction Hxs as [|x xs Hx Hxs IH]; [done|]. destruct xs as [|y xs]; [by apply split_on_single|].
  change (join (String sep "") (x :: y :: xs)) with (x +:+ String sep (join (String sep "") (y :: xs))).
  by rewrite split_on_app, (split_on_single _ x), IH.
Qed.

(** ** Relations *)
Lemma tc_step_inv {A} (R : relation A) x z :
  tc R x z -> R x z \/ exists y, R x y /\ tc R y z.
Proof. intros [?|? y ? ? ?]; eauto. Qed.

(** ** Counting *)
Lemma filter_length_mono {A} (P Q : A -> Prop) `{!forall x, Decision (P x)}
    `{!forall x, Decision (Q x)} l :
  (forall x, x ∈ l -> P x -> Q x) -> length (filter P l) <= length (filter Q l).
Proof.
  induction l as [|x l IH]; intros HPQ; [done|]. rewrite !filter_cons.
  assert (length (filter P l) <= length (filter Q l)) as Hle.
  { apply IH. intros y Hy. apply HPQ. by right. }
  specialize (HPQ x (list_elem_of_here _ _)). repeat case_decide; simpl; try lia. naive_solver.
Qed.

Lemma filter_length_strict {A} (P Q : A -> Prop) `{!forall x, Decision (P x)}
    `{!forall x, Decision (Q x)} l y :
  (forall x, x ∈ l -> P x -> Q x) -> y ∈ l -> Q y -> ~ P y ->
  length (filter P l) < length (filter Q l).
Proof.
  intros HPQ (l1 & l2 & ->)%list_elem_of_split HQ HP.
  rewrite !filter_app, !length_app, filter_cons_False, filter_cons_True by done. simpl.
  assert (length (filter P l1) <= length (filter Q l1)) as H1.
  { apply filter_length_mono. intros x Hx. apply HPQ. set_solver. }
  assert (length (filter P l2) <= length (filter Q l2)) as H2.
  { apply filter_length_mono. intros x Hx. apply HPQ. set_solver. }
  lia.
Qed.

(** ** The state monad *)
Lemma bind_Some {S A B} (m : st S A) (f : A -> st S B) s r :
  (m ≫= f) s = Some r <-> exists x s', m s = Some (x, s') /\ f x s' = Some r.
Proof.
  unfold mbind, st_bind. destruct (m s) as [[x s']|]; split.
  - eauto.
  - by intros (? & ? & [= <- <-] & ?).
  - done.
  - by intros (? & ? & ? & ?).
Qed.

Lemma fold_st_inv {S A B} (I : A -> S -> Prop) (f : A -> B -> st S A) l acc s r :
  (forall acc x s r, x ∈ l -> I acc s -> f acc x s = Some r -> I r.1 r.2) ->
  I acc s -> fold_st f acc l s = Some r -> I r.1 r.2.
Proof.
  revert acc s. induction l as [|x l IH]; intros acc s Hf HI; simpl.
  - intros [= <-]. done.
  - intros (acc' & s' & Hx & Hr)%bind_Some. eapply IH; [|..|exact Hr].
    + intros. eapply Hf; [by right|done|done].
    + by apply (Hf _ _ _ _ (list_elem_of_here _ _) HI Hx).
Qed.
