(* ===== verification/Identity.v ===== *)
(** * Identities (pkg/operations/identity.go)

    The exact identities everything else is bound to: contracts, targets,
    capability types, providers, and the applicability key of an observation.
    All of them are compared by Go's [==] on structs, which is equality here. *)

From S2P Require Import Prelude.

Record ContractIdentity := {
  ci_Namespace : string;
  ci_Name : string;
  ci_UID : string;
  ci_SpecDigest : string;
}.

Definition nonempty (s : string) : bool := negb (bool_decide (s = "")).

Definition ContractIdentity_complete (c : ContractIdentity) : bool :=
  nonempty (ci_Namespace c) && nonempty (ci_Name c) && nonempty (ci_UID c) &&
  nonempty (ci_SpecDigest c).

Definition ContractIdentity_String (c : ContractIdentity) : string :=
  ci_Namespace c +:+ "/" +:+ ci_Name c +:+ "@" +:+ ci_UID c +:+ ":" +:+ ci_SpecDigest c.

Record TargetIdentity := {
  ti_Namespace : string;
  ti_Name : string;
  ti_UID : string;
}.

Definition TargetIdentity_String (t : TargetIdentity) : string :=
  ti_Namespace t +:+ "/" +:+ ti_Name t +:+ "@" +:+ ti_UID t.

Record CapabilityType := {
  ct_Domain : string;
  ct_Name : string;
  ct_Revision : string;
}.

Definition CapabilityType_complete (c : CapabilityType) : bool :=
  nonempty (ct_Domain c) && nonempty (ct_Name c) && nonempty (ct_Revision c).

Definition CapabilityType_String (c : CapabilityType) : string :=
  ct_Domain c +:+ "/" +:+ ct_Name c +:+ "@" +:+ ct_Revision c.

#[export] Instance CapabilityType_eq_dec : EqDecision CapabilityType.
Proof. solve_decision. Defined.

Definition CapabilityType_less (c o : CapabilityType) : bool :=
  if negb (bool_decide (ct_Domain c = ct_Domain o)) then String.ltb (ct_Domain c) (ct_Domain o)
  else if negb (bool_decide (ct_Name c = ct_Name o)) then String.ltb (ct_Name c) (ct_Name o)
  else String.ltb (ct_Revision c) (ct_Revision o).

Record ProviderIdentity := {
  pi_Name : string;
  pi_ConfigRevision : string;
}.

Definition ProviderIdentity_String (p : ProviderIdentity) : string :=
  pi_Name p +:+ "@" +:+ pi_ConfigRevision p.

Record ApplicabilityKey := {
  ak_Target : TargetIdentity;
  ak_ResolvedUID : string;
  ak_Contract : ContractIdentity;
  ak_Slot : string;
  ak_Provider : ProviderIdentity;
}.

(** The zero values of the structs. *)
Definition zero_ContractIdentity : ContractIdentity := Build_ContractIdentity "" "" "" "".
Definition zero_CapabilityType : CapabilityType := Build_CapabilityType "" "" "".
Definition zero_ProviderIdentity : ProviderIdentity := Build_ProviderIdentity "" "".

(** ** Decidable equality and countability, for use as map keys *)
#[export] Instance ContractIdentity_eq_dec : EqDecision ContractIdentity.
Proof. solve_decision. Defined.
#[export] Instance TargetIdentity_eq_dec : EqDecision TargetIdentity.
Proof. solve_decision. Defined.
#[export] Instance ProviderIdentity_eq_dec : EqDecision ProviderIdentity.
Proof. solve_decision. Defined.
#[export] Instance ApplicabilityKey_eq_dec : EqDecision ApplicabilityKey.
Proof. solve_decision. Defined.

#[export] Instance ContractIdentity_countable : Countable ContractIdentity.
Proof.
  refine (inj_countable'
    (fun c => (ci_Namespace c, ci_Name c, ci_UID c, ci_SpecDigest c))
    (fun '(a, b, c, d) => Build_ContractIdentity a b c d) _).
  by intros [].
Defined.

#[export] Instance CapabilityType_countable : Countable CapabilityType.
Proof.
  refine (inj_countable' (fun c => (ct_Domain c, ct_Name c, ct_Revision c))
    (fun '(a, b, c) => Build_CapabilityType a b c) _).
  by intros [].
Defined.

(** * Lemmas *)
Lemma nonempty_true s : nonempty s = true <-> s <> "".
Proof. unfold nonempty. rewrite negb_true_iff. apply bool_decide_eq_false. Qed.

Lemma nonempty_false s : nonempty s = false <-> s = "".
Proof. unfold nonempty. rewrite negb_false_iff. apply bool_decide_eq_true. Qed.

(** [CapabilityType_less] is the lexicographic order of its fields. *)
Definition ct_key (c : CapabilityType) : list string := [ct_Domain c; ct_Name c; ct_Revision c].

Lemma CapabilityType_less_lex c o : CapabilityType_less c o = lex_ltb (ct_key c) (ct_key o).
Proof.
  unfold CapabilityType_less; simpl.
  repeat case_bool_decide; simpl; repeat case_decide; try done.
  replace (ct_Revision o) with (ct_Revision c) by done. apply string_ltb_irrefl.
Qed.

#[export] Instance CapabilityType_less_strict_weak : StrictWeak CapabilityType_less.
Proof. apply (key_strict_weak ct_key), CapabilityType_less_lex. Qed.

Lemma ct_key_inj c o : ct_key c = ct_key o -> c = o.
Proof. destruct c, o. by intros [= -> -> ->]. Qed.
