(* ===== verification/Predicate.v ===== *)
(** * Typed values and predicates (pkg/operations/predicate.go) and the
    assertion slots they test (AssertionSlot of contract.go)

    [ValueType] and [Operator] are Go string types: any string is a value of
    them, and [validate] rejects the undeclared ones.  They are strings here
    too, with the declared constants as definitions. *)

From S2P Require Import Prelude Identity.

Abbreviation ValueType := string (only parsing).
Definition TypeBoolean : ValueType := "Boolean".
Definition TypeInteger : ValueType := "Integer".
Definition TypeString : ValueType := "String".

Record Value := {
  v_Type : ValueType;
  v_Bool : bool;
  v_Int : Z;
  v_Str : string;
}.

#[export] Instance Value_eq_dec : EqDecision Value.
Proof. solve_decision. Defined.

Definition zero_Value : Value := Build_Value "" false 0 "".

Definition Bool (b : bool) : Value := Build_Value TypeBoolean b 0 "".
Definition Int (i : Z) : Value := Build_Value TypeInteger false i "".
Definition Str (s : string) : Value := Build_Value TypeString false 0 s.

Definition canonical (v : Value) : bool :=
  if decide (v_Type v = TypeBoolean) then bool_decide (v_Int v = 0%Z) && bool_decide (v_Str v = "")
  else if decide (v_Type v = TypeInteger) then negb (v_Bool v) && bool_decide (v_Str v = "")
  else if decide (v_Type v = TypeString) then negb (v_Bool v) && bool_decide (v_Int v = 0%Z)
  else false.

Definition equal (v o : Value) : bool :=
  if negb (bool_decide (v_Type v = v_Type o)) then false
  else if decide (v_Type v = TypeBoolean) then eqb (v_Bool v) (v_Bool o)
  else if decide (v_Type v = TypeInteger) then Z.eqb (v_Int v) (v_Int o)
  else if decide (v_Type v = TypeString) then bool_decide (v_Str v = v_Str o)
  else false.

Definition Value_String `{GoText} (v : Value) : string :=
  if decide (v_Type v = TypeBoolean) then show_bool (v_Bool v)
  else if decide (v_Type v = TypeInteger) then pretty (v_Int v)
  else if decide (v_Type v = TypeString) then quote (v_Str v)
  else "<invalid>".

Abbreviation Operator := string (only parsing).
Definition OpIsTrue : Operator := "IsTrue".
Definition OpIsFalse : Operator := "IsFalse".
Definition OpEq : Operator := "Eq".
Definition OpNotEq : Operator := "NotEq".
Definition OpGte : Operator := "Gte".
Definition OpLte : Operator := "Lte".

Record Predicate := {
  p_Assertion : string;
  p_Op : Operator;
  p_Operand : Value;
}.

#[export] Instance Predicate_eq_dec : EqDecision Predicate.
Proof. solve_decision. Defined.

(** ** AssertionSlot (contract.go) *)
Record AssertionSlot := {
  s_Name : string;
  s_Type : ValueType;
  s_Enum : list string;
  s_MaxAge : Duration;
}.

#[export] Instance AssertionSlot_eq_dec : EqDecision AssertionSlot.
Proof. solve_decision. Defined.

Definition zero_AssertionSlot : AssertionSlot := Build_AssertionSlot "" "" [] 0.

Definition admits (s : AssertionSlot) (v : Value) : bool :=
  if negb (bool_decide (v_Type v = s_Type s)) || negb (canonical v) then false
  else if negb (bool_decide (s_Type s = TypeString)) || bool_decide (length (s_Enum s) = 0)
  then true
  else existsb (fun e => bool_decide (e = v_Str v)) (s_Enum s).

Definition is_op (ops : list Operator) (op : Operator) : bool := bool_decide (op ∈ ops).

(** [Predicate.validate]: [None] is a nil error. *)
Definition validate `{GoText} (p : Predicate) (slots : gmap string AssertionSlot) : option string :=
  match slots !! p_Assertion p with
  | None => Some ("predicate references undeclared assertion " +:+ quote (p_Assertion p))
  | Some slot =>
      if is_op [OpIsTrue; OpIsFalse] (p_Op p) then
        if negb (bool_decide (s_Type slot = TypeBoolean)) then
          Some (p_Op p +:+ " on " +:+ s_Type slot +:+ " assertion " +:+ quote (p_Assertion p))
        else if negb (bool_decide (p_Operand p = zero_Value)) then
          Some (p_Op p +:+ " on " +:+ quote (p_Assertion p) +:+ " takes no operand")
        else None
      else if is_op [OpEq; OpNotEq] (p_Op p) then
        if negb (bool_decide (v_Type (p_Operand p) = s_Type slot)) then
          Some (p_Op p +:+ " operand type " +:+ quote (v_Type (p_Operand p)) +:+
                " does not match " +:+ s_Type slot +:+ " assertion " +:+ quote (p_Assertion p))
        else if negb (admits slot (p_Operand p)) then
          Some (p_Op p +:+ " operand " +:+ Value_String (p_Operand p) +:+
                " is non-canonical or not a declared enum value of " +:+ quote (p_Assertion p))
        else None
      else if is_op [OpGte; OpLte] (p_Op p) then
        if negb (bool_decide (s_Type slot = TypeInteger)) then
          Some (p_Op p +:+ " on " +:+ s_Type slot +:+ " assertion " +:+ quote (p_Assertion p))
        else if negb (bool_decide (v_Type (p_Operand p) = TypeInteger)) ||
                negb (canonical (p_Operand p)) then
          Some (p_Op p +:+ " operand " +:+ Value_String (p_Operand p) +:+
                " is not a canonical Integer for assertion " +:+ quote (p_Assertion p))
        else None
      else Some ("unknown operator " +:+ quote (p_Op p) +:+ " on " +:+ quote (p_Assertion p))
  end.

Definition eval (p : Predicate) (v : Value) : bool :=
  if decide (p_Op p = OpIsTrue) then v_Bool v
  else if decide (p_Op p = OpIsFalse) then negb (v_Bool v)
  else if decide (p_Op p = OpEq) then equal v (p_Operand p)
  else if decide (p_Op p = OpNotEq) then negb (equal v (p_Operand p))
  else if decide (p_Op p = OpGte) then Z.geb (v_Int v) (v_Int (p_Operand p))
  else if decide (p_Op p = OpLte) then Z.leb (v_Int v) (v_Int (p_Operand p))
  else false.

Definition Predicate_String `{GoText} (p : Predicate) : string :=
  if is_op [OpIsTrue; OpIsFalse] (p_Op p) then p_Assertion p +:+ " " +:+ p_Op p
  else p_Assertion p +:+ " " +:+ p_Op p +:+ " " +:+ Value_String (p_Operand p).

(** ** Specification: what a predicate means *)

(** The typed values of Go's tagged struct: a canonical [Value] is exactly one
    of these. *)
Inductive tval := TBool (b : bool) | TInt (i : Z) | TStr (s : string).

Definition to_value (t : tval) : Value :=
  match t with TBool b => Bool b | TInt i => Int i | TStr s => Str s end.

(** The meaning of an operator on typed values; [None] where it does not
    apply. *)
Definition meaning (op : Operator) (operand : option tval) (t : tval) : option Prop :=
  match operand, t with
  | None, TBool b =>
      if decide (op = OpIsTrue) then Some (b = true)
      else if decide (op = OpIsFalse) then Some (b = false) else None
  | Some o, _ =>
      if decide (op = OpEq) then Some (t = o)
      else if decide (op = OpNotEq) then Some (t <> o)
      else match o, t with
           | TInt j, TInt i =>
               if decide (op = OpGte) then Some (j <= i)%Z
               else if decide (op = OpLte) then Some (i <= j)%Z else None
           | _, _ => None
           end
  | _, _ => None
  end.

(** The declared operand of a validated predicate. *)
Definition operand_of (p : Predicate) (o : option tval) : Prop :=
  match o with None => p_Operand p = zero_Value | Some t => p_Operand p = to_value t end.

(** * Lemmas *)

(** Splits every boolean test of the source in the context and the goal. *)
Ltac split_tests :=
  repeat match goal with
  | H : negb _ = true |- _ => apply negb_true_iff in H
  | H : negb _ = false |- _ => apply negb_false_iff in H
  | H : _ && _ = true |- _ => apply andb_true_iff in H as [? ?]
  | H : _ || _ = false |- _ => apply orb_false_iff in H as [? ?]
  | H : bool_decide _ = true |- _ => apply bool_decide_eq_true in H
  | H : bool_decide _ = false |- _ => apply bool_decide_eq_false in H
  | H : context [decide ?P] |- _ => destruct (decide P)
  | |- context [decide ?P] => destruct (decide P)
  | H : context [if ?b then _ else _] |- _ => destruct b eqn:?
  | |- context [if ?b then _ else _] => destruct b eqn:?
  end.

Lemma to_value_canonical t : canonical (to_value t) = true.
Proof. by destruct t. Qed.

Lemma canonical_to_value v : canonical v = true -> exists t, v = to_value t.
Proof.
  destruct v as [ty b i s]. unfold canonical; simpl. intros H. split_tests; simplify_eq.
  - by exists (TBool b).
  - by exists (TInt i).
  - by exists (TStr s).
Qed.

Lemma to_value_inj t u : to_value t = to_value u -> t = u.
Proof. by destruct t, u; intros [=]; subst. Qed.

Lemma to_value_ne_zero t : to_value t <> zero_Value.
Proof. by destruct t. Qed.

(** Typed equality of canonical values is equality. *)
Lemma equal_canonical t u : equal (to_value t) (to_value u) = true <-> t = u.
Proof.
  split; [|intros ->].
  - destruct t, u; unfold equal; simpl; try done.
    + intros ?%eqb_prop. congruence.
    + intros ?%Z.eqb_eq. congruence.
    + intros ?%bool_decide_eq_true. congruence.
  - destruct u; unfold equal; simpl; [by destruct b|apply Z.eqb_refl|].
    by apply bool_decide_eq_true.
Qed.

Lemma admits_spec s v :
  admits s v = true <->
  (exists t, v = to_value t) /\ v_Type v = s_Type s /\
  (s_Type s = TypeString -> s_Enum s <> [] -> v_Str v ∈ s_Enum s).
Proof.
  assert (existsb (fun e => bool_decide (e = v_Str v)) (s_Enum s) = true <->
          v_Str v ∈ s_Enum s) as Hex.
  { rewrite existsb_exists. setoid_rewrite <- list_elem_of_In.
    setoid_rewrite bool_decide_eq_true. split; [by intros (? & ? & <-)|eauto]. }
  unfold admits.
  destruct (negb _ || negb _) eqn:E; simpl.
  - split; [done|]. intros ([t ->] & Ht & _). rewrite to_value_canonical in E.
    by rewrite bool_decide_true in E.
  - apply orb_false_iff in E as [E1 E2]. split_tests.
    + split; [|done]. intros _. split; [by apply canonical_to_value|]. split; [done|].
      intros HT HE. apply orb_true_iff in Heqb as [Hb|Hb]; split_tests; [done|].
      by apply nil_length_inv in Hb.
    + rewrite Hex. split.
      * intros. split; [by apply canonical_to_value|]. done.
      * intros (_ & _ & Hin). apply Hin; [done|]. intros HE. by rewrite HE in *.
Qed.

Lemma admits_canonical s v : admits s v = true -> exists t, v = to_value t.
Proof. rewrite admits_spec. by intros [? _]. Qed.

(** Membership of an operator in a concrete list of operators. *)
Ltac solve_op :=
  rewrite ?elem_of_cons, ?elem_of_nil in *;
  unfold OpIsTrue, OpIsFalse, OpEq, OpNotEq, OpGte, OpLte in *; intuition congruence.

(** The accepted predicates: the operator applies to the slot's type. *)
Definition well_typed (slot : AssertionSlot) (p : Predicate) (o : option tval) : Prop :=
  operand_of p o /\
  match o with
  | None => p_Op p ∈ [OpIsTrue; OpIsFalse] /\ s_Type slot = TypeBoolean
  | Some t =>
      (p_Op p ∈ [OpEq; OpNotEq] /\ admits slot (to_value t) = true) \/
      (p_Op p ∈ [OpGte; OpLte] /\ s_Type slot = TypeInteger /\ exists i, t = TInt i)
  end.

Lemma validate_spec `{GoText} p slots :
  validate p slots = None <->
  exists slot o, slots !! p_Assertion p = Some slot /\ well_typed slot p o.
Proof.
  unfold validate, is_op. destruct (slots !! p_Assertion p) as [slot|] eqn:Es; [|split; [done|by intros (? & ? & ? & ?)]].
  split.
  - intros Hv. exists slot. split_tests; simplify_eq.
    + exists None. split; [done|]. split; [done|]. by split.
    + destruct (admits_canonical _ _ Heqb2) as [t Ht]. exists (Some t). rewrite Ht in Heqb2.
      split; [done|]. split; [done|]. by left.
    + assert (v_Type (p_Operand p) = TypeInteger) as Hty by done.
      destruct (canonical_to_value (p_Operand p)) as [t Ht]; [done|]. exists (Some t).
      split; [done|]. split; [done|]. right. split_and!; [done|done|].
      rewrite Ht in Hty. destruct t; try done. eauto.
  - intros (slot' & o & [= <-] & Ho & Hw). destruct o as [t|]; simpl in *.
    + destruct Hw as [(Hop & Had)|(Hop & HT & i & ->)].
      * rewrite (bool_decide_false (p_Op p ∈ [OpIsTrue; OpIsFalse])) by solve_op.
        rewrite (bool_decide_true (p_Op p ∈ [OpEq; OpNotEq])) by done. rewrite Ho, Had.
        apply admits_spec in Had as (_ & Hty & _). by rewrite bool_decide_true.
      * rewrite (bool_decide_false (p_Op p ∈ [OpIsTrue; OpIsFalse])) by solve_op.
        rewrite (bool_decide_false (p_Op p ∈ [OpEq; OpNotEq])) by solve_op.
        rewrite (bool_decide_true (p_Op p ∈ [OpGte; OpLte])) by done. rewrite Ho, HT.
        by rewrite !bool_decide_true.
    + destruct Hw as [Hop HT]. by rewrite !bool_decide_true.
Qed.

(** ** Evaluation of a validated predicate has the typed meaning *)
Lemma eval_meaning_aux slot p o t :
  well_typed slot p o -> admits slot (to_value t) = true ->
  exists P, meaning (p_Op p) o t = Some P /\ (eval p (to_value t) = true <-> P).
Proof.
  intros [Ho Hw] Had. apply admits_spec in Had as (_ & Hty & _). destruct o as [u|]; simpl in *.
  - destruct Hw as [(Hop & Hu)|(Hop & HT & j & ->)].
    + rewrite !elem_of_cons, elem_of_nil in Hop. unfold meaning, eval. rewrite Ho.
      destruct Hop as [->|[->|[]]]; simpl.
      * eexists. split; [done|]. apply equal_canonical.
      * eexists. split; [done|]. rewrite negb_true_iff, <- not_true_iff_false.
        by rewrite equal_canonical.
    + rewrite !elem_of_cons, elem_of_nil in Hop. unfold meaning, eval. rewrite Ho.
      rewrite HT in Hty. destruct t; try done.
      destruct Hop as [->|[->|[]]]; simpl; (eexists; split; [done|]); lia.
  - destruct Hw as [Hop HT]. rewrite HT in Hty. destruct t; try done.
    rewrite !elem_of_cons, elem_of_nil in Hop. unfold meaning, eval.
    destruct Hop as [->|[->|[]]]; simpl; (eexists; split; [done|]); [done|].
    by rewrite negb_true_iff.
Qed.

(** A validated predicate applied to a value its slot admits has the typed
    meaning of its operator: values of different types are never compared and
    no value is coerced. *)
Theorem eval_meaning `{GoText} p slots slot v :
  validate p slots = None -> slots !! p_Assertion p = Some slot -> admits slot v = true ->
  exists o t P, operand_of p o /\ v = to_value t /\
    meaning (p_Op p) o t = Some P /\ (eval p v = true <-> P).
Proof.
  intros Hv Hs Had. apply validate_spec in Hv as (slot' & o & Hs' & Hw).
  assert (slot' = slot) as -> by congruence.
  destruct (admits_canonical _ _ Had) as [t ->].
  destruct (eval_meaning_aux _ _ _ _ Hw Had) as (P & Hm & He).
  exists o, t, P. split_and!; [apply Hw|done|done|done].
Qed.

Lemma eval_meaning_witness :
  let slot := Build_AssertionSlot "queue-depth" TypeInteger [] 60 in
  let p := Build_Predicate "queue-depth" OpLte (Int 100) in
  exists o t P, operand_of p o /\ Int 42 = to_value t /\
    meaning (p_Op p) o t = Some P /\ (eval p (Int 42) = true <-> P).
Proof.
  apply (eval_meaning (Build_Predicate "queue-depth" OpLte (Int 100))
    {["queue-depth" := Build_AssertionSlot "queue-depth" TypeInteger [] 60]}
    (Build_AssertionSlot "queue-depth" TypeInteger [] 60)); vm_compute; reflexivity.
Defined.
