(* ===== verification/LocalCycle.v ===== *)
(** * Cycle search of a contract (localCycle in pkg/operations/contract.go)

    A depth-first search with three colours over a graph given by a successor
    function.  [visit] is the recursive closure of the source, [local_cycle]
    the loop over all nodes.  The fuel bounds the recursion depth; [local_cycle]
    supplies one more than the number of nodes, which [local_cycle_total]
    shows is always enough. *)

From S2P Require Import Prelude.

Section dfs.
Context {N : Type} `{Countable N}.
Variable succ : N -> list N.

Inductive colour := unvisited | onStack | done_.

#[local] Instance colour_eq_dec : EqDecision colour.
Proof. solve_decision. Defined.

Record dfs_state := { d_state : gmap N colour; d_stack : list N }.

(** Reading a Go map of ints: absent keys are 0, the constant [unvisited]. *)
Definition state_of (s : dfs_state) (n : N) : colour := default unvisited (d_state s !! n).

Definition push (n : N) (s : dfs_state) : dfs_state :=
  {| d_state := <[n := onStack]> (d_state s); d_stack := d_stack s ++ [n] |}.

Definition pop (n : N) (s : dfs_state) : dfs_state :=
  {| d_state := <[n := done_]> (d_state s); d_stack := removelast (d_stack s) |}.

(** The suffix [stack[i:]] at the first [i] with [stack[i] == m]. *)
Fixpoint suffix_from (m : N) (l : list N) : list N :=
  match l with
  | [] => []
  | s :: l' => if decide (s = m) then l else suffix_from m l'
  end.

(** The loop over the requirements of one node, with [rec] for the recursive
    call.  The result is the cycle found, [] for Go's nil. *)
Fixpoint visit_succs (rec : N -> st dfs_state (list N)) (ms : list N) : st dfs_state (list N) :=
  match ms with
  | [] => mret []
  | m :: ms =>
      s ← get_st;
      match state_of s m with
      | onStack =>
          match suffix_from m (d_stack s) with
          | [] => visit_succs rec ms
          | cyc => mret cyc
          end
      | unvisited =>
          cyc ← rec m;
          match cyc with
          | [] => visit_succs rec ms
          | _ => mret cyc
          end
      | done_ => visit_succs rec ms
      end
  end.

Fixpoint visit (fuel : nat) (n : N) : st dfs_state (list N) :=
  match fuel with
  | O => fun _ => None
  | S fuel =>
      _ ← modify_st (push n);
      cyc ← visit_succs (visit fuel) (succ n);
      match cyc with
      | [] => _ ← modify_st (pop n); mret []
      | _ => mret cyc
      end
  end.

Fixpoint visit_all (fuel : nat) (ns : list N) : st dfs_state (list N) :=
  match ns with
  | [] => mret []
  | n :: ns =>
      s ← get_st;
      match state_of s n with
      | unvisited =>
          cyc ← visit fuel n;
          match cyc with
          | [] => visit_all fuel ns
          | _ => mret cyc
          end
      | _ => visit_all fuel ns
      end
  end.

Definition local_cycle (nodes : list N) : option (list N) :=
  fst <$> visit_all (S (length nodes)) nodes {| d_state := ∅; d_stack := [] |}.

(** ** Specification *)
Definition edge (x y : N) : Prop := y ∈ succ x.

(** A path of consecutive edges. *)
Fixpoint is_path (l : list N) : Prop :=
  match l with
  | x :: (y :: _) as l' => edge x y /\ is_path l'
  | _ => True
  end.

(** A cycle: a path whose last node has an edge to its first. *)
Definition is_cycle (l : list N) : Prop :=
  exists x y, head l = Some x /\ last l = Some y /\ is_path l /\ edge y x.

Definition acyclic : Prop := forall x, ~ tc edge x x.

(** * Lemmas *)
Lemma is_path_app l1 l2 :
  is_path (l1 ++ l2) <->
  is_path l1 /\ is_path l2 /\
  (forall x y, last l1 = Some x -> head l2 = Some y -> edge x y).
Proof.
  induction l1 as [|x [|x' l1] IH]; simpl.
  - split; [|by intros (_ & ? & _)]. by intros.
  - destruct l2; simpl; split.
    + by intros.
    + done.
    + intros [? ?]. split_and!; [done|done|]. by intros ? ? [= ->] [= ->].
    + intros (_ & ? & He). split; [by apply He|done].
  - simpl in IH. rewrite IH. tauto.
Qed.

Lemma is_path_tc l x y : is_path (x :: l) -> last (x :: l) = Some y -> rtc edge x y.
Proof.
  revert x. induction l as [|z l IH]; intros x Hp Hl; simpl in *.
  - by simplify_eq.
  - destruct Hp as [He Hp]. eapply rtc_l; [exact He|]. by apply IH.
Qed.

(** A cycle is a node that reaches itself. *)
Lemma is_cycle_tc l : is_cycle l -> exists x, x ∈ l /\ tc edge x x.
Proof.
  intros (x & y & Hh & Hl & Hp & He). destruct l as [|x' l]; simplify_eq/=.
  exists x. split; [left|]. eapply tc_rtc_l; [by eapply is_path_tc|]. by apply tc_once.
Qed.

Lemma suffix_from_spec m l : m ∈ l -> exists l1 l2, l = l1 ++ m :: l2 /\ suffix_from m l = m :: l2.
Proof.
  induction l as [|s l IH]; [by intros ?%elem_of_nil|]. simpl. case_decide as E.
  - intros _. subst. by exists [], l.
  - intros [->|Hin]%elem_of_cons; [done|]. destruct (IH Hin) as (l1 & l2 & -> & ->).
    by exists (s :: l1), l2.
Qed.

Definition done_set (s : dfs_state) (n : N) : Prop := state_of s n = done_.

(** The invariant of the search: the nodes on the stack are those coloured
    [onStack] and form a path; the finished nodes are closed under successors
    and none of them lies on a cycle. *)
Record dfs_inv (s : dfs_state) : Prop := {
  di_stack n : state_of s n = onStack <-> n ∈ d_stack s;
  di_path : is_path (d_stack s);
  di_closed n m : done_set s n -> edge n m -> done_set s m;
  di_acyclic n : done_set s n -> ~ tc edge n n;
}.

Lemma state_of_push n s m :
  state_of (push n s) m = if decide (n = m) then onStack else state_of s m.
Proof. unfold state_of; simpl. rewrite lookup_insert. by case_decide. Qed.

Lemma state_of_pop n s m :
  state_of (pop n s) m = if decide (n = m) then done_ else state_of s m.
Proof. unfold state_of; simpl. rewrite lookup_insert. by case_decide. Qed.

Lemma removelast_snoc {A} (l : list A) x : removelast (l ++ [x]) = l.
Proof. by rewrite removelast_app, app_nil_r. Qed.

Lemma last_snoc_edge s n :
  (forall x, last (d_stack s) = Some x -> edge x n) -> is_path (d_stack s) ->
  is_path (d_stack s ++ [n]).
Proof. intros He Hp. apply is_path_app. split_and!; [done|done|]. by intros x y Hx [= ->]; apply He. Qed.

Lemma done_set_tc s n m : dfs_inv s -> done_set s n -> tc edge n m -> done_set s m.
Proof. intros HI Hn. induction 1; eauto using di_closed. Qed.

(** Finishing a node whose successors are all finished. *)
Lemma pop_inv s n stack :
  dfs_inv s -> d_stack s = stack ++ [n] -> n ∉ stack ->
  (forall m, edge n m -> done_set s m) -> dfs_inv (pop n s).
Proof.
  intros HI Hst Hn Hsucc.
  assert (state_of s n = onStack) as Hon.
  { apply (di_stack _ HI). rewrite Hst. set_solver. }
  assert (forall m, edge n m -> m <> n) as Hne.
  { intros m He ->. pose proof (Hsucc _ He) as H1. unfold done_set in H1. congruence. }
  assert (forall m, edge n m -> ~ tc edge m n) as Hno.
  { intros m He Htc. pose proof (done_set_tc _ _ _ HI (Hsucc _ He) Htc) as H1.
    unfold done_set in H1. congruence. }
  split.
  - intros m. rewrite state_of_pop. simpl. rewrite Hst, removelast_snoc.
    case_decide; subst; [by split|]. rewrite (di_stack _ HI), Hst. set_solver.
  - simpl. rewrite Hst, removelast_snoc. pose proof (di_path _ HI) as Hp.
    rewrite Hst in Hp. by apply is_path_app in Hp as [? _].
  - intros x y. unfold done_set. rewrite !state_of_pop. repeat case_decide; subst; try done.
    + intros _ He. by apply Hsucc.
    + intros Hx He. by apply (di_closed _ HI x).
  - intros x. unfold done_set. rewrite state_of_pop. case_decide; [subst x|].
    + intros _ [He|(y & He & Htc)]%tc_step_inv; [by apply (Hne n)|by apply (Hno y)].
    + by apply di_acyclic.
Qed.
Lemma push_inv s n :
  dfs_inv s -> state_of s n = unvisited ->
  (forall x, last (d_stack s) = Some x -> edge x n) -> dfs_inv (push n s).
Proof.
  intros HI Hn He.
  assert (forall m, done_set (push n s) m <-> done_set s m) as Hd.
  { intros m. unfold done_set. rewrite state_of_push. case_decide; [subst|done].
    rewrite Hn. by split. }
  split.
  - intros m. rewrite state_of_push. simpl. rewrite elem_of_app, list_elem_of_singleton.
    rewrite <- (di_stack _ HI). case_decide; naive_solver.
  - apply last_snoc_edge; [done|apply HI].
  - intros x y. rewrite !Hd. apply HI.
  - intros x. rewrite Hd. apply HI.
Qed.

(** What a finished call guarantees: a cycle, or the invariant with the same
    stack and every colour other than [unvisited] unchanged. *)
Definition visit_post (s : dfs_state) (r : list N * dfs_state) : Prop :=
  match r.1 with
  | [] => dfs_inv r.2 /\ d_stack r.2 = d_stack s /\
          forall m, state_of s m <> unvisited -> state_of r.2 m = state_of s m
  | _ => is_cycle r.1
  end.

Lemma visit_post_trans s1 s2 r :
  visit_post s1 ([], s2) -> visit_post s2 r -> visit_post s1 r.
Proof.
  unfold visit_post; simpl. intros (_ & E1 & M1). destruct (r.1); [|done].
  intros (? & E2 & M2). split_and!; [done|congruence|].
  intros m Hm. rewrite M2, M1; [done..|]. by rewrite M1.
Qed.

(** A successor already on the stack closes a cycle. *)
Lemma stack_cycle s n stk m :
  dfs_inv s -> d_stack s = stk ++ [n] -> edge n m -> m ∈ d_stack s ->
  is_cycle (suffix_from m (d_stack s)).
Proof.
  intros HI Hst He (l1 & l2 & Hl & ->)%suffix_from_spec.
  pose proof (di_path _ HI) as Hp. rewrite Hl in Hp. apply is_path_app in Hp as (_ & Hp & _).
  exists m, n. split_and!; [done| |done|done].
  assert (last (d_stack s) = Some n) as Hlast by (rewrite Hst; apply last_snoc).
  rewrite Hl, last_app in Hlast. destruct (last (m :: l2)) eqn:E; [done|].
  by apply last_None in E.
Qed.

Definition visit_ok (rec : N -> st dfs_state (list N)) : Prop :=
  forall n s r, rec n s = Some r -> dfs_inv s -> state_of s n = unvisited ->
    (forall x, last (d_stack s) = Some x -> edge x n) ->
    visit_post s r /\ (r.1 = [] -> done_set r.2 n).

Lemma visit_succs_spec rec ms n stk s r :
  visit_ok rec -> visit_succs rec ms s = Some r -> dfs_inv s -> d_stack s = stk ++ [n] ->
  (forall m, m ∈ ms -> edge n m) ->
  visit_post s r /\ (r.1 = [] -> forall m, m ∈ ms -> done_set r.2 m).
Proof.
  intros Hrec. revert s r. induction ms as [|m ms IH]; intros s r; cbn [visit_succs].
  - intros [= <-] HI _ _. split; [done|]. by intros _ m ?%elem_of_nil.
  - intros (s1 & ? & [= <- <-] & Hr)%bind_Some HI Hst Hms.
    assert (edge n m) as He by (apply Hms; left).
    assert (forall s' r', visit_succs rec ms s' = Some r' -> visit_post s ([], s') ->
              done_set s' m ->
              visit_post s r' /\ (r'.1 = [] -> forall x, x ∈ m :: ms -> done_set r'.2 x)) as Hk.
    { intros s' r' Hr' (HI' & Hst' & Hmono) Hm. simpl in *.
      destruct (IH s' r' Hr' HI') as [Hpost Hdone]; [congruence|set_solver|].
      split; [by eapply visit_post_trans|]. intros E x [->|Hx]%elem_of_cons; [|by apply Hdone].
      unfold visit_post in Hpost. rewrite E in Hpost. destruct Hpost as (_ & _ & Hm').
      unfold done_set in *. rewrite Hm'; congruence. }
    destruct (state_of s m) eqn:Em.
    + apply bind_Some in Hr as (cyc & s' & Hv & Hr).
      destruct (Hrec _ _ _ Hv HI Em) as [Hp Hd].
      { rewrite Hst, last_snoc. by intros ? [= <-]. }
      destruct cyc as [|c cyc]; [by apply (Hk s'); [..|apply Hd]|].
      injection Hr as <-. split; [exact Hp|done].
    + destruct (suffix_from m (d_stack s)) as [|c cyc] eqn:Ec.
      { apply (di_stack _ HI) in Em. apply suffix_from_spec in Em as (? & ? & _ & ?). congruence. }
      injection Hr as <-. split; [|done]. unfold visit_post; simpl. rewrite <- Ec.
      eapply stack_cycle; [done|done|done|]. by apply (di_stack _ HI).
    + by apply (Hk s).
Qed.

Lemma visit_spec fuel : visit_ok (visit fuel).
Proof.
  induction fuel as [|fuel IH]; intros n s r; cbn [visit]; [done|].
  intros (u & s1 & [= <- <-] & Hr)%bind_Some HI Hn He.
  apply bind_Some in Hr as (cyc & s2 & Hv & Hr).
  assert (dfs_inv (push n s)) as HIp by by apply push_inv.
  destruct (visit_succs_spec _ _ n (d_stack s) _ _ IH Hv HIp eq_refl) as [Hp Hd].
  { by intros m Hm. }
  destruct cyc as [|c cyc]; [|by injection Hr as <-].
  apply bind_Some in Hr as (? & ? & [= <- <-] & [= <-]).
  destruct Hp as (HI2 & Hst & Hmono). simpl in *.
  assert (n ∉ d_stack s) as Hns by (rewrite <- (di_stack _ HI); congruence).
  split; [split_and!|].
  - eapply pop_inv; [done|done|done|]. intros m Hm. by apply Hd.
  - simpl. rewrite Hst. apply removelast_snoc.
  - intros m Hm. cbn [snd]. rewrite state_of_pop. case_decide as E; [subst; congruence|].
    assert (state_of (push n s) m = state_of s m) as E'.
    { rewrite state_of_push. by rewrite decide_False. }
    rewrite Hmono; congruence.
  - intros _. unfold done_set. rewrite state_of_pop. by rewrite decide_True.
Qed.

Lemma visit_all_spec fuel ns s r :
  visit_all fuel ns s = Some r -> dfs_inv s -> d_stack s = [] ->
  visit_post s r /\ (r.1 = [] -> forall n, n ∈ ns -> done_set r.2 n).
Proof.
  revert s r. induction ns as [|n ns IH]; intros s r; cbn [visit_all].
  - intros [= <-] HI _. split; [done|]. by intros _ m ?%elem_of_nil.
  - intros (s1 & ? & [= <- <-] & Hr)%bind_Some HI Hst.
    assert (forall s' r', visit_all fuel ns s' = Some r' -> visit_post s ([], s') ->
              done_set s' n ->
              visit_post s r' /\ (r'.1 = [] -> forall x, x ∈ n :: ns -> done_set r'.2 x)) as Hk.
    { intros s' r' Hr' (HI' & Hst' & Hmono) Hm. simpl in *.
      destruct (IH s' r' Hr' HI') as [Hpost Hdone]; [congruence|].
      split; [by eapply visit_post_trans|]. intros E x [->|Hx]%elem_of_cons; [|by apply Hdone].
      unfold visit_post in Hpost. rewrite E in Hpost. destruct Hpost as (_ & _ & Hm').
      unfold done_set in *. rewrite Hm'; congruence. }
    destruct (state_of s n) eqn:En.
    + apply bind_Some in Hr as (cyc & s' & Hv & Hr).
      destruct (visit_spec _ _ _ _ Hv HI En) as [Hp Hd]; [by rewrite Hst|].
      destruct cyc as [|c cyc]; [by apply (Hk s'); [..|apply Hd]|].
      injection Hr as <-. split; [exact Hp|done].
    + apply (di_stack _ HI) in En. rewrite Hst in En. nil_elem.
    + by apply (Hk s).
Qed.

(** The result is a cycle of the graph, or every given node is acyclic. *)
Lemma local_cycle_spec nodes cyc :
  local_cycle nodes = Some cyc ->
  match cyc with
  | [] => forall n, n ∈ nodes -> forall m, rtc edge n m -> ~ tc edge m m
  | _ => is_cycle cyc
  end.
Proof.
  unfold local_cycle. intros ([c s] & Hv & ->)%fmap_Some_1.
  assert (dfs_inv {| d_state := ∅; d_stack := [] |}) as HI.
  { split; try done; simpl.
    intros n. unfold state_of; simpl. rewrite lookup_empty. set_solver. }
  destruct (visit_all_spec _ _ _ _ Hv HI eq_refl) as [Hp Hd].
  destruct c as [|x c]; [|exact Hp]. destruct Hp as (HI' & _ & _). simpl in *.
  intros n Hn m [<-|Hm]%rtc_tc; [by apply (di_acyclic _ HI'), Hd|].
  eapply (di_acyclic _ HI'), done_set_tc; [done| |exact Hm]. by apply Hd.
Qed.

(** ** Termination: one unit of fuel per unvisited node is enough *)
Section total.
Variable U : list N.
Hypothesis U_closed : forall n m, n ∈ U -> edge n m -> m ∈ U.

Definition whites (s : dfs_state) : nat := length (filter (fun n => state_of s n = unvisited) U).

Definition grows (s s' : dfs_state) : Prop :=
  forall m, state_of s m <> unvisited -> state_of s' m <> unvisited.

Lemma whites_grows s s' : grows s s' -> whites s' <= whites s.
Proof.
  intros Hm. apply filter_length_mono. intros n _ Hn.
  destruct (decide (state_of s n = unvisited)) as [|Hne]; [done|]. by apply Hm in Hne.
Qed.

Lemma whites_push s n : n ∈ U -> state_of s n = unvisited -> whites (push n s) < whites s.
Proof.
  intros Hn Hs. apply (filter_length_strict _ _ _ n); [|done|done|].
  - intros m _. rewrite state_of_push. by case_decide.
  - rewrite state_of_push. by rewrite decide_True.
Qed.

Lemma grows_refl s : grows s s.
Proof. by intros m. Qed.

Definition visit_term (rec : N -> st dfs_state (list N)) (bound : nat) : Prop :=
  forall n s, n ∈ U -> state_of s n = unvisited -> whites s <= bound ->
    exists r, rec n s = Some r /\ grows s r.2.

Lemma visit_succs_total rec bound ms s :
  visit_term rec bound -> (forall m, m ∈ ms -> m ∈ U) -> whites s <= bound ->
  exists r, visit_succs rec ms s = Some r /\ grows s r.2.
Proof.
  intros Hrec. revert s. induction ms as [|m ms IH]; intros s HU Hw; cbn [visit_succs].
  { eexists. split; [done|]. apply grows_refl. }
  assert (forall s', grows s s' -> exists r, visit_succs rec ms s' = Some r /\ grows s r.2) as Hk.
  { intros s' Hg. destruct (IH s') as (r & Hr & Hg'); [set_solver| |].
    { apply whites_grows in Hg. lia. }
    exists r. split; [done|]. intros x Hx. by apply Hg', Hg. }
  unfold mbind, st_bind, get_st; simpl. destruct (state_of s m) eqn:Em.
  - destruct (Hrec m s) as ([cyc s'] & -> & Hg); [set_solver|done|done|].
    destruct cyc; [by apply Hk|]. eexists. by split.
  - destruct (suffix_from m (d_stack s)); [by apply Hk, grows_refl|].
    eexists. split; [done|]. apply grows_refl.
  - by apply Hk, grows_refl.
Qed.

Lemma visit_total fuel : visit_term (visit fuel) fuel.
Proof.
  induction fuel as [|fuel IH]; intros n s Hn Hs Hw.
  { pose proof (whites_push s n Hn Hs). lia. }
  cbn [visit]. unfold mbind, st_bind, modify_st; simpl.
  assert (grows s (push n s)) as Hp.
  { intros m Hm. rewrite state_of_push. by case_decide. }
  destruct (visit_succs_total _ _ (succ n) (push n s) IH) as ([cyc s'] & -> & Hg).
  { intros m Hm. by apply (U_closed n). }
  { pose proof (whites_push s n Hn Hs). lia. }
  assert (grows s s') as Hss' by (intros m Hm; by apply Hg, Hp).
  destruct cyc; eexists; (split; [done|]); simpl; [|done].
  intros m Hm. rewrite state_of_pop. case_decide; [done|]. by apply Hss'.
Qed.

Lemma visit_all_total fuel ns s :
  (forall n, n ∈ ns -> n ∈ U) -> whites s <= fuel -> is_Some (visit_all fuel ns s).
Proof.
  revert s. induction ns as [|n ns IH]; intros s HU Hw; cbn [visit_all]; [eauto|].
  unfold mbind, st_bind, get_st; simpl.
  destruct (state_of s n) eqn:En; [|apply IH; [set_solver|done]..].
  destruct (visit_total fuel n s) as ([cyc s'] & -> & Hg); [set_solver|done|done|].
  destruct cyc; [|eauto]. apply IH; [set_solver|]. apply whites_grows in Hg. simpl in Hg. lia.
Qed.
End total.

Lemma local_cycle_total nodes :
  (forall n m, n ∈ nodes -> edge n m -> m ∈ nodes) -> is_Some (local_cycle nodes).
Proof.
  intros HU. unfold local_cycle. apply fmap_is_Some.
  apply (visit_all_total nodes HU); [done|]. unfold whites.
  etrans; [apply length_filter|]. lia.
Qed.
End dfs.
