(* ===== verification/Tarjan.v ===== *)
(** * Strongly connected components (rejectCycles in pkg/operations/evaluator.go)

    Tarjan's algorithm as [rejectCycles] writes it: [strongConnect] is the
    recursive closure, [tarjan] the loop over all nodes.  Only the components
    that carry a cycle are kept: those with more than one node, and single
    nodes with an edge to themselves.  The stack is kept with its top first.
    The fuel bounds the recursion depth; [tarjan] supplies one more than the
    number of nodes, which [tarjan_total] shows is enough.

    [tarjan_spec] is the specification: the components found are exactly the
    classes of nodes that lie on a common cycle, independent of the traversal
    order. *)

From S2P Require Import Prelude.

Section tarjan.
Context {N : Type} `{Countable N}.
Variable edges : N -> list N.

Record tstate := {
  t_index : gmap N nat;
  t_low : gmap N nat;
  t_onStack : gmap N bool;
  t_stack : list N;
  t_cyclic : list (list N);
  t_next : nat;
}.

(** Reading Go maps: an absent key is the zero value. *)
Definition index_of (s : tstate) (n : N) : nat := default 0 (t_index s !! n).
Definition low_of (s : tstate) (n : N) : nat := default 0 (t_low s !! n).
Definition on_stack (s : tstate) (n : N) : bool := default false (t_onStack s !! n).

Definition tpush (v : N) (s : tstate) : tstate := {|
  t_index := <[v := t_next s]> (t_index s);
  t_low := <[v := t_next s]> (t_low s);
  t_onStack := <[v := true]> (t_onStack s);
  t_stack := v :: t_stack s;
  t_cyclic := t_cyclic s;
  t_next := S (t_next s);
|}.

(** [low[v] = min(low[v], x)] *)
Definition lower (v : N) (x : tstate -> nat) (s : tstate) : tstate := {|
  t_index := t_index s;
  t_low := <[v := Nat.min (low_of s v) (x s)]> (t_low s);
  t_onStack := t_onStack s;
  t_stack := t_stack s;
  t_cyclic := t_cyclic s;
  t_next := t_next s;
|}.

(** The loop that pops the component of [v]: the popped nodes, top first, and
    the remaining stack. *)
Fixpoint pop_until (v : N) (stack : list N) : list N * list N :=
  match stack with
  | [] => ([], [])
  | w :: stack =>
      if decide (w = v) then ([w], stack)
      else let '(scc, rest) := pop_until v stack in (w :: scc, rest)
  end.

Definition pop_scc (v : N) (selfLoop : bool) (s : tstate) : tstate :=
  let '(scc, rest) := pop_until v (t_stack s) in {|
    t_index := t_index s;
    t_low := t_low s;
    t_onStack := foldl (fun m w => <[w := false]> m) (t_onStack s) scc;
    t_stack := rest;
    t_cyclic := if (1 <? length scc) || selfLoop then t_cyclic s ++ [scc] else t_cyclic s;
    t_next := t_next s;
  |}.

(** The loop over the edges of [v]; the result is the final [selfLoop]. *)
Fixpoint connect_edges (rec : N -> st tstate unit) (v : N) (ws : list N) (selfLoop : bool) :
    st tstate bool :=
  match ws with
  | [] => mret selfLoop
  | w :: ws =>
      let selfLoop := if decide (w = v) then true else selfLoop in
      s ← get_st;
      _ ← match t_index s !! w with
          | None => _ ← rec w; modify_st (lower v (fun s => low_of s w))
          | Some _ =>
              if on_stack s w then modify_st (lower v (fun s => index_of s w)) else mret tt
          end;
      connect_edges rec v ws selfLoop
  end.

Fixpoint strongConnect (fuel : nat) (v : N) : st tstate unit :=
  match fuel with
  | O => fun _ => None
  | S fuel =>
      _ ← modify_st (tpush v);
      selfLoop ← connect_edges (strongConnect fuel) v (edges v) false;
      s ← get_st;
      if decide (low_of s v = index_of s v) then modify_st (pop_scc v selfLoop) else mret tt
  end.

Definition tinit : tstate := {|
  t_index := ∅; t_low := ∅; t_onStack := ∅; t_stack := []; t_cyclic := []; t_next := 0;
|}.

Definition connect_all (fuel : nat) (ns : list N) : st tstate unit :=
  fold_st (fun _ n =>
    s ← get_st;
    match t_index s !! n with
    | None => strongConnect fuel n
    | Some _ => mret tt
    end) tt ns.

Definition tarjan (nodes : list N) : option (list (list N)) :=
  (fun r => t_cyclic r.2) <$> connect_all (S (length nodes)) nodes tinit.

(** * Correctness *)
Definition E (x y : N) : Prop := y ∈ edges x.

Definition indexed (s : tstate) (n : N) : Prop := is_Some (t_index s !! n).
Definition popped (s : tstate) (n : N) : Prop := indexed s n /\ n ∉ t_stack s.
Definition above (s : tstate) (x y : N) : Prop := index_of s y < index_of s x.

(** Nodes on a common cycle. *)
Definition linked (x y : N) : Prop := tc E x y /\ tc E y x.

Record tinv (s : tstate) : Prop := {
  ti_on n : on_stack s n = true <-> n ∈ t_stack s;
  ti_indexed n : n ∈ t_stack s -> indexed s n;
  ti_sorted : StronglySorted (above s) (t_stack s);
  ti_next n i : t_index s !! n = Some i -> i < t_next s;
  ti_closed n m : popped s n -> E n m -> popped s m;
  ti_complete n m : popped s n -> linked n m -> exists scc, scc ∈ t_cyclic s /\ n ∈ scc /\ m ∈ scc;
  ti_sound scc a b : scc ∈ t_cyclic s -> a ∈ scc -> b ∈ scc -> tc E a b;
  ti_popped scc a : scc ∈ t_cyclic s -> a ∈ scc -> popped s a;
}.

(** What changes between two states of a search: indices are only added, and
    the lows of nodes that were indexed stay. *)
Record text (s s' : tstate) : Prop := {
  te_index n i : t_index s !! n = Some i -> t_index s' !! n = Some i;
  te_low n : indexed s n -> low_of s' n = low_of s n;
  te_next : t_next s <= t_next s';
}.

(** What a finished call for [v] guarantees.  [seg] are the nodes it left on
    the stack. *)
Record connected (s : tstate) (v : N) (s' : tstate) (seg : list N) : Prop := {
  co_inv : tinv s';
  co_ext : text s s';
  co_v : indexed s' v;
  co_stack : t_stack s' = seg ++ t_stack s;
  co_popped : seg = [] -> t_next s <= low_of s' v;
  co_reach y : y ∈ seg -> rtc E v y /\ rtc E y v;
  co_low : seg <> [] -> exists x, x ∈ t_stack s /\ index_of s' x = low_of s' v /\ rtc E v x;
  co_succ y x : y ∈ seg -> E y x ->
    indexed s' x /\ (x ∈ t_stack s' -> low_of s' v <= index_of s' x);
}.

(** The invariant of the loop over the edges of [v], entered in [s0]; [ws] are
    the edges already processed. *)
Record looping (s0 : tstate) (v : N) (ws : list N) (self : bool) (s : tstate) (seg : list N) :
    Prop := {
  lo_inv : tinv s;
  lo_ext : text s0 s;
  lo_v : t_index s !! v = Some (t_next s0);
  lo_stack : t_stack s = seg ++ v :: t_stack s0;
  lo_up y : y ∈ t_stack s -> rtc E y v;
  lo_down y : y ∈ seg -> rtc E v y;
  lo_le : low_of s v <= t_next s0;
  lo_low : exists x, x ∈ t_stack s /\ index_of s x = low_of s v /\ rtc E v x;
  lo_succ y x : y ∈ seg -> E y x ->
    indexed s x /\ (x ∈ t_stack s -> low_of s v <= index_of s x);
  lo_done w : w ∈ ws -> indexed s w /\ (w ∈ t_stack s -> low_of s v <= index_of s w);
  lo_self : self = true <-> v ∈ ws;
  lo_edges w : w ∈ ws -> E v w;
}.

Lemma index_of_Some s n i : t_index s !! n = Some i -> index_of s n = i.
Proof. unfold index_of. by intros ->. Qed.

Lemma text_refl s : text s s.
Proof. by split. Qed.

Lemma text_trans s1 s2 s3 : text s1 s2 -> text s2 s3 -> text s1 s3.
Proof.
  intros [A1 B1 C1] [A2 B2 C2]. split; [eauto| |lia].
  intros n Hn. rewrite B2, B1; [done..|]. destruct Hn as [i Hi]. exists i. eauto.
Qed.

Lemma text_indexed s s' n : text s s' -> indexed s n -> indexed s' n.
Proof. intros He [i Hi]. exists i. by apply (te_index _ _ He). Qed.

Lemma text_index_of s s' n : text s s' -> indexed s n -> index_of s' n = index_of s n.
Proof.
  intros He [i Hi]. rewrite (index_of_Some s n i Hi), (index_of_Some s' n i); [done|].
  by apply (te_index _ _ He).
Qed.

Lemma popped_tc s n m : tinv s -> popped s n -> tc E n m -> popped s m.
Proof. intros HI Hn. induction 1; eauto using ti_closed. Qed.

(** ** The stack *)
Lemma stack_app_index s seg rest x y :
  tinv s -> t_stack s = seg ++ rest -> x ∈ seg -> y ∈ rest -> index_of s y < index_of s x.
Proof.
  intros HI Hst Hx Hy. pose proof (ti_sorted _ HI) as Hs. rewrite Hst in Hs.
  exact (StronglySorted_app_1_elem_of _ _ _ _ _ Hs Hx Hy).
Qed.

Lemma stack_disjoint s seg rest x :
  tinv s -> t_stack s = seg ++ rest -> x ∈ seg -> x ∉ rest.
Proof. intros HI Hst H1 H2. pose proof (stack_app_index _ _ _ _ _ HI Hst H1 H2). lia. Qed.

Lemma pop_until_app v seg rest :
  v ∉ seg -> pop_until v (seg ++ v :: rest) = (seg ++ [v], rest).
Proof.
  induction seg as [|w seg IH]; intros Hv; simpl.
  - by rewrite decide_True.
  - rewrite decide_False by set_solver. rewrite IH by set_solver. done.
Qed.

Lemma on_stack_foldl (ws : list N) (m : gmap N bool) (n : N) :
  default false (foldl (fun m w => <[w := false]> m) m ws !! n) =
  if decide (n ∈ ws) then false else default false (m !! n).
Proof.
  revert m. induction ws as [|w ws IH]; intros m; simpl.
  - done.
  - rewrite IH, lookup_insert. repeat case_decide; set_solver.
Qed.

(** A successor stack node of the segment is in the segment when [v]'s low is
    its own index. *)
Lemma stack_index_ge s seg v rest x i :
  tinv s -> t_stack s = seg ++ v :: rest -> t_index s !! v = Some i ->
  x ∈ t_stack s -> i <= index_of s x -> x ∈ seg ++ [v].
Proof.
  intros HI Hst Hv Hx Hi. rewrite Hst, elem_of_app, elem_of_cons in Hx.
  rewrite elem_of_app, list_elem_of_singleton.
  destruct Hx as [Hx|[->|Hx]]; [by left|by right|].
  assert (index_of s x < index_of s v) as Hlt.
  { apply (stack_app_index s (seg ++ [v]) rest); [done| |set_solver|done].
    by rewrite Hst, <- app_assoc. }
  rewrite (index_of_Some _ _ _ Hv) in Hlt. lia.
Qed.

Lemma stack_index_lt s seg v rest x i :
  tinv s -> t_stack s = seg ++ v :: rest -> t_index s !! v = Some i ->
  x ∈ t_stack s -> index_of s x < i -> x ∈ rest.
Proof.
  intros HI Hst Hv Hx Hi. rewrite Hst, elem_of_app, elem_of_cons in Hx.
  destruct Hx as [Hx|[->|Hx]]; [|by rewrite (index_of_Some _ _ _ Hv) in Hi; lia|done].
  assert (index_of s v < index_of s x) as Hlt.
  { apply (stack_app_index s seg (v :: rest)); [done|done|done|left]. }
  rewrite (index_of_Some _ _ _ Hv) in Hlt. lia.
Qed.

(** ** Pushing [v] enters the loop *)
Lemma tpush_index s v n :
  t_index (tpush v s) !! n = if decide (v = n) then Some (t_next s) else t_index s !! n.
Proof. simpl. apply lookup_insert. Qed.

Lemma tpush_text s v : ~ indexed s v -> text s (tpush v s).
Proof.
  intros Hv. split; simpl; [| |lia].
  - intros n i Hi. rewrite lookup_insert_ne; [done|]. intros ->. apply Hv. by exists i.
  - intros n Hn. unfold low_of; simpl. rewrite lookup_insert_ne; [done|]. by intros ->.
Qed.

Lemma tpush_popped s v n :
  tinv s -> ~ indexed s v -> popped (tpush v s) n <-> popped s n.
Proof.
  intros HI Hv. unfold popped, indexed. rewrite tpush_index. simpl.
  rewrite not_elem_of_cons. case_decide; [|naive_solver].
  subst. split; [by intros (_ & ? & _)|]. by intros [? _].
Qed.

Lemma tpush_inv s v : tinv s -> ~ indexed s v -> tinv (tpush v s).
Proof.
  intros HI Hv. pose proof (tpush_text s v Hv) as Ht. split.
  - intros n. unfold on_stack; simpl. rewrite lookup_insert, elem_of_cons, <- (ti_on _ HI).
    unfold on_stack. case_decide; simpl; naive_solver.
  - intros n. simpl. intros [->|Hn]%elem_of_cons.
    + unfold indexed. rewrite tpush_index, decide_True; eauto.
    + by apply (text_indexed _ _ _ Ht), (ti_indexed _ HI).
  - simpl. apply StronglySorted_cons. split.
    + apply Forall_forall. intros n Hn. pose proof (ti_indexed _ HI n Hn) as [i Hi].
      unfold above. rewrite (index_of_Some _ n i) by (by apply Ht).
      rewrite (index_of_Some _ v (t_next s)) by (rewrite tpush_index; by rewrite decide_True).
      by apply (ti_next _ HI n).
    + pose proof (ti_sorted _ HI) as Hs. pose proof (ti_indexed _ HI) as Hx. revert Hs Hx.
      generalize (t_stack s) as l. induction l as [|x l IH]; [constructor|].
      intros [HF HS]%StronglySorted_cons Hx. apply StronglySorted_cons. split.
      * rewrite Forall_forall in HF |- *. intros y Hy. unfold above.
        rewrite !(text_index_of _ _ _ Ht); [by apply HF|apply Hx; left|apply Hx; by right].
      * apply IH; [done|]. intros n Hn. apply Hx. by right.
  - intros n i. rewrite tpush_index. simpl. case_decide; [intros [= <-]; lia|].
    intros Hi%(ti_next _ HI). lia.
  - intros n m. rewrite !tpush_popped by done. apply HI.
  - intros n m. rewrite tpush_popped by done. apply HI.
  - apply HI.
  - intros scc a. rewrite tpush_popped by done. apply HI.
Qed.

Lemma looping_start s v :
  tinv s -> ~ indexed s v -> (forall y, y ∈ t_stack s -> rtc E y v) ->
  looping s v [] false (tpush v s) [].
Proof.
  intros HI Hv Hup.
  assert (t_index (tpush v s) !! v = Some (t_next s)) as Hi.
  { rewrite tpush_index. by rewrite decide_True. }
  assert (low_of (tpush v s) v = t_next s) as Hl.
  { unfold low_of; simpl. by rewrite lookup_insert_eq. }
  split; try done.
  - by apply tpush_inv.
  - by apply tpush_text.
  - simpl. intros y [->|Hy]%elem_of_cons; [done|by apply Hup].
  - intros y ?%elem_of_nil. done.
  - by rewrite Hl.
  - exists v. rewrite (index_of_Some _ _ _ Hi). split_and!; [left|done|done].
  - by intros y x ?%elem_of_nil.
  - by intros w ?%elem_of_nil.
  - split; [done|]. by intros ?%elem_of_nil.
  - by intros w ?%elem_of_nil.
Qed.

(** ** Lowering [low[v]] keeps everything but that entry *)
Lemma low_of_lower v x s n :
  low_of (lower v x s) n = if decide (v = n) then Nat.min (low_of s v) (x s) else low_of s n.
Proof. unfold low_of; simpl. rewrite lookup_insert. by case_decide. Qed.

Lemma lower_inv v x s : tinv s -> tinv (lower v x s).
Proof. intros []. by split. Qed.

Lemma lower_text s0 v x s : text s0 s -> ~ indexed s0 v -> text s0 (lower v x s).
Proof.
  intros [A B C] Hv. split; [done| |done]. intros n Hn. rewrite low_of_lower, decide_False; [auto|].
  by intros ->.
Qed.

(** One processed edge: [s] is the state after handling [w], with the possibly
    longer segment [seg'], and [low[v]] is lowered by [x]. *)
Lemma looping_step s0 v ws self s seg seg1 w s1 x :
  looping s0 v ws self s seg -> ~ indexed s0 v -> E v w ->
  tinv s1 -> text s s1 -> t_stack s1 = seg1 ++ t_stack s ->
  (forall y, y ∈ seg1 -> rtc E v y /\ exists z, z ∈ t_stack s /\ rtc E y z) ->
  (x s1 < low_of s v -> exists z, z ∈ t_stack s /\ index_of s1 z = x s1 /\ rtc E v z) ->
  (forall y z, y ∈ seg1 -> E y z ->
     indexed s1 z /\ (z ∈ t_stack s1 -> x s1 <= index_of s1 z)) ->
  indexed s1 w -> (w ∈ t_stack s -> x s1 <= index_of s1 w) ->
  looping s0 v (ws ++ [w]) (if decide (w = v) then true else self) (lower v x s1) (seg1 ++ seg).
Proof.
  intros L Hv0 He HI1 Ht Hst Hseg Hlow Hsucc Hw Hwl.
  pose proof (lo_inv _ _ _ _ _ _ L) as HI. pose proof (lo_ext _ _ _ _ _ _ L) as Hext.
  assert (t_index s1 !! v = Some (t_next s0)) as Hi1.
  { apply (te_index _ _ Ht), (lo_v _ _ _ _ _ _ L). }
  assert (low_of s1 v = low_of s v) as Hlv.
  { apply (te_low _ _ Ht). eexists. exact (lo_v _ _ _ _ _ _ L). }
  assert (low_of (lower v x s1) v = Nat.min (low_of s v) (x s1)) as Hmin.
  { rewrite low_of_lower, decide_True by done. by rewrite Hlv. }
  assert (forall z, z ∈ t_stack s1 -> z ∈ seg1 \/ (z ∈ t_stack s /\ indexed s z)) as Hcase.
  { intros z. rewrite Hst, elem_of_app. intros [?|Hz]; [by left|right].
    split; [done|by apply (ti_indexed _ HI)]. }
  assert (forall z, z ∈ seg1 -> low_of s v <= index_of s1 z) as Hnew.
  { intros z Hz. assert (index_of s1 v < index_of s1 z) as Hlt.
    { apply (stack_app_index s1 seg1 (t_stack s)); [done|done|done|].
      rewrite (lo_stack _ _ _ _ _ _ L). set_solver. }
    rewrite (index_of_Some _ _ _ Hi1) in Hlt. pose proof (lo_le _ _ _ _ _ _ L). lia. }
  assert (forall z, indexed s z -> (z ∈ t_stack s -> low_of s v <= index_of s z) ->
            indexed s1 z /\ (z ∈ t_stack s1 -> low_of s v <= index_of s1 z)) as Hkeep.
  { intros z Hz Hle. split; [by eapply text_indexed|].
    intros [?|[Hzs _]]%Hcase; [by apply Hnew|]. rewrite (text_index_of _ _ _ Ht) by done. auto. }
  split.
  - by apply lower_inv.
  - apply lower_text; [by eapply text_trans|done].
  - done.
  - simpl. rewrite Hst, (lo_stack _ _ _ _ _ _ L). by rewrite app_assoc.
  - simpl. intros y [Hy|[Hy _]]%Hcase; [|by apply L].
    destruct (Hseg y Hy) as (_ & z & Hz & Hyz). etrans; [exact Hyz|by apply L].
  - intros y [Hy|Hy]%elem_of_app; [by apply Hseg|by apply L].
  - rewrite Hmin. pose proof (lo_le _ _ _ _ _ _ L). lia.
  - rewrite Hmin. simpl. destruct (decide (x s1 < low_of s v)) as [Hlt|Hge].
    + destruct (Hlow Hlt) as (z & Hz & Hiz & Hvz). exists z. rewrite Hst.
      split_and!; [set_solver| |done]. unfold index_of in *; simpl. lia.
    + destruct (lo_low _ _ _ _ _ _ L) as (z & Hz & Hiz & Hvz). exists z. rewrite Hst.
      split_and!; [set_solver| |done]. change (index_of (lower v x s1) z) with (index_of s1 z).
      rewrite (text_index_of _ _ _ Ht) by eauto using ti_indexed. lia.
  - rewrite Hmin. simpl. intros y z [Hy|Hy]%elem_of_app Hyz.
    + destruct (Hsucc y z Hy Hyz) as [? Hle]. split; [done|]. intros Hz.
      specialize (Hle Hz). change (index_of (lower v x s1) z) with (index_of s1 z). lia.
    + destruct (lo_succ _ _ _ _ _ _ L y z Hy Hyz) as [H1 H2].
      destruct (Hkeep z H1 H2) as [? Hle]. split; [done|]. intros Hz. specialize (Hle Hz).
      change (index_of (lower v x s1) z) with (index_of s1 z). lia.
  - rewrite Hmin. simpl. intros z [Hz|Hz]%elem_of_app.
    + destruct (lo_done _ _ _ _ _ _ L z Hz) as [H1 H2].
      destruct (Hkeep z H1 H2) as [? Hle]. split; [done|]. intros Hz'. specialize (Hle Hz').
      change (index_of (lower v x s1) z) with (index_of s1 z). lia.
    + apply list_elem_of_singleton in Hz as ->. split; [done|]. intros Hws.
      change (index_of (lower v x s1) w) with (index_of s1 w).
      apply Hcase in Hws as [Hws|[Hws _]]; [apply Hnew in Hws; lia|]. specialize (Hwl Hws). lia.
  - rewrite elem_of_app, list_elem_of_singleton. pose proof (lo_self _ _ _ _ _ _ L) as Hs.
    case_decide; naive_solver.
  - intros z [Hz|Hz]%elem_of_app; [by apply L|]. by apply list_elem_of_singleton in Hz as ->.
Qed.

(** An edge to a node of a finished component. *)
Lemma looping_skip s0 v ws self s seg w :
  looping s0 v ws self s seg -> E v w -> indexed s w -> w ∉ t_stack s ->
  looping s0 v (ws ++ [w]) (if decide (w = v) then true else self) s seg.
Proof.
  intros L He Hw Hn. destruct L. split; try done.
  - intros z [Hz|Hz]%elem_of_app; [by auto|]. by apply list_elem_of_singleton in Hz as ->.
  - rewrite elem_of_app, list_elem_of_singleton. case_decide; naive_solver.
  - intros z [Hz|Hz]%elem_of_app; [by auto|]. by apply list_elem_of_singleton in Hz as ->.
Qed.

Definition rec_ok (rec : N -> st tstate unit) : Prop :=
  forall v s u s', rec v s = Some (u, s') -> tinv s -> ~ indexed s v ->
    (forall y, y ∈ t_stack s -> rtc E y v) -> exists seg, connected s v s' seg.

(** The recursive call for an unvisited successor. *)
Lemma looping_rec s0 v ws self s seg w s1 seg1 :
  looping s0 v ws self s seg -> ~ indexed s0 v -> E v w -> ~ indexed s w ->
  connected s w s1 seg1 ->
  looping s0 v (ws ++ [w]) (if decide (w = v) then true else self)
    (lower v (fun s => low_of s w) s1) (seg1 ++ seg).
Proof.
  intros L Hv0 He Hw C.
  assert (seg1 <> [] -> exists x, x ∈ t_stack s /\ index_of s1 x = low_of s1 w /\ rtc E w x)
    as Hlow by apply C.
  eapply (looping_step _ _ _ _ _ _ _ _ _ _ L Hv0 He);
    [by apply C|by apply C|by apply C|..].
  - intros y Hy. destruct (co_reach _ _ _ _ C y Hy) as [H1 H2].
    split; [by eapply rtc_l|]. destruct Hlow as (x & Hx & _ & Hr); [by intros ->; apply elem_of_nil in Hy|].
    exists x. split; [done|]. by etrans.
  - intros Hlt. destruct (decide (seg1 = [])) as [->|Hne].
    + pose proof (co_popped _ _ _ _ C eq_refl) as Hp. pose proof (lo_le _ _ _ _ _ _ L) as Hle.
      pose proof (ti_next _ (lo_inv _ _ _ _ _ _ L) _ _ (lo_v _ _ _ _ _ _ L)). lia.
    + destruct (Hlow Hne) as (x & Hx & Hi & Hr). exists x. split_and!; [done|done|].
      by eapply rtc_l.
  - exact (co_succ _ _ _ _ C).
  - exact (co_v _ _ _ _ C).
  - intros Hws. destruct Hw. by apply (ti_indexed _ (lo_inv _ _ _ _ _ _ L)).
Qed.

Lemma connect_edges_spec rec v ws s0 ws0 self s seg self' s' :
  rec_ok rec -> ~ indexed s0 v -> looping s0 v ws0 self s seg -> (forall w, w ∈ ws -> E v w) ->
  connect_edges rec v ws self s = Some (self', s') ->
  exists seg', looping s0 v (ws0 ++ ws) self' s' seg'.
Proof.
  intros Hrec Hv0. revert ws0 self s seg.
  induction ws as [|w ws IH]; intros ws0 self s seg L He; cbn [connect_edges].
  { intros [= <- <-]. rewrite app_nil_r. eauto. }
  intros (s1 & ? & [= <- <-] & Hr)%bind_Some.
  apply bind_Some in Hr as (u & s1 & Hm & Hr).
  assert (E v w) as Hvw by (apply He; left).
  assert (forall seg1, looping s0 v (ws0 ++ [w]) (if decide (w = v) then true else self) s1 seg1 ->
          exists seg', looping s0 v (ws0 ++ w :: ws) self' s' seg') as Hk.
  { intros seg1 L1. destruct (IH _ _ _ _ L1) as [seg' L']; [set_solver|done|].
    exists seg'. by rewrite <- app_assoc in L'. }
  destruct (t_index s !! w) as [i|] eqn:Ei.
  - destruct (on_stack s w) eqn:Eo; injection Hm as <- <-.
    + apply (Hk ([] ++ seg)). pose proof (lo_inv _ _ _ _ _ _ L) as HI.
      apply (looping_step _ _ _ _ _ _ _ _ _ _ L Hv0 Hvw HI (text_refl s));
        try done; try (by intros y ?%elem_of_nil); try (by intros y z ?%elem_of_nil).
      * intros _. exists w. split_and!; [by apply HI|done|by apply rtc_once].
      * by exists i.
    + apply (Hk seg). apply looping_skip; [done|done|by exists i|].
      rewrite <- (ti_on _ (lo_inv _ _ _ _ _ _ L)). congruence.
  - apply bind_Some in Hm as (u' & s2 & Hm & [= <- <-]).
    assert (~ indexed s w) as Hw by (unfold indexed; rewrite Ei; by intros []).
    destruct (Hrec _ _ _ _ Hm) as [seg1 C]; [apply L|done| |].
    { intros y Hy. eapply rtc_r; [by apply L|done]. }
    by apply (Hk (seg1 ++ seg)), (looping_rec _ _ _ _ s).
Qed.

(** ** Leaving the loop *)
Lemma finish_keep s0 v self s seg :
  looping s0 v (edges v) self s seg -> low_of s v <> index_of s v ->
  connected s0 v s (seg ++ [v]).
Proof.
  intros L Hne. pose proof (lo_v _ _ _ _ _ _ L) as Hv. pose proof (lo_inv _ _ _ _ _ _ L) as HI.
  rewrite (index_of_Some _ _ _ Hv) in Hne. pose proof (lo_le _ _ _ _ _ _ L) as Hle.
  split.
  - done.
  - exact (lo_ext _ _ _ _ _ _ L).
  - by eexists.
  - rewrite <- app_assoc. exact (lo_stack _ _ _ _ _ _ L).
  - by destruct seg.
  - intros y [Hy|Hy]%elem_of_app.
    + split; [by apply L|]. apply L. rewrite (lo_stack _ _ _ _ _ _ L). set_solver.
    + by apply list_elem_of_singleton in Hy as ->.
  - intros _. destruct (lo_low _ _ _ _ _ _ L) as (x & Hx & Hi & Hr). exists x.
    split_and!; [|done|done]. eapply stack_index_lt; [done|exact (lo_stack _ _ _ _ _ _ L)|exact Hv|done|]. lia.
  - intros y x [Hy|Hy]%elem_of_app Hyx; [exact (lo_succ _ _ _ _ _ _ L y x Hy Hyx)|].
    apply list_elem_of_singleton in Hy as ->. exact (lo_done _ _ _ _ _ _ L x Hyx).
Qed.

Section finish_pop.
Context (s0 : tstate) (v : N) (self : bool) (s : tstate) (seg : list N).
Hypothesis L : looping s0 v (edges v) self s seg.
Hypothesis Hlow : low_of s v = index_of s v.
Hypothesis Hinv0 : tinv s0.

Let s' := pop_scc v self s.

Lemma pop_scc_until : pop_until v (t_stack s) = (seg ++ [v], t_stack s0).
Proof.
  rewrite (lo_stack _ _ _ _ _ _ L). apply pop_until_app. intros Hv.
  eapply (stack_disjoint s seg); [exact (lo_inv _ _ _ _ _ _ L)|exact (lo_stack _ _ _ _ _ _ L)|done|left].
Qed.

Lemma pop_scc_stack : t_stack s' = t_stack s0.
Proof. unfold s', pop_scc. by rewrite pop_scc_until. Qed.

Lemma pop_scc_index n : t_index s' !! n = t_index s !! n.
Proof. unfold s', pop_scc. by rewrite pop_scc_until. Qed.

Lemma stack_split : t_stack s = (seg ++ [v]) ++ t_stack s0.
Proof. rewrite <- app_assoc. apply (lo_stack _ _ _ _ _ _ L). Qed.

Lemma pop_scc_popped n : popped s' n <-> popped s n \/ n ∈ seg ++ [v].
Proof.
  unfold popped, indexed. rewrite pop_scc_index, pop_scc_stack, stack_split, (elem_of_app (seg ++ [v])).
  split.
  - intros [Hi Hn]. destruct (decide (n ∈ seg ++ [v])) as [|Hn']; [by right|left].
    split; [done|]. by intros [|].
  - intros [[Hi Hn]|Hn]; [split; [done|tauto]|]. split.
    + apply (ti_indexed _ (lo_inv _ _ _ _ _ _ L)). rewrite stack_split. set_solver.
    + eapply stack_disjoint; [apply (lo_inv _ _ _ _ _ _ L)|apply stack_split|done].
Qed.

(** The successors of the component lie in it or in finished components. *)
Lemma component_closed n m : n ∈ seg ++ [v] -> E n m -> popped s m \/ m ∈ seg ++ [v].
Proof.
  intros Hn He.
  assert (indexed s m /\ (m ∈ t_stack s -> low_of s v <= index_of s m)) as [Hm Hle].
  { apply elem_of_app in Hn as [Hn|Hn]; [by apply (lo_succ _ _ _ _ _ _ L n)|].
    apply list_elem_of_singleton in Hn as ->. by apply (lo_done _ _ _ _ _ _ L). }
  destruct (decide (m ∈ t_stack s)) as [Hs|Hs]; [right|by left].
  pose proof (lo_v _ _ _ _ _ _ L) as Hv.
  eapply stack_index_ge; [exact (lo_inv _ _ _ _ _ _ L)|exact (lo_stack _ _ _ _ _ _ L)|exact Hv|done|].
  rewrite Hlow, (index_of_Some _ _ _ Hv) in Hle. auto.
Qed.

Lemma component_reach n m : n ∈ seg ++ [v] -> rtc E n m -> popped s m \/ m ∈ seg ++ [v].
Proof.
  intros Hn Hr. induction Hr as [|x y z He Hr IH]; [by right|].
  destruct (component_closed _ _ Hn He) as [Hp|?]; [|by apply IH]. left.
  apply rtc_tc in Hr as [->|Hr]; [done|]. eapply popped_tc; [exact (lo_inv _ _ _ _ _ _ L)|done|done].
Qed.

Lemma component_linked n m : n ∈ seg ++ [v] -> linked n m -> m ∈ seg ++ [v].
Proof.
  intros Hn [H1 H2]. destruct (component_reach _ _ Hn (tc_rtc _ _ H1)) as [Hp|?]; [|done].
  assert (popped s n) as [_ Hns] by (eapply popped_tc; [exact (lo_inv _ _ _ _ _ _ L)|exact Hp|done]).
  destruct Hns. rewrite stack_split. set_solver.
Qed.

Lemma component_connected a b : a ∈ seg ++ [v] -> b ∈ seg ++ [v] -> rtc E a b.
Proof.
  intros Ha Hb. trans v.
  - apply (lo_up _ _ _ _ _ _ L). rewrite stack_split. set_solver.
  - apply elem_of_app in Hb as [Hb|Hb]; [by apply L|].
    by apply list_elem_of_singleton in Hb as ->.
Qed.

(** A component that is not kept has no cycle. *)
Lemma component_dropped n m :
  (1 <? length (seg ++ [v])) || self = false -> n ∈ seg ++ [v] -> linked n m -> False.
Proof.
  intros [Hlen Hself]%orb_false_iff Hn Hl.
  rewrite length_app in Hlen. simpl in Hlen. apply Nat.ltb_ge in Hlen.
  assert (seg = []) as Hseg by (apply nil_length_inv; lia).
  pose proof (component_linked _ _ Hn Hl) as Hm. rewrite Hseg in Hn, Hm.
  apply list_elem_of_singleton in Hn as ->. apply list_elem_of_singleton in Hm as ->.
  assert (~ E v v) as Hno.
  { intros He. pose proof (proj2 (lo_self _ _ _ _ _ _ L) He). congruence. }
  destruct Hl as [[|(y & He & Hr)]%tc_step_inv _]; [done|].
  destruct (component_closed v y) as [Hp|Hy]; [set_solver|done| |].
  - assert (popped s v) as [_ Hv] by (eapply popped_tc; [exact (lo_inv _ _ _ _ _ _ L)|exact Hp|done]).
    destruct Hv. rewrite stack_split. set_solver.
  - rewrite Hseg in Hy. by apply list_elem_of_singleton in Hy as ->.
Qed.

Lemma component_kept a b :
  (1 <? length (seg ++ [v])) || self = true ->
  a ∈ seg ++ [v] -> b ∈ seg ++ [v] -> tc E a b.
Proof.
  intros Hkeep.
  assert (tc E v v) as Hv.
  { destruct (decide (seg = [])) as [Es|(x & Hx)%list_exists_elem].
    - rewrite Es in Hkeep. simpl in Hkeep.
      apply tc_once, (lo_edges _ _ _ _ _ _ L). by apply (lo_self _ _ _ _ _ _ L).
    - assert (rtc E v x) as H1 by (apply component_connected; set_solver).
      assert (rtc E x v) as H2 by (apply component_connected; set_solver).
      apply rtc_tc in H1 as [Heq|H1]; [|by eapply tc_rtc_r]. exfalso.
      eapply (stack_disjoint s seg (v :: t_stack s0) x);
        [exact (lo_inv _ _ _ _ _ _ L)|exact (lo_stack _ _ _ _ _ _ L)|done|].
      rewrite <- Heq. left. }
  intros Ha Hb. eapply tc_rtc_l; [apply (component_connected a v); set_solver|].
  eapply tc_rtc_r; [exact Hv|]. apply (component_connected v b); set_solver.
Qed.

Lemma pop_scc_cyclic scc :
  scc ∈ t_cyclic s' <->
  scc ∈ t_cyclic s \/ (scc = seg ++ [v] /\ (1 <? length (seg ++ [v])) || self = true).
Proof.
  unfold s', pop_scc. rewrite pop_scc_until; simpl.
  destruct (_ || self); [rewrite elem_of_app, list_elem_of_singleton|]; naive_solver.
Qed.

Lemma pop_scc_inv : tinv s'.
Proof.
  pose proof (lo_inv _ _ _ _ _ _ L) as HI. pose proof (lo_ext _ _ _ _ _ _ L) as Ht.
  assert (forall n, index_of s' n = index_of s n) as Hio.
  { intros n. unfold index_of. by rewrite pop_scc_index. }
  split.
  - intros n. rewrite pop_scc_stack. unfold on_stack, s', pop_scc. rewrite pop_scc_until; simpl.
    rewrite on_stack_foldl. pose proof (ti_on _ HI n) as Hon. rewrite stack_split in Hon.
    pose proof (stack_disjoint s _ _ n HI stack_split).
    unfold on_stack in Hon. case_decide; set_solver.
  - intros n. rewrite pop_scc_stack. unfold indexed. rewrite pop_scc_index. intros Hn.
    by apply (text_indexed _ _ _ Ht), (ti_indexed _ Hinv0).
  - rewrite pop_scc_stack. pose proof (ti_sorted _ HI) as Hs. rewrite stack_split in Hs.
    apply StronglySorted_app_1_r in Hs. revert Hs. generalize (t_stack s0) as l.
    induction 1 as [|x l Hl IH HF]; constructor; [done|].
    eapply Forall_impl; [exact HF|]. intros y. unfold above. by rewrite !Hio.
  - intros n i. rewrite pop_scc_index. unfold s', pop_scc. rewrite pop_scc_until. apply HI.
  - intros n m. rewrite !pop_scc_popped. intros [Hn|Hn] He; [left|by eapply component_closed].
    by eapply (ti_closed _ HI).
  - intros n m. rewrite pop_scc_popped. intros Hn Hl.
    destruct (decide (n ∈ seg ++ [v])) as [Hs|Hs].
    + destruct ((1 <? length (seg ++ [v])) || self) eqn:Ek;
        [|by exfalso; eapply component_dropped].
      exists (seg ++ [v]). rewrite pop_scc_cyclic. split_and!; [by right|done|].
      by eapply component_linked.
    + destruct Hn as [Hn|]; [|done]. destruct (ti_complete _ HI n m Hn Hl) as (scc & ? & ?).
      exists scc. rewrite pop_scc_cyclic. split; [by left|done].
  - intros scc a b. rewrite pop_scc_cyclic. intros [Hs|[-> Hk]]; [by apply HI|].
    by apply component_kept.
  - intros scc a. rewrite pop_scc_cyclic, pop_scc_popped. intros [Hs|[-> Hk]] Ha; [|by right].
    left. by eapply (ti_popped _ HI).
Qed.

Lemma finish_pop : connected s0 v s' [].
Proof.
  pose proof (lo_v _ _ _ _ _ _ L) as Hv.
  assert (low_of s v = t_next s0) as Hl0 by (by rewrite Hlow, (index_of_Some _ _ _ Hv)).
  assert (forall n, low_of s' n = low_of s n) as Hl.
  { intros n. unfold s', pop_scc. by rewrite pop_scc_until. }
  split.
  - apply pop_scc_inv.
  - destruct (lo_ext _ _ _ _ _ _ L) as [A B C]. split.
    + intros n i Hi. rewrite pop_scc_index. by apply A.
    + intros n Hn. rewrite Hl. by apply B.
    + unfold s', pop_scc. by rewrite pop_scc_until.
  - eexists. by rewrite pop_scc_index.
  - by rewrite pop_scc_stack.
  - intros _. rewrite Hl. lia.
  - by intros y ?%elem_of_nil.
  - done.
  - by intros y x ?%elem_of_nil.
Qed.
End finish_pop.

Lemma strongConnect_ok fuel : rec_ok (strongConnect fuel).
Proof.
  induction fuel as [|fuel IH]; intros v s u s' Hs HI Hv Hup; cbn [strongConnect] in Hs; [done|].
  apply bind_Some in Hs as (? & ? & [= <- <-] & Hs).
  apply bind_Some in Hs as (self & s1 & Hc & Hs).
  apply bind_Some in Hs as (? & ? & [= <- <-] & Hs).
  destruct (connect_edges_spec _ _ _ s _ _ _ _ _ _ IH Hv (looping_start _ _ HI Hv Hup)
              (fun w H => H) Hc) as [seg L].
  case_decide as Hl; injection Hs as <- <-.
  - exists []. by eapply finish_pop.
  - exists (seg ++ [v]). by eapply finish_keep.
Qed.

(** ** The loop over all nodes *)
Lemma tinit_inv : tinv tinit.
Proof.
  assert (forall n, ~ indexed tinit n) as Hno.
  { intros n. unfold indexed; simpl. rewrite lookup_empty. by intros []. }
  split; simpl.
  - intros n. unfold on_stack; simpl. rewrite lookup_empty. set_solver.
  - by intros n ?%elem_of_nil.
  - constructor.
  - intros n i. by rewrite lookup_empty.
  - intros n m [Hn _]. by apply Hno in Hn.
  - intros n m [Hn _]. by apply Hno in Hn.
  - by intros scc a b ?%elem_of_nil.
  - by intros scc a ?%elem_of_nil.
Qed.

Lemma connect_all_ok fuel ns s u s' :
  connect_all fuel ns s = Some (u, s') -> tinv s -> t_stack s = [] ->
  tinv s' /\ t_stack s' = [] /\ text s s' /\ forall n, n ∈ ns -> indexed s' n.
Proof.
  unfold connect_all. revert s. induction ns as [|n ns IH]; intros s; cbn [fold_st].
  - intros [= <- <-] HI Hst. split_and!; [done|done|apply text_refl|]. by intros n ?%elem_of_nil.
  - intros ([] & s1 & Hn & Hr)%bind_Some HI Hst.
    apply bind_Some in Hn as (? & ? & [= <- <-] & Hn).
    assert (tinv s1 /\ t_stack s1 = [] /\ text s s1 /\ indexed s1 n) as (HI1 & Hst1 & Ht1 & Hi1).
    { destruct (t_index s !! n) as [i|] eqn:Ei.
      - injection Hn as <-. split_and!; [done|done|apply text_refl|by exists i].
      - destruct (strongConnect_ok _ _ _ _ _ Hn HI) as [seg C].
        + unfold indexed. rewrite Ei. by intros [].
        + rewrite Hst. by intros y ?%elem_of_nil.
        + assert (seg = []) as ->.
          { destruct (decide (seg = [])) as [|Hne]; [done|].
            destruct (co_low _ _ _ _ C Hne) as (x & Hx & _). rewrite Hst in Hx.
            nil_elem. }
          split_and!; [exact (co_inv _ _ _ _ C)|by rewrite (co_stack _ _ _ _ C)| |].
          * exact (co_ext _ _ _ _ C).
          * exact (co_v _ _ _ _ C). }
    destruct (IH s1 Hr HI1 Hst1) as (? & ? & Ht & Hns).
    split_and!; [done|done|by eapply text_trans|]. intros m [->|Hm]%elem_of_cons; [|by auto].
    by eapply text_indexed.
Qed.

Lemma tarjan_ok nodes cyclic :
  tarjan nodes = Some cyclic ->
  (forall scc a b, scc ∈ cyclic -> a ∈ scc -> b ∈ scc -> tc E a b) /\
  (forall n m, n ∈ nodes -> linked n m -> exists scc, scc ∈ cyclic /\ n ∈ scc /\ m ∈ scc).
Proof.
  unfold tarjan. intros ([[] s] & Hc & ->)%fmap_Some_1.
  destruct (connect_all_ok _ _ _ _ _ Hc tinit_inv eq_refl) as (HI & Hst & _ & Hns).
  split; [apply (ti_sound _ HI)|]. intros n m Hn. apply (ti_complete _ HI).
  split; [by apply Hns|]. rewrite Hst. by intros ?%elem_of_nil.
Qed.

(** ** Termination *)
Section total.
Variable U : list N.
Hypothesis U_closed : forall n m, n ∈ U -> E n m -> m ∈ U.

Definition fresh (s : tstate) : nat := length (filter (fun n => t_index s !! n = None) U).

Definition igrows (s s' : tstate) : Prop := forall n, t_index s' !! n = None -> t_index s !! n = None.

Lemma fresh_grows s s' : igrows s s' -> fresh s' <= fresh s.
Proof. intros Hg. apply filter_length_mono. intros n _. apply Hg. Qed.

Lemma tpush_grows v s : igrows s (tpush v s).
Proof. intros n. rewrite tpush_index. by case_decide. Qed.

Lemma fresh_push v s : v ∈ U -> t_index s !! v = None -> fresh (tpush v s) < fresh s.
Proof.
  intros Hv Hs. apply (filter_length_strict _ _ _ v); [|done|done|].
  - intros n _. apply tpush_grows.
  - rewrite tpush_index. by rewrite decide_True.
Qed.

Lemma pop_scc_grows v b s : igrows s (pop_scc v b s).
Proof. intros n. unfold pop_scc. by destruct (pop_until v (t_stack s)). Qed.

Definition rec_total (rec : N -> st tstate unit) (bound : nat) : Prop :=
  forall v s, v ∈ U -> t_index s !! v = None -> fresh s <= bound ->
    exists s', rec v s = Some (tt, s') /\ igrows s s'.

Lemma connect_edges_total rec bound v ws self s :
  rec_total rec bound -> (forall w, w ∈ ws -> w ∈ U) -> fresh s <= bound ->
  exists self' s', connect_edges rec v ws self s = Some (self', s') /\ igrows s s'.
Proof.
  intros Hrec. revert self s. induction ws as [|w ws IH]; intros self s HU Hw; cbn [connect_edges].
  { do 2 eexists. split; [done|]. by intros n. }
  unfold mbind, st_bind, get_st; simpl.
  assert (forall s1 b, igrows s s1 ->
    exists self' s', connect_edges rec v ws b s1 = Some (self', s') /\ igrows s s') as Hk.
  { intros s1 b Hg. destruct (IH b s1) as (b' & s' & Hr & Hg'); [set_solver| |].
    - apply fresh_grows in Hg. lia.
    - exists b', s'. split; [done|]. intros n Hn. by apply Hg, Hg'. }
  destruct (t_index s !! w) as [i|] eqn:Ei.
  - destruct (on_stack s w); apply Hk; by intros n.
  - destruct (Hrec w s) as (s1 & -> & Hg); [set_solver|done|done|]. apply Hk.
    intros n Hn. by apply Hg.
Qed.

Lemma strongConnect_total fuel : rec_total (strongConnect fuel) fuel.
Proof.
  induction fuel as [|fuel IH]; intros v s Hv Hs Hw.
  { pose proof (fresh_push v s Hv Hs). lia. }
  cbn [strongConnect]. unfold mbind, st_bind, modify_st, get_st; simpl.
  destruct (connect_edges_total _ _ v (edges v) false (tpush v s) IH) as (b & s1 & -> & Hg).
  { intros w Hw'. by apply (U_closed v). }
  { pose proof (fresh_push v s Hv Hs). lia. }
  assert (igrows s s1) as Hg1 by (intros n Hn; by apply (tpush_grows v), Hg).
  case_decide; eexists; (split; [done|]); [|done].
  intros n Hn. by apply Hg1, (pop_scc_grows v b).
Qed.

Lemma connect_all_total fuel ns s :
  (forall n, n ∈ ns -> n ∈ U) -> fresh s <= fuel -> is_Some (connect_all fuel ns s).
Proof.
  unfold connect_all. revert s. induction ns as [|n ns IH]; intros s HU Hw; cbn [fold_st]; [eauto|].
  unfold mbind, st_bind, get_st; simpl.
  destruct (t_index s !! n) eqn:En; simpl; [apply IH; [set_solver|done]|].
  destruct (strongConnect_total fuel n s) as (s1 & -> & Hg); [set_solver|done|done|].
  apply IH; [set_solver|]. apply fresh_grows in Hg. lia.
Qed.
End total.

Lemma tarjan_total nodes :
  (forall n m, n ∈ nodes -> E n m -> m ∈ nodes) -> is_Some (tarjan nodes).
Proof.
  intros HU. unfold tarjan. apply fmap_is_Some. apply (connect_all_total nodes HU); [done|].
  unfold fresh. etrans; [apply length_filter|]. lia.
Qed.
End tarjan.
