(* ===== verification/Contract.v ===== *)
(** * Operational contracts (pkg/operations/contract.go)

    The data of a contract, its lookups, [localCycle] and [Validate].
    [Validate_spec] states exactly which contracts have no defect. *)

From S2P Require Import Prelude Identity Predicate LocalCycle.

Record DependencySlot := { ds_Name : string }.

Record DependencyRequirement := {
  dr_Slot : string;
  dr_Capability : CapabilityType;
}.

Abbreviation Impact := string (only parsing).
Definition ImpactDegraded : Impact := "DEGRADED".
Definition ImpactUnavailable : Impact := "UNAVAILABLE".

(** The Go pointers are optional values: nothing compares or mutates them. *)
Record Requirement := {
  r_Predicate : option Predicate;
  r_Dependency : option DependencyRequirement;
  r_LocalCapability : string;
  r_Envelope : string;
  r_OnUnmet : Impact;
}.

Record Capability := {
  cp_Type : CapabilityType;
  cp_Requirements : list Requirement;
}.

Abbreviation EnvelopeClass := string (only parsing).
Definition EnvelopeMinimum : EnvelopeClass := "Minimum".
Definition EnvelopeRecommended : EnvelopeClass := "Recommended".

Record Envelope := {
  env_Name : string;
  env_Class : EnvelopeClass;
  env_Requirements : list Predicate;
}.

Record Contract := {
  c_Identity : ContractIdentity;
  c_Assertions : list AssertionSlot;
  c_DependencySlots : list DependencySlot;
  c_Capabilities : list Capability;
  c_Envelopes : list Envelope;
}.

(** ** Lookups: the first element with the name.  A Go [(v, ok)] pair is an
    option; where the source drops [ok], the zero value is used. *)
Definition capability (c : Contract) (name : string) : option Capability :=
  List.find (fun cp => bool_decide (ct_Name (cp_Type cp) = name)) (c_Capabilities c).

Definition capabilityByType (c : Contract) (t : CapabilityType) : option Capability :=
  List.find (fun cp => bool_decide (cp_Type cp = t)) (c_Capabilities c).

Definition slot (c : Contract) (name : string) : option AssertionSlot :=
  List.find (fun s => bool_decide (s_Name s = name)) (c_Assertions c).

Definition envelope (c : Contract) (name : string) : option Envelope :=
  List.find (fun e => bool_decide (env_Name e = name)) (c_Envelopes c).

Definition zero_Capability : Capability := Build_Capability zero_CapabilityType [].
Definition zero_Envelope : Envelope := Build_Envelope "" "" [].

(** ** localCycle *)

(** The local capabilities [visit(n)] follows: the declared ones the
    requirements of [n] name. *)
Definition local_succ (c : Contract) (n : string) : list string :=
  m ← r_LocalCapability <$> cp_Requirements (default zero_Capability (capability c n));
  if decide (m = "") then []
  else match capability c m with Some _ => [m] | None => [] end.

Definition cap_names (c : Contract) : list string :=
  (fun cp => ct_Name (cp_Type cp)) <$> c_Capabilities c.

Definition localCycle (c : Contract) : list string :=
  default [] (local_cycle (local_succ c) (cap_names c)).

(** ** Validate *)
Section validate.
Context `{GoText}.

Definition slot_errs (s : AssertionSlot) : list string :=
  (if is_op [TypeBoolean; TypeInteger] (s_Type s) then
     add_if (0 <? length (s_Enum s))
       ("assertion " +:+ quote (s_Name s) +:+ ": enum is only valid for String")
   else if decide (s_Type s = TypeString) then []
   else ["assertion " +:+ quote (s_Name s) +:+ ": unknown value type " +:+ quote (s_Type s)]) ++
  add_if (Z.leb (s_MaxAge s) 0)
    ("assertion " +:+ quote (s_Name s) +:+ ": maxAge must be positive").

Definition slot_step (slots : gmap string AssertionSlot) (s : AssertionSlot) :
    list string * gmap string AssertionSlot :=
  if decide (s_Name s = "") then (["assertion slot with empty name"], slots)
  else if decide (s_Name (default zero_AssertionSlot (slots !! s_Name s)) <> "") then
    (["duplicate assertion slot " +:+ quote (s_Name s)], slots)
  else (slot_errs s, <[s_Name s := s]> slots).

(** Reading a Go map[string]bool. *)
Definition has {K} `{Countable K} (m : gmap K bool) (k : K) : bool := default false (m !! k).

Definition dep_step (depSlots : gmap string bool) (d : DependencySlot) :
    list string * gmap string bool :=
  if negb (nonempty (ds_Name d)) || has depSlots (ds_Name d) then
    (["dependency slot " +:+ quote (ds_Name d) +:+ " empty or duplicate"], depSlots)
  else ([], <[ds_Name d := true]> depSlots).

Definition predicate_errs (slots : gmap string AssertionSlot) (where_ : string) (p : Predicate) :
    list string :=
  match validate p slots with Some err => [where_ +:+ ": " +:+ err] | None => [] end.

Definition envelope_step (slots : gmap string AssertionSlot) (envelopes : gmap string bool)
    (e : Envelope) : list string * gmap string bool :=
  if negb (nonempty (env_Name e)) || has envelopes (env_Name e) then
    (["envelope " +:+ quote (env_Name e) +:+ " empty or duplicate"], envelopes)
  else
    (add_if (negb (bool_decide (env_Class e = EnvelopeMinimum)) &&
             negb (bool_decide (env_Class e = EnvelopeRecommended)))
       ("envelope " +:+ quote (env_Name e) +:+ ": unknown class " +:+ quote (env_Class e)) ++
     add_if (bool_decide (length (env_Requirements e) = 0))
       ("envelope " +:+ quote (env_Name e) +:+ " has no requirements") ++
     mjoin (predicate_errs slots ("envelope " +:+ quote (env_Name e)) <$> env_Requirements e),
     <[env_Name e := true]> envelopes).

Definition name_step (seen : gmap string bool * gmap CapabilityType bool) (cp : Capability) :
    list string * (gmap string bool * gmap CapabilityType bool) :=
  let '(byName, byType) := seen in
  let t := cp_Type cp in
  (add_if (negb (CapabilityType_complete t))
     ("capability " +:+ quote (CapabilityType_String t) +:+
      ": type must set domain, name and revision") ++
   add_if (has byName (ct_Name t) || has byType t)
     ("duplicate capability " +:+ quote (CapabilityType_String t)),
   (<[ct_Name t := true]> byName, <[t := true]> byType)).

Definition kinds (r : Requirement) : nat :=
  (if r_Predicate r is Some _ then 1 else 0) + (if r_Dependency r is Some _ then 1 else 0) +
  (if nonempty (r_LocalCapability r) then 1 else 0) +
  (if nonempty (r_Envelope r) then 1 else 0).

Definition requirement_errs (slots : gmap string AssertionSlot)
    (depSlots envelopes byName : gmap string bool) (where_ : string) (r : Requirement) :
    list string :=
  add_if (negb (bool_decide (r_OnUnmet r = ImpactDegraded)) &&
          negb (bool_decide (r_OnUnmet r = ImpactUnavailable)))
    (where_ +:+ ": onUnmet must be DEGRADED or UNAVAILABLE, got " +:+ quote (r_OnUnmet r)) ++
  match r_Predicate r with Some p => predicate_errs slots where_ p | None => [] end ++
  match r_Dependency r with
  | Some d =>
      add_if (negb (has depSlots (dr_Slot d)))
        (where_ +:+ ": undeclared dependency slot " +:+ quote (dr_Slot d)) ++
      add_if (negb (CapabilityType_complete (dr_Capability d)))
        (where_ +:+ ": dependency capability must be fully qualified")
  | None => []
  end ++
  add_if (nonempty (r_LocalCapability r) && negb (has byName (r_LocalCapability r)))
    (where_ +:+ ": undeclared local capability " +:+ quote (r_LocalCapability r)) ++
  add_if (nonempty (r_Envelope r) && negb (has envelopes (r_Envelope r)))
    (where_ +:+ ": undeclared envelope " +:+ quote (r_Envelope r)) ++
  add_if (negb (bool_decide (kinds r = 1)))
    (where_ +:+ ": must reference exactly one of predicate, dependency, local capability or envelope").

Definition capability_errs (slots : gmap string AssertionSlot)
    (depSlots envelopes byName : gmap string bool) (cp : Capability) : list string :=
  let q := quote (CapabilityType_String (cp_Type cp)) in
  add_if (bool_decide (length (cp_Requirements cp) = 0))
    ("capability " +:+ q +:+ " has no requirements") ++
  mjoin (imap (fun i r =>
    requirement_errs slots depSlots envelopes byName
      ("capability " +:+ q +:+ " requirement " +:+ pretty i) r) (cp_Requirements cp)).

Definition Validate (c : Contract) : list string :=
  let identity_errs := add_if (negb (ContractIdentity_complete (c_Identity c)))
    "contract identity must set namespace, name, uid and specDigest" in
  let '(slot_errs, slots) := collect slot_step ∅ (c_Assertions c) in
  let '(dep_errs, depSlots) := collect dep_step ∅ (c_DependencySlots c) in
  let '(env_errs, envelopes) := collect (envelope_step slots) ∅ (c_Envelopes c) in
  let '(name_errs, (byName, byType)) := collect name_step (∅, ∅) (c_Capabilities c) in
  let req_errs := mjoin (capability_errs slots depSlots envelopes byName <$> c_Capabilities c) in
  let cyc := localCycle c in
  identity_errs ++ slot_errs ++ dep_errs ++ env_errs ++ name_errs ++ req_errs ++
  add_if (0 <? length cyc) ("capability dependency cycle: " +:+ show_strings cyc).
End validate.

(** ** Specification: the well-formed contracts *)
Definition wf_slot (s : AssertionSlot) : Prop :=
  s_Name s <> "" /\ s_Type s ∈ [TypeBoolean; TypeInteger; TypeString] /\
  (s_Enum s <> [] -> s_Type s = TypeString) /\ (0 < s_MaxAge s)%Z.

Definition wf_predicate (c : Contract) (p : Predicate) : Prop :=
  exists s o, slot c (p_Assertion p) = Some s /\ well_typed s p o.

Definition wf_envelope (c : Contract) (e : Envelope) : Prop :=
  env_Name e <> "" /\ env_Class e ∈ [EnvelopeMinimum; EnvelopeRecommended] /\
  env_Requirements e <> [] /\ Forall (wf_predicate c) (env_Requirements e).

(** What a requirement refers to: exactly one of the four kinds. *)
Inductive reference :=
  | RefPredicate (p : Predicate)
  | RefDependency (d : DependencyRequirement)
  | RefLocal (name : string)
  | RefEnvelope (name : string).

Definition refers (r : Requirement) (f : reference) : Prop :=
  match f with
  | RefPredicate p => r_Predicate r = Some p /\ r_Dependency r = None /\
                      r_LocalCapability r = "" /\ r_Envelope r = ""
  | RefDependency d => r_Predicate r = None /\ r_Dependency r = Some d /\
                       r_LocalCapability r = "" /\ r_Envelope r = ""
  | RefLocal n => r_Predicate r = None /\ r_Dependency r = None /\
                  r_LocalCapability r = n /\ n <> "" /\ r_Envelope r = ""
  | RefEnvelope n => r_Predicate r = None /\ r_Dependency r = None /\
                     r_LocalCapability r = "" /\ r_Envelope r = n /\ n <> ""
  end.

Definition wf_reference (c : Contract) (f : reference) : Prop :=
  match f with
  | RefPredicate p => wf_predicate c p
  | RefDependency d => (exists s, s ∈ c_DependencySlots c /\ ds_Name s = dr_Slot d) /\
                       CapabilityType_complete (dr_Capability d) = true
  | RefLocal n => n ∈ cap_names c
  | RefEnvelope n => exists e, e ∈ c_Envelopes c /\ env_Name e = n
  end.

Definition wf_requirement (c : Contract) (r : Requirement) : Prop :=
  r_OnUnmet r ∈ [ImpactDegraded; ImpactUnavailable] /\
  exists f, refers r f /\ wf_reference c f.

Definition wf_capability (c : Contract) (cp : Capability) : Prop :=
  CapabilityType_complete (cp_Type cp) = true /\ cp_Requirements cp <> [] /\
  Forall (wf_requirement c) (cp_Requirements cp).

Record wf_contract (c : Contract) : Prop := {
  wf_identity : ContractIdentity_complete (c_Identity c) = true;
  wf_slots : Forall wf_slot (c_Assertions c);
  wf_slot_names : NoDup (s_Name <$> c_Assertions c);
  wf_deps : Forall (fun d => ds_Name d <> "") (c_DependencySlots c);
  wf_dep_names : NoDup (ds_Name <$> c_DependencySlots c);
  wf_envelopes : Forall (wf_envelope c) (c_Envelopes c);
  wf_envelope_names : NoDup (env_Name <$> c_Envelopes c);
  wf_capabilities : Forall (wf_capability c) (c_Capabilities c);
  wf_cap_names : NoDup (cap_names c);
  wf_acyclic : acyclic (local_succ c);
}.

(** * Lemmas *)
Lemma add_if_nil b msg : add_if b msg = [] <-> b = false.
Proof. by destruct b. Qed.

Lemma app_nil_iff {A} (l1 l2 : list A) : l1 ++ l2 = [] <-> l1 = [] /\ l2 = [].
Proof. split; [by apply app_nil|by intros [-> ->]]. Qed.

Lemma mjoin_nil_iff {A B} (f : A -> list B) l :
  mjoin (f <$> l) = [] <-> Forall (fun a => f a = []) l.
Proof.
  induction l as [|a l IH]; simpl; [done|]. by rewrite app_nil_iff, IH, Forall_cons.
Qed.

Lemma mjoin_imap_nil_iff {A B} (f : nat -> A -> list B) (P : A -> Prop) l :
  (forall i a, f i a = [] <-> P a) -> mjoin (imap f l) = [] <-> Forall P l.
Proof.
  revert f. induction l as [|a l IH]; intros f Hf; [done|].
  rewrite imap_cons. simpl. rewrite app_nil_iff, Forall_cons, Hf.
  by rewrite (IH (f ∘ S)); [|intros i; apply Hf].
Qed.

Lemma negb_bool_decide_false (P : Prop) `{Decision P} : negb (bool_decide P) = false <-> P.
Proof. by rewrite negb_false_iff, bool_decide_eq_true. Qed.

Lemma elem_of_pair_list {A} (x a b : A) : x ∈ [a; b] <-> x = a \/ x = b.
Proof. rewrite !elem_of_cons, elem_of_nil. tauto. Qed.

Lemma NoDup_fmap_cons {A B} (f : A -> B) a l :
  NoDup (f <$> a :: l) <-> (forall x, x ∈ l -> f x <> f a) /\ NoDup (f <$> l).
Proof.
  rewrite fmap_cons, NoDup_cons, list_elem_of_fmap. split; intros [Hn Hd]; (split; [|done]).
  - intros x Hx Heq. apply Hn. by exists x.
  - intros (x & Heq & Hx). by apply (Hn x).
Qed.

(** ** The loop over the assertion slots *)
Section loops.
Context `{GoText}.

Lemma slot_errs_nil s :
  s_Name s <> "" -> slot_errs s = [] <-> wf_slot s.
Proof.
  intros Hn. unfold slot_errs, wf_slot, is_op. rewrite app_nil_iff, add_if_nil.
  rewrite (Z.leb_gt (s_MaxAge s) 0).
  case_bool_decide as Ht; [|case_decide as Hs].
  - rewrite add_if_nil, Nat.ltb_ge, Nat.le_0_r, length_zero_iff_nil.
    apply elem_of_pair_list in Ht. rewrite elem_of_cons, elem_of_pair_list. split.
    + intros [He ?]. split_and!; [done|destruct Ht; tauto|by intros Hne|done].
    + intros (_ & _ & He & ?). split; [|done]. destruct (s_Enum s); [done|].
      destruct Ht as [Ht|Ht]; rewrite Ht in He; by specialize (He ltac:(done)).
  - rewrite elem_of_cons, elem_of_pair_list. rewrite Hs. tauto.
  - rewrite elem_of_pair_list in Ht. rewrite elem_of_cons, elem_of_pair_list.
    split; [by intros []|]. tauto.
Qed.

Definition slots_inv (m : gmap string AssertionSlot) : Prop :=
  forall n s, m !! n = Some s -> s_Name s = n /\ n <> "".

Definition by_name (n : string) (s : AssertionSlot) : bool := bool_decide (s_Name s = n).

Lemma slot_loop l m errs m' :
  slots_inv m -> collect slot_step m l = (errs, m') ->
  (errs = [] <-> Forall wf_slot l /\ NoDup (s_Name <$> l) /\
                 forall s, s ∈ l -> m !! s_Name s = None) /\
  (errs = [] -> forall n, m' !! n = match m !! n with
                                    | Some s => Some s
                                    | None => List.find (by_name n) l
                                    end).
Proof.
  revert m errs m'. induction l as [|s l IH]; intros m errs m' Hm; cbn [collect].
  { intros [= <- <-]. split.
    - split; [|done]. intros _. split_and!; [constructor|constructor|by intros ? ?%elem_of_nil].
    - intros _ n. by destruct (m !! n). }
  rewrite Forall_cons, NoDup_fmap_cons. unfold slot_step at 1.
  case_decide as Hn; [|case_decide as Hdup].
  - destruct (collect slot_step m l) eqn:E. intros [= <- <-]. split; [|done].
    split; [done|]. by intros ([[? _] _] & _).
  - destruct (collect slot_step m l) eqn:E. intros [= <- <-]. split; [|done].
    split; [done|]. intros (_ & _ & Hnone). by rewrite (Hnone s) in Hdup by left.
  - assert (m !! s_Name s = None) as Hnone.
    { destruct (m !! s_Name s) as [s'|] eqn:Es0; [|done].
      pose proof (Hm _ _ Es0) as [Es ?]. simpl in Hdup. congruence. }
    destruct (collect slot_step (<[s_Name s:=s]> m) l) as [errs1 m1] eqn:E.
    intros [= <- <-]. apply IH in E as [H1 H2].
    2:{ intros n s'. rewrite lookup_insert. case_decide; [|apply Hm]. by intros [= <-]; subst. }
    rewrite app_nil_iff, slot_errs_nil by done. split.
    + rewrite H1. split.
      * intros (? & ? & ? & Hl). split_and!; try done.
        -- intros x Hx Heq. specialize (Hl x Hx). by rewrite Heq, lookup_insert_eq in Hl.
        -- intros x [->|Hx]%elem_of_cons; [done|]. specialize (Hl x Hx).
           rewrite lookup_insert in Hl. by case_decide.
      * intros ([? ?] & [Hne ?] & Hl). split_and!; try done. intros x Hx.
        rewrite lookup_insert_ne; [apply Hl; by right|]. intros Heq. by apply (Hne x).
    + intros [Hs He] n. rewrite H2 by done. rewrite lookup_insert. simpl. unfold by_name at 2.
      case_decide as Heq.
      * subst n. by rewrite Hnone, bool_decide_true.
      * by rewrite (bool_decide_false (s_Name s = n)).
Qed.

(** ** The loops over named things that must be non-empty and unique *)
Lemma has_insert (m : gmap string bool) k k' :
  has (<[k:=true]> m) k' = true <-> k' = k \/ has m k' = true.
Proof.
  unfold has. rewrite lookup_insert. case_decide; subst; simpl; naive_solver.
Qed.

Lemma named_loop {A} (key : A -> string) (msg : A -> string) (body : A -> list string)
    (step : gmap string bool -> A -> list string * gmap string bool) l m errs m' :
  (forall m a, step m a = if negb (nonempty (key a)) || has m (key a) then ([msg a], m)
                          else (body a, <[key a := true]> m)) ->
  collect step m l = (errs, m') ->
  (errs = [] <-> Forall (fun a => key a <> "" /\ body a = []) l /\ NoDup (key <$> l) /\
                 forall a, a ∈ l -> has m (key a) = false) /\
  (errs = [] -> forall k, has m' k = true <-> has m k = true \/ exists a, a ∈ l /\ key a = k).
Proof.
  intros Hstep. revert m errs m'. induction l as [|a l IH]; intros m errs m'; cbn [collect].
  { intros [= <- <-]. split.
    - split; [|done]. intros _. split_and!; [constructor|constructor|by intros ? ?%elem_of_nil].
    - intros _ k. split; [by left|]. intros [?|(x & Hx & _)]; [done|]. nil_elem. }
  rewrite Forall_cons, NoDup_fmap_cons, Hstep.
  destruct (negb _ || _) eqn:Eb.
  - destruct (collect step m l) eqn:E. intros [= <- <-]. split; [|done].
    split; [done|]. intros ([[Hk _] _] & _ & Hn). rewrite (Hn a), orb_false_r in Eb by left.
    apply negb_true_iff, not_true_iff_false in Eb. by rewrite nonempty_true in Eb.
  - apply orb_false_iff in Eb as [Hk Hh]. apply negb_false_iff, nonempty_true in Hk.
    destruct (collect step (<[key a:=true]> m) l) as [errs1 m1] eqn:E. intros [= <- <-].
    apply IH in E as [H1 H2]. rewrite app_nil_iff. split.
    + rewrite H1. split.
      * intros (Hb & ? & ? & Hl). split_and!; try done.
        -- intros x Hx Heq. specialize (Hl x Hx). apply not_true_iff_false in Hl.
           rewrite has_insert in Hl. tauto.
        -- intros x [->|Hx]%elem_of_cons; [done|]. specialize (Hl x Hx).
           apply not_true_iff_false in Hl. rewrite has_insert in Hl.
           apply not_true_iff_false. tauto.
      * intros ([[? ?] ?] & [Hne ?] & Hl). split_and!; try done. intros x Hx.
        apply not_true_iff_false. rewrite has_insert. intros [Heq|Hh'].
        -- by apply (Hne x).
        -- by rewrite Hl in Hh' by (by right).
    + intros [_ He] k. rewrite H2, has_insert by done. setoid_rewrite elem_of_cons.
      naive_solver.
Qed.

(** ** The loop over the capability names *)
Lemma name_loop l byName byType errs byName' byType' :
  (forall t, has byType t = true -> has byName (ct_Name t) = true) ->
  collect name_step (byName, byType) l = (errs, (byName', byType')) ->
  (errs = [] <-> Forall (fun cp => CapabilityType_complete (cp_Type cp) = true) l /\
                 NoDup ((fun cp => ct_Name (cp_Type cp)) <$> l) /\
                 forall cp, cp ∈ l -> has byName (ct_Name (cp_Type cp)) = false) /\
  (forall k, has byName' k = true <->
     has byName k = true \/ k ∈ (fun cp => ct_Name (cp_Type cp)) <$> l).
Proof.
  revert byName byType errs byName' byType'.
  induction l as [|cp l IH]; intros byName byType errs byName' byType' HI; cbn [collect].
  { intros [= <- <- <-]. split.
    - split; [|done]. intros _. split_and!; [constructor|constructor|by intros ? ?%elem_of_nil].
    - intros k. simpl. rewrite elem_of_nil. tauto. }
  rewrite Forall_cons, NoDup_fmap_cons. simpl.
  destruct (collect name_step _ l) as [errs1 [byName1 byType1]] eqn:E.
  intros [= <- <- <-]. apply IH in E as [H1 H2].
  2:{ intros t. unfold has at 1. rewrite lookup_insert. rewrite has_insert.
      case_decide; [by subst; left|]. intros Ht. right. by apply HI. }
  rewrite !app_nil_iff, !add_if_nil, negb_false_iff, orb_false_iff. split.
  - rewrite H1. split.
    + intros ((Hc & Hn & _) & ? & ? & Hl). split_and!; try done.
      * intros x Hx Heq. specialize (Hl x Hx). apply not_true_iff_false in Hl.
        rewrite has_insert in Hl. tauto.
      * intros x [->|Hx]%elem_of_cons; [done|]. specialize (Hl x Hx).
        apply not_true_iff_false in Hl. rewrite has_insert in Hl. apply not_true_iff_false. tauto.
    + intros ([? ?] & [Hne ?] & Hl).
      assert (has byName (ct_Name (cp_Type cp)) = false) as Hn by (apply Hl; left).
      split_and!; try done.
      * apply not_true_iff_false. intros Ht%HI. congruence.
      * intros x Hx. apply not_true_iff_false. rewrite has_insert. intros [Heq|Hh].
        -- by apply (Hne x).
        -- by rewrite Hl in Hh by (by right).
  - intros k. rewrite H2, has_insert, elem_of_cons. tauto.
Qed.
End loops.

(** ** The local capability graph *)
Lemma capability_name c n cp : capability c n = Some cp -> ct_Name (cp_Type cp) = n.
Proof. intros [_ H]%find_Some_elem. by apply bool_decide_eq_true in H. Qed.

Lemma capability_elem c n cp : capability c n = Some cp -> cp ∈ c_Capabilities c.
Proof. by intros [H _]%find_Some_elem. Qed.

Lemma capability_declared c n : is_Some (capability c n) <-> n ∈ cap_names c.
Proof.
  unfold cap_names. rewrite list_elem_of_fmap. split.
  - intros [cp Hcp]. exists cp. eauto using capability_elem, eq_sym, capability_name.
  - intros (cp & -> & Hcp). eapply find_is_Some; [done|]. by apply bool_decide_eq_true.
Qed.

Lemma elem_of_local_succ c n m :
  m ∈ local_succ c n <->
  m <> "" /\ m ∈ cap_names c /\
  exists cp r, capability c n = Some cp /\ r ∈ cp_Requirements cp /\ r_LocalCapability r = m.
Proof.
  unfold local_succ. rewrite list_elem_of_bind, <- capability_declared. split.
  - intros (x & Hx & Hr). case_decide; [nil_elem|].
    destruct (capability c x) eqn:Ex; [|nil_elem].
    apply list_elem_of_singleton in Hx as ->. split_and!; [done|by eexists|].
    apply list_elem_of_fmap in Hr as (r & -> & Hr).
    destruct (capability c n) as [cp|]; [by eauto|nil_elem].
  - intros (Hne & [cp' Hcp'] & cp & r & Hcp & Hr & <-). exists (r_LocalCapability r).
    rewrite decide_False, Hcp' by done. split; [left|]. rewrite Hcp. simpl.
    by apply list_elem_of_fmap_2.
Qed.

Lemma localCycle_spec c : localCycle c = [] <-> acyclic (local_succ c).
Proof.
  unfold localCycle.
  destruct (local_cycle_total (local_succ c) (cap_names c)) as [cyc Hcyc].
  { intros n m _ He. by apply elem_of_local_succ in He as (_ & ? & _). }
  pose proof (local_cycle_spec _ _ _ Hcyc) as Hs. rewrite Hcyc. simpl.
  destruct cyc as [|x cyc]; split; try done.
  - intros _ n Hn. apply (Hs n) with n; [|done|done].
    assert (exists m, edge (local_succ c) m n) as [m Hm].
    { induction Hn as [? ? He|? ? ? _ _ IH]; [by eexists|done]. }
    by apply elem_of_local_succ in Hm as (_ & ? & _).
  - intros Ha. exfalso. apply is_cycle_tc in Hs as (y & _ & Hy). by apply (Ha y).
Qed.

(** ** Validate *)
Section validate_spec.
Context `{GoText} (c : Contract).

Lemma predicate_errs_nil slots w p :
  (forall n, slots !! n = slot c n) -> predicate_errs slots w p = [] <-> wf_predicate c p.
Proof.
  intros Hs. unfold predicate_errs, wf_predicate. setoid_rewrite <- Hs.
  rewrite <- validate_spec. by destruct (validate p slots).
Qed.

Lemma refers_kinds r : kinds r = 1 <-> exists f, refers r f.
Proof.
  unfold kinds. split.
  - destruct (r_Predicate r) as [p|] eqn:Ep, (r_Dependency r) as [d|] eqn:Ed,
      (nonempty (r_LocalCapability r)) eqn:El, (nonempty (r_Envelope r)) eqn:Ee;
      try done; intros _;
      rewrite ?nonempty_true, ?nonempty_false in El; rewrite ?nonempty_true, ?nonempty_false in Ee.
    + by exists (RefPredicate p).
    + by exists (RefDependency d).
    + by exists (RefLocal (r_LocalCapability r)).
    + by exists (RefEnvelope (r_Envelope r)).
  - intros [[p|d|n|n] Hf]; simpl in Hf; destruct_and?;
      repeat match goal with H : _ = _ |- _ => rewrite H; clear H end; try done.
    + by rewrite (proj2 (nonempty_true n)).
    + by rewrite (proj2 (nonempty_true n)).
Qed.

Lemma onunmet_known (o : Impact) :
  negb (bool_decide (o = ImpactDegraded)) && negb (bool_decide (o = ImpactUnavailable)) = false <->
  o ∈ [ImpactDegraded; ImpactUnavailable].
Proof.
  rewrite elem_of_pair_list, andb_false_iff, !negb_bool_decide_false. done.
Qed.

Context (slots : gmap string AssertionSlot) (depSlots envelopes byName : gmap string bool).
Hypothesis Hslots : forall n, slots !! n = slot c n.
Hypothesis Hdeps : forall k, has depSlots k = true <->
  exists d, d ∈ c_DependencySlots c /\ ds_Name d = k.
Hypothesis Henvs : forall k, has envelopes k = true <->
  exists e, e ∈ c_Envelopes c /\ env_Name e = k.
Hypothesis Hnames : forall k, has byName k = true <-> k ∈ cap_names c.

Lemma undeclared_nil (n : string) (m : gmap string bool) msg :
  add_if (nonempty n && negb (has m n)) msg = [] <-> (n <> "" -> has m n = true).
Proof.
  rewrite add_if_nil, andb_false_iff, negb_false_iff, <- not_true_iff_false, nonempty_true.
  destruct (decide (n = "")); tauto.
Qed.

Lemma requirement_errs_nil w r :
  requirement_errs slots depSlots envelopes byName w r = [] <-> wf_requirement c r.
Proof.
  unfold requirement_errs, wf_requirement.
  rewrite !app_nil_iff, !undeclared_nil, !(add_if_nil _ (w +:+ _)), onunmet_known,
    negb_bool_decide_false, refers_kinds, Henvs, Hnames.
  split.
  - intros (Ho & Hp & Hd & Hl & He & [f Hf]). split; [done|]. exists f. split; [done|].
    destruct f as [p|d|n|n]; simpl in *.
    + destruct Hf as (E & _). rewrite E in Hp. by eapply predicate_errs_nil.
    + destruct Hf as (_ & E & _). rewrite E in Hd.
      rewrite app_nil_iff, !add_if_nil, !negb_false_iff, Hdeps in Hd. done.
    + destruct Hf as (_ & _ & <- & Hne & _). by apply Hl.
    + destruct Hf as (_ & _ & _ & <- & Hne). by apply He.
  - intros (Ho & f & Hf & Hw). split; [done|].
    assert (exists f, refers r f) as Hex by by exists f.
    destruct f as [p|d|n|n]; simpl in Hf, Hw.
    + destruct Hf as (-> & -> & -> & ->). split_and!; try done. by apply predicate_errs_nil.
    + destruct Hf as (-> & -> & -> & ->). split_and!; try done.
      rewrite app_nil_iff, !add_if_nil, !negb_false_iff, Hdeps. done.
    + destruct Hf as (-> & -> & -> & Hne & ->). by split_and!.
    + destruct Hf as (-> & -> & -> & -> & Hne). by split_and!.
Qed.

Lemma capability_errs_nil cp :
  capability_errs slots depSlots envelopes byName cp = [] <->
  cp_Requirements cp <> [] /\ Forall (wf_requirement c) (cp_Requirements cp).
Proof.
  unfold capability_errs. rewrite app_nil_iff, add_if_nil, bool_decide_eq_false.
  rewrite length_zero_iff_nil, mjoin_imap_nil_iff; [done|].
  intros i r. apply requirement_errs_nil.
Qed.
End validate_spec.

Lemma envelope_body_nil `{GoText} c slots e :
  (forall n, slots !! n = slot c n) ->
  (env_Name e <> "" /\
   add_if (negb (bool_decide (env_Class e = EnvelopeMinimum)) &&
           negb (bool_decide (env_Class e = EnvelopeRecommended)))
     ("envelope " +:+ quote (env_Name e) +:+ ": unknown class " +:+ quote (env_Class e)) ++
   add_if (bool_decide (length (env_Requirements e) = 0))
     ("envelope " +:+ quote (env_Name e) +:+ " has no requirements") ++
   mjoin (predicate_errs slots ("envelope " +:+ quote (env_Name e)) <$> env_Requirements e) = [])
  <-> wf_envelope c e.
Proof.
  intros Hs. unfold wf_envelope.
  rewrite !app_nil_iff, !add_if_nil, mjoin_nil_iff, elem_of_pair_list, andb_false_iff,
    !negb_bool_decide_false, bool_decide_eq_false, length_zero_iff_nil.
  setoid_rewrite (predicate_errs_nil c); [done|done].
Qed.

Lemma Validate_ok `{GoText} c : Validate c = [] <-> wf_contract c.
Proof.
  unfold Validate.
  destruct (collect slot_step ∅ (c_Assertions c)) as [e1 slots] eqn:E1.
  destruct (collect dep_step ∅ (c_DependencySlots c)) as [e2 deps] eqn:E2.
  destruct (collect (envelope_step slots) ∅ (c_Envelopes c)) as [e3 envs] eqn:E3.
  destruct (collect name_step (∅, ∅) (c_Capabilities c)) as [e4 [byName byType]] eqn:E4.
  apply slot_loop in E1 as [S1 S2]; [|by intros n s ?%lookup_empty_Some].
  apply (named_loop ds_Name (fun d => "dependency slot " +:+ quote (ds_Name d) +:+ " empty or duplicate")
           (fun _ => [])) in E2 as [D1 D2]; [|done].
  eapply (named_loop env_Name (fun e => "envelope " +:+ quote (env_Name e) +:+ " empty or duplicate"))
    in E3 as [V1 V2]; [|done].
  apply name_loop in E4 as [N1 N2]; [|by intros t].
  assert (forall k, has (∅ : gmap string bool) k = true <-> False) as Hempty by by intros k.
  rewrite !app_nil_iff, !add_if_nil, negb_false_iff, mjoin_nil_iff, Nat.ltb_ge, Nat.le_0_r,
    length_zero_iff_nil, localCycle_spec, S1, D1, N1.
  assert (forall n, slot c n = List.find (by_name n) (c_Assertions c)) as Hslot by done.
  assert (e1 = [] -> forall n, slots !! n = slot c n) as Hslots.
  { intros He n. by rewrite (S2 He), lookup_empty. }
  assert (e2 = [] -> e3 = [] -> e1 = [] -> forall cp,
    capability_errs slots deps envs byName cp = [] <->
    cp_Requirements cp <> [] /\ Forall (wf_requirement c) (cp_Requirements cp)) as Hreqs.
  { intros He2 He3 He1 cp. apply capability_errs_nil; [by apply Hslots| | |].
    - intros k. rewrite (D2 He2), Hempty. tauto.
    - intros k. rewrite (V2 He3), Hempty. tauto.
    - intros k. rewrite N2, Hempty. tauto. }
  split.
  - intros (Hid & (W1 & W2 & W3) & (W4 & W5 & W6) & He3 & (W7 & W8 & W9) & Hr & Hc).
    assert (e1 = []) as He1 by by apply S1. assert (e2 = []) as He2 by by apply D1.
    pose proof He3 as (W10 & W11 & _)%V1.
    split; try done.
    + eapply Forall_impl; [exact W4|]. by intros d [].
    + eapply Forall_impl; [exact W10|]. intros e. by apply envelope_body_nil, Hslots.
    + apply Forall_forall. intros cp Hcp. rewrite Forall_forall in W7, Hr.
      split; [by apply W7|]. by apply (Hreqs He2 He3 He1), Hr.
  - intros [Hid W1 W2 W4 W5 W10 W11 W7 W8 Hc].
    assert (e1 = []) as He1 by by apply S1.
    assert (Forall (fun a => ds_Name a <> "" /\ @nil string = []) (c_DependencySlots c)) as W4'.
    { eapply Forall_impl; [exact W4|]. by intros d. }
    assert (e2 = []) as He2 by by apply D1.
    assert (e3 = []) as He3.
    { apply V1. split_and!; [|done|done]. eapply Forall_impl; [exact W10|].
      intros e. by apply envelope_body_nil, Hslots. }
    split_and!; try done.
    + eapply Forall_impl; [exact W7|]. by intros cp [].
    + apply Forall_forall. intros cp Hcp. rewrite Forall_forall in W7.
      apply (Hreqs He2 He3 He1). by apply W7.
Qed.

(** C31. [Validate] reports no defect for exactly the well-formed contracts:
    complete identity, uniquely named slots, dependency slots, envelopes and
    capabilities, every predicate well-typed against its slot, every
    requirement of exactly one declared kind with a known impact, and no cycle
    among the local capabilities. *)
Theorem Validate_spec `{GoText} c : Validate c = [] <-> wf_contract c.
Proof. apply Validate_ok. Qed.
