(* ===== verification/Assessment.v ===== *)
(** * Targets, observations and results
    (pkg/operations/target.go and pkg/operations/result.go)

    The input of one evaluation, the [Snapshot], its output, the [Assessment],
    and [Summarize], the operator-facing projection of the output. *)

From S2P Require Import Prelude Identity Predicate Contract.

(** ** target.go *)
Record AssertionBinding := {
  ab_Slot : string;
  ab_Provider : ProviderIdentity;
}.

Record DependencyBinding := {
  db_Slot : string;
  db_TargetUID : string;
  db_Contract : ContractIdentity;
}.

Record Target := {
  t_Identity : TargetIdentity;
  t_ResolvedUID : string;
  t_ContractRef : ContractIdentity;
  t_AssertionBindings : list AssertionBinding;
  t_DependencyBindings : list DependencyBinding;
  t_EnvelopeSelection : string;
}.

Abbreviation Outcome := string (only parsing).
Definition OutcomeValue : Outcome := "Value".
Definition OutcomeProviderUnavailable : Outcome := "ProviderUnavailable".

Record Observation := {
  o_Key : ApplicabilityKey;
  o_Outcome : Outcome;
  o_Value : Value;
  o_ObservedAt : Time;
  o_ValidUntil : Time;
  o_EvidenceRef : string;
}.

Record Snapshot := {
  At : Time;
  Contracts : list Contract;
  Targets : list Target;
  Observations : list Observation;
}.

(** ** result.go *)
Inductive CapabilityState := Available | Degraded | Unavailable | Unknown.
Inductive EnvelopeState := Satisfied | Unsatisfied | EnvUnknown.
Inductive SyncState := SyncNotApplicable.

Definition CapabilityState_string (s : CapabilityState) : string :=
  match s with
  | Available => "AVAILABLE"
  | Degraded => "DEGRADED"
  | Unavailable => "UNAVAILABLE"
  | Unknown => "UNKNOWN"
  end.

Inductive EvidenceStatus :=
  | EvidenceCurrent | EvidenceUnbound | EvidenceMissing | EvidenceStale
  | EvidenceInapplicable | EvidenceProviderUnavailable | EvidenceConflicting
  | EvidenceTypeMismatch.

#[export] Instance CapabilityState_eq_dec : EqDecision CapabilityState.
Proof. solve_decision. Defined.
#[export] Instance EnvelopeState_eq_dec : EqDecision EnvelopeState.
Proof. solve_decision. Defined.
#[export] Instance EvidenceStatus_eq_dec : EqDecision EvidenceStatus.
Proof. solve_decision. Defined.

(** Reason codes are compared and sorted as strings. *)
Abbreviation ReasonCode := string (only parsing).

Definition ReasonPredicateUnmet : ReasonCode := "predicate-unmet".
Definition ReasonDependencyUnmet : ReasonCode := "dependency-unmet".
Definition ReasonLocalUnmet : ReasonCode := "local-capability-unmet".
Definition ReasonEnvelopeUnmet : ReasonCode := "envelope-unsatisfied".
Definition ReasonEvidenceUnbound : ReasonCode := "evidence-unbound".
Definition ReasonEvidenceMissing : ReasonCode := "evidence-missing".
Definition ReasonEvidenceStale : ReasonCode := "evidence-stale".
Definition ReasonEvidenceTargetReplaced : ReasonCode := "evidence-inapplicable-target-replaced".
Definition ReasonEvidenceContractChanged : ReasonCode := "evidence-inapplicable-contract-changed".
Definition ReasonEvidenceProviderChanged : ReasonCode := "evidence-inapplicable-provider-changed".
Definition ReasonProviderUnavailable : ReasonCode := "provider-unavailable".
Definition ReasonConflictingEvidence : ReasonCode := "conflicting-authoritative-evidence".
Definition ReasonEvidenceTypeMismatch : ReasonCode := "evidence-type-mismatch".
Definition ReasonDependencyUnbound : ReasonCode := "dependency-unbound".
Definition ReasonDependencyTargetMissing : ReasonCode := "dependency-target-missing".
Definition ReasonDependencyTargetInvalid : ReasonCode := "dependency-target-invalid".
Definition ReasonDependencyContractMismatch : ReasonCode := "dependency-contract-mismatch".
Definition ReasonDependencyCapabilityAbsent : ReasonCode := "dependency-capability-not-provided".
Definition ReasonDependencyUnknown : ReasonCode := "dependency-unknown".
Definition ReasonLocalUnknown : ReasonCode := "local-capability-unknown".
Definition ReasonEnvelopeUnknown : ReasonCode := "envelope-unknown".
Definition ReasonConflictingImpact : ReasonCode := "conflicting-impact".
Definition ReasonInvalidContract : ReasonCode := "invalid-contract".
Definition ReasonContractUnresolved : ReasonCode := "contract-unresolved".
Definition ReasonContractAmbiguous : ReasonCode := "contract-ambiguous".
Definition ReasonCrossNamespaceContract : ReasonCode := "cross-namespace-contract-ref".
Definition ReasonDuplicateTargetUID : ReasonCode := "duplicate-target-uid".
Definition ReasonDuplicateAssertionBinding : ReasonCode := "duplicate-assertion-binding".
Definition ReasonDuplicateDependencyBinding : ReasonCode := "duplicate-dependency-binding".
Definition ReasonInvalidBinding : ReasonCode := "invalid-binding".
Definition ReasonUnknownEnvelopeSelection : ReasonCode := "unknown-envelope-selection".
Definition ReasonDependencyCycle : ReasonCode := "dependency-cycle".

Record Reason := { Code : ReasonCode; Subject : string; Detail : string }.

#[export] Instance Reason_eq_dec : EqDecision Reason.
Proof. solve_decision. Defined.

Definition zero_Reason : Reason := Build_Reason "" "" "".

Record SlotEvidence := {
  sv_Slot : string;
  sv_Status : EvidenceStatus;
  sv_Provider : ProviderIdentity;
  sv_EvidenceRef : string;
}.

Record CapabilityResult := {
  cr_Type : CapabilityType;
  cr_State : CapabilityState;
  cr_Reasons : list Reason;
}.

Record EnvelopeResult := {
  er_Name : string;
  er_Class : EnvelopeClass;
  er_State : EnvelopeState;
  er_Reasons : list Reason;
}.

Record TargetAssessment := {
  ta_Target : TargetIdentity;
  ta_Contract : ContractIdentity;
  ta_Valid : bool;
  ta_InvalidReasons : list Reason;
  ta_Sync : SyncState;
  ta_EnvelopeSelection : string;
  ta_Evidence : list SlotEvidence;
  ta_Capabilities : list CapabilityResult;
  ta_Envelopes : list EnvelopeResult;
}.

Record Assessment := { a_Targets : list TargetAssessment }.

(** [Assessment.Target], [TargetAssessment.Capability] and
    [TargetAssessment.Envelope]: the first match. *)
Definition assessment_target (a : Assessment) (uid : string) : option TargetAssessment :=
  List.find (fun t => bool_decide (ti_UID (ta_Target t) = uid)) (a_Targets a).

Definition assessment_capability (t : TargetAssessment) (name : string) : option CapabilityResult :=
  List.find (fun c => bool_decide (ct_Name (cr_Type c) = name)) (ta_Capabilities t).

Definition assessment_envelope (t : TargetAssessment) (name : string) : option EnvelopeResult :=
  List.find (fun e => bool_decide (er_Name e = name)) (ta_Envelopes t).

Record CapabilityRef := { ref_TargetUID : string; ref_Capability : CapabilityType }.

Record Summary := {
  Affected : list CapabilityRef;
  Unaffected : list CapabilityRef;
  UnknownRefs : list CapabilityRef;
  Invalid : list string;
}.

Definition summarize_capability (uid : string) (s : Summary) (c : CapabilityResult) : Summary :=
  let ref := Build_CapabilityRef uid (cr_Type c) in
  match cr_State c with
  | Available =>
      Build_Summary (Affected s) (Unaffected s ++ [ref]) (UnknownRefs s) (Invalid s)
  | Degraded | Unavailable =>
      Build_Summary (Affected s ++ [ref]) (Unaffected s) (UnknownRefs s) (Invalid s)
  | Unknown =>
      Build_Summary (Affected s) (Unaffected s) (UnknownRefs s ++ [ref]) (Invalid s)
  end.

Definition summarize_target (s : Summary) (t : TargetAssessment) : Summary :=
  if negb (ta_Valid t) then
    Build_Summary (Affected s) (Unaffected s) (UnknownRefs s) (Invalid s ++ [ti_UID (ta_Target t)])
  else foldl (summarize_capability (ti_UID (ta_Target t))) s (ta_Capabilities t).

Definition Summarize (a : Assessment) : Summary :=
  foldl summarize_target (Build_Summary [] [] [] []) (a_Targets a).

(** * What a summary says *)

(** The capabilities of the assessed targets in a state satisfying [P], in
    assessment order. *)
Definition refs_where (P : CapabilityState -> bool) (a : Assessment) : list CapabilityRef :=
  t ← List.filter ta_Valid (a_Targets a);
  c ← List.filter (fun c => P (cr_State c)) (ta_Capabilities t);
  [Build_CapabilityRef (ti_UID (ta_Target t)) (cr_Type c)].

Definition is_affected (s : CapabilityState) : bool :=
  match s with Degraded | Unavailable => true | _ => false end.
Definition is_available (s : CapabilityState) : bool :=
  match s with Available => true | _ => false end.
Definition is_unknown (s : CapabilityState) : bool :=
  match s with Unknown => true | _ => false end.

Lemma summarize_capabilities uid s cs :
  let refs P := c ← List.filter (fun c => P (cr_State c)) cs; [Build_CapabilityRef uid (cr_Type c)] in
  foldl (summarize_capability uid) s cs =
  Build_Summary (Affected s ++ refs is_affected) (Unaffected s ++ refs is_available)
    (UnknownRefs s ++ refs is_unknown) (Invalid s).
Proof.
  simpl. revert s. induction cs as [|c cs IH]; intros s; simpl.
  - rewrite !app_nil_r. by destruct s.
  - rewrite IH. unfold summarize_capability.
    destruct (cr_State c); simpl; by rewrite <- ?app_assoc.
Qed.

(** Three lists in step with three others, up to order. *)
Lemma shuffle_three {A} (a1 a2 b1 b2 c1 c2 : list A) :
  (a1 ++ a2) ++ (b1 ++ b2) ++ c1 ++ c2 ≡ₚ (a1 ++ b1 ++ c1) ++ a2 ++ b2 ++ c2.
Proof.
  rewrite <- !app_assoc. f_equiv. rewrite (app_assoc a2), (Permutation_app_comm a2), <- !app_assoc.
  f_equiv. rewrite (app_assoc b2), (Permutation_app_comm b2 c1), <- !app_assoc.
  rewrite (app_assoc a2), (Permutation_app_comm a2), <- !app_assoc. done.
Qed.

Lemma refs_split uid cs :
  let refs P := c ← List.filter (fun c => P (cr_State c)) cs; [Build_CapabilityRef uid (cr_Type c)] in
  refs is_affected ++ refs is_available ++ refs is_unknown ≡ₚ refs (fun _ => true).
Proof.
  simpl. induction cs as [|c cs IH]; simpl; [done|].
  destruct (cr_State c); simpl; rewrite <- IH; [|done|done|].
  - by rewrite <- Permutation_middle.
  - by rewrite !app_assoc, <- Permutation_middle, <- !app_assoc.
Qed.

(** A summary splits the capabilities of the assessed targets by state,
    keeping assessment order: each one is listed exactly once, under Affected
    when DEGRADED or UNAVAILABLE, Unaffected when AVAILABLE, Unknown
    otherwise; a target that was not assessed is listed only as invalid. *)
Theorem Summarize_spec a :
  Affected (Summarize a) = refs_where is_affected a /\
  Unaffected (Summarize a) = refs_where is_available a /\
  UnknownRefs (Summarize a) = refs_where is_unknown a /\
  Invalid (Summarize a) =
    (fun t => ti_UID (ta_Target t)) <$> List.filter (fun t => negb (ta_Valid t)) (a_Targets a) /\
  Affected (Summarize a) ++ Unaffected (Summarize a) ++ UnknownRefs (Summarize a) ≡ₚ
    refs_where (fun _ => true) a.
Proof.
  assert (forall s ts, foldl summarize_target s ts =
    Build_Summary (Affected s ++ refs_where is_affected (Build_Assessment ts))
      (Unaffected s ++ refs_where is_available (Build_Assessment ts))
      (UnknownRefs s ++ refs_where is_unknown (Build_Assessment ts))
      (Invalid s ++ ((fun t => ti_UID (ta_Target t)) <$> List.filter (fun t => negb (ta_Valid t)) ts)))
    as Hfold.
  { intros s ts. revert s. induction ts as [|t ts IH]; intros s; simpl.
    - unfold refs_where; simpl. rewrite !app_nil_r. by destruct s.
    - rewrite IH. unfold summarize_target, refs_where; simpl.
      destruct (ta_Valid t); simpl; [|by rewrite <- app_assoc].
      rewrite summarize_capabilities; simpl. by rewrite <- !app_assoc. }
  unfold Summarize. rewrite Hfold. destruct a as [ts]; simpl. split_and!; try done.
  clear Hfold. induction ts as [|t ts IH]; [done|].
  unfold refs_where in *; simpl in *. destruct (ta_Valid t); simpl; [|done].
  rewrite <- IH, <- (refs_split (ti_UID (ta_Target t)) (ta_Capabilities t)).
  apply shuffle_three.
Qed.
