(* ===== verification/Evaluator.v ===== *)
(** * The evaluator (pkg/operations/evaluator.go): definitions

    The Go evaluator is a struct of maps that its methods mutate, holding
    pointers to contracts and to target states.  Here it is the record
    [evaluator], threaded through the methods; a [*Contract] is an index into
    the snapshot's contracts and a [*targetState] an index into [e_heap], so
    that the aliasing between [e_order] and [e_byUID] is kept.

    [capability] and [dependency] call each other; the fuel bounds the depth
    of that recursion.  [Evaluate] supplies one more than the number of
    capabilities of the valid targets, which [Evaluate_total] (file
    EvalSpec) shows is always enough. *)

From S2P Require Import Prelude Identity Predicate LocalCycle Contract Assessment Tarjan.

Record slotEvidence := {
  se_status : EvidenceStatus;
  se_code : ReasonCode;
  se_detail : string;
  se_value : Value;
  se_provider : ProviderIdentity;
  se_ref : string;
}.

Record targetState := {
  ts_t : Target;
  ts_contract : option nat;
  ts_invalid : list Reason;
  ts_evidence : gmap string slotEvidence;
}.

(** A capability (or envelope) of a target: (uid, name). *)
Abbreviation capKey := (string * string)%type (only parsing).

Definition capKey_less (k o : capKey) : bool :=
  if negb (bool_decide (k.1 = o.1)) then String.ltb k.1 o.1 else String.ltb k.2 o.2.

(** (namespace, name, slot) *)
Abbreviation obsKey := (string * string * string)%type (only parsing).

Record evaluator := {
  e_at : Time;
  e_store : list Contract;
  e_contracts : gmap ContractIdentity (list nat);
  e_heap : list targetState;
  e_byUID : gmap string (list nat);
  e_order : list nat;
  e_obs : gmap obsKey (list Observation);
  e_capMemo : gmap capKey CapabilityResult;
  e_envMemo : gmap capKey EnvelopeResult;
  e_validatedCache : gmap nat (list string);
}.

(** ** Field updates *)
Definition set_heap (h : list targetState) (e : evaluator) : evaluator :=
  Build_evaluator (e_at e) (e_store e) (e_contracts e) h (e_byUID e) (e_order e) (e_obs e)
    (e_capMemo e) (e_envMemo e) (e_validatedCache e).

Definition set_capMemo (k : capKey) (r : CapabilityResult) (e : evaluator) : evaluator :=
  Build_evaluator (e_at e) (e_store e) (e_contracts e) (e_heap e) (e_byUID e) (e_order e) (e_obs e)
    (<[k := r]> (e_capMemo e)) (e_envMemo e) (e_validatedCache e).

Definition set_envMemo (k : capKey) (r : EnvelopeResult) (e : evaluator) : evaluator :=
  Build_evaluator (e_at e) (e_store e) (e_contracts e) (e_heap e) (e_byUID e) (e_order e) (e_obs e)
    (e_capMemo e) (<[k := r]> (e_envMemo e)) (e_validatedCache e).

Definition set_validated (p : nat) (errs : list string) (e : evaluator) : evaluator :=
  Build_evaluator (e_at e) (e_store e) (e_contracts e) (e_heap e) (e_byUID e) (e_order e) (e_obs e)
    (e_capMemo e) (e_envMemo e) (<[p := errs]> (e_validatedCache e)).

Definition add_invalid (rs : list Reason) (ts : targetState) : targetState :=
  Build_targetState (ts_t ts) (ts_contract ts) (ts_invalid ts ++ rs) (ts_evidence ts).

Definition set_contract (p : nat) (ts : targetState) : targetState :=
  Build_targetState (ts_t ts) (Some p) (ts_invalid ts) (ts_evidence ts).

Definition set_evidence (slot : string) (ev : slotEvidence) (ts : targetState) : targetState :=
  Build_targetState (ts_t ts) (ts_contract ts) (ts_invalid ts) (<[slot := ev]> (ts_evidence ts)).

Definition modify_target (i : nat) (f : targetState -> targetState) (e : evaluator) : evaluator :=
  set_heap (alter f i (e_heap e)) e.

(** ** Dereferencing pointers *)
Definition zero_Target : Target :=
  Build_Target (Build_TargetIdentity "" "" "") "" zero_ContractIdentity [] [] "".
Definition zero_targetState : targetState := Build_targetState zero_Target None [] ∅.
Definition zero_Contract : Contract := Build_Contract zero_ContractIdentity [] [] [] [].

Definition target_at (e : evaluator) (i : nat) : targetState :=
  default zero_targetState (e_heap e !! i).

Definition contract_at (e : evaluator) (p : nat) : Contract :=
  default zero_Contract (e_store e !! p).

(** [*ts.contract] *)
Definition the_contract (e : evaluator) (i : nat) : Contract :=
  default zero_Contract (contract_at e <$> ts_contract (target_at e i)).

Definition ts_uid (ts : targetState) : string := ti_UID (t_Identity (ts_t ts)).

Definition zero_Observation : Observation :=
  Build_Observation
    (Build_ApplicabilityKey (Build_TargetIdentity "" "" "") "" zero_ContractIdentity ""
       zero_ProviderIdentity) "" zero_Value 0 0 "".

Section evaluator.
Context `{GoText} `{SortSlice}.

(** ** newEvaluator *)
Definition identity_less (a b : TargetIdentity) : bool :=
  if negb (bool_decide (ti_UID a = ti_UID b)) then String.ltb (ti_UID a) (ti_UID b)
  else if negb (bool_decide (ti_Namespace a = ti_Namespace b))
  then String.ltb (ti_Namespace a) (ti_Namespace b)
  else String.ltb (ti_Name a) (ti_Name b).

Definition obs_key (o : Observation) : obsKey :=
  (ti_Namespace (ak_Target (o_Key o)), ti_Name (ak_Target (o_Key o)), ak_Slot (o_Key o)).

Definition newEvaluator (s : Snapshot) : evaluator :=
  let heap := (fun t => Build_targetState t None [] ∅) <$> Targets s in
  let target i := t_Identity (ts_t (default zero_targetState (heap !! i))) in
  {|
    e_at := At s;
    e_store := Contracts s;
    e_contracts := group_by (fun i => c_Identity (default zero_Contract (Contracts s !! i)))
                     (seq 0 (length (Contracts s)));
    e_heap := heap;
    e_byUID := group_by (fun i => ti_UID (target i)) (seq 0 (length heap));
    e_order := slice_stable (fun i j => identity_less (target i) (target j)) (seq 0 (length heap));
    e_obs := group_by obs_key (Observations s);
    e_capMemo := ∅;
    e_envMemo := ∅;
    e_validatedCache := ∅;
  |}.

(** ** Target resolution *)
Definition validate_contract (p : nat) (e : evaluator) : list string * evaluator :=
  match e_validatedCache e !! p with
  | Some errs => (errs, e)
  | None =>
      let errs := sort_strings (Validate (contract_at e p)) in
      (errs, set_validated p errs e)
  end.

Definition hasDepSlot (c : Contract) (slot : string) : bool :=
  existsb (fun d => bool_decide (ds_Name d = slot)) (c_DependencySlots c).

Definition assertion_binding_step (c : Contract) (seen : gmap string bool) (b : AssertionBinding) :
    list Reason * gmap string bool :=
  if negb (bool_decide (is_Some (slot c (ab_Slot b)))) ||
     bool_decide (pi_Name (ab_Provider b) = "") then
    ([Build_Reason ReasonInvalidBinding ("assertion:" +:+ ab_Slot b)
        "undeclared slot or empty provider"], seen)
  else
    (if has seen (ab_Slot b)
     then [Build_Reason ReasonDuplicateAssertionBinding ("assertion:" +:+ ab_Slot b) ""] else [],
     <[ab_Slot b := true]> seen).

Definition dependency_binding_step (c : Contract) (seenDep : gmap string bool)
    (b : DependencyBinding) : list Reason * gmap string bool :=
  if negb (hasDepSlot c (db_Slot b)) || bool_decide (db_TargetUID b = "") ||
     negb (ContractIdentity_complete (db_Contract b)) then
    ([Build_Reason ReasonInvalidBinding ("dependency:" +:+ db_Slot b)
        "undeclared slot, empty target UID or incomplete contract identity"], seenDep)
  else
    (if has seenDep (db_Slot b)
     then [Build_Reason ReasonDuplicateDependencyBinding ("dependency:" +:+ db_Slot b) ""] else [],
     <[db_Slot b := true]> seenDep).

(** The part of [resolveTarget] after the contract is found valid. *)
Definition binding_reasons (c : Contract) (t : Target) : list Reason :=
  (collect (assertion_binding_step c) ∅ (t_AssertionBindings t)).1 ++
  (collect (dependency_binding_step c) ∅ (t_DependencyBindings t)).1 ++
  if negb (bool_decide (t_EnvelopeSelection t = "")) &&
     negb (bool_decide (is_Some (envelope c (t_EnvelopeSelection t))))
  then [Build_Reason ReasonUnknownEnvelopeSelection ("envelope:" +:+ t_EnvelopeSelection t) ""]
  else [].

Definition resolveTarget (e : evaluator) (i : nat) : evaluator :=
  let t := ts_t (target_at e i) in
  let bad code subject detail e :=
    modify_target i (add_invalid [Build_Reason code subject detail]) e in
  let ref := "contract:" +:+ ContractIdentity_String (t_ContractRef t) in
  let e :=
    if 1 <? length (default [] (e_byUID e !! ti_UID (t_Identity t)))
    then bad ReasonDuplicateTargetUID ("target:" +:+ ti_UID (t_Identity t)) "" e else e in
  if negb (bool_decide (ci_Namespace (t_ContractRef t) = ti_Namespace (t_Identity t))) then
    bad ReasonCrossNamespaceContract ref "" e
  else
    match default [] (e_contracts e !! t_ContractRef t) with
    | [] => bad ReasonContractUnresolved ref "" e
    | [p] =>
        let e := modify_target i (set_contract p) e in
        let '(errs, e) := validate_contract p e in
        if 0 <? length errs then bad ReasonInvalidContract ref (join "; " errs) e
        else modify_target i (add_invalid (binding_reasons (contract_at e p) t)) e
    | cs =>
        bad ReasonContractAmbiguous ref (pretty (length cs) +:+ " contracts share this identity") e
    end.

Definition resolveTargets (e : evaluator) : evaluator := foldl resolveTarget e (e_order e).

Definition valid (ts : targetState) : bool := bool_decide (length (ts_invalid ts) = 0).

Definition depBinding (t : Target) (slot : string) : option DependencyBinding :=
  List.find (fun b => bool_decide (db_Slot b = slot)) (t_DependencyBindings t).

Definition assertionBinding (t : Target) (slot : string) : option AssertionBinding :=
  List.find (fun b => bool_decide (ab_Slot b = slot)) (t_AssertionBindings t).

(** The single valid target with this UID. *)
Definition uniqueValid (e : evaluator) (uid : string) : option nat :=
  match default [] (e_byUID e !! uid) with
  | [i] => if valid (target_at e i) then Some i else None
  | _ => None
  end.

(** ** Cross-target cycle rejection *)

(** The node one requirement of a capability of target [i] leads to. *)
Definition requirement_edge (e : evaluator) (uid : string) (i : nat) (r : Requirement) :
    list capKey :=
  if nonempty (r_LocalCapability r) then [(uid, r_LocalCapability r)]
  else match r_Dependency r with
  | None => []
  | Some d =>
      match depBinding (ts_t (target_at e i)) (dr_Slot d) with
      | None => []
      | Some b =>
          match uniqueValid e (db_TargetUID b) with
          | None => []
          | Some j =>
              if negb (bool_decide (t_ContractRef (ts_t (target_at e j)) = db_Contract b)) then []
              else match capabilityByType (the_contract e j) (dr_Capability d) with
                   | Some dc => [(ts_uid (target_at e j), ct_Name (cp_Type dc))]
                   | None => []
                   end
          end
      end
  end.

Definition edges (e : evaluator) (n : capKey) : list capKey :=
  match uniqueValid e n.1 with
  | None => []
  | Some i =>
      let cp := default zero_Capability (capability (the_contract e i) n.2) in
      sort_slice capKey_less (mjoin (requirement_edge e n.1 i <$> cp_Requirements cp))
  end.

(** The capabilities of the valid targets. *)
Definition cap_nodes (e : evaluator) : list capKey :=
  i ← e_order e;
  if valid (target_at e i)
  then (fun cp => (ts_uid (target_at e i), ct_Name (cp_Type cp))) <$>
         c_Capabilities (the_contract e i)
  else [].

(** The reasons one cyclic component adds: per UID, in the order of the
    component's first capability of that UID (Go ranges over a map here, in
    no fixed order, but each UID has different targets). *)
Definition cycle_reason (scc : list capKey) (names : list string) : Reason :=
  Build_Reason ReasonDependencyCycle ("capabilities:" +:+ join "," names)
    ("cycle members: " +:+ join "," ((fun n => n.1 +:+ "/" +:+ n.2) <$> scc)).

Definition reject_component (e : evaluator) (scc : list capKey) : evaluator :=
  let scc := sort_slice capKey_less scc in
  let byUID := group_by fst scc in
  foldl (fun e '(uid, ns) =>
      foldl (fun e i => modify_target i (add_invalid [cycle_reason scc (snd <$> ns)]) e)
        e (default [] (e_byUID e !! uid)))
    e (map_to_list byUID).

Definition rejectCycles (e : evaluator) : option evaluator :=
  let nodes := sort_slice capKey_less (cap_nodes e) in
  cyclic ← tarjan (edges e) nodes;
  Some (foldl reject_component e cyclic).

(** ** Evidence *)
Definition current (at_ : Time) (o : Observation) (slot : AssertionSlot) : bool :=
  if Z.gtb (Sub at_ (o_ObservedAt o)) (s_MaxAge slot) then false
  else IsZero (o_ValidUntil o) || Before at_ (o_ValidUntil o).

Definition mismatch (got want : ApplicabilityKey) : ReasonCode :=
  if negb (bool_decide (ak_Target got = ak_Target want)) ||
     negb (bool_decide (ak_ResolvedUID got = ak_ResolvedUID want)) then ReasonEvidenceTargetReplaced
  else if negb (bool_decide (ak_Contract got = ak_Contract want)) then ReasonEvidenceContractChanged
  else ReasonEvidenceProviderChanged.

(** The rank map of [worseMismatch]; an absent key has rank 0. *)
Definition mismatch_rank (c : ReasonCode) : nat :=
  if decide (c = ReasonEvidenceProviderChanged) then 1
  else if decide (c = ReasonEvidenceContractChanged) then 2
  else if decide (c = ReasonEvidenceTargetReplaced) then 3
  else 0.

Definition worseMismatch (a b : ReasonCode) : ReasonCode :=
  if mismatch_rank a <? mismatch_rank b then b else a.

(** The loop over the observations of a slot: the applicable ones and the worst
    mismatch of the others. *)
Definition classify (at_ : Time) (want : ApplicabilityKey) (acc : list Observation * ReasonCode)
    (o : Observation) : list Observation * ReasonCode :=
  let '(applicable, inapplicable) := acc in
  if After (o_ObservedAt o) at_ then acc
  else if decide (o_Key o = want) then (applicable ++ [o], inapplicable)
  else (applicable, worseMismatch inapplicable (mismatch (o_Key o) want)).

Definition latest_of (os : list Observation) : Time :=
  match os with
  | [] => 0
  | o :: os =>
      foldl (fun latest o => if After (o_ObservedAt o) latest then o_ObservedAt o else latest)
        (o_ObservedAt o) os
  end%Z.

(** An observation that is neither a provider outage nor a well-formed value. *)
Definition malformed (slot : AssertionSlot) (o : Observation) : bool :=
  if decide (o_Outcome o = OutcomeProviderUnavailable) then false
  else negb (bool_decide (o_Outcome o = OutcomeValue)) || negb (admits slot (o_Value o)).

Definition conflicts (o other : Observation) : bool :=
  negb (bool_decide (o_Outcome other = o_Outcome o)) ||
  (bool_decide (o_Outcome o = OutcomeValue) && negb (equal (o_Value other) (o_Value o))).

Definition evidence_status (p : ProviderIdentity) (ref : string) (st : EvidenceStatus)
    (code : ReasonCode) (detail : string) : slotEvidence :=
  Build_slotEvidence st code detail zero_Value p ref.

Definition wanted_key (t : Target) (slot : string) (p : ProviderIdentity) : ApplicabilityKey :=
  Build_ApplicabilityKey (t_Identity t) (t_ResolvedUID t) (t_ContractRef t) slot p.

Definition observations_of (e : evaluator) (t : Target) (slot : string) : list Observation :=
  default [] (e_obs e !! (ti_Namespace (t_Identity t), ti_Name (t_Identity t), slot)).

(** The statements at the latest instant, by evidence reference. *)
Definition latest_group (applicable : list Observation) : list Observation :=
  sort_slice (fun a b => String.ltb (o_EvidenceRef a) (o_EvidenceRef b))
    (List.filter (fun o => Z.eqb (o_ObservedAt o) (latest_of applicable)) applicable).

(** What the latest statements prove. *)
Definition judge_group (at_ : Time) (slot : AssertionSlot) (p : ProviderIdentity) (latest : Time)
    (group : list Observation) : slotEvidence :=
  let o := default zero_Observation (head group) in
  let status := evidence_status p (o_EvidenceRef o) in
  if existsb (fun o => negb (current at_ o slot)) group then
    status EvidenceStale ReasonEvidenceStale
      ("latest observation at " +:+ rfc3339 latest +:+ " exceeds currentness bound")
  else match List.find (malformed slot) group with
  | Some bad =>
      status EvidenceTypeMismatch ReasonEvidenceTypeMismatch
        ("slot type " +:+ s_Type slot +:+ ", observed non-canonical or undeclared " +:+
         Value_String (o_Value bad))
  | None =>
      if existsb (conflicts o) (tail group) then
        status EvidenceConflicting ReasonConflictingEvidence
          "incompatible statements at the latest instant"
      else if decide (o_Outcome o = OutcomeProviderUnavailable) then
        status EvidenceProviderUnavailable ReasonProviderUnavailable ""
      else Build_slotEvidence EvidenceCurrent "" "" (o_Value o) p (o_EvidenceRef o)
  end.

Definition resolveEvidence (e : evaluator) (t : Target) (slot : AssertionSlot) : slotEvidence :=
  match assertionBinding t (s_Name slot) with
  | None => evidence_status zero_ProviderIdentity "" EvidenceUnbound ReasonEvidenceUnbound ""
  | Some b =>
      let p := ab_Provider b in
      let want := wanted_key t (s_Name slot) p in
      let '(applicable, inapplicable) :=
        foldl (classify (e_at e) want) ([], "") (observations_of e t (s_Name slot)) in
      match applicable with
      | [] =>
          if nonempty inapplicable then evidence_status p "" EvidenceInapplicable inapplicable ""
          else evidence_status p "" EvidenceMissing ReasonEvidenceMissing ""
      | _ => judge_group (e_at e) slot p (latest_of applicable) (latest_group applicable)
      end
  end.

Definition evidence (i : nat) (slot : AssertionSlot) : st evaluator slotEvidence :=
  e ← get_st;
  match ts_evidence (target_at e i) !! s_Name slot with
  | Some ev => mret ev
  | None =>
      let ev := resolveEvidence e (ts_t (target_at e i)) slot in
      _ ← modify_st (modify_target i (set_evidence (s_Name slot) ev));
      mret ev
  end.

(** ** Requirement evaluation *)
Inductive verdict := accepted | unmet | unproven.

(** normalize: sorted by code, subject and detail, without duplicates. *)
Definition reason_less (a b : Reason) : bool :=
  if negb (bool_decide (Code a = Code b)) then String.ltb (Code a) (Code b)
  else if negb (bool_decide (Subject a = Subject b)) then String.ltb (Subject a) (Subject b)
  else String.ltb (Detail a) (Detail b).

(** The in-place loop: keep an element unless it equals the last one kept. *)
Fixpoint dedup_from (last : option Reason) (rs : list Reason) : list Reason :=
  match rs with
  | [] => []
  | r :: rs =>
      if bool_decide (last = Some r) then dedup_from last rs else r :: dedup_from (Some r) rs
  end.

Definition normalize (rs : list Reason) : list Reason :=
  dedup_from None (sort_slice reason_less rs).

(** What evidence says about a predicate. *)
Definition judge_predicate (p : Predicate) (ev : slotEvidence) : verdict * Reason :=
  let subject := "assertion:" +:+ p_Assertion p in
  if negb (bool_decide (se_status ev = EvidenceCurrent)) then
    (unproven, Build_Reason (se_code ev) subject (se_detail ev))
  else if eval p (se_value ev) then (accepted, zero_Reason)
  else (unmet, Build_Reason ReasonPredicateUnmet subject
                 (Predicate_String p +:+ "; observed " +:+ Value_String (se_value ev))).

Definition predicate (i : nat) (p : Predicate) : st evaluator (verdict * Reason) :=
  e ← get_st;
  ev ← evidence i (default zero_AssertionSlot (slot (the_contract e i) (p_Assertion p)));
  mret (judge_predicate p ev).

(** Accumulating one verdict of an envelope: (reasons, anyUnmet, anyUnproven). *)
Definition envelope_add (acc : list Reason * bool * bool) (vr : verdict * Reason) :
    list Reason * bool * bool :=
  let '(reasons, anyUnmet, anyUnproven) := acc in
  match vr with
  | (accepted, _) => acc
  | (unmet, r) => (reasons ++ [r], true, anyUnproven)
  | (unproven, r) => (reasons ++ [r], anyUnmet, true)
  end.

Definition envelope_finish (env : Envelope) (acc : list Reason * bool * bool) : EnvelopeResult :=
  let '(reasons, anyUnmet, anyUnproven) := acc in
  Build_EnvelopeResult (env_Name env) (env_Class env)
    (if anyUnmet then Unsatisfied else if anyUnproven then EnvUnknown else Satisfied)
    (normalize reasons).

Definition envelopeResult (i : nat) (env : Envelope) : st evaluator EnvelopeResult :=
  e ← get_st;
  let k := (ts_uid (target_at e i), env_Name env) in
  match e_envMemo e !! k with
  | Some r => mret r
  | None =>
      acc ← fold_st (fun acc p => vr ← predicate i p; mret (envelope_add acc vr))
              ([], false, false) (env_Requirements env);
      let res := envelope_finish env acc in
      _ ← modify_st (set_envMemo k res);
      mret res
  end.

(** The verdict the state of another capability gives. *)
Definition judge_dependency (subject : string) (s : CapabilityState) : verdict * Reason :=
  match s with
  | Available => (accepted, zero_Reason)
  | Unknown => (unproven, Build_Reason ReasonDependencyUnknown subject "")
  | s => (unmet, Build_Reason ReasonDependencyUnmet subject (CapabilityState_string s))
  end.

Definition judge_local (name : string) (s : CapabilityState) : verdict * Reason :=
  let subject := "local:" +:+ name in
  match s with
  | Available => (accepted, zero_Reason)
  | Unknown => (unproven, Build_Reason ReasonLocalUnknown subject "")
  | s => (unmet, Build_Reason ReasonLocalUnmet subject (CapabilityState_string s))
  end.

Definition judge_envelope (name : string) (s : EnvelopeState) : verdict * Reason :=
  let subject := "envelope:" +:+ name in
  match s with
  | Satisfied => (accepted, zero_Reason)
  | Unsatisfied => (unmet, Build_Reason ReasonEnvelopeUnmet subject "")
  | EnvUnknown => (unproven, Build_Reason ReasonEnvelopeUnknown subject "")
  end.

(** The checks of [dependency] before it evaluates: the reason the dependency
    is unproven, or the target and capability it resolves to. *)
Definition resolve_dependency (e : evaluator) (i : nat) (d : DependencyRequirement) :
    Reason + (string * nat * Capability) :=
  match depBinding (ts_t (target_at e i)) (dr_Slot d) with
  | None => inl (Build_Reason ReasonDependencyUnbound ("dependency:" +:+ dr_Slot d) "")
  | Some b =>
      let subject := "dependency:" +:+ dr_Slot d +:+ "->" +:+ db_TargetUID b +:+ "/" +:+
                     CapabilityType_String (dr_Capability d) in
      if bool_decide (length (default [] (e_byUID e !! db_TargetUID b)) = 0) then
        inl (Build_Reason ReasonDependencyTargetMissing subject "")
      else match uniqueValid e (db_TargetUID b) with
      | None => inl (Build_Reason ReasonDependencyTargetInvalid subject "")
      | Some j =>
          let ref := t_ContractRef (ts_t (target_at e j)) in
          if negb (bool_decide (ref = db_Contract b)) then
            inl (Build_Reason ReasonDependencyContractMismatch subject
                   ("bound " +:+ ContractIdentity_String (db_Contract b) +:+ ", target has " +:+
                    ContractIdentity_String ref))
          else match capabilityByType (the_contract e j) (dr_Capability d) with
          | None => inl (Build_Reason ReasonDependencyCapabilityAbsent subject "")
          | Some dc => inr (subject, j, dc)
          end
      end
  end.

Section with_rec.
Variable rec : nat -> Capability -> st evaluator CapabilityResult.

Definition dependency (i : nat) (d : DependencyRequirement) : st evaluator (verdict * Reason) :=
  e ← get_st;
  match resolve_dependency e i d with
  | inl r => mret (unproven, r)
  | inr (subject, j, dc) => r ← rec j dc; mret (judge_dependency subject (cr_State r))
  end.

Definition requirement (i : nat) (req : Requirement) : st evaluator (verdict * Reason) :=
  match r_Predicate req, r_Dependency req with
  | Some p, _ => predicate i p
  | None, Some d => dependency i d
  | None, None =>
      e ← get_st;
      if nonempty (r_LocalCapability req) then
        lr ← rec i (default zero_Capability (capability (the_contract e i) (r_LocalCapability req)));
        mret (judge_local (r_LocalCapability req) (cr_State lr))
      else if nonempty (r_Envelope req) then
        er ← envelopeResult i (default zero_Envelope (envelope (the_contract e i) (r_Envelope req)));
        mret (judge_envelope (r_Envelope req) (er_State er))
      else mret (accepted, zero_Reason)
  end.

(** Accumulating one verdict: (reasons, impacts, anyUnproven). *)
Definition capability_add (acc : list Reason * gmap string bool * bool) (req : Requirement)
    (vr : verdict * Reason) : list Reason * gmap string bool * bool :=
  let '(reasons, impacts, anyUnproven) := acc in
  match vr with
  | (accepted, _) => acc
  | (unmet, r) => (reasons ++ [r], <[r_OnUnmet req := true]> impacts, anyUnproven)
  | (unproven, r) => (reasons ++ [r], impacts, true)
  end.

Definition capability_finish (cp : Capability) (acc : list Reason * gmap string bool * bool) :
    CapabilityResult :=
  let '(reasons, impacts, anyUnproven) := acc in
  let '(state, reasons) :=
    if anyUnproven then (Unknown, reasons)
    else if 1 <? size impacts then
      (Unknown, reasons ++ [Build_Reason ReasonConflictingImpact
                              ("capability:" +:+ CapabilityType_String (cp_Type cp)) ""])
    else if has impacts ImpactDegraded then (Degraded, reasons)
    else if has impacts ImpactUnavailable then (Unavailable, reasons)
    else (Available, reasons) in
  Build_CapabilityResult (cp_Type cp) state (normalize reasons).

Definition capability_body (i : nat) (cp : Capability) : st evaluator CapabilityResult :=
  e ← get_st;
  let k := (ts_uid (target_at e i), ct_Name (cp_Type cp)) in
  match e_capMemo e !! k with
  | Some r => mret r
  | None =>
      acc ← fold_st (fun acc req => vr ← requirement i req; mret (capability_add acc req vr))
              ([], ∅, false) (cp_Requirements cp);
      let res := capability_finish cp acc in
      _ ← modify_st (set_capMemo k res);
      mret res
  end.
End with_rec.

(** [evaluator.capability] *)
Fixpoint eval_capability (fuel : nat) (i : nat) (cp : Capability) :
    st evaluator CapabilityResult :=
  match fuel with
  | O => fun _ => None
  | S fuel => capability_body (eval_capability fuel) i cp
  end.

(** ** Output *)
Definition slot_less (a b : AssertionSlot) : bool := String.ltb (s_Name a) (s_Name b).
Definition envelope_less (a b : EnvelopeResult) : bool := String.ltb (er_Name a) (er_Name b).
Definition result_less (a b : CapabilityResult) : bool :=
  CapabilityType_less (cr_Type a) (cr_Type b).

Definition assess (fuel : nat) (i : nat) : st evaluator TargetAssessment :=
  e ← get_st;
  let ts := target_at e i in
  let t := ts_t ts in
  let out := Build_TargetAssessment (t_Identity t) (t_ContractRef t) in
  if negb (valid ts) then
    mret (out false (normalize (ts_invalid ts)) SyncNotApplicable (t_EnvelopeSelection t) [] [] [])
  else
    let c := the_contract e i in
    evs ← fold_st (fun acc s => ev ← evidence i s;
              mret (acc ++ [Build_SlotEvidence (s_Name s) (se_status ev) (se_provider ev) (se_ref ev)]))
            [] (sort_slice slot_less (c_Assertions c));
    caps ← fold_st (fun acc cp => r ← eval_capability fuel i cp; mret (acc ++ [r]))
             [] (c_Capabilities c);
    envs ← fold_st (fun acc env => r ← envelopeResult i env; mret (acc ++ [r]))
             [] (c_Envelopes c);
    mret (out true [] SyncNotApplicable (t_EnvelopeSelection t) evs
            (sort_slice result_less caps) (sort_slice envelope_less envs)).

Inductive evaluate_error := ErrNoEvaluationInstant.

(** Target resolution and cycle rejection. *)
Definition prepare (s : Snapshot) : option evaluator := rejectCycles (resolveTargets (newEvaluator s)).

(** [None] would mean that fuel ran out; see [Evaluate_total]. *)
Definition Evaluate (s : Snapshot) : option (evaluate_error + Assessment) :=
  if IsZero (At s) then Some (inl ErrNoEvaluationInstant)
  else
    e ← prepare s;
    '(tas, _) ← fold_st (fun acc i => ta ← assess (S (length (cap_nodes e))) i; mret (acc ++ [ta]))
                  [] (e_order e) e;
    Some (inr (Build_Assessment tas)).
End evaluator.
