(* ===== verification/EvalEvidence.v ===== *)
(** * Evidence (resolveEvidence in pkg/operations/evaluator.go): what a current
    evidence status proves, and independence of the order of observations *)

From S2P Require Import Prelude Identity Predicate Contract Assessment Evaluator.

Section evidence.
Context `{GoText} `{SortSlice}.

(** ** Specification *)

(** An observation the evaluator may use: already made at the evaluation
    instant, and made for exactly the wanted key. *)
Definition usable (at_ : Time) (want : ApplicabilityKey) (o : Observation) : Prop :=
  (o_ObservedAt o <= at_)%Z /\ o_Key o = want.

(** The latest usable statements of the bound provider. *)
Definition latest_statement (e : evaluator) (t : Target) (slot : string) (p : ProviderIdentity)
    (o : Observation) : Prop :=
  let usable := usable (e_at e) (wanted_key t slot p) in
  (o ∈ observations_of e t slot /\ usable o) /\
  forall o', o' ∈ observations_of e t slot -> usable o' -> (o_ObservedAt o' <= o_ObservedAt o)%Z.

(** A group whose every statement is current, well formed and says [v]. *)
Definition group_current (at_ : Time) (slot : AssertionSlot) (v : Value) (group : list Observation) :
    Prop :=
  group <> [] /\ forall o, o ∈ group ->
    current at_ o slot = true /\ o_Outcome o = OutcomeValue /\
    admits slot (o_Value o) = true /\ o_Value o = v.

(** What an evidence verdict says, apart from its human-readable detail. *)
Definition se_core (ev : slotEvidence) :
    EvidenceStatus * ReasonCode * Value * ProviderIdentity * string :=
  (se_status ev, se_code ev, se_value ev, se_provider ev, se_ref ev).

Definition mismatch_codes : list ReasonCode :=
  [ReasonEvidenceProviderChanged; ReasonEvidenceContractChanged; ReasonEvidenceTargetReplaced].

Definition by_ref (a b : Observation) : bool := String.ltb (o_EvidenceRef a) (o_EvidenceRef b).

(** * Lemmas *)
#[local] Instance usable_dec at_ want o : Decision (usable at_ want o) := _.

Lemma classify_fold at_ want os acc c :
  foldl (classify at_ want) (acc, c) os =
  (acc ++ filter (usable at_ want) os,
   foldl worseMismatch c
     ((fun o => mismatch (o_Key o) want) <$>
        filter (fun o => o_ObservedAt o <= at_ /\ o_Key o <> want)%Z os)).
Proof.
  revert acc c. induction os as [|o os IH]; intros acc c; simpl; [by rewrite app_nil_r|].
  rewrite !filter_cons. unfold usable at 1.
  assert (After (o_ObservedAt o) at_ = false <-> (o_ObservedAt o <= at_)%Z) as Ha.
  { unfold After. apply Z.ltb_ge. }
  destruct (After (o_ObservedAt o) at_) eqn:Eo.
  - rewrite IH, !decide_False; [done| |]; intros [Hle _]; by apply Ha in Hle.
  - assert (o_ObservedAt o <= at_)%Z by by apply Ha.
    destruct (decide (o_Key o = want)) as [Ek|Ek]; rewrite IH; repeat case_decide; try tauto.
    by rewrite <- app_assoc.
Qed.

Lemma latest_of_ge os o : o ∈ os -> (o_ObservedAt o <= latest_of os)%Z.
Proof.
  destruct os as [|o1 os]; [by intros ?%elem_of_nil|]. simpl.
  assert (forall l t, (t <= foldl (fun latest o => if After (o_ObservedAt o) latest
            then o_ObservedAt o else latest) t l)%Z /\
          forall o, o ∈ l -> (o_ObservedAt o <= foldl (fun latest o =>
            if After (o_ObservedAt o) latest then o_ObservedAt o else latest) t l)%Z) as Hf.
  { induction l as [|x l IH]; intros t; simpl; [split; [lia|by intros ? ?%elem_of_nil]|].
    destruct (IH (if After (o_ObservedAt x) t then o_ObservedAt x else t)) as [H1 H2].
    unfold After in *. destruct (Z.ltb_spec t (o_ObservedAt x)).
    - split; [lia|]. intros y [->|Hy]%elem_of_cons; [lia|by apply H2].
    - split; [lia|]. intros y [->|Hy]%elem_of_cons; [lia|by apply H2]. }
  destruct (Hf os (o_ObservedAt o1)) as [H1 H2].
  intros [->|Ho]%elem_of_cons; [done|by apply H2].
Qed.

Lemma latest_of_elem os : os <> [] -> exists o, o ∈ os /\ o_ObservedAt o = latest_of os.
Proof.
  destruct os as [|o1 os]; [done|]. intros _. simpl.
  assert (forall l t, (exists o, o ∈ l /\ o_ObservedAt o = foldl (fun latest o =>
            if After (o_ObservedAt o) latest then o_ObservedAt o else latest) t l) \/
          foldl (fun latest o => if After (o_ObservedAt o) latest
            then o_ObservedAt o else latest) t l = t) as Hf.
  { induction l as [|x l IH]; intros t; simpl; [by right|].
    destruct (IH (if After (o_ObservedAt x) t then o_ObservedAt x else t)) as [(o & Ho & Heq)|Heq].
    - left. exists o. split; [by right|done].
    - destruct (After (o_ObservedAt x) t); [|by right].
      left. exists x. split; [left|done]. }
  destruct (Hf os (o_ObservedAt o1)) as [(o & Ho & Heq)|Heq].
  - exists o. split; [by right|done].
  - exists o1. split; [left|done].
Qed.

Lemma elem_of_list_filter_bool {A} (f : A -> bool) l x : x ∈ List.filter f l <-> x ∈ l /\ f x = true.
Proof. by rewrite !list_elem_of_In, List.filter_In. Qed.

(** The group judged is the set of latest usable statements. *)
Lemma elem_of_latest_group e t slot p o :
  o ∈ latest_group (filter (usable (e_at e) (wanted_key t slot p)) (observations_of e t slot)) <->
  latest_statement e t slot p o.
Proof.
  unfold latest_group, latest_statement. rewrite elem_of_sort_slice, elem_of_list_filter_bool, Z.eqb_eq.
  set (os := filter _ _).
  assert (forall x, x ∈ os <-> x ∈ observations_of e t slot /\ usable (e_at e) (wanted_key t slot p) x)
    as Hos by (intros x; unfold os; rewrite list_elem_of_filter; tauto).
  rewrite Hos. split.
  - intros [Ho Heq]. split; [done|]. intros o' Ho' Hu. rewrite Heq. apply latest_of_ge. by apply Hos.
  - intros [Ho Hmax]. split; [done|].
    assert (os <> []) as (x & Hx & Heq)%latest_of_elem.
    { intros Hnil. apply Hos in Ho. rewrite Hnil in Ho. nil_elem. }
    apply Hos in Ho. pose proof (latest_of_ge _ _ Ho). apply Hos in Hx as [? ?].
    assert (o_ObservedAt x <= o_ObservedAt o)%Z by by apply Hmax.
    rewrite Heq in *. lia.
Qed.

Lemma latest_group_nil os : latest_group os = [] <-> os = [].
Proof.
  split; [|by intros ->; apply sort_slice_nil].
  intros Hn. destruct (decide (os = [])) as [|(o & Ho & Heq)%latest_of_elem]; [done|].
  assert (o ∈ latest_group os) as Hin; [|rewrite Hn in Hin; nil_elem].
  unfold latest_group. by rewrite elem_of_sort_slice, elem_of_list_filter_bool, Z.eqb_eq.
Qed.

Lemma existsb_false_elem {A} (f : A -> bool) l :
  existsb f l = false <-> forall x, x ∈ l -> f x = false.
Proof.
  rewrite <- not_true_iff_false, existsb_exists. split.
  - intros Hn x Hx. destruct (f x) eqn:E; [|done]. destruct Hn. exists x.
    by rewrite <- list_elem_of_In.
  - intros Hf (x & Hx & Ht). rewrite <- list_elem_of_In in Hx. by rewrite Hf in Ht.
Qed.

(** A well-formed statement: a provider outage or an admitted value. *)
Lemma malformed_false slot o :
  malformed slot o = false <->
  o_Outcome o = OutcomeProviderUnavailable \/
  (o_Outcome o = OutcomeValue /\ admits slot (o_Value o) = true).
Proof.
  unfold malformed. case_decide as Ho; [tauto|].
  rewrite orb_false_iff, !negb_false_iff, bool_decide_eq_true. tauto.
Qed.

Lemma outcome_value_unavailable : OutcomeValue <> OutcomeProviderUnavailable.
Proof. done. Qed.

Lemma conflicts_false slot o x :
  malformed slot o = false -> malformed slot x = false ->
  conflicts o x = false <->
  o_Outcome x = o_Outcome o /\ (o_Outcome o = OutcomeValue -> o_Value x = o_Value o).
Proof.
  intros Ho Hx. apply malformed_false in Ho. apply malformed_false in Hx. unfold conflicts.
  rewrite orb_false_iff, negb_false_iff, bool_decide_eq_true, andb_false_iff,
    bool_decide_eq_false, negb_false_iff.
  destruct (decide (o_Outcome o = OutcomeValue)) as [Hv|Hv]; [|tauto].
  destruct Ho as [Ho|[_ Ho]]; [by rewrite Hv in Ho|].
  assert (o_Outcome x = o_Outcome o -> equal (o_Value x) (o_Value o) = true <-> o_Value x = o_Value o)
    as Heq.
  { intros Hxo. rewrite Hxo, Hv in Hx. destruct Hx as [Hx|[_ Hx]]; [done|].
    destruct (admits_canonical _ _ Ho) as [u ->], (admits_canonical _ _ Hx) as [w ->].
    rewrite equal_canonical. split; [by intros ->|apply to_value_inj]. }
  split.
  - intros [H1 H2]. split; [done|]. intros _. apply Heq; [done|]. tauto.
  - intros [H1 H2]. split; [done|]. right. apply Heq; auto.
Qed.

(** ** Current evidence *)
Lemma judge_group_current at_ slot p latest group v :
  group <> [] ->
  (se_status (judge_group at_ slot p latest group) = EvidenceCurrent /\
   se_value (judge_group at_ slot p latest group) = v) <->
  group_current at_ slot v group.
Proof.
  intros Hne. destruct group as [|o group]; [done|]. unfold judge_group, group_current.
  change (default zero_Observation (head (o :: group))) with o.
  change (tail (o :: group)) with group.
  destruct (existsb _ (o :: group)) eqn:Ecur.
  { split; [by intros [? _]|]. intros [_ Hall].
    apply not_false_iff_true in Ecur. destruct Ecur. apply existsb_false_elem.
    intros x Hx. apply negb_false_iff. by apply Hall. }
  rewrite existsb_false_elem in Ecur.
  assert (forall x, x ∈ o :: group -> current at_ x slot = true) as Hcur.
  { intros x Hx. apply negb_false_iff. by apply Ecur. }
  destruct (List.find (malformed slot) (o :: group)) as [bad|] eqn:Emal.
  { split; [by intros [? _]|]. intros [_ Hall]. apply find_Some_elem in Emal as [Hb Hm].
    destruct (Hall bad Hb) as (_ & Ho & Ha & _). apply not_false_iff_true in Hm.
    destruct Hm. apply malformed_false. by right. }
  assert (forall x, x ∈ o :: group -> malformed slot x = false) as Hmal.
  { intros x Hx. by apply (find_None_elem _ _ x Emal). }
  destruct (existsb (conflicts o) group) eqn:Econ.
  { split; [by intros [? _]|]. intros [_ Hall]. apply not_false_iff_true in Econ. destruct Econ.
    apply existsb_false_elem. intros x Hx.
    destruct (Hall o ltac:(left)) as (_ & Ho & _ & Hvo).
    destruct (Hall x ltac:(by right)) as (_ & Hxo & _ & Hvx).
    rewrite conflicts_false; [|apply Hmal; left|apply Hmal; by right]. split; congruence. }
  rewrite existsb_false_elem in Econ.
  case_decide as Hout; simpl.
  { split; [by intros [? _]|]. intros [_ Hall]. destruct (Hall o ltac:(left)) as (_ & Ho & _).
    exfalso. apply outcome_value_unavailable. congruence. }
  assert (o_Outcome o = OutcomeValue /\ admits slot (o_Value o) = true) as [Hov Hoa].
  { pose proof (Hmal o ltac:(left)) as Hm. apply malformed_false in Hm. tauto. }
  split.
  - intros [_ <-]. split; [done|]. intros x Hx. split; [by apply Hcur|].
    apply elem_of_cons in Hx as [->|Hx]; [done|].
    pose proof (Econ x Hx) as Hc. apply (conflicts_false slot) in Hc as [Hc1 Hc2];
      [|apply Hmal; left|apply Hmal; by right].
    rewrite Hc1, Hc2 by done. done.
  - intros [_ Hall]. split; [done|]. by apply (Hall o ltac:(left)).
Qed.

(** C30. A slot's evidence is Current with value [v] exactly when the target
    binds a provider for the slot and that provider's latest statements for
    the exact current binding, not later than the evaluation instant, are all
    within their currentness bounds, all report a value the slot admits, and
    all report [v]: an older statement is never fallen back to, and
    disagreement at the latest instant is never resolved. *)
Theorem resolveEvidence_current e t slot v :
  (se_status (resolveEvidence e t slot) = EvidenceCurrent /\
   se_value (resolveEvidence e t slot) = v) <->
  exists b, assertionBinding t (s_Name slot) = Some b /\
    (exists o, latest_statement e t (s_Name slot) (ab_Provider b) o) /\
    forall o, latest_statement e t (s_Name slot) (ab_Provider b) o ->
      current (e_at e) o slot = true /\ o_Outcome o = OutcomeValue /\
      admits slot (o_Value o) = true /\ o_Value o = v.
Proof.
  unfold resolveEvidence. destruct (assertionBinding t (s_Name slot)) as [b|] eqn:Eb.
  2:{ split; [by intros [? _]|]. by intros (b & ? & _). }
  rewrite classify_fold. cbn [app].
  setoid_rewrite <- elem_of_latest_group.
  destruct (filter _ _) as [|o os] eqn:Eos.
  - split.
    + by destruct (nonempty _); intros [? _].
    + intros (b' & [= <-] & [o Ho] & _). exfalso. rewrite Eos in Ho.
      unfold latest_group in Ho. simpl in Ho. rewrite sort_slice_nil in Ho. nil_elem.
  - rewrite judge_group_current by (by rewrite latest_group_nil).
    unfold group_current. rewrite latest_group_nil. split.
    + intros [_ Hall]. exists b. split; [done|]. rewrite Eos. split; [|done].
      apply list_exists_elem. by rewrite latest_group_nil.
    + intros (b' & [= <-] & _ & Hall). split; [done|]. by rewrite Eos in Hall.
Qed.

(** ** Independence of the order of observations *)
Lemma mismatch_in got want : mismatch got want ∈ mismatch_codes.
Proof. unfold mismatch, mismatch_codes. repeat case_match; set_solver. Qed.

Lemma worseMismatch_closed c a :
  c ∈ "" :: mismatch_codes -> a ∈ mismatch_codes -> worseMismatch c a ∈ "" :: mismatch_codes.
Proof. intros Hc Ha. unfold worseMismatch. case_match; [by right|done]. Qed.

Lemma worseMismatch_swap c a b :
  c ∈ "" :: mismatch_codes -> a ∈ mismatch_codes -> b ∈ mismatch_codes ->
  worseMismatch (worseMismatch c a) b = worseMismatch (worseMismatch c b) a.
Proof.
  unfold mismatch_codes. rewrite !elem_of_cons, !elem_of_nil.
  intros [->|[->|[->|[->|[]]]]] [->|[->|[->|[]]]] [->|[->|[->|[]]]]; reflexivity.
Qed.

Lemma worst_perm c l1 l2 :
  c ∈ "" :: mismatch_codes -> (forall a, a ∈ l1 -> a ∈ mismatch_codes) -> l1 ≡ₚ l2 ->
  foldl worseMismatch c l1 = foldl worseMismatch c l2.
Proof.
  intros Hc Hl Hp. revert c Hc Hl. induction Hp as [|x l l' Hp IH|x y l|l l' l'' Hp1 IH1 Hp2 IH2];
    intros c Hc Hl; simpl; [done| | |].
  - apply IH; [apply worseMismatch_closed; [done|]|]; set_solver.
  - rewrite worseMismatch_swap; [done|done|set_solver..].
  - rewrite IH1 by done. apply IH2; [done|]. intros a Ha. apply Hl. by rewrite Hp1.
Qed.

Lemma latest_of_perm l1 l2 : l1 ≡ₚ l2 -> latest_of l1 = latest_of l2.
Proof.
  intros Hp. destruct (decide (l1 = [])) as [->|H1].
  { by apply Permutation_nil in Hp as ->. }
  assert (l2 <> []) as H2 by (intros ->; by apply Permutation_nil_r in Hp).
  apply Z.le_antisymm.
  - destruct (latest_of_elem l1 H1) as (x & Hx & <-). apply latest_of_ge. by rewrite <- Hp.
  - destruct (latest_of_elem l2 H2) as (x & Hx & <-). apply latest_of_ge. by rewrite Hp.
Qed.

Lemma existsb_elem {A} (f : A -> bool) l : existsb f l = true <-> exists x, x ∈ l /\ f x = true.
Proof. rewrite existsb_exists. by setoid_rewrite <- list_elem_of_In. Qed.

Lemma existsb_perm {A} (f : A -> bool) l1 l2 : l1 ≡ₚ l2 -> existsb f l1 = existsb f l2.
Proof.
  intros Hp. apply eq_true_iff_eq. rewrite !existsb_elem. by setoid_rewrite Hp.
Qed.

Lemma find_None_existsb {A} (f : A -> bool) l : List.find f l = None <-> existsb f l = false.
Proof.
  rewrite existsb_false_elem. split; [intros Hf x; by apply find_None_elem|].
  intros Hf. destruct (List.find f l) as [x|] eqn:E; [|done].
  apply find_Some_elem in E as [Hx Ht]. by rewrite Hf in Ht.
Qed.

(** Whether the first statement conflicts with another does not depend on which
    statement is first. *)
Lemma conflict_free slot o group :
  existsb (malformed slot) (o :: group) = false ->
  existsb (conflicts o) group = false <->
  forall x, x ∈ o :: group ->
    o_Outcome x = o_Outcome o /\ (o_Outcome o = OutcomeValue -> o_Value x = o_Value o).
Proof.
  intros Hm. rewrite existsb_false_elem in Hm. rewrite existsb_false_elem. split.
  - intros Hc x [->|Hx]%elem_of_cons; [done|].
    apply (conflicts_false slot); [apply Hm; left|apply Hm; by right|auto].
  - intros Hc x Hx. apply (conflicts_false slot); [apply Hm; left|apply Hm; by right|].
    apply Hc. by right.
Qed.

Lemma judge_group_perm at_ slot p latest o1 g1 o2 g2 :
  o1 :: g1 ≡ₚ o2 :: g2 -> o_EvidenceRef o1 = o_EvidenceRef o2 ->
  se_core (judge_group at_ slot p latest (o1 :: g1)) =
  se_core (judge_group at_ slot p latest (o2 :: g2)).
Proof.
  intros Hp Href. unfold judge_group.
  change (default zero_Observation (head (o1 :: g1))) with o1.
  change (default zero_Observation (head (o2 :: g2))) with o2.
  change (tail (o1 :: g1)) with g1. change (tail (o2 :: g2)) with g2.
  rewrite (existsb_perm _ _ _ Hp), Href.
  destruct (existsb (fun o => negb (current at_ o slot)) _); [done|].
  destruct (existsb (malformed slot) (o2 :: g2)) eqn:Em; pose proof Em as Em1;
    rewrite <- (existsb_perm _ _ _ Hp) in Em1.
  { destruct (List.find _ (o1 :: g1)) eqn:E1; [|apply find_None_existsb in E1; congruence].
    destruct (List.find _ (o2 :: g2)) eqn:E2; [done|apply find_None_existsb in E2; congruence]. }
  rewrite (proj2 (find_None_existsb _ _) Em), (proj2 (find_None_existsb _ _) Em1).
  pose proof (conflict_free slot o1 g1 Em1) as C1. pose proof (conflict_free slot o2 g2 Em) as C2.
  assert (o1 ∈ o2 :: g2) as Ho1 by (rewrite <- Hp; left).
  assert (o2 ∈ o1 :: g1) as Ho2 by (rewrite Hp; left).
  assert (existsb (conflicts o1) g1 = false <-> existsb (conflicts o2) g2 = false) as Hc.
  { rewrite C1, C2. split; intros Hall x Hx.
    - rewrite <- Hp in Hx. destruct (Hall x Hx), (Hall o2 Ho2). split; [congruence|].
      intros Hv. rewrite !H2, H4; congruence.
    - rewrite Hp in Hx. destruct (Hall x Hx), (Hall o1 Ho1). split; [congruence|].
      intros Hv. rewrite !H2, H4; congruence. }
  destruct (existsb (conflicts o1) g1) eqn:E1, (existsb (conflicts o2) g2) eqn:E2;
    [done|naive_solver|naive_solver|].
  destruct (proj1 C2 eq_refl o1 Ho1) as [Hout Hval]. rewrite Hout.
  case_decide as Hun; [done|]. unfold se_core; simpl. rewrite Hval; [done|].
  rewrite existsb_false_elem in Em. specialize (Em o2 ltac:(left)). apply malformed_false in Em. tauto.
Qed.

Lemma by_ref_lex a b : by_ref a b = lex_ltb [o_EvidenceRef a] [o_EvidenceRef b].
Proof. unfold by_ref; simpl. case_decide as Heq; [rewrite Heq; apply string_ltb_irrefl|done]. Qed.

(** Sorting two orders of the same statements puts the same reference first. *)
Lemma sorted_heads l1 l2 o1 g1 o2 g2 :
  l1 ≡ₚ l2 -> sort_slice by_ref l1 = o1 :: g1 -> sort_slice by_ref l2 = o2 :: g2 ->
  o1 :: g1 ≡ₚ o2 :: g2 /\ o_EvidenceRef o1 = o_EvidenceRef o2.
Proof.
  intros Hp E1 E2.
  assert (StrictWeak by_ref) as HS by exact (key_strict_weak _ _ by_ref_lex).
  pose proof (sort_slice_sorted _ by_ref l1 HS) as S1. rewrite E1 in S1.
  pose proof (sort_slice_sorted _ by_ref l2 HS) as S2. rewrite E2 in S2.
  assert (o1 :: g1 ≡ₚ o2 :: g2) as Hg.
  { by rewrite <- E1, <- E2, !sort_slice_perm. }
  split; [done|].
  apply StronglySorted_cons in S1 as [F1 _]. apply StronglySorted_cons in S2 as [F2 _].
  rewrite Forall_forall in F1, F2.
  assert (o1 ∈ o2 :: g2) as [->|Ho1]%elem_of_cons by (rewrite <- Hg; left); [done|].
  assert (o2 ∈ o1 :: g1) as [->|Ho2]%elem_of_cons by (rewrite Hg; left); [done|].
  assert ([o_EvidenceRef o1] = [o_EvidenceRef o2]) as [=]; [|done].
  exact (lex_le_antisym (fun o => [o_EvidenceRef o]) by_ref _ _ by_ref_lex (F1 _ Ho2) (F2 _ Ho1)).
Qed.

Lemma observations_of_new s t slot :
  observations_of (newEvaluator s) t slot =
  filter (fun o => obs_key o = (ti_Namespace (t_Identity t), ti_Name (t_Identity t), slot))
    (Observations s).
Proof. unfold observations_of; simpl. by rewrite lookup_group_by. Qed.

Lemma filter_bool_perm {A} (f : A -> bool) l1 l2 :
  l1 ≡ₚ l2 -> List.filter f l1 ≡ₚ List.filter f l2.
Proof.
  induction 1; simpl; repeat case_match; eauto using Permutation; by etrans.
Qed.

Lemma match_nonempty {A B} (l : list A) (x y : B) :
  l <> [] -> match l with [] => x | _ :: _ => y end = y.
Proof. by destruct l. Qed.

(** Evidence does not depend on the order in which the snapshot lists the
    observations: status, reason code, value, provider and evidence reference
    are the same for every permutation of them. *)
Theorem resolveEvidence_order at_ cs ts os1 os2 t slot :
  os1 ≡ₚ os2 ->
  se_core (resolveEvidence (newEvaluator (Build_Snapshot at_ cs ts os1)) t slot) =
  se_core (resolveEvidence (newEvaluator (Build_Snapshot at_ cs ts os2)) t slot).
Proof.
  intros Hp. unfold resolveEvidence. destruct (assertionBinding t (s_Name slot)) as [b|]; [|done].
  rewrite !classify_fold, !observations_of_new. cbn [app e_at newEvaluator At Observations].
  set (want := wanted_key _ _ _).
  rewrite (worst_perm "" _ (((fun o => mismatch (o_Key o) want) <$> filter (fun o => (o_ObservedAt o <=
    at_)%Z /\ o_Key o <> want) (filter (fun o => obs_key o = (ti_Namespace (t_Identity t),
    ti_Name (t_Identity t), s_Name slot)) os2)))).
  2:{ left. }
  2:{ intros a (o & -> & _)%list_elem_of_fmap. apply mismatch_in. }
  2:{ by rewrite Hp. }
  set (l1 := filter (usable at_ want) (filter _ os1)).
  set (l2 := filter (usable at_ want) (filter _ os2)).
  assert (l1 ≡ₚ l2) as Hl by (unfold l1, l2; by rewrite Hp).
  assert (latest_group l1 ≡ₚ latest_group l2) as Hg.
  { unfold latest_group. rewrite !sort_slice_perm, (latest_of_perm _ _ Hl). by apply filter_bool_perm. }
  destruct (latest_group l1) as [|o1 g1] eqn:G1.
  { apply (proj1 (latest_group_nil _)) in G1. rewrite G1 in Hl |- *. by apply Permutation_nil in Hl as ->. }
  destruct (latest_group l2) as [|o2 g2] eqn:G2; [by apply Permutation_nil_r in Hg|].
  rewrite (match_nonempty l1), (match_nonempty l2), (latest_of_perm _ _ Hl);
    [|intros Hn; apply (proj2 (latest_group_nil _)) in Hn; congruence..].
  assert (o1 :: g1 ≡ₚ o2 :: g2 /\ o_EvidenceRef o1 = o_EvidenceRef o2) as [Hpg Href].
  { apply (sorted_heads _ _ _ _ _ _ (filter_bool_perm (fun o => Z.eqb (o_ObservedAt o)
      (latest_of l1)) _ _ Hl)); [exact G1|].
    rewrite (latest_of_perm _ _ Hl). exact G2. }
  by apply judge_group_perm.
Qed.
End evidence.
