(* ===== verification/EvalResolve.v ===== *)
(** * Target resolution (newEvaluator and resolveTarget in
    pkg/operations/evaluator.go): which targets take part in an evaluation *)

From S2P Require Import Prelude Identity Predicate LocalCycle Contract Assessment Evaluator.

Section resolve.
Context `{GoText} `{SortSlice}.

(** ** Specification *)

(** A target that can be assessed against contract [c]. *)
Record wf_target (s : Snapshot) (t : Target) (c : Contract) : Prop := {
  wt_unique : length (filter (fun t' => ti_UID (t_Identity t') = ti_UID (t_Identity t))
                        (Targets s)) <= 1;
  wt_namespace : ci_Namespace (t_ContractRef t) = ti_Namespace (t_Identity t);
  wt_contract : filter (fun c => c_Identity c = t_ContractRef t) (Contracts s) = [c];
  wt_wf : wf_contract c;
  wt_assertions : Forall (fun b => is_Some (slot c (ab_Slot b)) /\ pi_Name (ab_Provider b) <> "")
                    (t_AssertionBindings t);
  wt_assertion_slots : NoDup (ab_Slot <$> t_AssertionBindings t);
  wt_dependencies : Forall (fun b => (exists d, d ∈ c_DependencySlots c /\ ds_Name d = db_Slot b) /\
                        db_TargetUID b <> "" /\ ContractIdentity_complete (db_Contract b) = true)
                      (t_DependencyBindings t);
  wt_dependency_slots : NoDup (db_Slot <$> t_DependencyBindings t);
  wt_selection : t_EnvelopeSelection t = "" \/ is_Some (envelope c (t_EnvelopeSelection t));
}.

(** What [resolveTarget] decides for a target: the contract pointer it sets
    and the reasons it appends. *)
Definition contract_reasons (c : Contract) (t : Target) : list Reason :=
  let errs := sort_strings (Validate c) in
  if 0 <? length errs
  then [Build_Reason ReasonInvalidContract ("contract:" +:+ ContractIdentity_String (t_ContractRef t))
          (join "; " errs)]
  else binding_reasons c t.

Definition resolution (e : evaluator) (t : Target) : option nat * list Reason :=
  let ref := "contract:" +:+ ContractIdentity_String (t_ContractRef t) in
  let dup := if 1 <? length (default [] (e_byUID e !! ti_UID (t_Identity t)))
    then [Build_Reason ReasonDuplicateTargetUID ("target:" +:+ ti_UID (t_Identity t)) ""] else [] in
  if negb (bool_decide (ci_Namespace (t_ContractRef t) = ti_Namespace (t_Identity t)))
  then (None, dup ++ [Build_Reason ReasonCrossNamespaceContract ref ""])
  else match default [] (e_contracts e !! t_ContractRef t) with
       | [] => (None, dup ++ [Build_Reason ReasonContractUnresolved ref ""])
       | [p] => (Some p, dup ++ contract_reasons (contract_at e p) t)
       | cs => (None, dup ++ [Build_Reason ReasonContractAmbiguous ref
                                (pretty (length cs) +:+ " contracts share this identity")])
       end.

Definition resolved (e : evaluator) (ts : targetState) : targetState :=
  let '(p, rs) := resolution e (ts_t ts) in
  Build_targetState (ts_t ts) (if p is Some p then Some p else ts_contract ts)
    (ts_invalid ts ++ rs) (ts_evidence ts).

(** What no step of an evaluation changes. *)
Record base_eq (e e' : evaluator) : Prop := {
  be_at : e_at e' = e_at e;
  be_store : e_store e' = e_store e;
  be_contracts : e_contracts e' = e_contracts e;
  be_byUID : e_byUID e' = e_byUID e;
  be_order : e_order e' = e_order e;
  be_obs : e_obs e' = e_obs e;
  be_target i : ts_t (target_at e' i) = ts_t (target_at e i);
}.

(** A step that evaluates nothing: it fills no memo. *)
Record quiet (e e' : evaluator) : Prop := {
  qu_base : base_eq e e';
  qu_caps : e_capMemo e' = e_capMemo e;
  qu_envs : e_envMemo e' = e_envMemo e;
  qu_heap : length (e_heap e') = length (e_heap e);
}.

(** The cache holds what [Validate] returns. *)
Definition cache_ok (e : evaluator) : Prop :=
  forall p errs, e_validatedCache e !! p = Some errs ->
    errs = sort_strings (Validate (contract_at e p)).

(** * Lemmas *)
#[export] Instance base_eq_preorder : PreOrder base_eq.
Proof.
  split; [by split|]. intros e1 e2 e3 [] []. split; congruence.
Qed.

#[export] Instance quiet_preorder : PreOrder quiet.
Proof.
  split; [by split|]. intros e1 e2 e3 [] []. split; [by etrans|congruence..].
Qed.

Lemma target_at_modify i f e j :
  i < length (e_heap e) ->
  target_at (modify_target i f e) j = if decide (i = j) then f (target_at e j) else target_at e j.
Proof.
  intros Hi. unfold target_at; simpl. rewrite list_lookup_alter. case_decide; subst; [|done].
  by destruct (lookup_lt_is_Some_2 _ _ Hi) as [x ->].
Qed.

Lemma modify_target_base i f e :
  (forall ts, ts_t (f ts) = ts_t ts) -> base_eq e (modify_target i f e).
Proof.
  intros Hf. split; try done. intros j. unfold target_at; simpl.
  rewrite list_lookup_alter. case_decide; subst; [|done]. destruct (e_heap e !! j); simpl; auto.
Qed.

Lemma modify_target_twice i f g e :
  modify_target i f (modify_target i g e) = modify_target i (f ∘ g) e.
Proof.
  unfold modify_target, set_heap; simpl. f_equal. apply list_eq. intros j.
  rewrite !list_lookup_alter. repeat case_decide; subst; try done. by destruct (e_heap e !! j).
Qed.

Lemma add_invalid_nil ts : add_invalid [] ts = ts.
Proof. destruct ts. unfold add_invalid; simpl. by rewrite app_nil_r. Qed.

(** Two evaluators equal up to the cache, which is sound in both. *)
Definition set_cache (m : gmap nat (list string)) (e : evaluator) : evaluator :=
  Build_evaluator (e_at e) (e_store e) (e_contracts e) (e_heap e) (e_byUID e) (e_order e) (e_obs e)
    (e_capMemo e) (e_envMemo e) m.

Lemma validate_contract_spec p e :
  cache_ok e -> exists m,
  validate_contract p e = (sort_strings (Validate (contract_at e p)), set_cache m e) /\
  cache_ok (set_cache m e).
Proof.
  intros Hc. unfold validate_contract. destruct (e_validatedCache e !! p) as [errs|] eqn:E.
  - exists (e_validatedCache e). rewrite (Hc _ _ E). by destruct e.
  - eexists. split; [done|]. intros q errs. simpl. rewrite lookup_insert. case_decide; [|apply Hc].
    intros [= <-]. by subst.
Qed.

Lemma alter_ext_target i f g e :
  (forall ts, f ts = g ts) -> modify_target i f e = modify_target i g e.
Proof.
  intros Hfg. unfold modify_target, set_heap. f_equal. apply list_eq. intros j.
  rewrite !list_lookup_alter. case_decide; subst; [|done]. destruct (e_heap e !! j); simpl; by rewrite ?Hfg.
Qed.

Lemma modify_target_id i e : modify_target i (add_invalid []) e = e.
Proof.
  destruct e. unfold modify_target, set_heap; simpl. f_equal. apply list_eq. intros j.
  rewrite list_lookup_alter. case_decide; subst; [|done].
  destruct (_ !! j); simpl; by rewrite ?add_invalid_nil.
Qed.

Lemma bad_if (b : bool) r i e :
  (if b then modify_target i (add_invalid [r]) e else e) =
  modify_target i (add_invalid (if b then [r] else [])) e.
Proof. destruct b; [done|]. by rewrite modify_target_id. Qed.

(** [resolveTarget] is [resolved] on its target, up to the cache. *)
Lemma resolveTarget_spec e i :
  cache_ok e ->
  exists m, resolveTarget e i = set_cache m (modify_target i (resolved e) e) /\ cache_ok (set_cache m e).
Proof.
  intros Hc.
  assert (forall f, (forall ts, ts_t ts = ts_t (target_at e i) -> f ts = resolved e ts) ->
    modify_target i f e = modify_target i (resolved e) e) as Hext.
  { intros f Hf. unfold modify_target, set_heap. f_equal. apply list_eq. intros j.
    rewrite !list_lookup_alter. case_decide; subst; [|done].
    unfold target_at in Hf. destruct (e_heap e !! j); simpl; [|done]. by rewrite Hf. }
  unfold resolveTarget. rewrite bad_if. set (dup := if 1 <? _ then _ else _).
  change (e_contracts (modify_target _ _ _)) with (e_contracts e).
  set (t := ts_t (target_at e i)) in *.
  assert (forall rs p, resolution e t = (p, dup ++ rs) -> forall ts, ts_t ts = t ->
    (match p with
     | Some p => add_invalid rs ∘ (set_contract p ∘ add_invalid dup)
     | None => add_invalid rs ∘ add_invalid dup
     end) ts = resolved e ts) as Hstep.
  { intros rs p Hr ts Hts. unfold resolved. rewrite Hts, Hr. unfold add_invalid.
    destruct p; simpl; by rewrite Hts, <- app_assoc. }
  unfold resolution in Hstep. fold dup in Hstep. cbn zeta in Hstep.
  destruct (negb _) eqn:Ens.
  { exists (e_validatedCache e). split; [|exact Hc]. rewrite modify_target_twice.
    by rewrite <- (Hext _ (Hstep _ None eq_refl)). }
  destruct (default [] (e_contracts e !! t_ContractRef t)) as [|p [|p' cs]] eqn:Ecs.
  - exists (e_validatedCache e). split; [|exact Hc]. rewrite modify_target_twice.
    by rewrite <- (Hext _ (Hstep _ None eq_refl)).
  - rewrite modify_target_twice.
    destruct (validate_contract_spec p (modify_target i (set_contract p ∘ add_invalid dup) e))
      as (m & -> & Hm); [exact Hc|]. cbn iota.
    change (contract_at (modify_target _ _ _) p) with (contract_at e p).
    change (contract_at (set_cache _ _) p) with (contract_at e p).
    exists m. split; [|exact Hm].
    rewrite <- (Hext _ (Hstep _ (Some p) eq_refl)).
    rewrite <- (modify_target_twice i _ (set_contract p ∘ add_invalid dup)).
    unfold contract_reasons. cbn zeta. by destruct (0 <? _).
  - exists (e_validatedCache e). split; [|exact Hc]. rewrite modify_target_twice.
    by rewrite <- (Hext _ (Hstep _ None eq_refl)).
Qed.
Lemma resolution_base e e' t : base_eq e e' -> resolution e' t = resolution e t.
Proof. intros []. unfold resolution, contract_at. by rewrite be_byUID0, be_contracts0, be_store0. Qed.

Lemma resolved_base e e' ts : base_eq e e' -> resolved e' ts = resolved e ts.
Proof. intros Hb. unfold resolved. by rewrite (resolution_base e e'). Qed.

Lemma resolved_t e ts : ts_t (resolved e ts) = ts_t ts.
Proof. unfold resolved. by destruct (resolution _ _). Qed.

Lemma modify_target_quiet i f e :
  (forall ts, ts_t (f ts) = ts_t ts) -> quiet e (modify_target i f e).
Proof.
  intros Hf. split; [by apply modify_target_base|done..|]. simpl. apply length_alter.
Qed.

Lemma resolveTarget_quiet e i : cache_ok e -> quiet e (resolveTarget e i).
Proof.
  intros Hc. destruct (resolveTarget_spec e i Hc) as (m & -> & _).
  destruct (modify_target_quiet i (resolved e) e) as [[]]; [apply resolved_t|]. by repeat split.
Qed.

Lemma resolve_fold e l :
  cache_ok e -> NoDup l -> (forall i, i ∈ l -> i < length (e_heap e)) ->
  quiet e (foldl resolveTarget e l) /\
  forall j, target_at (foldl resolveTarget e l) j =
            if decide (j ∈ l) then resolved e (target_at e j) else target_at e j.
Proof.
  revert e. induction l as [|i l IH]; intros e Hc Hnd Hl; cbn [foldl].
  { split; [done|]. intros j. by rewrite decide_False by apply not_elem_of_nil. }
  apply NoDup_cons in Hnd as [Hi Hnd].
  assert (i < length (e_heap e)) as Hlen by (apply Hl; left).
  pose proof (resolveTarget_quiet e i Hc) as Hq.
  destruct (resolveTarget_spec e i Hc) as (m & Heq & Hc').
  rewrite Heq in *.
  destruct (IH (set_cache m (modify_target i (resolved e) e))) as [Hq' Ht]; [done|done| |].
  { intros j Hj. simpl. rewrite length_alter. apply Hl. by right. }
  split; [by etrans|]. intros j. rewrite Ht.
  rewrite (resolved_base e) by by apply qu_base.
  change (target_at (set_cache m ?x) j) with (target_at x j).
  rewrite target_at_modify by done.
  destruct (decide (i = j)) as [->|Hne].
  - rewrite decide_False by done. by rewrite decide_True by left.
  - destruct (decide (j ∈ l)).
    + by rewrite decide_True by by right.
    + rewrite decide_False; [done|]. by intros [->|?]%elem_of_cons.
Qed.
(** ** The binding loops: duplicates are recorded, other bad bindings skipped *)
Lemma seen_loop {A} (key : A -> string) (bad : A -> bool) (msg dup : A -> Reason)
    (step : gmap string bool -> A -> list Reason * gmap string bool) l m :
  (forall m a, step m a = if bad a then ([msg a], m)
                          else (if has m (key a) then [dup a] else [], <[key a := true]> m)) ->
  (collect step m l).1 = [] <->
  Forall (fun a => bad a = false) l /\ NoDup (key <$> l) /\ (forall a, a ∈ l -> has m (key a) = false).
Proof.
  intros Hstep. revert m. induction l as [|a l IH]; intros m; cbn [collect].
  { split; [|done]. intros _. split_and!; [constructor|constructor|by intros ? ?%elem_of_nil]. }
  rewrite Forall_cons, NoDup_fmap_cons, Hstep.
  destruct (bad a).
  { destruct (collect step m l). simpl. split; [done|]. by intros [[? _] _]. }
  specialize (IH (<[key a:=true]> m)). destruct (collect step _ l) as [rs m']. simpl in *.
  rewrite app_nil_iff, IH. destruct (has m (key a)) eqn:Ea.
  { split; [by intros []|]. intros (_ & _ & Hn). by rewrite Hn in Ea by left. }
  split.
  - intros (_ & ? & ? & Hn). split_and!; try done.
    + intros x Hx Heq. specialize (Hn x Hx). apply not_true_iff_false in Hn.
      rewrite has_insert in Hn. by destruct Hn; left.
    + intros x [->|Hx]%elem_of_cons; [done|]. specialize (Hn x Hx).
      apply not_true_iff_false in Hn. apply not_true_iff_false. rewrite has_insert in Hn. tauto.
  - intros ([_ ?] & [Hne ?] & Hn). split_and!; try done. intros x Hx.
    apply not_true_iff_false. rewrite has_insert. intros [Heq|Hh]; [by apply (Hne x)|].
    by rewrite Hn in Hh by by right.
Qed.

Lemma hasDepSlot_true c n :
  hasDepSlot c n = true <-> exists d, d ∈ c_DependencySlots c /\ ds_Name d = n.
Proof.
  unfold hasDepSlot. rewrite existsb_exists. setoid_rewrite <- list_elem_of_In.
  by setoid_rewrite bool_decide_eq_true.
Qed.

Lemma binding_reasons_nil c t :
  binding_reasons c t = [] <->
  (Forall (fun b => is_Some (slot c (ab_Slot b)) /\ pi_Name (ab_Provider b) <> "")
     (t_AssertionBindings t) /\
   NoDup (ab_Slot <$> t_AssertionBindings t)) /\
  (Forall (fun b => (exists d, d ∈ c_DependencySlots c /\ ds_Name d = db_Slot b) /\
     db_TargetUID b <> "" /\ ContractIdentity_complete (db_Contract b) = true)
     (t_DependencyBindings t) /\
   NoDup (db_Slot <$> t_DependencyBindings t)) /\
  (t_EnvelopeSelection t = "" \/ is_Some (envelope c (t_EnvelopeSelection t))).
Proof.
  unfold binding_reasons. rewrite !app_nil_iff.
  rewrite (seen_loop ab_Slot) by reflexivity. rewrite (seen_loop db_Slot) by reflexivity.
  assert (forall k, has (∅ : gmap string bool) k = false) as Hempty by done.
  rewrite !Forall_forall. f_equiv; [|f_equiv].
  - setoid_rewrite orb_false_iff. setoid_rewrite negb_bool_decide_false.
    setoid_rewrite bool_decide_eq_false. naive_solver.
  - setoid_rewrite orb_false_iff. setoid_rewrite orb_false_iff. setoid_rewrite negb_false_iff.
    setoid_rewrite hasDepSlot_true. setoid_rewrite bool_decide_eq_false. naive_solver.
  - destruct (negb _ && negb _) eqn:E; [|rewrite andb_false_iff, !negb_bool_decide_false in E; tauto].
    apply andb_true_iff in E as [E1 E2]. rewrite negb_true_iff, bool_decide_eq_false in E1, E2. naive_solver.
Qed.

(** ** newEvaluator *)
Lemma fmap_seq_lookup {A} (d : A) l : (fun i => default d (l !! i)) <$> seq 0 (length l) = l.
Proof.
  apply list_eq. intros i. rewrite list_lookup_fmap. destruct (decide (i < length l)) as [Hi|Hi].
  - rewrite lookup_seq_lt by done. simpl. by destruct (lookup_lt_is_Some_2 _ _ Hi) as [x ->].
  - rewrite lookup_seq_ge, lookup_ge_None_2 by lia. done.
Qed.

Lemma filter_fmap {A B} (f : A -> B) (P : B -> Prop) `{!forall x, Decision (P x)} (l : list A) :
  filter P (f <$> l) = f <$> filter (fun x => P (f x)) l.
Proof.
  induction l as [|x l IH]; [done|]. rewrite fmap_cons, !filter_cons. by case_decide; rewrite IH.
Qed.

(** Grouping positions by a key of the elements is grouping the elements. *)
Lemma filter_seq_lookup {A} (d : A) (P : A -> Prop) `{!forall x, Decision (P x)} l :
  (fun i => default d (l !! i)) <$>
    filter (fun i => P (default d (l !! i))) (seq 0 (length l)) = filter P l.
Proof. by rewrite <- filter_fmap, fmap_seq_lookup. Qed.

Section new.
Variable s : Snapshot.

Lemma new_target i t : Targets s !! i = Some t -> target_at (newEvaluator s) i = Build_targetState t None [] ∅.
Proof. intros Ht. unfold target_at; simpl. by rewrite list_lookup_fmap, Ht. Qed.

Lemma new_order : e_order (newEvaluator s) ≡ₚ seq 0 (length (Targets s)).
Proof. simpl. by rewrite slice_stable_perm, length_fmap. Qed.

Lemma new_byUID uid :
  default [] (e_byUID (newEvaluator s) !! uid) =
  filter (fun i => ti_UID (t_Identity (ts_t (target_at (newEvaluator s) i))) = uid)
    (seq 0 (length (Targets s))).
Proof. simpl. by rewrite lookup_group_by, length_fmap. Qed.

Lemma new_byUID_length uid :
  length (default [] (e_byUID (newEvaluator s) !! uid)) =
  length (filter (fun t => ti_UID (t_Identity t) = uid) (Targets s)).
Proof.
  rewrite new_byUID, <- (filter_seq_lookup zero_Target), length_fmap.
  assert (forall i, ts_t (target_at (newEvaluator s) i) = default zero_Target (Targets s !! i)) as Ht.
  { intros i. unfold target_at; simpl. rewrite list_lookup_fmap. by destruct (Targets s !! i). }
  f_equal. apply list_filter_iff. intros i. by rewrite Ht.
Qed.

Lemma new_contracts k :
  contract_at (newEvaluator s) <$> default [] (e_contracts (newEvaluator s) !! k) =
  filter (fun c => c_Identity c = k) (Contracts s).
Proof. simpl. rewrite lookup_group_by. 
  exact (filter_seq_lookup zero_Contract (fun c => c_Identity c = k) (Contracts s)). Qed.

Lemma resolve_quiet : quiet (newEvaluator s) (resolveTargets (newEvaluator s)).
Proof.
  apply (resolve_fold (newEvaluator s) (e_order (newEvaluator s))).
  { by intros p errs. }
  { rewrite new_order. apply NoDup_seq. }
  intros j Hj. rewrite new_order, elem_of_seq in Hj. simpl. rewrite length_fmap. lia.
Qed.

Lemma resolve_length : length (e_heap (resolveTargets (newEvaluator s))) = length (Targets s).
Proof. rewrite (qu_heap _ _ resolve_quiet). simpl. apply length_fmap. Qed.

Lemma resolve_t i t :
  Targets s !! i = Some t -> ts_t (target_at (resolveTargets (newEvaluator s)) i) = t.
Proof. intros Ht. by rewrite (be_target _ _ (qu_base _ _ resolve_quiet)), (new_target _ _ Ht). Qed.

Lemma resolve_evidence i : ts_evidence (target_at (resolveTargets (newEvaluator s)) i) = ∅.
Proof.
  destruct (resolve_fold (newEvaluator s) (e_order (newEvaluator s))) as [_ Ht].
  { by intros p errs. }
  { rewrite new_order. apply NoDup_seq. }
  { intros j Hj. rewrite new_order, elem_of_seq in Hj. simpl. rewrite length_fmap. lia. }
  assert (ts_evidence (target_at (newEvaluator s) i) = ∅) as Hnew.
  { unfold target_at; simpl. rewrite list_lookup_fmap. by destruct (Targets s !! i). }
  unfold resolveTargets. rewrite Ht. case_decide; [|done].
  unfold resolved. by destruct (resolution _ _).
Qed.

Lemma resolve_valid i t c :
  Targets s !! i = Some t ->
  let e := resolveTargets (newEvaluator s) in
  (valid (target_at e i) = true /\ the_contract e i = c) <-> wf_target s t c.
Proof.
  intros Ht e.
  destruct (resolve_fold (newEvaluator s) (e_order (newEvaluator s))) as [Hq Hh].
  { by intros p errs. }
  { rewrite new_order. apply NoDup_seq. }
  { intros j Hj. rewrite new_order, elem_of_seq in Hj. simpl. rewrite length_fmap. lia. }
  assert (i < length (Targets s)) as Hi by by eapply lookup_lt_Some.
  specialize (Hh i). rewrite decide_True in Hh by (rewrite new_order, elem_of_seq; lia).
  rewrite (new_target i t Ht) in Hh.
  change (foldl resolveTarget (newEvaluator s) (e_order (newEvaluator s))) with e in Hh, Hq.
  unfold the_contract, contract_at.
  rewrite (be_store _ _ (qu_base _ _ Hq)), Hh. clear Hq Hh e.
  unfold resolved, resolution, valid. cbn [ts_t ts_contract ts_invalid].
  rewrite new_byUID_length. pose proof (new_contracts (t_ContractRef t)) as Hc.
  set (dup := if 1 <? _ then _ else _).
  assert (dup = [] <-> length (filter (fun t' => ti_UID (t_Identity t') = ti_UID (t_Identity t))
            (Targets s)) <= 1) as Hdup.
  { unfold dup. destruct (Nat.ltb_spec 1 (length (filter (fun t' => ti_UID (t_Identity t') =
      ti_UID (t_Identity t)) (Targets s)))); split; try done; lia. }
  clearbody dup.
  assert (forall c', filter (fun c => c_Identity c = t_ContractRef t) (Contracts s) <> [c'] ->
    wf_target s t c' <-> False) as Hno.
  { intros c' Hne. split; [|done]. intros Hw. by apply Hne, wt_contract. }
  destruct (bool_decide_reflect (ci_Namespace (t_ContractRef t) = ti_Namespace (t_Identity t)))
    as [Hns|Hns]; cbn [negb].
  2:{ simpl. split; [|intros Hw; by apply wt_namespace in Hw].
      intros [Hv _]. by destruct dup. }
  destruct (default [] (e_contracts (newEvaluator s) !! t_ContractRef t)) as [|p [|p' cs]];
    rewrite <- Hc in Hno; simpl in *.
  - rewrite Hno by done. split; [|done]. intros [Hv _]. by destruct dup.
  - rewrite bool_decide_eq_true, length_zero_iff_nil, app_nil_iff, Hdup.
    change (default zero_Contract (Contracts s !! p)) with (contract_at (newEvaluator s) p).
    set (c' := contract_at (newEvaluator s) p) in *. unfold contract_reasons.
    assert ((0 <? length (sort_strings (Validate c'))) = false <-> wf_contract c') as Hwf.
    { rewrite <- Validate_ok. unfold sort_strings. rewrite length_sort_slice, Nat.ltb_ge, Nat.le_0_r.
      apply length_zero_iff_nil. }
    split.
    + intros [[Hd Hb] <-]. destruct (0 <? _); [done|].
      apply binding_reasons_nil in Hb as ((? & ?) & (? & ?) & ?). split; tauto || done.
    + intros []. rewrite wt_contract0 in Hc. injection Hc as Hc. split; [|done].
      split; [done|]. rewrite <- Hc in wt_wf0. rewrite (proj2 Hwf wt_wf0), binding_reasons_nil. by rewrite Hc.
  - rewrite Hno by done. split; [|done]. intros [Hv _]. by destruct dup.
Qed.
(** Target resolution is exact: after [resolveTargets], a target is valid
    and points to contract [c] exactly when its UID is unique in the snapshot,
    it refers to a contract of its own namespace that exactly one contract [c]
    of the snapshot has the identity of, that contract is well formed, and
    every binding and the envelope selection name something [c] declares, each
    slot at most once. *)
Theorem resolveTargets_valid i t c :
  Targets s !! i = Some t ->
  let e := resolveTargets (newEvaluator s) in
  (valid (target_at e i) = true /\ the_contract e i = c) <-> wf_target s t c.
Proof. apply resolve_valid. Qed.
End new.
End resolve.
