(* ===== verification/EvalCycles.v ===== *)
(** * Cross-target cycle rejection (edges and rejectCycles in
    pkg/operations/evaluator.go)

    The dependency graph over the capabilities of the valid targets, its
    relational reading [depends_on] on snapshots, and what [rejectCycles]
    leaves valid. *)

From S2P Require Import Prelude Identity Predicate LocalCycle Contract Tarjan Assessment Evaluator.
From S2P Require Import EvalResolve.

Section cycles.
Context `{GoText} `{SortSlice}.

(** ** Specification *)
Abbreviation uid_of t := (ti_UID (t_Identity t)).

(** A capability directly depends on another: on a capability of the same
    target, or on a capability of the target a dependency binding selects,
    when that target resolves, has the bound contract and offers the type. *)
Inductive depends_on (s : Snapshot) : capKey -> capKey -> Prop :=
  | depends_local t c cp r :
      t ∈ Targets s -> wf_target s t c -> cp ∈ c_Capabilities c -> r ∈ cp_Requirements cp ->
      r_LocalCapability r <> "" ->
      depends_on s (uid_of t, ct_Name (cp_Type cp)) (uid_of t, r_LocalCapability r)
  | depends_binding t c cp r d b t' c' dc :
      t ∈ Targets s -> wf_target s t c -> cp ∈ c_Capabilities c -> r ∈ cp_Requirements cp ->
      r_Dependency r = Some d -> depBinding t (dr_Slot d) = Some b ->
      t' ∈ Targets s -> wf_target s t' c' -> uid_of t' = db_TargetUID b ->
      t_ContractRef t' = db_Contract b -> capabilityByType c' (dr_Capability d) = Some dc ->
      depends_on s (uid_of t, ct_Name (cp_Type cp)) (uid_of t', ct_Name (cp_Type dc)).

(** A target no capability of which depends on itself, however indirectly. *)
Definition cycle_free (s : Snapshot) (t : Target) (c : Contract) : Prop :=
  forall cp, cp ∈ c_Capabilities c ->
    ~ tc (depends_on s) (uid_of t, ct_Name (cp_Type cp)) (uid_of t, ct_Name (cp_Type cp)).

(** The state target resolution leaves, and every later step keeps. *)
Record wf_evaluator (e : evaluator) : Prop := {
  we_order : e_order e ≡ₚ seq 0 (length (e_heap e));
  we_byUID uid i : i ∈ default [] (e_byUID e !! uid) <->
                   i < length (e_heap e) /\ ts_uid (target_at e i) = uid;
  we_unique i : i < length (e_heap e) -> valid (target_at e i) = true ->
                default [] (e_byUID e !! ts_uid (target_at e i)) = [i];
  we_contract i : i < length (e_heap e) -> valid (target_at e i) = true ->
                  wf_contract (the_contract e i);
}.

(** * Lemmas *)
Lemma uniqueValid_Some e uid i :
  wf_evaluator e ->
  uniqueValid e uid = Some i <->
  i < length (e_heap e) /\ ts_uid (target_at e i) = uid /\ valid (target_at e i) = true.
Proof.
  intros We. unfold uniqueValid. split.
  - pose proof (we_byUID _ We uid) as Hb.
    destruct (default [] (e_byUID e !! uid)) as [|j [|? ?]] eqn:E; try done.
    destruct (valid (target_at e j)) eqn:Ev; [|done]. intros [= <-].
    destruct (Hb j) as [[? ?] _]; [left|done].
  - intros (Hi & <- & Hv). by rewrite (we_unique _ We i Hi Hv), Hv.
Qed.

Lemma elem_of_cap_nodes e n :
  wf_evaluator e ->
  n ∈ cap_nodes e <->
  exists i, uniqueValid e n.1 = Some i /\ n.2 ∈ cap_names (the_contract e i).
Proof.
  intros We. unfold cap_nodes. rewrite list_elem_of_bind.
  setoid_rewrite (uniqueValid_Some e _ _ We). split.
  - intros (i & Hn & Hi). rewrite (we_order _ We), elem_of_seq in Hi.
    destruct (valid (target_at e i)) eqn:Ev; [|nil_elem].
    apply list_elem_of_fmap in Hn as (cp & -> & Hcp). exists i. split; [split; [lia|done]|].
    simpl. unfold cap_names. by apply (list_elem_of_fmap_2 (fun cp => ct_Name (cp_Type cp))).
  - intros (i & (Hi & Hu & Hv) & Hn). exists i. rewrite Hv, (we_order _ We), elem_of_seq. split; [|lia].
    apply list_elem_of_fmap in Hn as (cp & Hn & Hcp). apply list_elem_of_fmap. exists cp. split; [|done].
    destruct n; simpl in *. by subst.
Qed.

Lemma elem_of_edges e n m :
  m ∈ edges e n <->
  exists i cp r, uniqueValid e n.1 = Some i /\ capability (the_contract e i) n.2 = Some cp /\
    r ∈ cp_Requirements cp /\ m ∈ requirement_edge e n.1 i r.
Proof.
  unfold edges. destruct (uniqueValid e n.1) as [i|].
  2:{ split; [by intros ?%elem_of_nil|]. by intros (? & ? & ? & ? & _). }
  rewrite elem_of_sort_slice, list_elem_of_join. split.
  - intros (l & Hm & Hl). apply list_elem_of_fmap in Hl as (r & -> & Hr).
    destruct (capability (the_contract e i) n.2) as [cp|] eqn:Ecp; [|nil_elem].
    by exists i, cp, r.
  - intros (j & cp & r & [= <-] & -> & Hr & Hm). exists (requirement_edge e n.1 i r).
    split; [done|]. by apply list_elem_of_fmap_2.
Qed.

(** An edge of a requirement, by kind. *)
Lemma elem_of_requirement_edge e uid i r m :
  m ∈ requirement_edge e uid i r <->
  (r_LocalCapability r <> "" /\ m = (uid, r_LocalCapability r)) \/
  (r_LocalCapability r = "" /\ exists d b j dc, r_Dependency r = Some d /\
     depBinding (ts_t (target_at e i)) (dr_Slot d) = Some b /\
     uniqueValid e (db_TargetUID b) = Some j /\
     t_ContractRef (ts_t (target_at e j)) = db_Contract b /\
     capabilityByType (the_contract e j) (dr_Capability d) = Some dc /\
     m = (ts_uid (target_at e j), ct_Name (cp_Type dc))).
Proof.
  unfold requirement_edge. destruct (nonempty _) eqn:El.
  { apply nonempty_true in El. rewrite list_elem_of_singleton. tauto. }
  apply nonempty_false in El. split.
  - intros Hm. right. split; [done|]. repeat (case_match; try nil_elem).
    apply negb_bool_decide_false in H4. apply list_elem_of_singleton in Hm.
    by do 4 eexists.
  - intros [[Hne _]|(_ & d & b & j & dc & -> & -> & -> & Hr & -> & ->)]; [by destruct Hne|].
    rewrite bool_decide_true by done. simpl. left.
Qed.

(** The graph does not leave the capabilities of the valid targets. *)
Lemma edges_closed e n m :
  wf_evaluator e -> n ∈ cap_nodes e -> m ∈ edges e n -> m ∈ cap_nodes e.
Proof.
  intros We _ (i & cp & r & Hu & Hcp & Hr & Hm)%elem_of_edges. rewrite elem_of_cap_nodes by done.
  apply elem_of_requirement_edge in Hm
    as [[Hne ->]|(_ & d & b & j & dc & _ & _ & Hj & _ & Hdc & ->)]; simpl.
  - exists i. split; [done|]. apply uniqueValid_Some in Hu as (Hi & _ & Hv); [|done].
    pose proof (we_contract _ We i Hi Hv) as Hw. apply capability_elem in Hcp.
    pose proof (wf_capabilities _ Hw) as Hc. rewrite Forall_forall in Hc.
    destruct (Hc cp Hcp) as (_ & _ & Hrs). rewrite Forall_forall in Hrs.
    destruct (Hrs r Hr) as (_ & f & Hf & Hwf). destruct f; simpl in Hf; destruct_and?; try done.
    by subst.
  - exists j. pose proof Hj as (Hlt & Hu' & Hv)%uniqueValid_Some; [|done]. split.
    + by rewrite Hu'.
    + apply find_Some_elem in Hdc as [Hdc _].
      by apply (list_elem_of_fmap_2 (fun cp => ct_Name (cp_Type cp))).
Qed.

Lemma tarjan_edges_total e :
  wf_evaluator e -> is_Some (tarjan (edges e) (sort_slice capKey_less (cap_nodes e))).
Proof.
  intros We. apply tarjan_total. intros n m. rewrite !elem_of_sort_slice. by apply edges_closed.
Qed.

(** ** What rejection changes *)

(** [e'] is [e] with the targets in [P] invalidated. *)
Record rejects (P : nat -> Prop) (e e' : evaluator) : Prop := {
  rj_quiet : quiet e e';
  rj_contract i : ts_contract (target_at e' i) = ts_contract (target_at e i);
  rj_evidence i : ts_evidence (target_at e' i) = ts_evidence (target_at e i);
  rj_valid i : i < length (e_heap e) ->
    valid (target_at e' i) = true <-> valid (target_at e i) = true /\ ~ P i;
}.

Lemma rejects_none e : rejects (fun _ => False) e e.
Proof. split; try done. tauto. Qed.

Lemma rejects_iff (P Q : nat -> Prop) e e' :
  (forall i, i < length (e_heap e) -> P i <-> Q i) -> rejects P e e' -> rejects Q e e'.
Proof. intros HPQ []. split; try done. intros i Hi. rewrite rj_valid0, HPQ by done. done. Qed.

Lemma rejects_trans P Q e1 e2 e3 :
  rejects P e1 e2 -> rejects Q e2 e3 -> rejects (fun i => P i \/ Q i) e1 e3.
Proof.
  intros [Q1 C1 E1 V1] [Q2 C2 E2 V2]. split; [by etrans|congruence|congruence|].
  intros i Hi. rewrite V2 by (rewrite (qu_heap _ _ Q1); lia). rewrite V1 by done. tauto.
Qed.

Lemma rejects_fold {A} (P : A -> nat -> Prop) (f : evaluator -> A -> evaluator) l e0 e :
  (forall e x, x ∈ l -> quiet e0 e -> rejects (P x) e (f e x)) -> quiet e0 e ->
  rejects (fun i => exists x, x ∈ l /\ P x i) e (foldl f e l).
Proof.
  revert e. induction l as [|x l IH]; intros e Hf Hq; simpl.
  - eapply rejects_iff; [|apply rejects_none]. intros i _. split; [done|].
    by intros (? & ?%elem_of_nil & _).
  - pose proof (Hf e x (list_elem_of_here _ _) Hq) as Hx.
    eapply rejects_iff; [|eapply rejects_trans; [exact Hx|apply IH]].
    + intros i _. simpl. setoid_rewrite elem_of_cons. naive_solver.
    + intros e' y Hy. apply Hf. by right.
    + etrans; [done|apply (rj_quiet _ _ _ Hx)].
Qed.

Lemma rejects_one j r e : rejects (eq j) e (modify_target j (add_invalid [r]) e).
Proof.
  split.
  - by apply modify_target_quiet.
  - intros i. unfold target_at; simpl. rewrite list_lookup_alter. case_decide; subst; [|done].
    by destruct (e_heap e !! i).
  - intros i. unfold target_at; simpl. rewrite list_lookup_alter. case_decide; subst; [|done].
    by destruct (e_heap e !! i).
  - intros i Hi. unfold valid. rewrite !bool_decide_eq_true, !length_zero_iff_nil.
    unfold target_at; simpl. rewrite list_lookup_alter.
    case_decide as Hji; [|tauto]. subst j. destruct (lookup_lt_is_Some_2 _ _ Hi) as [ts ->]; simpl.
    rewrite app_nil_iff. split; [by intros []|]. by intros [_ []].
Qed.

Lemma reject_component_spec e scc :
  rejects (fun i => exists a, a ∈ scc /\ i ∈ default [] (e_byUID e !! a.1)) e (reject_component e scc).
Proof.
  unfold reject_component.
  eapply rejects_iff; [|apply (rejects_fold (fun '(uid, _) i => i ∈ default [] (e_byUID e !! uid))
    _ _ e)]; [| |done].
  - intros i _. split.
    + intros ([uid ns] & Hm & Hi). apply elem_of_map_to_list in Hm.
      destruct (proj1 (group_by_is_Some fst (sort_slice capKey_less scc) uid)) as (v & Hv & <-); [eauto|].
      exists v. by rewrite elem_of_sort_slice in Hv.
    + intros (a & Ha & Hi).
      destruct (proj2 (group_by_is_Some fst (sort_slice capKey_less scc) a.1)) as [ns Hns].
      { exists a. by rewrite elem_of_sort_slice. }
      exists (a.1, ns). split; [by apply elem_of_map_to_list|done].
  - intros e' [uid ns] _ Hq. rewrite (be_byUID _ _ (qu_base _ _ Hq)).
    eapply rejects_iff; [|apply (rejects_fold eq _ _ e')]; [|intros; apply rejects_one|done].
    intros i _. split; [by intros (? & ? & ->)|eauto].
Qed.

Lemma wf_evaluator_rejects P e e' : wf_evaluator e -> rejects P e e' -> wf_evaluator e'.
Proof.
  intros [] [Hq Hc _ Hv]. pose proof (qu_base _ _ Hq) as Hb. pose proof (qu_heap _ _ Hq) as Hl.
  assert (forall i, ts_uid (target_at e' i) = ts_uid (target_at e i)) as Hu.
  { intros i. unfold ts_uid. by rewrite (be_target _ _ Hb). }
  split; rewrite Hl; rewrite ?(be_order _ _ Hb), ?(be_byUID _ _ Hb); try done.
  - intros uid i. by rewrite Hu.
  - intros i Hi Hi'. rewrite Hu. apply Hv in Hi' as []; auto.
  - intros i Hi Hi'. unfold the_contract, contract_at. rewrite Hc, (be_store _ _ Hb).
    apply Hv in Hi' as []; [by apply we_contract0|done].
Qed.

(** Rejection invalidates the targets with a capability linked to itself. *)
Lemma rejectCycles_spec e :
  wf_evaluator e ->
  exists e', rejectCycles e = Some e' /\
    rejects (fun i => exists n, uniqueValid e n.1 = Some i /\ n ∈ cap_nodes e /\
                                tc (E (edges e)) n n) e e'.
Proof.
  intros We. unfold rejectCycles. destruct (tarjan_edges_total e We) as [cyclic Hc].
  rewrite Hc. simpl. eexists. split; [done|]. apply tarjan_ok in Hc as [Hs Hc].
  eapply rejects_iff; [|apply (rejects_fold (fun scc i => exists a, a ∈ scc /\
    i ∈ default [] (e_byUID e !! a.1)) _ _ e)]; [| |done].
  - intros i Hi. split.
    + intros (scc & Hscc & a & Ha & Hi'). pose proof (Hs scc a a Hscc Ha Ha) as Hl.
      assert (exists b, E (edges e) a b) as [b Hb].
      { apply tc_step_inv in Hl as [?|(? & ? & _)]; eauto. }
      pose proof Hb as (j & cp & _ & Hu & Hcp & _)%elem_of_edges.
      assert (j = i) as ->.
      { pose proof Hu as (Hj & Hju & Hjv)%uniqueValid_Some; [|done].
        rewrite <- Hju, (we_unique _ We j Hj Hjv) in Hi'. by apply list_elem_of_singleton in Hi'. }
      exists a. split_and!; [done| |done]. apply elem_of_cap_nodes; [done|]. exists i. split; [done|].
      apply capability_declared. by eexists.
    + intros (n & Hu & Hn & Hl).
      destruct (Hc n n) as (scc & Hscc & Hin & _); [by rewrite elem_of_sort_slice|by split|].
      exists scc. split; [done|]. exists n. split; [done|].
      apply uniqueValid_Some in Hu as (Hi' & <- & _); [|done]. by apply (we_byUID _ We).
  - intros e' scc Hscc Hq. eapply rejects_iff; [|apply reject_component_spec].
    intros i _. by rewrite (be_byUID _ _ (qu_base _ _ Hq)).
Qed.

(** ** The graph of a resolved snapshot *)
Section snapshot.
Variable s : Snapshot.
Abbreviation e := (resolveTargets (newEvaluator s)).

Lemma resolved_target i :
  i < length (e_heap e) -> valid (target_at e i) = true ->
  exists t, Targets s !! i = Some t /\ ts_t (target_at e i) = t /\ wf_target s t (the_contract e i).
Proof.
  intros Hi Hv. rewrite resolve_length in Hi.
  destruct (lookup_lt_is_Some_2 _ _ Hi) as [t Ht]. exists t. split; [done|].
  split; [by apply resolve_t|]. by apply (resolve_valid s i).
Qed.

Lemma resolved_byUID uid i :
  i ∈ default [] (e_byUID e !! uid) <-> i < length (e_heap e) /\ ts_uid (target_at e i) = uid.
Proof.
  rewrite (be_byUID _ _ (qu_base _ _ (resolve_quiet s))), new_byUID, list_elem_of_filter,
    elem_of_seq, resolve_length.
  unfold ts_uid. rewrite (be_target _ _ (qu_base _ _ (resolve_quiet s))).
  split; [intros [? ?]; split; [lia|done]|intros [? ?]; split; [done|lia]].
Qed.

Lemma wf_resolved : wf_evaluator e.
Proof.
  split.
  - rewrite (be_order _ _ (qu_base _ _ (resolve_quiet s))), resolve_length. apply new_order.
  - apply resolved_byUID.
  - intros i Hi Hv. destruct (resolved_target i Hi Hv) as (t & Ht & <- & Hw).
    assert (i ∈ default [] (e_byUID e !! ts_uid (target_at e i))) as Hin by by apply resolved_byUID.
    pose proof (wt_unique _ _ _ Hw) as Hl. rewrite <- new_byUID_length in Hl.
    rewrite <- (be_byUID _ _ (qu_base _ _ (resolve_quiet s))) in Hl.
    change (ti_UID (t_Identity (ts_t (target_at e i)))) with (ts_uid (target_at e i)) in Hl.
    destruct (default [] _) as [|x [|? ?]]; [nil_elem| |simpl in Hl; lia].
    by apply list_elem_of_singleton in Hin as ->.
  - intros i Hi Hv. destruct (resolved_target i Hi Hv) as (t & Ht & <- & Hw). apply Hw.
Qed.

Lemma resolved_unique uid i :
  uniqueValid e uid = Some i <->
  exists t, Targets s !! i = Some t /\ wf_target s t (the_contract e i) /\ uid_of t = uid.
Proof.
  rewrite (uniqueValid_Some e uid i wf_resolved). split.
  - intros (Hi & <- & Hv). destruct (resolved_target i Hi Hv) as (t & Ht & Heq & Hw).
    exists t. split_and!; [done..|]. unfold ts_uid. by rewrite Heq.
  - intros (t & Ht & Hw & <-). split_and!.
    + rewrite resolve_length. by eapply lookup_lt_Some.
    + unfold ts_uid. by rewrite (resolve_t s i t Ht).
    + by apply (resolve_valid s i t (the_contract e i) Ht).
Qed.

(** [wf_target] determines the contract. *)
Lemma wf_target_contract i t c :
  Targets s !! i = Some t -> wf_target s t c -> the_contract e i = c /\ wf_target s t (the_contract e i).
Proof.
  intros Ht Hw. destruct (proj2 (resolve_valid s i t c Ht) Hw) as [Hv Hc]. split; [done|].
  apply (resolve_valid s i t _ Ht). split; [done|reflexivity].
Qed.

Lemma capability_unique c cp :
  NoDup (cap_names c) -> cp ∈ c_Capabilities c -> capability c (ct_Name (cp_Type cp)) = Some cp.
Proof.
  intros Hnd Hcp. apply find_unique; [done|by apply bool_decide_eq_true|].
  intros y Hy Heq%bool_decide_eq_true.
  by apply (NoDup_fmap_inj (fun cp => ct_Name (cp_Type cp)) (c_Capabilities c)).
Qed.

(** The edges the code follows are the direct dependencies of the snapshot. *)
Lemma edges_depends_on n m : E (edges e) n m <-> depends_on s n m.
Proof.
  unfold E. rewrite elem_of_edges. split.
  - intros (i & cp & r & (t & Ht & Hw & Hu)%resolved_unique & Hcp & Hr & Hm).
    pose proof (capability_elem _ _ _ Hcp) as Hel. apply capability_name in Hcp.
    assert (t ∈ Targets s) as Hts by by eapply list_elem_of_lookup_2.
    destruct n as [u nm]; simpl in *; subst u nm.
    apply elem_of_requirement_edge in Hm
      as [[Hne ->]|(_ & d & b & j & dc & Hd & Hb & (t' & Ht' & Hw' & Hu')%resolved_unique & Href & Hdc & ->)].
    + by eapply depends_local.
    + rewrite (resolve_t s i t Ht) in Hb.
      rewrite (resolve_t s j t' Ht') in Href. unfold ts_uid.
      rewrite (resolve_t s j t' Ht').
      eapply depends_binding; try done. by eapply list_elem_of_lookup_2.
  - intros [t c cp r [i Ht]%list_elem_of_lookup Hw Hcp Hr Hne|
            t c cp r d b t' c' dc [i Ht]%list_elem_of_lookup Hw Hcp Hr Hd Hb
              [j Ht']%list_elem_of_lookup Hw' Hu' Href Hdc]; simpl.
    + destruct (wf_target_contract i t c Ht Hw) as [Hc Hw1]. exists i, cp, r.
      split; [apply resolved_unique; eauto|]. split.
      { rewrite Hc. apply capability_unique; [|done]. apply (wf_cap_names _ (wt_wf _ _ _ Hw)). }
      split; [done|]. apply elem_of_requirement_edge. by left.
    + destruct (wf_target_contract i t c Ht Hw) as [Hc Hw1], (wf_target_contract j t' c' Ht' Hw') as [Hc' Hw1'].
      exists i, cp, r. split; [apply resolved_unique; eauto|]. split.
      { rewrite Hc. apply capability_unique; [|done]. apply (wf_cap_names _ (wt_wf _ _ _ Hw)). }
      split; [done|]. apply elem_of_requirement_edge. right. split.
      { pose proof (wf_capabilities _ (wt_wf _ _ _ Hw)) as Hcs. rewrite Forall_forall in Hcs.
        destruct (Hcs cp Hcp) as (_ & _ & Hrs). rewrite Forall_forall in Hrs.
        destruct (Hrs r Hr) as (_ & f & Hf & _). destruct f; simpl in Hf; destruct_and?; congruence. }
      exists d, b, j, dc. rewrite (resolve_t s i t Ht), (resolve_t s j t' Ht').
      split_and!; try done.
      * apply resolved_unique. eauto.
      * by rewrite Hc'.
      * unfold ts_uid. by rewrite (resolve_t s j t' Ht').
Qed.

Lemma tc_edges n m : tc (E (edges e)) n m <-> tc (depends_on s) n m.
Proof.
  split; induction 1 as [? ? Hd|? ? ? Hd _ IH];
    [apply tc_once|eapply tc_l; [|exact IH]|apply tc_once|eapply tc_l; [|exact IH]];
    by apply edges_depends_on.
Qed.

Lemma prepare_valid :
  exists e', prepare s = Some e' /\ wf_evaluator e' /\ quiet (newEvaluator s) e' /\
    (forall i, ts_contract (target_at e' i) = ts_contract (target_at e i)) /\
    (forall i, ts_evidence (target_at e' i) = ts_evidence (target_at e i)) /\
    forall i t c, Targets s !! i = Some t ->
      (valid (target_at e' i) = true /\ the_contract e' i = c) <-> wf_target s t c /\ cycle_free s t c.
Proof.
  destruct (rejectCycles_spec e wf_resolved) as (e' & He' & Hr). exists e'.
  assert (forall i, the_contract e' i = the_contract e i) as Hc.
  { intros i. unfold the_contract, contract_at.
    by rewrite (rj_contract _ _ _ Hr), (be_store _ _ (qu_base _ _ (rj_quiet _ _ _ Hr))). }
  split_and!; [done|by eapply wf_evaluator_rejects, Hr; apply wf_resolved| |apply Hr|apply Hr|].
  { etrans; [apply (resolve_quiet s)|apply (rj_quiet _ _ _ Hr)]. }
  intros i t c Ht. assert (i < length (e_heap e)) as Hi.
  { rewrite resolve_length. by eapply lookup_lt_Some. }
  rewrite (rj_valid _ _ _ Hr i Hi), Hc. split.
  - intros [[Hv Hn] Heq]. pose proof (proj1 (resolve_valid s i t c Ht) (conj Hv Heq)) as Hw.
    split; [done|]. intros cp Hcp Htc. apply Hn. eexists (_, _). split_and!; [| |by apply tc_edges].
    + apply resolved_unique. exists t. rewrite Heq. done.
    + apply elem_of_cap_nodes; [apply wf_resolved|]. exists i.
      rewrite resolved_unique, Heq. split; [by exists t|].
      by apply (list_elem_of_fmap_2 (fun cp => ct_Name (cp_Type cp))).
  - intros [Hw Hf]. pose proof (proj2 (resolve_valid s i t c Ht) Hw) as [Hv Heq].
    split_and!; [done| |done]. intros (n & Hu & (j & Hj & Hn)%elem_of_cap_nodes & Htc);
      [|apply wf_resolved].
    rewrite Hj in Hu. injection Hu as ->. rewrite Heq in Hn.
    apply list_elem_of_fmap in Hn as (cp & Hn & Hcp). apply (Hf cp Hcp).
    apply resolved_unique in Hj as (t' & Ht' & _ & Hu). assert (t' = t) as -> by congruence.
    destruct n as [u nm]; simpl in *; subst. by apply tc_edges.
Qed.

Lemma edges_rejects P e0 e' n m :
  wf_evaluator e0 -> rejects P e0 e' -> E (edges e') n m -> E (edges e0) n m.
Proof.
  intros We Hr. pose proof (wf_evaluator_rejects _ _ _ We Hr) as We'.
  pose proof (qu_base _ _ (rj_quiet _ _ _ Hr)) as Hb.
  assert (forall uid i, uniqueValid e' uid = Some i -> uniqueValid e0 uid = Some i) as Hu.
  { intros uid i. rewrite !uniqueValid_Some by done. rewrite (qu_heap _ _ (rj_quiet _ _ _ Hr)).
    unfold ts_uid. rewrite (be_target _ _ Hb). intros (Hi & ? & Hv).
    split_and!; [done..|]. by apply (rj_valid _ _ _ Hr i Hi) in Hv as []. }
  assert (forall i, the_contract e' i = the_contract e0 i) as Hc.
  { intros i. unfold the_contract, contract_at. by rewrite (rj_contract _ _ _ Hr), (be_store _ _ Hb). }
  unfold E. rewrite !elem_of_edges. intros (i & cp & r & Hi & Hcp & Hr' & Hm). exists i, cp, r.
  rewrite Hc in Hcp. split_and!; [by apply Hu|done..|].
  apply elem_of_requirement_edge. apply elem_of_requirement_edge in Hm
    as [?|(? & d & b & j & dc & ? & Hd & Hj & Href & Hdc & ->)]; [by left|right].
  split; [done|]. exists d, b, j, dc. unfold ts_uid.
  rewrite Hc in Hdc. rewrite (be_target _ _ Hb) in Hd, Href. rewrite (be_target _ _ Hb).
  split_and!; try done. by apply Hu.
Qed.

(** What an evaluation starts from. *)
Lemma prepare_ready :
  exists e', prepare s = Some e' /\ wf_evaluator e' /\ quiet (newEvaluator s) e' /\
    (forall i, ts_evidence (target_at e' i) = ∅) /\
    (forall i t c, Targets s !! i = Some t ->
      (valid (target_at e' i) = true /\ the_contract e' i = c) <->
      wf_target s t c /\ cycle_free s t c) /\
    forall n, ~ tc (E (edges e')) n n.
Proof.
  destruct (rejectCycles_spec e wf_resolved) as (e1 & He1 & Hr).
  destruct prepare_valid as (e2 & He2 & We & Hq & _ & Hev & Hv).
  unfold prepare in He2 |- *. rewrite He1 in He2 |- *. injection He2 as <-. exists e1.
  split_and!; [done..| |done|].
  { intros i. rewrite Hev. apply resolve_evidence. }
  intros n Hn.
  assert (tc (E (edges e)) n n) as Htc.
  { revert Hn. generalize n at 2 4. intros m Hn. revert Hn.
    induction 1 as [? ? Hd|? ? ? Hd _ IH]; [apply tc_once|eapply tc_l; [|exact IH]];
      by eapply edges_rejects, Hd; [apply wf_resolved|]. }
  assert (exists m, E (edges e1) n m) as [m (i & cp & r & Hu & Hcp & _)%elem_of_edges].
  { apply tc_step_inv in Hn as [?|(? & ? & _)]; eauto. }
  apply uniqueValid_Some in Hu as (Hi & Hu & Hval); [|done].
  rewrite (qu_heap _ _ (rj_quiet _ _ _ Hr)) in Hi.
  apply (rj_valid _ _ _ Hr i Hi) in Hval as [Hval Hno]. apply Hno. exists n.
  assert (uniqueValid e n.1 = Some i) as Hun.
  { apply uniqueValid_Some; [apply wf_resolved|]. split_and!; [done| |done].
    unfold ts_uid in Hu |- *. by rewrite (be_target _ _ (qu_base _ _ (rj_quiet _ _ _ Hr))) in Hu. }
  split_and!; [done| |done]. apply elem_of_cap_nodes; [apply wf_resolved|]. exists i.
  split; [done|]. apply capability_declared. exists cp. revert Hcp. unfold the_contract, contract_at.
  by rewrite (rj_contract _ _ _ Hr), (be_store _ _ (qu_base _ _ (rj_quiet _ _ _ Hr))).
Qed.

(** C29. Target resolution and cycle rejection always finish, and leave valid
    exactly the well-formed targets none of whose capabilities depends on
    itself, directly or through any chain of local capabilities and resolved
    bindings, each pointing to its one contract. *)
Theorem prepare_valid_targets :
  exists e', prepare s = Some e' /\
    forall i t c, Targets s !! i = Some t ->
      (valid (target_at e' i) = true /\ the_contract e' i = c) <->
      wf_target s t c /\ cycle_free s t c.
Proof. destruct prepare_ready as (e' & ? & _ & _ & _ & ? & _). by exists e'. Qed.

(** After cycle rejection the dependency graph the evaluation follows has
    no cycle at all. *)
Theorem prepare_acyclic : exists e', prepare s = Some e' /\ forall n, ~ tc (E (edges e')) n n.
Proof. destruct prepare_ready as (e' & ? & _ & _ & _ & _ & ?). by exists e'. Qed.
End snapshot.
End cycles.
