(* ===== verification/EvalSpec.v ===== *)
(** * What an evaluation computes (Evaluate in pkg/operations/evaluator.go)

    The evaluator is a memoising recursion over mutable maps.  Here its result
    is shown to be the solution of plain equations: every capability's result
    is composed from the verdicts of its requirements, the verdict of a
    requirement on another capability being read off that capability's own
    result.  [Evaluate_refines] says that [Evaluate] always finishes and
    returns that solution. *)

From S2P Require Import Prelude Identity Predicate LocalCycle Contract Tarjan Assessment Evaluator.
From S2P Require Import EvalResolve EvalCycles.

(** [n] starts no path of [k] or more steps. *)
Fixpoint height {N} (R : N -> N -> Prop) (k : nat) (n : N) : Prop :=
  match k with
  | O => False
  | S k => forall m, R n m -> height R k m
  end.

Section spec.
Context `{GoText} `{SortSlice}.

(** ** The equations *)
Section equations.
(** The evaluator after [prepare]. *)
Variable e : evaluator.

Definition slot_named (i : nat) (n : string) : AssertionSlot :=
  default zero_AssertionSlot (slot (the_contract e i) n).

Definition slot_evidence (i : nat) (s : AssertionSlot) : slotEvidence :=
  resolveEvidence e (ts_t (target_at e i)) s.

Definition predicate_verdict (i : nat) (p : Predicate) : verdict * Reason :=
  judge_predicate p (slot_evidence i (slot_named i (p_Assertion p))).

Definition envelope_value (i : nat) (env : Envelope) : EnvelopeResult :=
  envelope_finish env
    (foldl (fun acc p => envelope_add acc (predicate_verdict i p)) ([], false, false)
       (env_Requirements env)).

(** [R i cp] is the result of capability [cp] of target [i]. *)
Variable R : nat -> Capability -> CapabilityResult.

Definition dependency_verdict (i : nat) (d : DependencyRequirement) : verdict * Reason :=
  match resolve_dependency e i d with
  | inl r => (unproven, r)
  | inr (subject, j, dc) => judge_dependency subject (cr_State (R j dc))
  end.

Definition requirement_verdict (i : nat) (req : Requirement) : verdict * Reason :=
  match r_Predicate req, r_Dependency req with
  | Some p, _ => predicate_verdict i p
  | None, Some d => dependency_verdict i d
  | None, None =>
      if nonempty (r_LocalCapability req) then
        judge_local (r_LocalCapability req)
          (cr_State (R i (default zero_Capability
                            (capability (the_contract e i) (r_LocalCapability req)))))
      else if nonempty (r_Envelope req) then
        judge_envelope (r_Envelope req)
          (er_State (envelope_value i
             (default zero_Envelope (envelope (the_contract e i) (r_Envelope req)))))
      else (accepted, zero_Reason)
  end.

Definition capability_value (i : nat) (cp : Capability) : CapabilityResult :=
  capability_finish cp
    (foldl (fun acc req => capability_add acc req (requirement_verdict i req)) ([], ∅, false)
       (cp_Requirements cp)).

(** A capability that takes part in the evaluation, and its node. *)
Definition live (i : nat) (cp : Capability) : Prop :=
  i < length (e_heap e) /\ valid (target_at e i) = true /\ cp ∈ c_Capabilities (the_contract e i).

Definition node (i : nat) (cp : Capability) : capKey :=
  (ts_uid (target_at e i), ct_Name (cp_Type cp)).

(** [R] solves the equations. *)
Definition solution : Prop := forall i cp, live i cp -> R i cp = capability_value i cp.

Definition slot_result (i : nat) (s : AssertionSlot) : SlotEvidence :=
  let ev := slot_evidence i s in Build_SlotEvidence (s_Name s) (se_status ev) (se_provider ev) (se_ref ev).

Definition target_value (i : nat) : TargetAssessment :=
  let ts := target_at e i in
  let t := ts_t ts in
  let c := the_contract e i in
  let out := Build_TargetAssessment (t_Identity t) (t_ContractRef t) in
  if negb (valid ts) then
    out false (normalize (ts_invalid ts)) SyncNotApplicable (t_EnvelopeSelection t) [] [] []
  else
    out true [] SyncNotApplicable (t_EnvelopeSelection t)
      (slot_result i <$> sort_slice slot_less (c_Assertions c))
      (sort_slice result_less (R i <$> c_Capabilities c))
      (sort_slice envelope_less (envelope_value i <$> c_Envelopes c)).
End equations.

(** The equations unfolded [k] times from nothing. *)
Fixpoint unfolded (e : evaluator) (k : nat) : nat -> Capability -> CapabilityResult :=
  match k with
  | O => fun _ cp => Build_CapabilityResult (cp_Type cp) Unknown []
  | S k => capability_value e (unfolded e k)
  end.

(** * Lemmas *)

(** ** Height *)
Lemma height_finite {N} `{EqDecision N} (R : N -> N -> Prop) k (U : list N) n :
  length U <= k -> (forall m, rtc R n m -> m ∈ U) -> (forall m, ~ tc R m m) -> height R k n.
Proof.
  revert U n. induction k as [|k IH]; intros U n Hl HU Ha; simpl.
  { assert (n ∈ U) as Hn by by apply HU. destruct U; [nil_elem|simpl in Hl; lia]. }
  intros m Hm. apply (IH (filter (fun x => x <> n) U)); [| |done].
  - assert (length (filter (fun x => x <> n) U) < length (filter (fun _ => True) U)) as Hlt.
    { apply (filter_length_strict _ _ U n); [done|by apply HU|done|naive_solver]. }
    assert (length (filter (fun _ : N => True) U) <= length U) by apply length_filter. lia.
  - intros x Hx. apply list_elem_of_filter. split; [|apply HU; by eapply rtc_l].
    intros ->. apply (Ha n). eapply tc_rtc_r; [by apply tc_once|done].
Qed.

Lemma height_le {N} (R : N -> N -> Prop) k k' n : k <= k' -> height R k n -> height R k' n.
Proof.
  revert k' n. induction k as [|k IH]; intros k' n Hk; [done|].
  destruct k' as [|k']; [lia|]. simpl. intros Hh m Hm. apply IH; [lia|auto].
Qed.

Section solve.
Context (e : evaluator).
Hypothesis We : wf_evaluator e.
Hypothesis Hacyclic : forall n, ~ tc (E (edges e)) n n.

Abbreviation live := (live e).
Abbreviation key := (node e).

Lemma live_unique i cp : live i cp -> uniqueValid e (ts_uid (target_at e i)) = Some i.
Proof. intros (Hi & Hv & _). by apply uniqueValid_Some. Qed.

Lemma live_contract i cp : live i cp -> wf_contract (the_contract e i).
Proof. intros (Hi & Hv & _). by apply (we_contract _ We). Qed.

Lemma live_capability i cp :
  live i cp -> capability (the_contract e i) (ct_Name (cp_Type cp)) = Some cp.
Proof.
  intros Hl. apply capability_unique; [|apply Hl]. apply wf_cap_names. by eapply live_contract.
Qed.

Lemma live_requirement i cp r :
  live i cp -> r ∈ cp_Requirements cp -> wf_requirement (the_contract e i) r.
Proof.
  intros Hl Hr. pose proof (wf_capabilities _ (live_contract i cp Hl)) as Hc.
  rewrite Forall_forall in Hc. destruct (Hc cp (proj2 (proj2 Hl))) as (_ & _ & Hrs).
  rewrite Forall_forall in Hrs. auto.
Qed.

Lemma live_edge i cp r m :
  live i cp -> r ∈ cp_Requirements cp -> m ∈ requirement_edge e (ts_uid (target_at e i)) i r ->
  E (edges e) (key i cp) m.
Proof.
  intros Hl Hr Hm. apply elem_of_edges. exists i, cp, r. simpl.
  split_and!; [by eapply live_unique|by apply live_capability|done|done].
Qed.

(** ** The four kinds of requirement of a live capability *)
Inductive requirement_kind (i : nat) (cp : Capability) (r : Requirement) : Prop :=
  | KindPredicate p s : r_Predicate r = Some p ->
      slot (the_contract e i) (p_Assertion p) = Some s -> requirement_kind i cp r
  | KindUnresolved d rs : r_Predicate r = None -> r_Dependency r = Some d ->
      resolve_dependency e i d = inl rs -> requirement_kind i cp r
  | KindDependency d subject j dc : r_Predicate r = None -> r_Dependency r = Some d ->
      resolve_dependency e i d = inr (subject, j, dc) -> live j dc ->
      E (edges e) (key i cp) (key j dc) -> requirement_kind i cp r
  | KindLocal lc : r_Predicate r = None -> r_Dependency r = None -> r_LocalCapability r <> "" ->
      capability (the_contract e i) (r_LocalCapability r) = Some lc -> live i lc ->
      E (edges e) (key i cp) (key i lc) -> requirement_kind i cp r
  | KindEnvelope env : r_Predicate r = None -> r_Dependency r = None -> r_LocalCapability r = "" ->
      r_Envelope r <> "" -> envelope (the_contract e i) (r_Envelope r) = Some env ->
      requirement_kind i cp r.

Lemma envelope_declared c n :
  (exists env, env ∈ c_Envelopes c /\ env_Name env = n) -> is_Some (envelope c n).
Proof. intros (env & Henv & <-). eapply find_is_Some; [done|]. by apply bool_decide_eq_true. Qed.

Lemma resolve_dependency_edge i d subject j dc :
  resolve_dependency e i d = inr (subject, j, dc) ->
  live j dc /\ exists b, depBinding (ts_t (target_at e i)) (dr_Slot d) = Some b /\
    uniqueValid e (db_TargetUID b) = Some j /\ t_ContractRef (ts_t (target_at e j)) = db_Contract b /\
    capabilityByType (the_contract e j) (dr_Capability d) = Some dc.
Proof.
  unfold resolve_dependency. intros Hd. destruct (depBinding _ _) as [b|]; [|done].
  destruct (bool_decide (length _ = 0)); [done|].
  destruct (uniqueValid e (db_TargetUID b)) as [j'|] eqn:Hu; [|done].
  destruct (negb _) eqn:Eref; [done|]. apply negb_bool_decide_false in Eref.
  destruct (capabilityByType _ _) as [dc'|] eqn:Hc; [|done]. injection Hd as _ -> ->.
  split; [|by exists b]. apply uniqueValid_Some in Hu as (Hj & _ & Hv); [|done].
  apply find_Some_elem in Hc as [Hc _]. by split_and!.
Qed.

Lemma requirement_cases i cp r : live i cp -> r ∈ cp_Requirements cp -> requirement_kind i cp r.
Proof.
  intros Hl Hr. pose proof (live_requirement i cp r Hl Hr) as (_ & f & Hf & Hw).
  destruct f as [p|d|n|n]; simpl in Hf, Hw.
  - destruct Hf as (Hp & _). destruct Hw as (s & o & Hs & _). by eapply KindPredicate.
  - destruct Hf as (Hp & Hd & Hloc & _).
    destruct (resolve_dependency e i d) as [rs|[[subject j] dc]] eqn:Hres.
    + by eapply KindUnresolved.
    + pose proof (resolve_dependency_edge _ _ _ _ _ Hres) as (Hlj & b & Hb & Hu & Href & Hdc).
      eapply KindDependency; try done. eapply live_edge; [done|done|].
      apply elem_of_requirement_edge. right. split; [done|]. by exists d, b, j, dc.
  - destruct Hf as (Hp & Hd & Hn & Hne & _). subst n.
    apply capability_declared in Hw as [lc Hlc].
    assert (live i lc) as Hll.
    { destruct Hl as (? & ? & _). split_and!; [done..|]. by eapply capability_elem. }
    eapply KindLocal; try done. eapply live_edge; [done|done|].
    apply elem_of_requirement_edge. left. split; [done|]. unfold node.
    by rewrite (capability_name _ _ _ Hlc).
  - destruct Hf as (Hp & Hd & Hloc & Hn & Hne). subst n.
    apply envelope_declared in Hw as [env Henv]. by eapply KindEnvelope.
Qed.

(** A verdict only reads the results of direct dependencies. *)
Lemma requirement_verdict_ext R R' i cp r :
  live i cp -> r ∈ cp_Requirements cp ->
  (forall j dc, live j dc -> E (edges e) (key i cp) (key j dc) -> R j dc = R' j dc) ->
  requirement_verdict e R i r = requirement_verdict e R' i r.
Proof.
  intros Hl Hr HR. unfold requirement_verdict.
  destruct (requirement_cases i cp r Hl Hr) as
    [p s Hp _|d rs Hp Hd Hres|d sub j dc Hp Hd Hres Hj He|lc Hp Hd Hn Hc Hll He|env Hp Hd Hn _ _];
    rewrite Hp, ?Hd; [done|..].
  - unfold dependency_verdict. by rewrite Hres.
  - unfold dependency_verdict. rewrite Hres. by rewrite HR.
  - rewrite (proj2 (nonempty_true _) Hn), Hc. simpl. by rewrite HR.
  - by rewrite (proj2 (nonempty_false _) Hn).
Qed.

Lemma foldl_ext_in {A B} (f g : A -> B -> A) l acc :
  (forall acc x, x ∈ l -> f acc x = g acc x) -> foldl f acc l = foldl g acc l.
Proof.
  revert acc. induction l as [|x l IH]; intros acc Hfg; [done|]. simpl.
  rewrite Hfg by left. apply IH. intros. apply Hfg. by right.
Qed.

Lemma capability_value_ext R R' i cp :
  live i cp ->
  (forall j dc, live j dc -> E (edges e) (key i cp) (key j dc) -> R j dc = R' j dc) ->
  capability_value e R i cp = capability_value e R' i cp.
Proof.
  intros Hl HR. unfold capability_value. f_equal. apply foldl_ext_in. intros acc r Hr.
  by rewrite (requirement_verdict_ext R R' i cp r Hl Hr HR).
Qed.

(** ** The solution exists and is unique *)
Lemma unfolded_stable k k' i cp :
  height (E (edges e)) k (key i cp) -> k <= k' -> live i cp ->
  unfolded e k' i cp = unfolded e k i cp.
Proof.
  revert k' i cp. induction k as [|k IH]; intros k' i cp Hh Hk Hl; [done|].
  destruct k' as [|k']; [lia|]. simpl. apply capability_value_ext; [done|].
  intros j dc Hj He. apply IH; [by apply Hh|lia|done].
Qed.

Lemma live_node i cp : live i cp -> key i cp ∈ cap_nodes e.
Proof.
  intros Hl. apply elem_of_cap_nodes; [done|]. exists i. split; [by eapply live_unique|].
  apply (list_elem_of_fmap_2 (fun cp => ct_Name (cp_Type cp))), Hl.
Qed.

Lemma live_height i cp : live i cp -> height (E (edges e)) (length (cap_nodes e)) (key i cp).
Proof.
  intros Hl. apply (height_finite _ _ (cap_nodes e)); [done| |done].
  intros m Hm. assert (key i cp ∈ cap_nodes e) as Hn by by apply live_node.
  revert Hn. induction Hm as [|n m m' He _ IH]; [done|]. intros Hn. apply IH. by apply (edges_closed _ n).
Qed.

Abbreviation the_solution := (unfolded e (S (length (cap_nodes e)))).

Lemma the_solution_ok : solution e the_solution.
Proof.
  intros i cp Hl. change (the_solution i cp) with (capability_value e (unfolded e (length (cap_nodes e))) i cp).
  apply capability_value_ext; [done|]. intros j dc Hj _. symmetry.
  apply unfolded_stable; [by apply live_height|lia|done].
Qed.

Lemma solution_unique R : solution e R -> forall i cp, live i cp -> R i cp = the_solution i cp.
Proof.
  intros HR. assert (forall k i cp, height (E (edges e)) k (key i cp) -> live i cp ->
    R i cp = the_solution i cp) as Hk.
  { induction k as [|k IH]; intros i cp Hh Hl; [done|].
    rewrite HR, the_solution_ok by done. apply capability_value_ext; [done|].
    intros j dc Hj He. apply IH; [by apply Hh|done]. }
  intros i cp Hl. eapply Hk; [by apply live_height|done].
Qed.

(** ** The memoising evaluator computes the solution *)
Section refine.
Variable R : nat -> Capability -> CapabilityResult.
Hypothesis HR : solution e R.

(** The states of the evaluation: only memos and evidence caches are filled,
    with what the equations give. *)
Record ext (e' : evaluator) : Prop := {
  ex_base : base_eq e e';
  ex_heap : length (e_heap e') = length (e_heap e);
  ex_contract i : ts_contract (target_at e' i) = ts_contract (target_at e i);
  ex_invalid i : ts_invalid (target_at e' i) = ts_invalid (target_at e i);
  ex_evidence i n ev : ts_evidence (target_at e' i) !! n = Some ev ->
                       ev = slot_evidence e i (slot_named e i n);
  ex_caps i n r : e_capMemo e' !! (ts_uid (target_at e i), n) = Some r ->
                  uniqueValid e (ts_uid (target_at e i)) = Some i ->
                  r = R i (default zero_Capability (capability (the_contract e i) n));
  ex_envs i n r : e_envMemo e' !! (ts_uid (target_at e i), n) = Some r ->
                  uniqueValid e (ts_uid (target_at e i)) = Some i ->
                  r = envelope_value e i (default zero_Envelope (envelope (the_contract e i) n));
}.

(** [m] finishes with [v] from every such state. *)
Definition returns {A} (m : st evaluator A) (v : A) : Prop :=
  forall e', ext e' -> exists e'', m e' = Some (v, e'') /\ ext e''.

Lemma returns_ret {A} (v : A) : returns (mret v) v.
Proof. intros e' He. by exists e'. Qed.

Lemma returns_bind {A B} (m : st evaluator A) (f : A -> st evaluator B) v w :
  returns m v -> returns (f v) w -> returns (m ≫= f) w.
Proof.
  intros Hm Hf e1 He1. destruct (Hm e1 He1) as (e2 & Hr & He2). destruct (Hf e2 He2) as (e3 & ? & ?).
  exists e3. unfold mbind, st_bind. by rewrite Hr.
Qed.

Lemma returns_get {A} (f : evaluator -> st evaluator A) v :
  (forall e', ext e' -> exists e'', f e' e' = Some (v, e'') /\ ext e'') -> returns (get_st ≫= f) v.
Proof. intros Hf e' He. by apply Hf. Qed.

Lemma returns_fold {A B} (f : A -> B -> st evaluator A) (g : A -> B -> A) l acc :
  (forall acc x, x ∈ l -> returns (f acc x) (g acc x)) -> returns (fold_st f acc l) (foldl g acc l).
Proof.
  revert acc. induction l as [|x l IH]; intros acc Hf; simpl; [apply returns_ret|].
  eapply returns_bind; [apply Hf; left|]. apply IH. intros. apply Hf. by right.
Qed.

Lemma ext_target e' i : ext e' -> ts_t (target_at e' i) = ts_t (target_at e i).
Proof. intros He. apply (be_target _ _ (ex_base _ He)). Qed.

Lemma ext_uid e' i : ext e' -> ts_uid (target_at e' i) = ts_uid (target_at e i).
Proof. intros He. unfold ts_uid. by rewrite ext_target. Qed.

Lemma ext_the_contract e' i : ext e' -> the_contract e' i = the_contract e i.
Proof.
  intros He. unfold the_contract, contract_at.
  by rewrite (ex_contract _ He), (be_store _ _ (ex_base _ He)).
Qed.

Lemma ext_valid e' i : ext e' -> valid (target_at e' i) = valid (target_at e i).
Proof. intros He. unfold valid. by rewrite (ex_invalid _ He). Qed.

Lemma ext_uniqueValid e' uid : ext e' -> uniqueValid e' uid = uniqueValid e uid.
Proof.
  intros He. unfold uniqueValid. rewrite (be_byUID _ _ (ex_base _ He)).
  destruct (default [] (e_byUID e !! uid)) as [|i [|]]; [done| |done]. by rewrite ext_valid.
Qed.

Lemma ext_resolveEvidence e' t s : ext e' -> resolveEvidence e' t s = resolveEvidence e t s.
Proof.
  intros He. unfold resolveEvidence, observations_of.
  by rewrite (be_at _ _ (ex_base _ He)), (be_obs _ _ (ex_base _ He)).
Qed.

Lemma ext_resolve_dependency e' i d :
  ext e' -> resolve_dependency e' i d = resolve_dependency e i d.
Proof.
  intros He. unfold resolve_dependency. rewrite ext_target by done.
  destruct (depBinding _ _) as [b|]; [|done].
  rewrite (be_byUID _ _ (ex_base _ He)), ext_uniqueValid by done.
  destruct (uniqueValid e (db_TargetUID b)) as [j|]; [|done].
  by rewrite ext_target, ext_the_contract.
Qed.

(** Filling a cache keeps the state in [ext]. *)
Lemma ext_set_evidence e' i n ev :
  ext e' -> ev = slot_evidence e i (slot_named e i n) ->
  ext (modify_target i (set_evidence n ev) e').
Proof.
  intros He ->. pose proof He as [Hb Hl Hc Hi Hev Hca Hen].
  assert (forall {A} (f : targetState -> A) j,
    (forall ts, f (set_evidence n (slot_evidence e i (slot_named e i n)) ts) = f ts) ->
    f (target_at (modify_target i (set_evidence n (slot_evidence e i (slot_named e i n))) e') j) =
    f (target_at e' j)) as Hsame.
  { intros A f j Hf. unfold target_at; simpl. rewrite list_lookup_alter. case_decide; subst; [|done].
    destruct (e_heap e' !! j); simpl; auto. }
  split; try done.
  - etrans; [done|]. by apply modify_target_base.
  - simpl. by rewrite length_alter.
  - intros j. by rewrite (Hsame _ ts_contract).
  - intros j. by rewrite (Hsame _ ts_invalid).
  - intros j n' ev'. unfold target_at; simpl. rewrite list_lookup_alter. case_decide; [subst j|apply Hev].
    destruct (e_heap e' !! i) as [ts|] eqn:Ets; simpl; [|by rewrite lookup_empty].
    rewrite lookup_insert. case_decide; [by intros [= <-]; subst|].
    intros Hn. apply Hev. unfold target_at. by rewrite Ets.
Qed.

Lemma evidence_returns i s :
  slot_named e i (s_Name s) = s -> returns (evidence i s) (slot_evidence e i s).
Proof.
  intros Hs. apply returns_get. intros e' He.
  destruct (ts_evidence (target_at e' i) !! s_Name s) as [ev|] eqn:Ec.
  - apply (ex_evidence _ He) in Ec. rewrite Hs in Ec. subst. by exists e'.
  - unfold mbind, st_bind, modify_st; simpl. rewrite ext_resolveEvidence, ext_target by done.
    eexists. split; [done|]. apply ext_set_evidence; [done|]. by rewrite Hs.
Qed.

Lemma slot_named_Some i n s : slot (the_contract e i) n = Some s -> slot_named e i (s_Name s) = s.
Proof.
  intros Hs. pose proof Hs as [_ Hn]%find_Some_elem. apply bool_decide_eq_true in Hn.
  unfold slot_named. by rewrite Hn, Hs.
Qed.

Lemma predicate_returns i p s :
  slot (the_contract e i) (p_Assertion p) = Some s -> returns (predicate i p) (predicate_verdict e i p).
Proof.
  intros Hs. apply returns_get. intros e' He. rewrite ext_the_contract by done.
  assert (slot_named e i (p_Assertion p) = s) as Hn by (unfold slot_named; by rewrite Hs).
  unfold predicate_verdict. rewrite Hn, Hs. cbn [default].
  revert e' He. change (returns (evidence i s ≫= fun ev => mret (judge_predicate p ev))
    (judge_predicate p (slot_evidence e i s))).
  eapply returns_bind; [apply evidence_returns; by eapply slot_named_Some|apply returns_ret].
Qed.

(** ** Envelopes and capabilities *)
Abbreviation target_ok i := (uniqueValid e (ts_uid (target_at e i)) = @Some nat i%nat).

Lemma ext_set_envMemo e' i n :
  target_ok i -> ext e' -> ext (set_envMemo (ts_uid (target_at e i), n)
    (envelope_value e i (default zero_Envelope (envelope (the_contract e i) n))) e').
Proof.
  intros Hok [Hb Hl Hc Hi Hev Hca Hen]. split; try done.
  { destruct Hb. by split. }
  intros j n' r. simpl. rewrite lookup_insert. case_decide as Heq; [|apply Hen].
  injection Heq as Hu ->. intros [= <-] Hj. rewrite <- Hu, Hok in Hj. by injection Hj as ->.
Qed.

Lemma ext_set_capMemo e' i n :
  target_ok i -> ext e' -> ext (set_capMemo (ts_uid (target_at e i), n)
    (R i (default zero_Capability (capability (the_contract e i) n))) e').
Proof.
  intros Hok [Hb Hl Hc Hi Hev Hca Hen]. split; try done.
  { destruct Hb. by split. }
  intros j n' r. simpl. rewrite lookup_insert. case_decide as Heq; [|apply Hca].
  injection Heq as Hu ->. intros [= <-] Hj. rewrite <- Hu, Hok in Hj. by injection Hj as ->.
Qed.

Lemma envelope_name c n env : envelope c n = Some env -> env_Name env = n.
Proof. intros [_ Hn]%find_Some_elem. by apply bool_decide_eq_true in Hn. Qed.

Lemma envelopeResult_returns i env :
  target_ok i -> wf_contract (the_contract e i) ->
  envelope (the_contract e i) (env_Name env) = Some env ->
  returns (envelopeResult i env) (envelope_value e i env).
Proof.
  intros Hok Hw Henv. apply returns_get. intros e' He. rewrite ext_uid by done. cbn zeta.
  destruct (e_envMemo e' !! (ts_uid (target_at e i), env_Name env)) as [r|] eqn:Er.
  { apply (ex_envs _ He) in Er; [|done]. rewrite Henv in Er. simpl in Er. subst. by exists e'. }
  clear Er. revert e' He.
  assert (returns (fold_st (fun acc p => vr ← predicate i p; mret (envelope_add acc vr))
      ([], false, false) (env_Requirements env))
    (foldl (fun acc p => envelope_add acc (predicate_verdict e i p)) ([], false, false)
       (env_Requirements env))) as Hfold.
  { apply returns_fold. intros acc p Hp. eapply returns_bind; [|apply returns_ret].
    pose proof (wf_envelopes _ Hw) as Hes. rewrite Forall_forall in Hes.
    apply find_Some_elem in Henv as [Hin _]. destruct (Hes env Hin) as (_ & _ & _ & Hps).
    rewrite Forall_forall in Hps. destruct (Hps p Hp) as (s & o & Hs & _).
    by eapply predicate_returns. }
  refine (returns_bind _ _ _ _ Hfold _). intros e'' He''. eexists. split; [reflexivity|].
  pose proof (ext_set_envMemo e'' i (env_Name env) Hok He'') as Hx. by rewrite Henv in Hx.
Qed.

Lemma dependency_returns rec i cp r d :
  r_Predicate r = None -> r_Dependency r = Some d -> requirement_kind i cp r ->
  (forall j dc, live j dc -> E (edges e) (key i cp) (key j dc) -> returns (rec j dc) (R j dc)) ->
  returns (dependency rec i d) (dependency_verdict e R i d).
Proof.
  intros Hp Hd Hk Hrec. apply returns_get. intros e' He. rewrite ext_resolve_dependency by done.
  unfold dependency_verdict.
  destruct Hk as [? ? Hp'|d' rs _ Hd' Hres|d' sub j dc _ Hd' Hres Hj Hedge|? _ Hd'|? _ Hd'];
    try congruence; rewrite Hd in Hd'; injection Hd' as ->; rewrite Hres.
  - by exists e'.
  - revert e' He. change (returns (rec j dc ≫= fun r => mret (judge_dependency sub (cr_State r)))
      (judge_dependency sub (cr_State (R j dc)))).
    eapply returns_bind; [by apply Hrec|apply returns_ret].
Qed.

Lemma requirement_returns rec i cp r :
  live i cp -> r ∈ cp_Requirements cp ->
  (forall j dc, live j dc -> E (edges e) (key i cp) (key j dc) -> returns (rec j dc) (R j dc)) ->
  returns (requirement rec i r) (requirement_verdict e R i r).
Proof.
  intros Hl Hr Hrec. pose proof (requirement_cases i cp r Hl Hr) as Hk.
  unfold requirement, requirement_verdict.
  destruct (r_Predicate r) as [p|] eqn:Hp.
  { destruct Hk as [p' s Hp' Hs|? ? Hp'|? ? ? ? Hp'|? Hp'|? Hp']; try congruence.
    rewrite Hp in Hp'. injection Hp' as <-. by eapply predicate_returns. }
  destruct (r_Dependency r) as [d|] eqn:Hd; [by eapply dependency_returns|].
  destruct Hk as [? ? Hp'|? ? _ Hd'|? ? ? ? _ Hd'|lc _ _ Hn Hlc Hll He|env _ _ Hn Hne Henv];
    try congruence; apply returns_get; intros e' He'; rewrite !ext_the_contract by done.
  - rewrite (proj2 (nonempty_true _) Hn), Hlc. cbn [default]. revert e' He'.
    change (returns (rec i lc ≫= fun lr => mret (judge_local (r_LocalCapability r) (cr_State lr)))
      (judge_local (r_LocalCapability r) (cr_State (R i lc)))).
    eapply returns_bind; [by apply Hrec|apply returns_ret].
  - rewrite (proj2 (nonempty_false _) Hn), (proj2 (nonempty_true _) Hne), Henv. cbn [default].
    revert e' He'.
    change (returns (envelopeResult i env ≫= fun er => mret (judge_envelope (r_Envelope r) (er_State er)))
      (judge_envelope (r_Envelope r) (er_State (envelope_value e i env)))).
    eapply returns_bind; [|apply returns_ret].
    apply envelopeResult_returns; [by eapply live_unique|by eapply live_contract|].
    by rewrite (envelope_name _ _ _ Henv).
Qed.

Lemma eval_capability_returns fuel i cp :
  live i cp -> height (E (edges e)) fuel (key i cp) -> returns (eval_capability fuel i cp) (R i cp).
Proof.
  revert i cp. induction fuel as [|fuel IH]; intros i cp Hl Hh; [done|].
  cbn [eval_capability]. apply returns_get. intros e' He. rewrite ext_uid by done. cbn zeta.
  pose proof (live_unique i cp Hl) as Hok. pose proof (live_capability i cp Hl) as Hcp.
  destruct (e_capMemo e' !! (ts_uid (target_at e i), ct_Name (cp_Type cp))) as [r|] eqn:Er.
  { apply (ex_caps _ He) in Er; [|done]. rewrite Hcp in Er. simpl in Er. subst. by exists e'. }
  assert (returns (fold_st (fun acc req => vr ← requirement (eval_capability fuel) i req;
                      mret (capability_add acc req vr)) ([], ∅, false) (cp_Requirements cp))
    (foldl (fun acc req => capability_add acc req (requirement_verdict e R i req)) ([], ∅, false)
       (cp_Requirements cp))) as Hfold.
  { apply returns_fold. intros acc r Hr. eapply returns_bind; [|apply returns_ret].
    eapply requirement_returns; [done|done|]. intros j dc Hj He'. apply IH; [done|by apply Hh]. }
  clear Er. revert e' He. refine (returns_bind _ _ _ _ Hfold _). intros e'' He''. eexists. split.
  - unfold modify_st, mret, st_ret. rewrite (HR i cp Hl). reflexivity.
  - pose proof (ext_set_capMemo e'' i (ct_Name (cp_Type cp)) Hok He'') as Hx.
    rewrite Hcp in Hx. cbn [default from_option id] in Hx. rewrite (HR i cp Hl) in Hx. exact Hx.
Qed.

(** ** One target, and all of them *)
Lemma foldl_snoc {A B} (f : A -> B) l acc : foldl (fun acc x => acc ++ [f x]) acc l = acc ++ (f <$> l).
Proof.
  revert acc. induction l as [|x l IH]; intros acc; simpl; [by rewrite app_nil_r|].
  by rewrite IH, <- app_assoc.
Qed.

Lemma returns_map_with {A B C} (f : A -> st evaluator B) (g : A -> B) (h : A -> B -> C) l :
  (forall x, x ∈ l -> returns (f x) (g x)) ->
  returns (fold_st (fun acc x => r ← f x; mret (acc ++ [h x r])) [] l) ((fun x => h x (g x)) <$> l).
Proof.
  intros Hf. rewrite <- (app_nil_l (_ <$> l)), <- foldl_snoc. apply returns_fold.
  intros acc x Hx. eapply returns_bind; [by apply Hf|apply returns_ret].
Qed.

Lemma returns_map {A B} (f : A -> st evaluator B) (g : A -> B) l :
  (forall x, x ∈ l -> returns (f x) (g x)) ->
  returns (fold_st (fun acc x => r ← f x; mret (acc ++ [r])) [] l) (g <$> l).
Proof. apply (returns_map_with f g (fun _ r => r)). Qed.

Lemma assess_returns i :
  i < length (e_heap e) -> returns (assess (S (length (cap_nodes e))) i) (target_value e R i).
Proof.
  intros Hi. apply returns_get. intros e' He. cbn zeta. unfold target_value.
  rewrite !ext_target, ext_the_contract, ext_valid, (ex_invalid _ He) by done.
  destruct (valid (target_at e i)) eqn:Hv; simpl; [|by exists e'].
  assert (forall cp, cp ∈ c_Capabilities (the_contract e i) -> live i cp) as Hlive by done.
  pose proof (we_contract _ We i Hi Hv) as Hw.
  assert (target_ok i) as Hok by by apply uniqueValid_Some.
  revert e' He.
  refine (returns_bind _ _ (slot_result e i <$> sort_slice slot_less (c_Assertions (the_contract e i))) _ _ _).
  { apply (returns_map_with (evidence i) (slot_evidence e i)
      (fun s ev => Build_SlotEvidence (s_Name s) (se_status ev) (se_provider ev) (se_ref ev))).
    intros s Hs. rewrite elem_of_sort_slice in Hs. apply evidence_returns.
    unfold slot_named, slot. erewrite find_unique; [done|done|by apply bool_decide_eq_true|].
    intros y Hy Heq%bool_decide_eq_true. by apply (NoDup_fmap_inj s_Name _ _ _ (wf_slot_names _ Hw)). }
  refine (returns_bind _ _ (R i <$> c_Capabilities (the_contract e i)) _ _ _).
  { apply returns_map. intros cp Hcp.
    assert (returns (eval_capability (S (length (cap_nodes e))) i cp) (R i cp)) as Hr; [|exact Hr].
    apply eval_capability_returns; [by apply Hlive|].
    apply (height_le _ (length (cap_nodes e))); [lia|]. by apply live_height, Hlive. }
  refine (returns_bind _ _ (envelope_value e i <$> c_Envelopes (the_contract e i)) _ _ _).
  { apply returns_map. intros env Henv. apply envelopeResult_returns; [done|done|].
    apply find_unique; [done|by apply bool_decide_eq_true|].
    intros y Hy Heq%bool_decide_eq_true.
    by apply (NoDup_fmap_inj env_Name _ _ _ (wf_envelope_names _ Hw)). }
  apply returns_ret.
Qed.
End refine.
End solve.

(** ** The whole evaluation *)
Lemma ext_start e R :
  (forall i, ts_evidence (target_at e i) = ∅) -> e_capMemo e = ∅ -> e_envMemo e = ∅ -> ext e R e.
Proof.
  intros Hev Hc He. split; try done.
  - intros i n ev. rewrite Hev. by rewrite lookup_empty.
  - intros i n r. by rewrite Hc, lookup_empty.
  - intros i n r. by rewrite He, lookup_empty.
Qed.

Lemma Evaluate_value s :
  At s <> 0%Z ->
  exists e R, prepare s = Some e /\ wf_evaluator e /\ (forall n, ~ tc (E (edges e)) n n) /\
    quiet (newEvaluator s) e /\ solution e R /\
    Evaluate s = Some (inr (Build_Assessment (target_value e R <$> e_order e))).
Proof.
  intros Hat. destruct (prepare_ready s) as (e & He & We & Hq & Hev & _ & Hac).
  pose proof (the_solution_ok e We Hac) as HR. eexists e, _. split_and!; [done..|exact HR|].
  unfold Evaluate. unfold IsZero. rewrite bool_decide_false by done. rewrite He. simpl.
  assert (returns e (unfolded e (S (length (cap_nodes e))))
    (fold_st (fun acc i => ta ← assess (S (length (cap_nodes e))) i; mret (acc ++ [ta])) [] (e_order e))
    (target_value e (unfolded e (S (length (cap_nodes e)))) <$> e_order e)) as Hr.
  { apply returns_map. intros i Hi. rewrite (we_order _ We), elem_of_seq in Hi.
    apply assess_returns; [done|done|done|lia]. }
  destruct (Hr e) as (e' & Hrun & _).
  { apply ext_start; [done|by rewrite (qu_caps _ _ Hq)|by rewrite (qu_envs _ _ Hq)]. }
  simpl in Hrun. rewrite Hrun. done.
Qed.

(** C1. [Evaluate] refines the equations: on every snapshot with an instant it
    finishes, and what the memoising recursion returns is, for each target, the
    value of the equations at their one solution - each capability composed
    from the verdicts of its requirements, and each verdict on another
    capability read off that capability's own result in the same assessment. *)
Theorem Evaluate_refines s :
  At s <> 0%Z ->
  exists e R, prepare s = Some e /\ solution e R /\
    (forall R', solution e R' -> forall i cp, live e i cp -> R' i cp = R i cp) /\
    Evaluate s = Some (inr (Build_Assessment (target_value e R <$> e_order e))).
Proof.
  intros Hat. destruct (Evaluate_value s Hat) as (e & R & He & We & Hac & _ & HR & Hev).
  exists e, R. split_and!; [done..| |done]. intros R' HR' i cp Hl.
  rewrite (solution_unique e We Hac R' HR' i cp Hl). symmetry. by apply solution_unique.
Qed.

(** C32. [Evaluate] never runs out of the fuel it is given, and fails exactly
    when the snapshot has no evaluation instant. *)
Theorem Evaluate_total s :
  exists r, Evaluate s = Some r /\ (r = inl ErrNoEvaluationInstant <-> At s = 0%Z).
Proof.
  destruct (decide (At s = 0%Z)) as [Hz|Hz].
  - exists (inl ErrNoEvaluationInstant). split; [|done]. unfold Evaluate, IsZero.
    by rewrite bool_decide_true.
  - destruct (Evaluate_value s Hz) as (e & R & _ & _ & _ & _ & _ & Hev). eexists. split; [exact Hev|].
    split; [done|]. by intros ?.
Qed.
End spec.
