(* ===== verification/Demo.v ===== *)
(** * A small snapshot, on which the theorems are evaluated

    A database target with one assertion, a web target that depends on it, and
    a third target whose two capabilities depend on each other through its own
    dependency binding. *)

From S2P Require Import Prelude Identity Predicate Contract Assessment.

Definition demo_id (name : string) : ContractIdentity := Build_ContractIdentity "ns" name "uid-c" "sha".
Definition demo_type (name : string) : CapabilityType := Build_CapabilityType "app" name "v1".

Definition demo_slot (n : string) : AssertionSlot := {|
  s_Name := n; s_Type := TypeBoolean; s_Enum := []; s_MaxAge := 100;
|}.

Definition demo_predicate (n : string) : Predicate := {|
  p_Assertion := n; p_Op := OpIsTrue; p_Operand := zero_Value;
|}.

Definition on_predicate (n : string) (impact : Impact) : Requirement := {|
  r_Predicate := Some (demo_predicate n); r_Dependency := None; r_LocalCapability := "";
  r_Envelope := ""; r_OnUnmet := impact;
|}.

Definition on_dependency (slot : string) (t : CapabilityType) (impact : Impact) : Requirement := {|
  r_Predicate := None; r_Dependency := Some (Build_DependencyRequirement slot t);
  r_LocalCapability := ""; r_Envelope := ""; r_OnUnmet := impact;
|}.

Definition demo_contract (name : string) (slots deps : list string) (caps : list Capability) :
    Contract := {|
  c_Identity := demo_id name; c_Assertions := demo_slot <$> slots;
  c_DependencySlots := Build_DependencySlot <$> deps; c_Capabilities := caps; c_Envelopes := [];
|}.

Definition db_contract : Contract :=
  demo_contract "db" ["ready"] []
    [Build_Capability (demo_type "serve") [on_predicate "ready" ImpactUnavailable]].

Definition web_contract : Contract :=
  demo_contract "web" ["up"] ["db"]
    [Build_Capability (demo_type "page")
       [on_predicate "up" ImpactUnavailable; on_dependency "db" (demo_type "serve") ImpactDegraded]].

Definition loop_contract : Contract :=
  demo_contract "loop" [] ["self"]
    [Build_Capability (demo_type "a") [on_dependency "self" (demo_type "b") ImpactDegraded];
     Build_Capability (demo_type "b") [on_dependency "self" (demo_type "a") ImpactDegraded]].

Definition demo_target (name contract : string) (slots : list string)
    (deps : list DependencyBinding) : Target := {|
  t_Identity := Build_TargetIdentity "ns" name ("uid-" +:+ name); t_ResolvedUID := "pod";
  t_ContractRef := demo_id contract;
  t_AssertionBindings := (fun s => Build_AssertionBinding s (Build_ProviderIdentity "probe" "1")) <$> slots;
  t_DependencyBindings := deps; t_EnvelopeSelection := "";
|}.

Definition db_target : Target := demo_target "db" "db" ["ready"] [].
Definition web_target : Target :=
  demo_target "web" "web" ["up"] [Build_DependencyBinding "db" "uid-db" (demo_id "db")].
Definition loop_target : Target :=
  demo_target "loop" "loop" [] [Build_DependencyBinding "self" "uid-loop" (demo_id "loop")].

Definition demo_observation (t : Target) (slot : string) (v : bool) (at_ : Time) (ref : string) :
    Observation := {|
  o_Key := {| ak_Target := t_Identity t; ak_ResolvedUID := t_ResolvedUID t;
              ak_Contract := t_ContractRef t; ak_Slot := slot;
              ak_Provider := Build_ProviderIdentity "probe" "1" |};
  o_Outcome := OutcomeValue; o_Value := Bool v; o_ObservedAt := at_; o_ValidUntil := 0;
  o_EvidenceRef := ref;
|}.

(** The database is down in the latest observation. *)
Definition demo : Snapshot := {|
  At := 1000; Contracts := [db_contract; web_contract; loop_contract];
  Targets := [web_target; loop_target; db_target];
  Observations := [demo_observation web_target "up" true 950 "r1";
                   demo_observation db_target "ready" true 930 "r2";
                   demo_observation db_target "ready" false 940 "r3"];
|}.
