(* ===== verification/EvalMeaning.v ===== *)
(** * What the result of an evaluation means

    The composition rules of pkg/operations/evaluator.go read off the equations
    of EvalSpec: when a capability has each state, what AVAILABLE rests on,
    which targets are reported and assessed, and what [normalize] leaves. *)

From S2P Require Import Prelude Identity Predicate LocalCycle Contract Tarjan Assessment Evaluator.
From S2P Require Import EvalResolve EvalCycles EvalSpec Demo.

#[local] Set Warnings "-register-all".

Section meaning.
Context `{GoText} `{SortSlice}.

(** ** Specification *)

(** A predicate proved by current evidence. *)
Definition predicate_met (e : evaluator) (i : nat) (p : Predicate) : Prop :=
  se_status (slot_evidence e i (slot_named e i (p_Assertion p))) = EvidenceCurrent /\
  eval p (se_value (slot_evidence e i (slot_named e i (p_Assertion p)))) = true.

(** A requirement that is met, where [P] says which capabilities are available. *)
Inductive met (e : evaluator) (P : nat -> Capability -> Prop) (i : nat) (r : Requirement) : Prop :=
  | met_predicate p : r_Predicate r = Some p -> predicate_met e i p -> met e P i r
  | met_dependency d b j dc :
      r_Predicate r = None -> r_Dependency r = Some d ->
      depBinding (ts_t (target_at e i)) (dr_Slot d) = Some b ->
      uniqueValid e (db_TargetUID b) = Some j ->
      t_ContractRef (ts_t (target_at e j)) = db_Contract b ->
      capabilityByType (the_contract e j) (dr_Capability d) = Some dc -> P j dc -> met e P i r
  | met_local lc :
      r_Predicate r = None -> r_Dependency r = None ->
      capability (the_contract e i) (r_LocalCapability r) = Some lc -> P i lc -> met e P i r
  | met_envelope env :
      r_Predicate r = None -> r_Dependency r = None -> r_LocalCapability r = "" ->
      envelope (the_contract e i) (r_Envelope r) = Some env ->
      (forall p, p ∈ env_Requirements env -> predicate_met e i p) -> met e P i r.

(** A capability supported, through finitely many steps, by current evidence
    alone. *)
Inductive supported (e : evaluator) (i : nat) (cp : Capability) : Prop :=
  | supported_intro :
      (forall r, r ∈ cp_Requirements cp -> met e (supported e) i r) -> supported e i cp.

(** The state the verdicts of the requirements compose to. *)
Definition unmet_with (impact : Impact) (vs : list (Impact * verdict)) : bool :=
  existsb (fun iv => match iv.2 with unmet => bool_decide (iv.1 = impact) | _ => false end) vs.

Definition composed_state (vs : list (Impact * verdict)) : CapabilityState :=
  if existsb (fun iv => match iv.2 with unproven => true | _ => false end) vs then Unknown
  else match unmet_with ImpactDegraded vs, unmet_with ImpactUnavailable vs with
       | true, true => Unknown
       | true, false => Degraded
       | false, true => Unavailable
       | false, false => Available
       end.

Definition verdicts (e : evaluator) (R : nat -> Capability -> CapabilityResult) (i : nat)
    (cp : Capability) : list (Impact * verdict) :=
  (fun r => (r_OnUnmet r, (requirement_verdict e R i r).1)) <$> cp_Requirements cp.

Definition reason_key (r : Reason) : list string := [Code r; Subject r; Detail r].

(** * Lemmas *)

(** ** normalize *)
Lemma reason_less_lex a b : reason_less a b = lex_ltb (reason_key a) (reason_key b).
Proof.
  unfold reason_less; simpl. repeat case_bool_decide; simpl; repeat case_decide; try done.
  replace (Detail b) with (Detail a) by done. apply string_ltb_irrefl.
Qed.

#[local] Instance reason_strict_weak : StrictWeak reason_less.
Proof. apply (key_strict_weak reason_key), reason_less_lex. Qed.

Lemma reason_key_inj a b : reason_key a = reason_key b -> a = b.
Proof. destruct a, b. by intros [= -> -> ->]. Qed.

Lemma reason_le_antisym a b : le_of reason_less a b -> le_of reason_less b a -> a = b.
Proof. intros H1 H2. apply reason_key_inj. by apply (lex_le_antisym _ _ _ _ reason_less_lex). Qed.

Lemma dedup_from_elem last rs x :
  x ∈ dedup_from last rs -> x ∈ rs.
Proof.
  revert last. induction rs as [|r rs IH]; intros last; simpl; [done|].
  case_bool_decide; [right; eauto|]. intros [->|Hx]%elem_of_cons; [left|right; eauto].
Qed.

Lemma dedup_from_complete last rs x : x ∈ rs -> x ∈ dedup_from last rs \/ last = Some x.
Proof.
  revert last. induction rs as [|r rs IH]; intros last; simpl; [by intros ?%elem_of_nil|].
  case_bool_decide as Hr.
  - intros [->|Hx]%elem_of_cons; [by right|auto].
  - intros [->|Hx]%elem_of_cons; [left; left|].
    destruct (IH (Some r) Hx) as [?|[= ->]]; left; [by right|left].
Qed.

(** Removing adjacent duplicates of a sorted slice leaves it strictly sorted. *)
Lemma dedup_from_sorted last rs :
  StronglySorted (le_of reason_less) rs -> (forall l, last = Some l -> Forall (le_of reason_less l) rs) ->
  StronglySorted (fun a b => reason_less a b = true) (dedup_from last rs) /\
  forall l x, last = Some l -> x ∈ dedup_from last rs -> reason_less l x = true.
Proof.
  revert last. induction rs as [|r rs IH]; intros last Hs Hl; cbn [dedup_from].
  { split; [constructor|]. by intros l x _ ?%elem_of_nil. }
  apply StronglySorted_cons in Hs as [Hr Hs]. case_bool_decide as Heq.
  - apply IH; [done|]. intros l ->. by injection Heq as ->.
  - destruct (IH (Some r) Hs) as [HS Hlt]; [by intros l [= <-]|]. split.
    + apply StronglySorted_cons. split; [|done]. apply Forall_forall. intros x Hx. by apply Hlt.
    + intros l x Hlast Hx. specialize (Hl l Hlast). apply Forall_cons in Hl as [Hlr _].
      assert (reason_less l r = true) as Hlr'.
      { destruct (reason_less l r) eqn:E; [done|]. exfalso. apply Heq. rewrite Hlast.
        f_equal. by apply reason_le_antisym. }
      apply elem_of_cons in Hx as [->|Hx]; [done|]. eapply sw_trans; [exact Hlr'|by apply Hlt].
Qed.

Lemma strictly_sorted_NoDup rs :
  StronglySorted (fun a b => reason_less a b = true) rs -> NoDup rs.
Proof.
  induction 1 as [|a rs _ IH Hall]; [constructor|]. constructor; [|done]. intros Ha.
  rewrite Forall_forall in Hall. specialize (Hall a Ha). by rewrite sw_irrefl in Hall.
Qed.

Lemma elem_of_normalize x rs : x ∈ normalize rs <-> x ∈ rs.
Proof.
  unfold normalize. rewrite <- (elem_of_sort_slice reason_less x rs). split; [apply dedup_from_elem|].
  intros Hx. by destruct (dedup_from_complete None _ x Hx).
Qed.

Lemma normalize_sorted rs : StronglySorted (fun a b => reason_less a b = true) (normalize rs).
Proof. apply dedup_from_sorted; [apply sort_slice_sorted; apply _|done]. Qed.

Lemma normalize_nil rs : normalize rs = [] <-> rs = [].
Proof.
  split; [|intros ->; unfold normalize; by rewrite sort_slice_nil].
  intros Hn. destruct rs as [|r rs]; [done|].
  assert (r ∈ normalize (r :: rs)) as Hr by (apply elem_of_normalize; left).
  rewrite Hn in Hr. nil_elem.
Qed.

Lemma strict_weaken rs :
  StronglySorted (fun a b => reason_less a b = true) rs -> StronglySorted (le_of reason_less) rs.
Proof.
  induction 1 as [|a l _ IH Hall]; constructor; [done|]. eapply Forall_impl; [exact Hall|].
  intros b Hb. unfold le_of. destruct (reason_less b a) eqn:Eq; [|done].
  pose proof (sw_trans _ _ _ Hb Eq) as Hbad. by rewrite sw_irrefl in Hbad.
Qed.

Lemma normalize_unique rs rs' :
  (forall r, r ∈ rs <-> r ∈ rs') -> normalize rs = normalize rs'.
Proof.
  intros Heq. apply (StronglySorted_unique_strong (le_of reason_less)).
  - intros x y _ _. apply reason_le_antisym.
  - apply strict_weaken, normalize_sorted.
  - apply strict_weaken, normalize_sorted.
  - apply NoDup_Permutation; [apply strictly_sorted_NoDup, normalize_sorted..|].
    intros x. by rewrite !elem_of_normalize.
Qed.

(** [normalize] returns the strictly sorted list (by code, then subject,
    then detail) of the distinct reasons it is given; so the reasons reported
    depend only on the set of reasons found, not on the order in which they
    were found. *)
Theorem normalize_spec rs :
  StronglySorted (fun a b => lex_ltb (reason_key a) (reason_key b) = true) (normalize rs) /\
  (forall r, r ∈ normalize rs <-> r ∈ rs) /\
  (forall rs', (forall r, r ∈ rs <-> r ∈ rs') -> normalize rs = normalize rs').
Proof.
  split_and!; [|intros r; apply elem_of_normalize|intros rs'; apply normalize_unique].
  pose proof (normalize_sorted rs) as Hs.
  induction Hs as [|a l _ IH Hall]; constructor; [done|]. eapply Forall_impl; [exact Hall|].
  intros b Hb. by rewrite <- reason_less_lex.
Qed.

(** ** Composition *)
Lemma fold_add_spec (V : Requirement -> verdict * Reason) rs acc :
  let res := foldl (fun acc req => capability_add acc req (V req)) acc rs in
  (forall k, has res.1.2 k = true <->
     has acc.1.2 k = true \/ exists r, r ∈ rs /\ (V r).1 = unmet /\ r_OnUnmet r = k) /\
  res.2 = acc.2 || existsb (fun r => match (V r).1 with unproven => true | _ => false end) rs.
Proof.
  revert acc. induction rs as [|r rs IH]; intros [[reasons impacts] un]; cbn [foldl existsb].
  { split; [|by rewrite orb_false_r]. intros k. split; [by left|].
    intros [?|(r & Hr & _)]; [done|nil_elem]. }
  destruct (IH (capability_add (reasons, impacts, un) r (V r))) as [H1 H2].
  unfold capability_add in *. destruct (V r) as [v x] eqn:Ev. cbn [fst].
  split; [|rewrite H2; by destruct v, un].
  intros k. rewrite H1. clear H1 H2 IH. destruct v; simpl; rewrite ?has_insert.
  - split; [intros [?|(r' & ? & ?)]; [by left|right; exists r'; split; [by right|done]]|].
    intros [?|(r' & [->|Hr']%elem_of_cons & Hv & Hk)]; [by left|by rewrite Ev in Hv|right; by exists r'].
  - split.
    + intros [[->|?]|(r' & ? & ?)]; [right; exists r; rewrite Ev; split; [left|done]|by left|].
      right. exists r'. split; [by right|done].
    + intros [?|(r' & [->|Hr']%elem_of_cons & Hv & Hk)]; [by left; right|by left; left|right; by exists r'].
  - split; [intros [?|(r' & ? & ?)]; [by left|right; exists r'; split; [by right|done]]|].
    intros [?|(r' & [->|Hr']%elem_of_cons & Hv & Hk)]; [by left|by rewrite Ev in Hv|right; by exists r'].
Qed.

(** Two declared impacts are in the map exactly when it has more than one key. *)
Lemma impacts_size (m : gmap string bool) :
  (forall k, has m k = true -> k ∈ [ImpactDegraded; ImpactUnavailable]) ->
  (forall k b, m !! k = Some b -> b = true) ->
  (1 <? size m) = has m ImpactDegraded && has m ImpactUnavailable.
Proof.
  intros Hk Hb.
  assert (forall k, is_Some (m !! k) <-> has m k = true) as Hh.
  { intros k. unfold has. split; [intros [b Hm]; rewrite Hm; simpl; by apply (Hb k)|].
    destruct (m !! k); [eauto|done]. }
  assert (dom m ⊆ {[ImpactDegraded; ImpactUnavailable]}) as Hsub.
  { intros k [? Hd]%elem_of_dom. assert (has m k = true) as Hk' by by apply Hh.
    apply Hk, elem_of_pair_list in Hk'. set_solver. }
  rewrite <- (size_dom m). destruct (has m ImpactDegraded && has m ImpactUnavailable) eqn:Eb.
  - apply andb_true_iff in Eb as [H1 H2]. apply Nat.ltb_lt.
    assert ({[ImpactDegraded; ImpactUnavailable]} ⊆ dom m) as Hs2.
    { intros k. rewrite elem_of_union, !elem_of_singleton, elem_of_dom. rewrite Hh. by intros [->| ->]. }
    apply subseteq_size in Hs2. rewrite size_union, !size_singleton in Hs2 by set_solver. lia.
  - apply Nat.ltb_ge. assert (exists k, dom m ⊆ {[k]}) as [k Hs].
    { apply andb_false_iff in Eb as [Eb|Eb];
        [exists ImpactUnavailable|exists ImpactDegraded]; intros k Hkd;
        pose proof (Hsub k Hkd) as Hc; apply elem_of_dom in Hkd; apply Hh in Hkd;
        rewrite elem_of_union, !elem_of_singleton in Hc; rewrite elem_of_singleton;
        destruct Hc as [->| ->]; congruence. }
    apply subseteq_size in Hs. by rewrite size_singleton in Hs.
Qed.

Lemma fold_add_true (V : Requirement -> verdict * Reason) rs acc :
  (forall k b, acc.1.2 !! k = Some b -> b = true) ->
  forall k b, (foldl (fun acc req => capability_add acc req (V req)) acc rs).1.2 !! k = Some b -> b = true.
Proof.
  revert acc. induction rs as [|r rs IH]; intros acc Hacc; [done|]. apply IH.
  destruct acc as [[reasons impacts] un]. unfold capability_add. destruct (V r) as [[| |] x]; try done.
  intros k b. simpl. rewrite lookup_insert. case_decide; [by intros [= <-]|apply Hacc].
Qed.

Lemma existsb_map {A B} (f : B -> bool) (g : A -> B) l :
  existsb f (g <$> l) = existsb (fun x => f (g x)) l.
Proof. induction l as [|x l IH]; [done|]. rewrite fmap_cons. cbn [existsb]. by rewrite IH. Qed.

Lemma unmet_with_true impact vs : unmet_with impact vs = true <-> (impact, unmet) ∈ vs.
Proof.
  unfold unmet_with. rewrite existsb_exists. setoid_rewrite <- list_elem_of_In. split.
  - intros ([k v] & Hin & Hv). destruct v; try done. simpl in Hv. apply bool_decide_eq_true in Hv. by subst.
  - intros Hin. exists (impact, unmet). split; [done|]. by apply bool_decide_eq_true.
Qed.

Lemma capability_value_state e R i cp :
  wf_evaluator e -> live e i cp ->
  cr_State (capability_value e R i cp) = composed_state (verdicts e R i cp).
Proof.
  intros We Hl. unfold capability_value, composed_state.
  pose proof (fold_add_spec (requirement_verdict e R i) (cp_Requirements cp) ([], ∅, false)) as [Hk Hu].
  pose proof (fold_add_true (requirement_verdict e R i) (cp_Requirements cp) ([], ∅, false)) as Ht.
  destruct (foldl _ _ _) as [[reasons impacts] un]. cbn [fst snd] in *.
  unfold verdicts at 1. rewrite existsb_map. simpl in Hu. cbn [fst snd]. rewrite <- Hu.
  unfold capability_finish. destruct un; [done|].
  rewrite impacts_size; [| |apply Ht; by intros k b ?%lookup_empty_Some].
  2:{ intros k [Hf|(r & Hr & _ & <-)]%Hk; [done|]. by apply (live_requirement e We i cp). }
  assert (forall k, has impacts k = unmet_with k (verdicts e R i cp)) as Hh.
  { intros k. apply eq_true_iff_eq. rewrite Hk, unmet_with_true. unfold verdicts.
    rewrite list_elem_of_fmap. split.
    - intros [Hf|(r & Hr & Hv & <-)]; [done|]. exists r. by rewrite Hv.
    - intros (r & [= -> Hv] & Hr). right. by exists r. }
  rewrite !Hh. by destruct (unmet_with ImpactDegraded _), (unmet_with ImpactUnavailable _).
Qed.

Lemma existsb_false_Forall {A} (f : A -> bool) l : existsb f l = false <-> Forall (fun x => f x = false) l.
Proof.
  induction l as [|x l IH]; [done|]. rewrite Forall_cons. cbn [existsb]. by rewrite orb_false_iff, IH.
Qed.

Lemma composed_available vs :
  Forall (fun iv => iv.1 ∈ [ImpactDegraded; ImpactUnavailable]) vs ->
  composed_state vs = Available <-> Forall (fun iv => iv.2 = accepted) vs.
Proof.
  intros Hi. rewrite Forall_forall in Hi. unfold composed_state.
  destruct (existsb _ vs) eqn:Eu.
  { split; [done|]. intros Ha. rewrite Forall_forall in Ha. apply existsb_exists in Eu as (iv & Hin & Hu).
    rewrite <- list_elem_of_In in Hin. by rewrite (Ha iv Hin) in Hu. }
  rewrite existsb_false_Forall in Eu.
  transitivity (unmet_with ImpactDegraded vs = false /\ unmet_with ImpactUnavailable vs = false).
  { destruct (unmet_with ImpactDegraded vs), (unmet_with ImpactUnavailable vs); naive_solver. }
  rewrite <- !not_true_iff_false, !unmet_with_true, Forall_forall. rewrite Forall_forall in Eu. split.
  - intros [Hd Hu] [k v] Hin. specialize (Eu _ Hin). specialize (Hi _ Hin).
    apply elem_of_pair_list in Hi. simpl in *. destruct v; [done| |done].
    by destruct Hi; subst.
  - intros Ha. split; intros Hin; by specialize (Ha _ Hin).
Qed.

(** ** What AVAILABLE rests on *)
Lemma judge_predicate_accepted p ev :
  (judge_predicate p ev).1 = accepted <-> se_status ev = EvidenceCurrent /\ eval p (se_value ev) = true.
Proof.
  unfold judge_predicate. case_bool_decide as Hs; simpl; [|naive_solver].
  destruct (eval p (se_value ev)); naive_solver.
Qed.

Lemma envelope_satisfied e i env :
  er_State (envelope_value e i env) = Satisfied <->
  forall p, p ∈ env_Requirements env -> predicate_met e i p.
Proof.
  unfold envelope_value.
  assert (forall ps acc, let res := foldl (fun acc p => envelope_add acc (predicate_verdict e i p)) acc ps in
    er_State (envelope_finish env res) = Satisfied <->
    er_State (envelope_finish env acc) = Satisfied /\ forall p, p ∈ ps -> predicate_met e i p) as Hf.
  { induction ps as [|p ps IH]; intros acc; cbn [foldl].
    { split; [|by intros []]. intros Hs. split; [done|]. by intros p ?%elem_of_nil. }
    cbn zeta in IH. rewrite IH.
    pose proof (judge_predicate_accepted p (slot_evidence e i (slot_named e i (p_Assertion p)))) as Hj.
    unfold predicate_verdict. destruct acc as [[reasons un] up].
    destruct (judge_predicate _ _) as [v x]. simpl in Hj. setoid_rewrite elem_of_cons.
    destruct v; simpl.
    - split; [|naive_solver]. intros [Hs Hall]. split; [done|]. intros q [->|Hq]; [|by apply Hall].
      by apply Hj.
    - split; [by intros []|]. intros [_ Hall]. assert (unmet = accepted); [|done].
      apply Hj, (Hall p). by left.
    - split; [by destruct un; intros []|]. intros [_ Hall]. assert (unproven = accepted); [|done].
      apply Hj, (Hall p). by left. }
  rewrite (Hf (env_Requirements env) ([], false, false)). simpl. tauto.
Qed.

Lemma judge_dependency_accepted subject s : (judge_dependency subject s).1 = accepted <-> s = Available.
Proof. by destruct s. Qed.
Lemma judge_local_accepted n s : (judge_local n s).1 = accepted <-> s = Available.
Proof. by destruct s. Qed.
Lemma judge_envelope_accepted n s : (judge_envelope n s).1 = accepted <-> s = Satisfied.
Proof. by destruct s. Qed.

(** A verdict accepts exactly when the requirement is met. *)
Lemma verdict_met e R P i cp r :
  wf_evaluator e -> live e i cp -> r ∈ cp_Requirements cp ->
  (forall j dc, live e j dc -> E (edges e) (node e i cp) (node e j dc) ->
     cr_State (R j dc) = Available <-> P j dc) ->
  (requirement_verdict e R i r).1 = accepted <-> met e P i r.
Proof.
  intros We Hl Hr HP. unfold requirement_verdict.
  destruct (requirement_cases e We i cp r Hl Hr) as
    [p s Hp _|d rs Hp Hd Hres|d sub j dc Hp Hd Hres Hj He|lc Hp Hd Hn Hc Hll He|env Hp Hd Hn Hne Henv];
    rewrite Hp, ?Hd.
  - unfold predicate_verdict. rewrite judge_predicate_accepted. split.
    + intros Hm. by eapply met_predicate.
    + intros [p' Hp' Hm|? ? ? ? Hp'|? Hp'|? Hp']; try congruence. by assert (p' = p) as -> by congruence.
  - unfold dependency_verdict. rewrite Hres. split; [done|].
    intros [p' Hp' _|d' b j dc _ Hd' Hb Hu Href Hdc _|? _ Hd'|? _ Hd']; try congruence.
    assert (d' = d) as -> by congruence. exfalso. revert Hres. unfold resolve_dependency.
    rewrite Hb. assert (length (default [] (e_byUID e !! db_TargetUID b)) <> 0) as Hlen.
    { unfold uniqueValid in Hu. by destruct (default [] _). }
    rewrite bool_decide_false, Hu, bool_decide_true, Hdc by done. done.
  - pose proof (resolve_dependency_edge e We _ _ _ _ _ Hres) as (_ & b & Hb & Hu & Href & Hdc).
    unfold dependency_verdict. rewrite Hres, judge_dependency_accepted, HP by done. split.
    + intros HPj. by eapply met_dependency.
    + intros [p' Hp' _|d' b' j' dc' _ Hd' Hb' Hu' _ Hdc' HPj|? _ Hd'|? _ Hd']; congruence.
  - rewrite (proj2 (nonempty_true _) Hn), Hc, judge_local_accepted. cbn [default from_option id].
    rewrite HP by done. split.
    + intros HPi. by eapply met_local.
    + intros [p' Hp' _|d' b' j' dc' _ Hd'|lc' _ _ Hc' HPi|? _ _ Hn']; congruence.
  - rewrite (proj2 (nonempty_false _) Hn), (proj2 (nonempty_true _) Hne), Henv,
      judge_envelope_accepted. cbn [default from_option id]. rewrite envelope_satisfied. split.
    + intros Hall. by eapply met_envelope.
    + intros [p' Hp' _|d' b' j' dc' _ Hd'|lc' _ _ Hc' _|env' _ _ _ Henv' Hall]; [congruence..| |].
      * exfalso. pose proof (capability_name _ _ _ Hc') as Hname.
        pose proof (capability_elem _ _ _ Hc') as Hin.
        pose proof (wf_capabilities _ (live_contract e We i cp Hl)) as Hcs.
        rewrite Forall_forall in Hcs. destruct (Hcs lc' Hin) as (Hcomp & _).
        unfold CapabilityType_complete in Hcomp. rewrite Hname, Hn in Hcomp.
        by rewrite (proj2 (nonempty_false "") eq_refl), andb_false_r in Hcomp.
      * by assert (env' = env) as -> by congruence.
Qed.

Lemma available_met e R i cp :
  wf_evaluator e -> solution e R -> live e i cp ->
  cr_State (R i cp) = Available <->
  forall r, r ∈ cp_Requirements cp -> (requirement_verdict e R i r).1 = accepted.
Proof.
  intros We HR Hl. rewrite (HR i cp Hl), capability_value_state, composed_available; [|..|done|done].
  - unfold verdicts. rewrite Forall_forall. split.
    + intros Ha r Hr. exact (Ha _ (list_elem_of_fmap_2 _ _ _ Hr)).
    + intros Ha iv (r & -> & Hr)%list_elem_of_fmap. by apply Ha.
  - unfold verdicts. apply Forall_forall. intros iv (r & -> & Hr)%list_elem_of_fmap.
    by apply (live_requirement e We i cp).
Qed.

Lemma available_supported_at e R i cp :
  wf_evaluator e -> (forall n, ~ tc (E (edges e)) n n) -> solution e R -> live e i cp ->
  cr_State (R i cp) = Available <-> supported e i cp.
Proof.
  intros We Hac HR. assert (forall k i cp, height (E (edges e)) k (node e i cp) -> live e i cp ->
    cr_State (R i cp) = Available <-> supported e i cp) as Hk.
  { induction k as [|k IH]; intros j dc Hh Hl; [done|]. rewrite (available_met e R j dc We HR Hl).
    assert (forall r, r ∈ cp_Requirements dc ->
      (requirement_verdict e R j r).1 = accepted <-> met e (supported e) j r) as Hr.
    { intros r Hr. eapply verdict_met; [done|done|done|]. intros j' dc' Hl' He'.
      apply IH; [by apply Hh|done]. }
    split; [intros Ha; constructor|intros [Ha]]; intros r Hin; by apply Hr, Ha. }
  intros Hl. eapply Hk; [by apply live_height|done].
Qed.

(** The state of a capability is composed from the verdicts of its
    requirements: UNKNOWN if any is unproven; otherwise the single impact its
    unmet requirements declare; UNKNOWN if they declare both impacts; AVAILABLE
    if none is unmet. *)
Theorem capability_composition s :
  At s <> 0%Z ->
  exists e R, prepare s = Some e /\
    Evaluate s = Some (inr (Build_Assessment (target_value e R <$> e_order e))) /\
    forall i cp, live e i cp -> cr_State (R i cp) = composed_state (verdicts e R i cp).
Proof.
  intros Hat. destruct (Evaluate_value s Hat) as (e & R & He & We & _ & _ & HR & Hev).
  exists e, R. split_and!; [done..|]. intros i cp Hl. rewrite (HR i cp Hl). by apply capability_value_state.
Qed.

(** C2. A capability is AVAILABLE exactly when it is supported: by a finite
    derivation whose every leaf is a predicate true of current evidence, and
    whose steps go only through the local capabilities, the envelopes and the
    exactly bound capabilities of other assessed targets that the requirements
    name.  Nothing missing, stale, conflicting or cyclic is ever read as health. *)
Theorem available_supported s :
  At s <> 0%Z ->
  exists e R, prepare s = Some e /\
    Evaluate s = Some (inr (Build_Assessment (target_value e R <$> e_order e))) /\
    forall i cp, live e i cp -> cr_State (R i cp) = Available <-> supported e i cp.
Proof.
  intros Hat. destruct (Evaluate_value s Hat) as (e & R & He & We & Hac & _ & HR & Hev).
  exists e, R. split_and!; [done..|]. intros i cp Hl. by apply available_supported_at.
Qed.

(** ** Which targets are reported *)
Definition identity_key (t : TargetIdentity) : list string := [ti_UID t; ti_Namespace t; ti_Name t].

Lemma identity_less_lex a b : identity_less a b = lex_ltb (identity_key a) (identity_key b).
Proof.
  unfold identity_less; simpl. repeat case_bool_decide; simpl; repeat case_decide; try done.
  replace (ti_Name b) with (ti_Name a) by done. apply string_ltb_irrefl.
Qed.

Lemma StronglySorted_fmap_impl {A B} (P : A -> A -> Prop) (Q : B -> B -> Prop) (f : A -> B) l :
  (forall x y, x ∈ l -> y ∈ l -> P x y -> Q (f x) (f y)) -> StronglySorted P l -> StronglySorted Q (f <$> l).
Proof.
  intros HPQ Hs. induction Hs as [|x l _ IH Hall]; [constructor|]. rewrite fmap_cons. constructor.
  - apply IH. intros y z Hy Hz. apply HPQ; by right.
  - apply Forall_fmap, Forall_forall. intros y Hy. rewrite Forall_forall in Hall.
    apply HPQ; [left|by right|auto].
Qed.

Lemma target_value_identity e R i :
  ta_Target (target_value e R i) = t_Identity (ts_t (target_at e i)) /\
  ta_Contract (target_value e R i) = t_ContractRef (ts_t (target_at e i)) /\
  ta_Valid (target_value e R i) = valid (target_at e i).
Proof. unfold target_value. by destruct (valid _). Qed.

(** The assessment reports every target of the snapshot exactly once,
    ordered by UID, namespace and name.  A target is marked valid exactly when
    it is well formed and on no dependency cycle; a valid target reports one
    result per capability of its contract and no invalid reason, an invalid
    one reports at least one reason and no result at all. *)
Theorem Evaluate_targets s a :
  Evaluate s = Some (inr a) ->
  (ta_Target <$> a_Targets a) ≡ₚ (t_Identity <$> Targets s) /\
  StronglySorted (fun x y => identity_less (ta_Target y) (ta_Target x) = false) (a_Targets a) /\
  forall ta, ta ∈ a_Targets a -> exists t, t ∈ Targets s /\
    ta_Target ta = t_Identity t /\ ta_Contract ta = t_ContractRef t /\
    (ta_Valid ta = true <-> exists c, wf_target s t c /\ cycle_free s t c) /\
    (ta_Valid ta = true -> ta_InvalidReasons ta = [] /\ forall c, wf_target s t c ->
       (cr_Type <$> ta_Capabilities ta) ≡ₚ (cp_Type <$> c_Capabilities c)) /\
    (ta_Valid ta = false -> ta_InvalidReasons ta <> [] /\ ta_Evidence ta = [] /\
       ta_Capabilities ta = [] /\ ta_Envelopes ta = []).
Proof.
  destruct (decide (At s = 0%Z)) as [Hz|Hz].
  { unfold Evaluate, IsZero. by rewrite bool_decide_true. }
  destruct (prepare_ready s) as (e & He & We & Hq & _ & Hv & _).
  destruct (Evaluate_value s Hz) as (e' & R & He' & _ & _ & _ & HR & ->).
  assert (e' = e) as -> by congruence. intros [= <-]. cbn [a_Targets].
  assert (forall i t, Targets s !! i = Some t -> ts_t (target_at e i) = t) as Ht.
  { intros i t Hi. by rewrite (be_target _ _ (qu_base _ _ Hq)), (new_target _ _ _ Hi). }
  rewrite (be_order _ _ (qu_base _ _ Hq)).
  split_and!.
  - rewrite <- list_fmap_compose, new_order.
    rewrite <- (fmap_seq_lookup zero_Target (Targets s)) at 2. rewrite <- list_fmap_compose.
    erewrite list_fmap_ext; [reflexivity|]. intros k i Hi. apply lookup_seq in Hi as [-> Hi]. simpl.
    destruct (lookup_lt_is_Some_2 _ _ Hi) as [t Hk].
    rewrite (proj1 (target_value_identity e R k)), (Ht k t Hk), Hk. done.
  - apply (StronglySorted_fmap_impl (le_of (fun i j => identity_less
      (t_Identity (ts_t (target_at (newEvaluator s) i))) (t_Identity (ts_t (target_at (newEvaluator s) j)))))).
    + intros i j _ _. unfold le_of. rewrite !(proj1 (target_value_identity e R _)).
      by rewrite !(be_target _ _ (qu_base _ _ Hq)).
    + apply slice_stable_sorted. apply (key_strict_weak
        (fun i => identity_key (t_Identity (ts_t (target_at (newEvaluator s) i))))).
      intros i j. apply identity_less_lex.
  - intros ta (i & -> & Hi)%list_elem_of_fmap. rewrite new_order, elem_of_seq in Hi.
    destruct (lookup_lt_is_Some_2 (Targets s) i) as [t Hit]; [lia|]. exists t.
    destruct (target_value_identity e R i) as (-> & -> & ->). rewrite (Ht i t Hit).
    split; [by eapply list_elem_of_lookup_2|]. do 2 (split; [done|]).
    specialize (Hv i t). unfold target_value. split_and!.
    + split; [intros Hval; exists (the_contract e i); by apply Hv|].
      intros (c & Hc). by apply (Hv c Hit) in Hc as [].
    + intros Hval. rewrite Hval. split; [done|]. intros c Hw. simpl. rewrite sort_slice_perm.
      pose proof (proj1 (Hv _ Hit) (conj Hval eq_refl)) as [Hw' _].
      assert (the_contract e i = c) as Heq.
      { pose proof (wt_contract _ _ _ Hw) as E1. rewrite (wt_contract _ _ _ Hw') in E1. by injection E1. }
      rewrite Heq, <- list_fmap_compose. erewrite list_fmap_ext; [reflexivity|].
      intros k cp Hcp. simpl. rewrite HR; [|split_and!].
      * unfold capability_value, capability_finish.
        by destruct (foldl _ _ _) as [[? ?] []]; repeat case_match; simplify_eq.
      * rewrite (qu_heap _ _ Hq). simpl. rewrite length_fmap. lia.
      * done.
      * rewrite Heq. by eapply list_elem_of_lookup_2.
    + intros Hval. rewrite Hval. simpl. split_and!; [|done..]. rewrite normalize_nil.
      unfold valid in Hval. rewrite bool_decide_eq_false, length_zero_iff_nil in Hval. done.
Qed.
End meaning.

(** ** The theorems at the snapshot of Demo *)
Lemma Evaluate_targets_witness :
  exists a ta, Evaluate demo = Some (inr a) /\ ta ∈ a_Targets a /\ ta_Valid ta = false /\
    ta_Target ta = t_Identity loop_target /\ ta_Capabilities ta = [] /\
    (ta_Target <$> a_Targets a) ≡ₚ (t_Identity <$> Targets demo).
Proof.
  destruct (Evaluate demo) as [[|a]|] eqn:Eq; [by vm_compute in Eq| |by vm_compute in Eq].
  destruct (Evaluate_targets demo a Eq) as (Hp & _ & Hall).
  assert (exists ta, ta ∈ a_Targets a /\ ta_Valid ta = false /\ ta_Target ta = t_Identity loop_target)
    as (ta & Hin & Hv & Hid).
  { vm_compute in Eq. injection Eq as <-. eexists. split; [right; left|done]. }
  exists a, ta. split_and!; [exact eq_refl|exact Hin|exact Hv|exact Hid| |exact Hp].
  destruct (Hall ta Hin) as (t & _ & _ & _ & _ & _ & Hf). by apply Hf.
Defined.

Lemma Evaluate_refines_witness :
  exists e R, prepare demo = Some e /\ solution e R /\
    Evaluate demo = Some (inr (Build_Assessment (target_value e R <$> e_order e))).
Proof.
  destruct (Evaluate_refines demo ltac:(done)) as (e & R & He & HR & _ & Hev).
  exists e, R. exact (conj He (conj HR Hev)).
Defined.

