(* ===== verification/Profile.v ===== *)
(** * Declared responses (pkg/interaction/profile.go)

    The operator's profile: the declared responses, their execution contracts,
    and [Validate], which bounds them.  A Go error is [Some message], nil is
    [None].  Reading the file and decoding JSON are arguments of [LoadProfile];
    that nothing reaches the operator unvalidated is the code's. *)

From S2P Require Import Prelude Identity.

Record ActionRef := { ar_Name : string; ar_Revision : string }.
Definition ActionRef_String (a : ActionRef) : string := ar_Name a +:+ "@" +:+ ar_Revision a.

Record TargetRef := { tr_Namespace : string; tr_Name : string; tr_UID : string }.

(** opsv1.CapabilityType has the fields of operations.CapabilityType, and the
    conversion between them copies the fields; both are [CapabilityType]. *)
Record Execution := {
  x_Provider : string;
  x_Approvers : list string;
  x_ExpectedImpact : list CapabilityType;
  x_MayInterrupt : list CapabilityType;
  x_AckTimeout : Duration;
  x_CompletionTimeout : Duration;
  x_RecoveryWindow : Duration;
  x_ApprovalTTL : Duration;
  x_MaxSends : Z;
  x_MaxAttempts : Z;
  x_Retryable : bool;
}.

Record Response := {
  rs_Action : ActionRef;
  rs_Target : TargetRef;
  rs_For : CapabilityType;
  rs_States : list string;
  rs_Owner : string;
  rs_RequiresApproval : bool;
  rs_Risks : list string;
  rs_Preconditions : list CapabilityType;
  rs_Execution : option Execution;
}.

Record Profile := { pf_Revision : string; pf_Responses : list Response }.

#[export] Instance ActionRef_eq_dec : EqDecision ActionRef.
Proof. solve_decision. Defined.
#[export] Instance TargetRef_eq_dec : EqDecision TargetRef.
Proof. solve_decision. Defined.
#[export] Instance Execution_eq_dec : EqDecision Execution.
Proof. solve_decision. Defined.
#[export] Instance Response_eq_dec : EqDecision Response.
Proof. solve_decision. Defined.

(** ** Defaults and bounds *)
Definition Hour : Duration := 3600000000000.
Definition DefaultApprovalTTL : Duration := Hour.
Definition DefaultMaxSends : Z := 3.
Definition DefaultMaxAttempts : Z := 1.
Definition maxApprovers : nat := 8.
Definition maxImpact : nat := 8.
Definition maxExecSends : Z := 5.
Definition maxExecAttempts : Z := 3.
Definition maxExecDuration : Duration := 24 * Hour.
Definition MaxResponses : nat := 128.
Definition maxPreconditions : nat := 8.
Definition maxRisks : nat := 4.
Definition maxOwner : nat := 128.

Definition ReasonApprovalDeclared : string := "approval-declared".
Definition ReasonRiskDeclared : string := "risk-declared".
Definition ReasonMayInterrupt : string := "may-interrupt".

Definition HumanDecisionReasons (r : Response) : list string :=
  (if rs_RequiresApproval r then [ReasonApprovalDeclared] else []) ++
  (if 0 <? length (rs_Risks r) then [ReasonRiskDeclared] else []) ++
  match rs_Execution r with
  | Some x => if 0 <? length (x_MayInterrupt x) then [ReasonMayInterrupt] else []
  | None => []
  end.

Definition SendBudget (e : Execution) : Z :=
  if Z.eqb (x_MaxSends e) 0 then DefaultMaxSends else x_MaxSends e.

Definition AttemptBudget (e : Execution) : Z :=
  if Z.eqb (x_MaxAttempts e) 0 then DefaultMaxAttempts else x_MaxAttempts e.

Definition ApprovalAge (e : Execution) : Duration :=
  if Z.eqb (x_ApprovalTTL e) 0 then DefaultApprovalTTL else x_ApprovalTTL e.

(** ** Text checks *)

(** [a-z0-9] and [-a-z0-9.] *)
Definition alnum (c : Ascii.ascii) : bool :=
  let n := Ascii.nat_of_ascii c in ((97 <=? n) && (n <=? 122)) || ((48 <=? n) && (n <=? 57)).
Definition name_char (c : Ascii.ascii) : bool :=
  let n := Ascii.nat_of_ascii c in alnum c || (n =? 45) || (n =? 46).

Fixpoint name_tail (s : string) : bool :=
  match s with
  | EmptyString => true
  | String c EmptyString => alnum c
  | String c s => name_char c && name_tail s
  end.

(** nameRE: ^[a-z0-9]([-a-z0-9.]*[a-z0-9])?$ *)
Definition nameRE (s : string) : bool :=
  match s with
  | EmptyString => false
  | String c s => alnum c && name_tail s
  end.

(** utf8.RuneCountInString: the length of the first sequence of [bs], by the
    ranges UTF-8 accepts; an invalid byte counts as one rune of width 1. *)
Definition in_range (lo hi b : nat) : bool := (lo <=? b) && (b <=? hi).

Definition rune_width (bs : list nat) : nat :=
  match bs with
  | [] => 0
  | b0 :: bs =>
      let cont k := forallb (in_range 128 191) (take k bs) && (k <=? length bs) in
      let second lo hi := match bs with b1 :: _ => in_range lo hi b1 | [] => false end in
      if in_range 194 223 b0 then if cont 1 then 2 else 1
      else if b0 =? 224 then if second 160 191 && cont 2 then 3 else 1
      else if b0 =? 237 then if second 128 159 && cont 2 then 3 else 1
      else if in_range 225 239 b0 then if cont 2 then 3 else 1
      else if b0 =? 240 then if second 144 191 && cont 3 then 4 else 1
      else if in_range 241 243 b0 then if cont 3 then 4 else 1
      else if b0 =? 244 then if second 128 143 && cont 3 then 4 else 1
      else 1
  end.

Fixpoint rune_count (fuel : nat) (bs : list nat) : nat :=
  match fuel, bs with
  | S fuel, _ :: _ => S (rune_count fuel (drop (rune_width bs) bs))
  | _, _ => 0
  end.

Definition string_bytes (s : string) : list nat := Ascii.nat_of_ascii <$> String.list_ascii_of_string s.
Definition RuneCountInString (s : string) : nat := rune_count (String.length s) (string_bytes s).

(** ** Validate *)
Section validate.
Context `{GoText}.

(** The first error of a sequence of checks. *)
Fixpoint first_err (es : list (option string)) : option string :=
  match es with
  | [] => None
  | Some e :: _ => Some e
  | None :: es => first_err es
  end.

Definition wrap (prefix : string) (e : option string) : option string :=
  (fun msg => prefix +:+ ": " +:+ msg) <$> e.

Definition check (bad : bool) (msg : string) : option string := if bad then Some msg else None.

Definition checkField (f : string * string * nat) : option string :=
  let '(field, v, max) := f in
  let n := RuneCountInString v in
  check ((n <? 1) || (max <? n))
    ("capability " +:+ field +:+ " must be 1-" +:+ pretty max +:+ " characters, got " +:+ pretty n).

Definition checkType (c : CapabilityType) : option string :=
  first_err (checkField <$> [("domain", ct_Domain c, 253); ("name", ct_Name c, 63);
                             ("revision", ct_Revision c, 63)]).

Definition check_duration (f : string * Duration) : option string :=
  check (Z.leb f.2 0 || Z.ltb maxExecDuration f.2) (f.1 +:+ " must be within (0, 24h0m0s]").

Definition approver_step (seen : gmap string bool) (a : string) : list string * gmap string bool :=
  if negb (nonempty a) || (maxOwner <? String.length a) || default false (seen !! a)
  then (["approver " +:+ quote a +:+ " invalid or repeated"], seen)
  else ([], <[a := true]> seen).

Definition forIncluded (e : Execution) (r : Response) : bool :=
  existsb (fun c => bool_decide (c = rs_For r)) (x_ExpectedImpact e).

Definition Execution_validate (e : Execution) (r : Response) : option string :=
  first_err
   ([ check (negb (nameRE (x_Provider e)) || (63 <? String.length (x_Provider e)))
        ("provider " +:+ quote (x_Provider e) +:+ " invalid");
      check (maxApprovers <? length (x_Approvers e)) "too many approvers";
      check (bool_decide (length (x_ExpectedImpact e) = 0) || (maxImpact <? length (x_ExpectedImpact e)))
        "expectedImpact needs 1-8 capabilities";
      check (maxImpact <? length (x_MayInterrupt e)) "too many mayInterrupt capabilities";
      check (Z.ltb (x_MaxSends e) 0 || Z.ltb maxExecSends (x_MaxSends e)) "maxSends must be 0-5";
      check (Z.ltb (x_MaxAttempts e) 0 || Z.ltb maxExecAttempts (x_MaxAttempts e))
        "maxAttempts must be 0-3";
      check ((0 <? length (HumanDecisionReasons r)) && bool_decide (length (x_Approvers e) = 0))
        "a response that needs a human decision must declare approvers" ] ++
    (check_duration <$> [("ackTimeout", x_AckTimeout e); ("completionTimeout", x_CompletionTimeout e);
                         ("recoveryWindow", x_RecoveryWindow e)]) ++
    [ check (Z.ltb (x_ApprovalTTL e) 0 || Z.ltb maxExecDuration (x_ApprovalTTL e))
        "approvalTTL must be within [0, 24h0m0s]";
      head (collect approver_step ∅ (x_Approvers e)).1 ] ++
    imap (fun i c => wrap ("capability " +:+ pretty i) (checkType c))
      (x_ExpectedImpact e ++ x_MayInterrupt e) ++
    [ check (negb (forIncluded e r)) "expectedImpact must include for" ]).

Definition states : list string := ["DEGRADED"; "UNAVAILABLE"; "UNKNOWN"].
Definition risks : list string := ["data-loss"; "service-interruption"; "security-scope-expansion"].

Definition Response_validate (r : Response) : option string :=
  first_err
   ([ check (negb (nameRE (ar_Name (rs_Action r))) || (63 <? String.length (ar_Name (rs_Action r))))
        ("action name " +:+ quote (ar_Name (rs_Action r)) +:+ " invalid");
      check (negb (nonempty (ar_Revision (rs_Action r))) || (63 <? String.length (ar_Revision (rs_Action r))))
        "action revision must be 1-63 characters";
      check (negb (nameRE (tr_Namespace (rs_Target r))) || negb (nameRE (tr_Name (rs_Target r))))
        "target needs a namespace and a name";
      check (128 <? String.length (tr_UID (rs_Target r))) "target uid too long";
      wrap "for" (checkType (rs_For r));
      check (maxOwner <? String.length (rs_Owner r)) "owner too long";
      check (maxRisks <? length (rs_Risks r)) "too many risks";
      check (maxPreconditions <? length (rs_Preconditions r)) "too many preconditions" ] ++
    ((fun s => check (negb (bool_decide (s ∈ states)))
        ("state " +:+ quote s +:+ " is not DEGRADED, UNAVAILABLE or UNKNOWN")) <$> rs_States r) ++
    ((fun k => check (negb (bool_decide (k ∈ risks))) ("risk " +:+ quote k +:+ " unknown")) <$> rs_Risks r) ++
    imap (fun i c => wrap ("precondition " +:+ pretty i) (checkType c)) (rs_Preconditions r) ++
    [ match rs_Execution r with Some e => wrap "execution" (Execution_validate e r) | None => None end ]).

Definition Profile_Validate (p : Profile) : option string :=
  first_err
   ([ check (negb (nonempty (pf_Revision p)) || (63 <? String.length (pf_Revision p)))
        "interaction profile: revision must be 1-63 characters";
      check (MaxResponses <? length (pf_Responses p))
        ("interaction profile: " +:+ pretty (length (pf_Responses p)) +:+ " responses, at most 128") ] ++
    imap (fun i r => wrap ("interaction profile: response " +:+ pretty i) (Response_validate r))
      (pf_Responses p)).

(** ** Loading: [decode] is the strict JSON decoder, [read] is os.ReadFile. *)
Definition ParseProfile (decode : string -> string + Profile) (b : string) : string + Profile :=
  match decode b with
  | inl err => inl ("interaction profile: " +:+ err)
  | inr p => match Profile_Validate p with Some err => inl err | None => inr p end
  end.

Definition LoadProfile (read : string -> string + string) (decode : string -> string + Profile) (path : string) : string + Profile :=
  match read path with
  | inl err => inl err
  | inr b => ParseProfile decode b
  end.
End validate.

(** [Response.triggers] *)
Definition Response_triggers (r : Response) (state : string) : bool :=
  if bool_decide (length (rs_States r) = 0)
  then bool_decide (state = "DEGRADED") || bool_decide (state = "UNAVAILABLE")
  else existsb (fun s => bool_decide (s = state)) (rs_States r).

(** ** Specification *)
Definition wf_type (c : CapabilityType) : Prop :=
  1 <= RuneCountInString (ct_Domain c) <= 253 /\ 1 <= RuneCountInString (ct_Name c) <= 63 /\
  1 <= RuneCountInString (ct_Revision c) <= 63.

Record wf_execution (e : Execution) (r : Response) : Prop := {
  wx_provider : nameRE (x_Provider e) = true /\ String.length (x_Provider e) <= 63;
  wx_approvers : length (x_Approvers e) <= maxApprovers /\ NoDup (x_Approvers e) /\
                 Forall (fun a => a <> "" /\ String.length a <= maxOwner) (x_Approvers e);
  wx_human : HumanDecisionReasons r <> [] -> x_Approvers e <> [];
  wx_impact : length (x_ExpectedImpact e) <= maxImpact /\ rs_For r ∈ x_ExpectedImpact e;
  wx_interrupt : length (x_MayInterrupt e) <= maxImpact;
  wx_types : Forall wf_type (x_ExpectedImpact e ++ x_MayInterrupt e);
  wx_sends : (0 <= x_MaxSends e <= maxExecSends)%Z;
  wx_attempts : (0 <= x_MaxAttempts e <= maxExecAttempts)%Z;
  wx_timeouts : Forall (fun d => 0 < d <= maxExecDuration)%Z
                  [x_AckTimeout e; x_CompletionTimeout e; x_RecoveryWindow e];
  wx_ttl : (0 <= x_ApprovalTTL e <= maxExecDuration)%Z;
}.

Record wf_response (r : Response) : Prop := {
  wr_action : nameRE (ar_Name (rs_Action r)) = true /\ String.length (ar_Name (rs_Action r)) <= 63;
  wr_revision : ar_Revision (rs_Action r) <> "" /\ String.length (ar_Revision (rs_Action r)) <= 63;
  wr_target : nameRE (tr_Namespace (rs_Target r)) = true /\ nameRE (tr_Name (rs_Target r)) = true;
  wr_uid : String.length (tr_UID (rs_Target r)) <= 128;
  wr_for : wf_type (rs_For r);
  wr_owner : String.length (rs_Owner r) <= maxOwner;
  wr_risks : length (rs_Risks r) <= maxRisks /\ Forall (fun k => k ∈ risks) (rs_Risks r);
  wr_states : Forall (fun s => s ∈ states) (rs_States r);
  wr_preconditions : length (rs_Preconditions r) <= maxPreconditions /\
                     Forall wf_type (rs_Preconditions r);
  wr_execution x : rs_Execution r = Some x -> wf_execution x r;
}.

Record wf_profile (p : Profile) : Prop := {
  wp_revision : pf_Revision p <> "" /\ String.length (pf_Revision p) <= 63;
  wp_count : length (pf_Responses p) <= MaxResponses;
  wp_responses : Forall wf_response (pf_Responses p);
}.

(** A restart response with an execution contract, as the witnesses use it. *)
Definition demo_execution : Execution := {|
  x_Provider := "runner"; x_Approvers := ["alice"];
  x_ExpectedImpact := [Build_CapabilityType "app" "serve" "v1"]; x_MayInterrupt := [];
  x_AckTimeout := 30; x_CompletionTimeout := 100; x_RecoveryWindow := 50; x_ApprovalTTL := 0;
  x_MaxSends := 3; x_MaxAttempts := 2; x_Retryable := true;
|}.

Definition demo_response : Response := {|
  rs_Action := Build_ActionRef "restart" "1"; rs_Target := Build_TargetRef "ns" "db" "";
  rs_For := Build_CapabilityType "app" "serve" "v1"; rs_States := []; rs_Owner := "team";
  rs_RequiresApproval := false; rs_Risks := []; rs_Preconditions := [];
  rs_Execution := Some demo_execution;
|}.

Definition demo_profile : Profile := Build_Profile "p1" [demo_response].

(** * Lemmas *)
Section validate_spec.
Context `{GoText}.

Lemma first_err_None es : first_err es = None <-> Forall (fun e => e = None) es.
Proof.
  induction es as [|[e|] es IH]; simpl; [done| |].
  - rewrite Forall_cons. split; [done|by intros [? _]].
  - rewrite Forall_cons, IH. tauto.
Qed.

Lemma check_None b msg : check b msg = None <-> b = false.
Proof. by destruct b. Qed.

Lemma wrap_None p e : wrap p e = None <-> e = None.
Proof. by destruct e. Qed.

Lemma Forall_imap_None {A} (f : nat -> A -> option string) (P : A -> Prop) l :
  (forall i a, f i a = None <-> P a) -> Forall (fun e => e = None) (imap f l) <-> Forall P l.
Proof.
  revert f. induction l as [|a l IH]; intros f Hf; [done|].
  rewrite imap_cons, !Forall_cons, Hf, (IH (f ∘ S)); [done|]. intros i b. apply Hf.
Qed.

Lemma Forall_map_None {A} (f : A -> option string) (P : A -> Prop) l :
  (forall a, f a = None <-> P a) -> Forall (fun e => e = None) (f <$> l) <-> Forall P l.
Proof. intros Hf. rewrite Forall_fmap. apply Forall_iff. intros a. apply Hf. Qed.

Lemma checkType_None c : checkType c = None <-> wf_type c.
Proof.
  unfold checkType, wf_type. rewrite first_err_None, !fmap_cons, !Forall_cons. unfold checkField.
  rewrite !check_None, !orb_false_iff, !Nat.ltb_ge. simpl.
  split; [intros ([? ?] & [? ?] & [? ?] & _)|intros ([? ?] & [? ?] & [? ?])]; by split_and!.
Qed.

Lemma check_duration_None f : check_duration f = None <-> (0 < f.2 <= maxExecDuration)%Z.
Proof. unfold check_duration. rewrite check_None, orb_false_iff, Z.leb_gt, Z.ltb_ge. done. Qed.

Lemma head_None {A} (l : list A) : head l = None <-> l = [].
Proof. by destruct l. Qed.

Lemma approver_loop l seen :
  (collect approver_step seen l).1 = [] <->
  Forall (fun a => a <> "" /\ String.length a <= maxOwner) l /\ NoDup l /\
  forall a, a ∈ l -> default false (seen !! a) = false.
Proof.
  revert seen. induction l as [|a l IH]; intros seen; cbn [collect].
  { split; [|done]. intros _. split_and!; [constructor|constructor|by intros a ?%elem_of_nil]. }
  rewrite Forall_cons, NoDup_cons. unfold approver_step at 1.
  destruct (negb (nonempty a) || (maxOwner <? String.length a) || default false (seen !! a)) eqn:Eb.
  - destruct (collect approver_step seen l). simpl. split; [done|].
    intros ([[Hne Hl] _] & _ & Hs). specialize (Hs a ltac:(left)).
    rewrite Hs, orb_false_r in Eb. apply Nat.ltb_ge in Hl. rewrite Hl, orb_false_r in Eb.
    by rewrite (proj2 (nonempty_true a) Hne) in Eb.
  - specialize (IH (<[a := true]> seen)). destruct (collect approver_step _ l) as [es m]. simpl in *.
    rewrite IH. rewrite !orb_false_iff, negb_false_iff, nonempty_true, Nat.ltb_ge in Eb.
    destruct Eb as [[Hne Hl] Hs]. split.
    + intros (Hf & Hnd & Hn). split_and!; try done.
      * intros Ha. specialize (Hn a Ha). by rewrite lookup_insert_eq in Hn.
      * intros x [->|Hx]%elem_of_cons; [done|]. specialize (Hn x Hx).
        rewrite lookup_insert in Hn. by case_decide.
    + intros (Hf & [Ha Hnd] & Hn). split_and!; [by destruct Hf|done|].
      intros x Hx. rewrite lookup_insert_ne; [apply Hn; by right|]. by intros ->.
Qed.

Lemma forIncluded_true e r : forIncluded e r = true <-> rs_For r ∈ x_ExpectedImpact e.
Proof.
  unfold forIncluded. rewrite existsb_exists. setoid_rewrite <- list_elem_of_In.
  setoid_rewrite bool_decide_eq_true. split; [by intros (x & Hx & <-)|eauto].
Qed.

Lemma negb_bool_decide_false' (P : Prop) `{Decision P} : negb (bool_decide P) = false <-> P.
Proof. by rewrite negb_false_iff, bool_decide_eq_true. Qed.

Lemma Forall_nil_iff {A} (P : A -> Prop) : Forall P [] <-> True.
Proof. by split. Qed.

Lemma Execution_validate_None e r : Execution_validate e r = None <-> wf_execution e r.
Proof.
  unfold Execution_validate.
  rewrite first_err_None, !Forall_app, (Forall_imap_None _ wf_type),
    (Forall_map_None _ (fun f => 0 < f.2 <= maxExecDuration)%Z), !Forall_cons, !Forall_nil_iff, !check_None,
    head_None, approver_loop, !orb_false_iff, andb_false_iff, !negb_false_iff, forIncluded_true,
    bool_decide_eq_false, !Z.ltb_ge, !Nat.ltb_ge, Nat.le_0_r, length_zero_iff_nil.
  2:{ intros f. apply check_duration_None. }
  2:{ intros i c. rewrite wrap_None. apply checkType_None. }
  cbn [snd]. split.
  - intros (((? & ?) & ? & (? & ?) & ? & (? & ?) & (? & ?) & Hh & _) & (? & ? & ? & _) &
            ((? & ?) & (? & ? & _) & _) & ? & ? & _).
    split; try done.
    + intros Hne. destruct Hh as [Hh|Hh]; [by apply length_zero_iff_nil in Hh|].
      intros Hx. by rewrite Hx in Hh.
    + by rewrite !Forall_cons, Forall_nil_iff.
  - intros [? (? & ? & ?) Hh (? & Hin) ? ? ? ? Ht ?].
    rewrite !Forall_cons in Ht. destruct Ht as (? & ? & ? & _). split_and!; try done; try tauto.
    + intros Hx. rewrite Hx in Hin. nil_elem.
    + destruct (HumanDecisionReasons r); [by left|right]. apply bool_decide_eq_false.
      rewrite length_zero_iff_nil. by apply Hh.
Qed.

Lemma Response_validate_None r : Response_validate r = None <-> wf_response r.
Proof.
  unfold Response_validate.
  rewrite first_err_None, !Forall_app, (Forall_map_None _ (fun s => s ∈ states) (rs_States r)),
    (Forall_map_None _ (fun k => k ∈ risks) (rs_Risks r)), (Forall_imap_None _ wf_type), !Forall_cons, !Forall_nil_iff,
    !check_None, wrap_None, checkType_None, !orb_false_iff, !negb_false_iff, !nonempty_true, !Nat.ltb_ge.
  2:{ intros i c. rewrite wrap_None. apply checkType_None. }
  2:{ intros k. by rewrite check_None, negb_bool_decide_false'. }
  2:{ intros k. by rewrite check_None, negb_bool_decide_false'. }
  split.
  - intros (((? & ?) & (? & ?) & (? & ?) & ? & ? & ? & ? & ? & _) & ? & ? & ? & He & _). split; try done.
    intros x Hx. rewrite Hx in He. by apply Execution_validate_None, (wrap_None "execution").
  - intros [? ? ? ? ? ? (? & ?) ? (? & ?) He]. split_and!; try done; try tauto.
    destruct (rs_Execution r) as [x|]; [|done]. by apply wrap_None, Execution_validate_None, He.
Qed.

Lemma Profile_Validate_None p : Profile_Validate p = None <-> wf_profile p.
Proof.
  unfold Profile_Validate.
  rewrite first_err_None, Forall_app, (Forall_imap_None _ wf_response), !Forall_cons, Forall_nil_iff,
    !check_None, !orb_false_iff, negb_false_iff, nonempty_true, !Nat.ltb_ge.
  2:{ intros i r. rewrite wrap_None. apply Response_validate_None. }
  split; [intros ((? & ? & _) & ?); by split|intros []; tauto].
Qed.

(** [Validate] accepts a profile exactly when it is within its declared
    bounds and vocabularies: revision, number of responses, and for each
    response and execution contract every name, count, duration, approver and
    capability type; a response that needs a person names an approver, and its
    expected impact includes the capability it is for. *)
Theorem Profile_Validate_spec p : Profile_Validate p = None <-> wf_profile p.
Proof. apply Profile_Validate_None. Qed.

(** A profile is loaded exactly when its file is read, decodes, and is within
    the bounds. *)
Lemma LoadProfile_inr read decode path p :
  LoadProfile read decode path = inr p <-> exists b, read path = inr b /\ decode b = inr p /\ wf_profile p.
Proof.
  unfold LoadProfile, ParseProfile. destruct (read path) as [err|b]; [split; [done|by intros (? & ? & _)]|].
  destruct (decode b) as [err|q] eqn:Ed; [split; [done|intros (b' & [= <-] & Hq & _); congruence]|].
  destruct (Profile_Validate q) as [err|] eqn:Ev.
  - split; [done|]. intros (b' & [= <-] & Hq & Hw). apply Profile_Validate_None in Hw. congruence.
  - apply Profile_Validate_None in Ev. split; [intros [= <-]; by exists b|]. intros (b' & [= <-] & Hq & _). congruence.
Qed.

(** Under a valid profile the budgets the engine runs on are bounded: 1 to
    5 sends per attempt, 1 to 3 attempts, an approval age and three timeouts
    within 24 hours; so the resend interval never divides by zero and never
    exceeds the acknowledgement timeout. *)
Theorem Profile_budgets p r x :
  Profile_Validate p = None -> r ∈ pf_Responses p -> rs_Execution r = Some x ->
  (1 <= SendBudget x <= 5)%Z /\ (1 <= AttemptBudget x <= 3)%Z /\
  (0 < ApprovalAge x <= maxExecDuration)%Z /\
  Forall (fun d => 0 < d <= maxExecDuration)%Z [x_AckTimeout x; x_CompletionTimeout x; x_RecoveryWindow x] /\
  (0 <= Z.quot (x_AckTimeout x) (SendBudget x) <= x_AckTimeout x)%Z.
Proof.
  intros Hp Hr Hx. apply Profile_Validate_None in Hp. pose proof (wp_responses _ Hp) as Hall.
  rewrite Forall_forall in Hall. pose proof (wr_execution _ (Hall r Hr) x Hx) as Hw.
  pose proof (wx_sends _ _ Hw) as Hs. pose proof (wx_attempts _ _ Hw) as Ha.
  pose proof (wx_ttl _ _ Hw) as Ht. pose proof (wx_timeouts _ _ Hw) as Hd.
  unfold maxExecSends, maxExecAttempts in *.
  assert (1 <= SendBudget x <= 5)%Z as Hb.
  { unfold SendBudget, DefaultMaxSends. destruct (Z.eqb_spec (x_MaxSends x) 0); lia. }
  split_and!; try lia; try done.
  - unfold AttemptBudget, DefaultMaxAttempts. destruct (Z.eqb_spec (x_MaxAttempts x) 0); lia.
  - unfold AttemptBudget, DefaultMaxAttempts. destruct (Z.eqb_spec (x_MaxAttempts x) 0); lia.
  - unfold ApprovalAge, DefaultApprovalTTL, Hour. destruct (Z.eqb_spec (x_ApprovalTTL x) 0); lia.
  - unfold ApprovalAge, DefaultApprovalTTL. destruct (Z.eqb_spec (x_ApprovalTTL x) 0); [done|lia].
  - rewrite !Forall_cons in Hd. apply Z.quot_pos; lia.
  - rewrite !Forall_cons in Hd. apply Z.quot_le_upper_bound; [lia|]. nia.
Qed.
End validate_spec.

Lemma Profile_budgets_witness :
  Profile_Validate demo_profile = None /\ (1 <= SendBudget demo_execution <= 5)%Z.
Proof.
  split; [vm_compute; reflexivity|].
  apply (Profile_budgets demo_profile demo_response demo_execution);
    [vm_compute; reflexivity|left|reflexivity].
Defined.
