(* ===== verification/ActionTypes.v ===== *)
(** * Actions: data (pkg/action: types.go, approval.go, provider.go)

    Phases, recoveries, bindings, decisions, execution records, views, and the
    messages exchanged with an ActionProvider.  [Record] in Go is
    [AttemptRecord] here, Record being a keyword. *)

From S2P Require Import Prelude Identity Assessment Profile.

(** ** Unsigned 64-bit counters *)
Definition u64_max : N := 18446744073709551615.
Definition u64_succ (n : N) : N := if N.eqb n u64_max then 0%N else N.succ n.

(** ** types.go *)

(** Only BORI itself writes phases and recoveries. *)
Inductive Phase :=
  | PhaseBlocked | PhaseAwaitingApproval | PhaseRejected
  | PhaseDispatching | PhaseAccepted | PhaseSucceeded | PhaseFailed | PhaseTimedOut | PhaseWithdrawn.

Inductive Recovery :=
  | RecoveryNone | RecoveryPending | RecoveryRecovered | RecoveryPartial
  | RecoveryNotRecovered | RecoveryUnconfirmed | RecoveryInapplicable.

#[export] Instance Phase_eq_dec : EqDecision Phase.
Proof. solve_decision. Defined.
#[export] Instance Recovery_eq_dec : EqDecision Recovery.
Proof. solve_decision. Defined.

Definition inFlight (p : Phase) : bool :=
  match p with PhaseDispatching | PhaseAccepted => true | _ => false end.

Definition occupies (p : Phase) : bool :=
  match p with
  | PhaseDispatching | PhaseAccepted | PhaseTimedOut | PhaseWithdrawn => true
  | _ => false
  end.

Definition final (r : Recovery) : bool :=
  match r with RecoveryNone | RecoveryPending => false | _ => true end.

Definition ReasonOwnerUndeclared : string := "owner-undeclared".
Definition ReasonProviderUnregistered : string := "provider-unregistered".
Definition ReasonAuthorityInsufficient : string := "authority-insufficient".
Definition ReasonPreconditionUnproven : string := "precondition-unproven".
Definition ReasonPreconditionUnmet : string := "precondition-unmet".
Definition ReasonJournalNotDurable : string := "journal-not-durable".
Definition ReasonTargetBusy : string := "target-busy".
Definition ReasonAttemptsExhausted : string := "attempts-exhausted".
Definition ReasonExecutedNotRecovered : string := "executed-not-recovered".
Definition ReasonOutcomeUnknown : string := "outcome-unknown".
Definition ReasonIdentityChanged : string := "identity-changed".
Definition ReasonJournalWriteFailed : string := "journal-write-failed".
Definition ReasonNoApprover : string := "no-approver".
Definition ReasonNoPriorityAuthority : string := "no-priority-authority".
Definition ReasonOwnerConflict : string := "owner-conflict".
Definition ReasonApprovalUnverified : string := "approval-unverified".
Definition ReasonApproverNotAllowed : string := "approver-not-allowed".
Definition ReasonApprovalDigestMismatch : string := "approval-digest-mismatch".
Definition ReasonApprovalExpired : string := "approval-expired".
Definition ReasonApprovalFuture : string := "approval-future".

(** action.Reason *)
Record ActionReason := { re_Code : string; re_Subject : string }.
Definition reason (code : string) : ActionReason := Build_ActionReason code "".

Record Binding := {
  b_Target : TargetIdentity;
  b_ResolvedUID : string;
  b_Contract : ContractIdentity;
  b_Providers : list string;
  b_Dependencies : list string;
}.

#[export] Instance Binding_eq_dec : EqDecision Binding.
Proof. solve_decision. Defined.

(** The loop comparing two slices of equal length position by position. *)
Fixpoint same_elements (xs ys : list string) : bool :=
  match xs, ys with
  | x :: xs, y :: ys => bool_decide (x = y) && same_elements xs ys
  | _, _ => true
  end.

Definition Binding_equal (b o : Binding) : bool :=
  if negb (bool_decide (b_Target b = b_Target o)) || negb (bool_decide (b_ResolvedUID b = b_ResolvedUID o)) ||
     negb (bool_decide (b_Contract b = b_Contract o)) ||
     negb (bool_decide (length (b_Providers b) = length (b_Providers o))) ||
     negb (bool_decide (length (b_Dependencies b) = length (b_Dependencies o)))
  then false
  else same_elements (b_Providers b) (b_Providers o) && same_elements (b_Dependencies b) (b_Dependencies o).

(** Kind is "human" or "policy". *)
Record Approval := { ap_Kind : string; ap_Principal : string; ap_DecisionID : string }.
Definition KindHuman : string := "human".
Definition KindPolicy : string := "policy".

#[export] Instance Approval_eq_dec : EqDecision Approval.
Proof. solve_decision. Defined.

Record CapRecovery := { cv_Type : CapabilityType; cv_State : CapabilityState }.

#[export] Instance CapRecovery_eq_dec : EqDecision CapRecovery.
Proof. solve_decision. Defined.

(** ** approval.go *)
Definition Approve : string := "Approve".
Definition Reject : string := "Reject".

Record Decision_ := {
  d_ID : string;
  d_ProposalID : string;
  d_Digest : string;
  d_Principal : string;
  d_Verdict : string;
  d_DecidedAt : Time;
  d_Proof : string;
}.

#[export] Instance Decision_eq_dec : EqDecision Decision_.
Proof. solve_decision. Defined.

Definition zero_Decision : Decision_ := Build_Decision_ "" "" "" "" "" 0 "".

(** [same]: equality of every field. *)
Definition same (d o : Decision_) : bool :=
  bool_decide (d_ID d = d_ID o) && bool_decide (d_ProposalID d = d_ProposalID o) &&
  bool_decide (d_Digest d = d_Digest o) && bool_decide (d_Principal d = d_Principal o) &&
  bool_decide (d_Verdict d = d_Verdict o) && Z.eqb (d_DecidedAt d) (d_DecidedAt o) &&
  bool_decide (d_Proof d = d_Proof o).

(** ** Record *)
Record AttemptRecord := {
  Key : string;
  ProposalID : string;
  RSubject : string;
  TargetUID : string;
  Digest : string;
  Attempt : Z;
  RPhase : Phase;
  Fence : N;
  SentFence : N;
  Sends : Z;
  RApproval : Approval;
  RDecision : Decision_;
  Refused : bool;
  RBinding : Binding;
  RAction : ActionRef;
  RProvider : string;
  ROwner : string;
  For : CapabilityType;
  Expected : list CapabilityType;
  RExecution : Execution;
  CreatedAt : Time;
  LastSentAt : Time;
  AckedAt : Time;
  CompletedAt : Time;
  EndedAt : Time;
  ProviderRef : string;
  AckTimeout : Duration;
  CompletionTimeout : Duration;
  RecoveryWindow : Duration;
  Retryable : bool;
  MaxAttempts : Z;
  MaxSends : Z;
  RRecovery : Recovery;
  RecoveryDetail : list CapRecovery;
  Version : N;
}.

#[export] Instance AttemptRecord_eq_dec : EqDecision AttemptRecord.
Proof. solve_decision. Defined.

Record View := {
  vw_ProposalID : string;
  vw_Digest : string;
  vw_Action : ActionRef;
  vw_For : CapabilityType;
  vw_Phase : Phase;
  vw_Attempt : Z;
  vw_Reasons : list ActionReason;
  vw_Recovery : Recovery;
  vw_Detail : list CapRecovery;
}.

(** ** provider.go *)
Record Handoff := {
  h_Key : string;
  h_Fence : N;
  h_ProposalID : string;
  h_Digest : string;
  h_Action : ActionRef;
  h_Owner : string;
  h_Target : TargetIdentity;
  h_ResolvedUID : string;
  h_Contract : ContractIdentity;
  h_For : CapabilityType;
  h_ExpectedImpact : list CapabilityType;
  h_Approval : Approval;
}.

Record Receipt := {
  rc_Key : string;
  rc_Fence : N;
  rc_Digest : string;
  rc_Accepted : bool;
  rc_Ref : string;
}.

(** A provider may answer any string; only these mean something. *)
Definition ResultUnknown : string := "Unknown".
Definition ResultPending : string := "Pending".
Definition ResultSucceeded : string := "Succeeded".
Definition ResultFailed : string := "Failed".
Definition ResultRefused : string := "Refused".

Record Result := {
  rt_Key : string;
  rt_Fence : N;
  rt_Digest : string;
  rt_State : string;
  rt_Ref : string;
}.

(** The registration of a provider; the provider itself is the oracle of
    Engine.v, addressed by its name. *)
Record Registration := {
  rg_Owner : string;
  rg_Namespaces : list string;
  rg_Actions : list string;
}.

Definition contains (xs : list string) (s : string) : bool := existsb (fun x => bool_decide (x = s)) xs.

Definition authorises (r : Registration) (owner namespace : string) (a : ActionRef) : bool :=
  if negb (nonempty (rg_Owner r)) || negb (bool_decide (rg_Owner r = owner)) then false
  else contains (rg_Namespaces r) namespace && contains (rg_Actions r) (ActionRef_String a).

(** * Lemmas *)
Lemma same_spec d o : same d o = true <-> d = o.
Proof.
  unfold same. rewrite !andb_true_iff, !bool_decide_eq_true, Z.eqb_eq. destruct d, o; simpl.
  split; [intros ((((((-> & ->) & ->) & ->) & ->) & ->) & ->); done|]. by intros [= -> -> -> -> -> -> ->].
Qed.

Lemma same_elements_eq xs ys : length xs = length ys -> same_elements xs ys = true <-> xs = ys.
Proof.
  revert ys. induction xs as [|x xs IH]; intros [|y ys]; simpl; try done. intros [= Hl].
  rewrite andb_true_iff, bool_decide_eq_true, IH by done. split; [by intros [-> ->]|by intros [= -> ->]].
Qed.

Lemma contains_true xs s : contains xs s = true <-> s ∈ xs.
Proof.
  unfold contains. rewrite existsb_exists. setoid_rewrite <- list_elem_of_In.
  setoid_rewrite bool_decide_eq_true. split; [by intros (x & Hx & ->)|eauto].
Qed.

(** [Binding.equal] is equality of bindings. *)
Lemma Binding_equal_eq b o : Binding_equal b o = true <-> b = o.
Proof.
  unfold Binding_equal.
  destruct (_ || _) eqn:E.
  - split; [done|]. intros ->. by rewrite !bool_decide_true in E.
  - rewrite !orb_false_iff, !negb_false_iff, !bool_decide_eq_true in E.
    destruct E as ((((? & ?) & ?) & Hp) & Hd). rewrite andb_true_iff, !same_elements_eq by done.
    destruct b, o; simpl in *. split; [by intros [-> ->]; subst|by intros [= -> -> -> -> ->]].
Qed.
