(* ===== verification/Journal.v ===== *)
(** * The execution journal (pkg/action/journal.go)

    The interface [Journal], the contract its documentation states
    ([JournalLaws]), and the in-memory journal, which satisfies it.

    A store may fail: [Epoch], [List] and [Put] return an error then.  Records
    are values here, so the deep copies of [clone] are the identity. *)

From S2P Require Import Prelude Identity Assessment Profile ActionTypes.

Inductive put_error := ErrConflict | ErrFenced | ErrStore.

Class Journal (J : Type) := {
  Durable : J -> bool;
  Epoch : J -> option N * J;
  List_ : J -> option (list AttemptRecord) * J;
  Put : AttemptRecord -> J -> (put_error + AttemptRecord) * J;
}.

Definition set_Version (v : N) (r : AttemptRecord) : AttemptRecord :=
  {| Key := Key r; ProposalID := ProposalID r; RSubject := RSubject r; TargetUID := TargetUID r;
     Digest := Digest r; Attempt := Attempt r; RPhase := RPhase r; Fence := Fence r;
     SentFence := SentFence r; Sends := Sends r; RApproval := RApproval r; RDecision := RDecision r;
     Refused := Refused r; RBinding := RBinding r; RAction := RAction r; RProvider := RProvider r;
     ROwner := ROwner r; For := For r; Expected := Expected r; RExecution := RExecution r;
     CreatedAt := CreatedAt r; LastSentAt := LastSentAt r; AckedAt := AckedAt r;
     CompletedAt := CompletedAt r; EndedAt := EndedAt r; ProviderRef := ProviderRef r;
     AckTimeout := AckTimeout r; CompletionTimeout := CompletionTimeout r;
     RecoveryWindow := RecoveryWindow r; Retryable := Retryable r; MaxAttempts := MaxAttempts r;
     MaxSends := MaxSends r; RRecovery := RRecovery r; RecoveryDetail := RecoveryDetail r; Version := v |}.

Definition bump (r : AttemptRecord) : AttemptRecord := set_Version (u64_succ (Version r)) r.

(** The compare-and-swap condition: a new record has version 0, a stored one
    is replaced only from its own version. *)
Definition swaps (stored : option AttemptRecord) (r : AttemptRecord) : bool :=
  match stored with
  | None => bool_decide (Version r = 0%N)
  | Some c => bool_decide (Version c = Version r)
  end.

(** ** What the interface promises: [newest] is the newest epoch issued,
    [contents] what is stored.  A call that fails changes nothing. *)
Class JournalLaws (J : Type) `{Journal J} := {
  journal_ok : J -> Prop;
  newest : J -> N;
  contents : J -> gmap string AttemptRecord;
  key_law : forall j k r, journal_ok j -> contents j !! k = Some r -> Key r = k;
  epoch_law : forall j ep j', journal_ok j -> Epoch j = (Some ep, j') ->
    journal_ok j' /\ contents j' = contents j /\ newest j' = ep /\
    ((newest j < u64_max)%N -> (newest j < ep)%N);
  epoch_error_law : forall j j', journal_ok j -> Epoch j = (None, j') ->
    journal_ok j' /\ contents j' = contents j /\ newest j' = newest j;
  list_law : forall j l j', journal_ok j -> List_ j = (Some l, j') ->
    journal_ok j' /\ contents j' = contents j /\ newest j' = newest j /\
    NoDup (Key <$> l) /\ list_to_map ((fun r => (Key r, r)) <$> l) = contents j;
  list_error_law : forall j j', journal_ok j -> List_ j = (None, j') ->
    journal_ok j' /\ contents j' = contents j /\ newest j' = newest j;
  put_law : forall r j r' j', journal_ok j -> Put r j = (inr r', j') ->
    journal_ok j' /\ r' = bump r /\ (newest j <= Fence r)%N /\ swaps (contents j !! Key r) r = true /\
    contents j' = <[Key r := r']> (contents j) /\ newest j' = newest j;
  put_error_law : forall r j e j', journal_ok j -> Put r j = (inl e, j') ->
    journal_ok j' /\ contents j' = contents j /\ newest j' = newest j;
}.

(** ** MemJournal *)
Record MemJournal := {
  mj_durable : bool;
  mj_epoch : N;
  mj_recs : gmap string AttemptRecord;
}.

Definition NewMemJournal : MemJournal := Build_MemJournal false 0 ∅.
Definition NewSimulatedDurableJournal : MemJournal := Build_MemJournal true 0 ∅.

Definition mem_Epoch (j : MemJournal) : N * MemJournal :=
  let e := u64_succ (mj_epoch j) in (e, Build_MemJournal (mj_durable j) e (mj_recs j)).

Definition mem_List `{SortSlice} (j : MemJournal) : list AttemptRecord :=
  sort_slice (fun a b => String.ltb (Key a) (Key b)) (snd <$> map_to_list (mj_recs j)).

Definition mem_Put (r : AttemptRecord) (j : MemJournal) : (put_error + AttemptRecord) * MemJournal :=
  if N.ltb (Fence r) (mj_epoch j) then (inl ErrFenced, j)
  else if negb (swaps (mj_recs j !! Key r) r) then (inl ErrConflict, j)
  else let r := bump r in
       (inr r, Build_MemJournal (mj_durable j) (mj_epoch j) (<[Key r := r]> (mj_recs j))).

#[export] Instance mem_journal `{SortSlice} : Journal MemJournal := {|
  Durable := mj_durable;
  Epoch j := let '(e, j) := mem_Epoch j in (Some e, j);
  List_ j := (Some (mem_List j), j);
  Put := mem_Put;
|}.

(** Every record is stored under its key. *)
Definition mem_ok (j : MemJournal) : Prop := forall k r, mj_recs j !! k = Some r -> Key r = k.

(** Sequences of writing calls. *)
Inductive mem_op := CallEpoch | CallPut (r : AttemptRecord).

Definition mem_step (j : MemJournal) (op : mem_op) : MemJournal :=
  match op with CallEpoch => (mem_Epoch j).2 | CallPut r => (mem_Put r j).2 end.

Definition mem_run (j : MemJournal) (ops : list mem_op) : MemJournal := foldl mem_step j ops.

(** * Lemmas *)
Lemma mem_Put_ok r j r' j' :
  mem_ok j -> mem_Put r j = (inr r', j') ->
  mem_ok j' /\ r' = bump r /\ (mj_epoch j <= Fence r)%N /\ swaps (mj_recs j !! Key r) r = true /\
  mj_recs j' = <[Key r := r']> (mj_recs j) /\ mj_epoch j' = mj_epoch j.
Proof.
  intros Hok. unfold mem_Put. destruct (N.ltb_spec (Fence r) (mj_epoch j)); [done|].
  destruct (swaps _ _) eqn:Es; [|done]. simpl. intros [= <- <-]. split_and!; try done.
  intros k x. simpl. rewrite lookup_insert. case_decide; [|apply Hok]. intros [= <-]. by subst.
Qed.

Lemma mem_List_keys `{SortSlice} j : mem_ok j -> NoDup (Key <$> mem_List j).
Proof.
  intros Hok. unfold mem_List. rewrite sort_slice_perm, <- list_fmap_compose.
  assert ((fun kr : string * AttemptRecord => Key kr.2) <$> map_to_list (mj_recs j) =
          fst <$> map_to_list (mj_recs j)) as Hk.
  { apply list_fmap_ext. intros i [k x] Hi. simpl. apply Hok, elem_of_map_to_list.
    by eapply list_elem_of_lookup_2. }
  change (NoDup ((fun kr : string * AttemptRecord => Key kr.2) <$> map_to_list (mj_recs j))).
  rewrite Hk. apply NoDup_fst_map_to_list.
Qed.

#[export] Instance mem_laws `{SortSlice} : JournalLaws MemJournal.
Proof.
  refine {| journal_ok := mem_ok; newest := mj_epoch; contents := mj_recs |}.
  - auto.
  - intros j ep j' Hok [= <- <-]. split_and!; try done. unfold u64_succ. simpl. intros Hlt.
    destruct (N.eqb_spec (mj_epoch j) u64_max); lia.
  - intros j j' _ [=].
  - intros j l j' Hok [= <- <-]. split_and!; try done.
    { apply mem_List_keys, Hok. }
    apply map_eq. intros k. apply option_eq. intros rec.
    rewrite <- elem_of_list_to_map.
    + rewrite list_elem_of_fmap. unfold mem_List. setoid_rewrite elem_of_sort_slice. split.
      * intros (r' & [= -> <-] & ([k' r''] & -> & Hin)%list_elem_of_fmap).
        apply elem_of_map_to_list in Hin. simpl. by rewrite (Hok _ _ Hin).
      * intros Hr. exists rec. rewrite (Hok _ _ Hr). split; [done|].
        apply list_elem_of_fmap. exists (k, rec). split; [done|]. by apply elem_of_map_to_list.
    + rewrite <- list_fmap_compose. apply mem_List_keys, Hok.
  - intros j j' _ [=].
  - intros r j r' j' Hok. apply mem_Put_ok, Hok.
  - intros r j e j' Hok. simpl. unfold mem_Put.
    destruct (N.ltb (Fence r) (mj_epoch j)); [by intros [= _ <-]|].
    destruct (swaps _ _); [done|]. by intros [= _ <-].
Defined.

Section sequences.
Local Open Scope N_scope.

Lemma mem_step_epoch op j :
  mj_epoch j + 1 <= u64_max -> mj_epoch j <= mj_epoch (mem_step j op) <= mj_epoch j + 1.
Proof.
  intros Hj. destruct op as [|r]; simpl.
  - unfold u64_succ. destruct (N.eqb_spec (mj_epoch j) u64_max); lia.
  - unfold mem_Put. destruct (N.ltb (Fence r) (mj_epoch j)); [simpl; lia|].
    destruct (negb _); simpl; lia.
Qed.

Lemma mem_run_epoch ops j :
  mj_epoch j + N.of_nat (length ops) <= u64_max -> mj_epoch j <= mj_epoch (mem_run j ops).
Proof.
  unfold mem_run. revert j. induction ops as [|op ops IH]; intros j Hj; simpl in *; [lia|].
  pose proof (mem_step_epoch op j). etrans; [|apply IH]; lia.
Qed.

(** The version stored under a key never decreases. *)
Definition version_at (k : string) (j : MemJournal) : N :=
  match mj_recs j !! k with Some r => Version r | None => 0 end.

Lemma mem_step_version op k j :
  version_at k j + 1 <= u64_max -> version_at k j <= version_at k (mem_step j op) <= version_at k j + 1.
Proof.
  intros Hv. destruct op as [|r]; simpl; [unfold version_at in *; simpl; lia|].
  unfold mem_Put. destruct (N.ltb (Fence r) (mj_epoch j)); [simpl; lia|].
  destruct (swaps _ _) eqn:Es; [|simpl; lia]. unfold version_at in *. simpl.
  rewrite lookup_insert. case_decide as Hk; [|lia]. subst k. simpl. unfold swaps in Es. unfold u64_succ.
  destruct (mj_recs j !! Key r) as [c|]; apply bool_decide_eq_true in Es;
    destruct (N.eqb_spec (Version r) u64_max); unfold u64_max in *; lia.
Qed.

Lemma mem_run_version ops k j :
  version_at k j + N.of_nat (length ops) <= u64_max -> version_at k j <= version_at k (mem_run j ops).
Proof.
  unfold mem_run. revert j. induction ops as [|op ops IH]; intros j Hj; simpl in *; [lia|].
  pose proof (mem_step_version op k j). etrans; [|apply IH]; lia.
Qed.

(** The in-memory journal excludes superseded writers, whatever sequence
    of calls comes in between (as long as no 64-bit counter is exhausted):
    after [Epoch] has returned [ep], every [Put] of a record with a lower
    fence is refused as fenced; and after a record has been stored, every
    further [Put] of the version it replaced is refused.  A refusal leaves the
    journal unchanged. *)
Theorem MemJournal_excludes j :
  (forall ops r ep j1, mem_Epoch j = (ep, j1) -> mj_epoch j + 1 + N.of_nat (length ops) <= u64_max ->
     Fence r < ep -> mem_Put r (mem_run j1 ops) = (inl ErrFenced, mem_run j1 ops)) /\
  (forall ops r r' j1 r2, mem_Put r j = (inr r', j1) ->
     Version r + 1 + N.of_nat (length ops) <= u64_max -> Key r2 = Key r -> Version r2 = Version r ->
     exists e, mem_Put r2 (mem_run j1 ops) = (inl e, mem_run j1 ops)).
Proof.
  split.
  - intros ops r ep j1 [= <- <-] Hb Hr. unfold u64_succ in *.
    destruct (N.eqb_spec (mj_epoch j) u64_max); [lia|].
    pose proof (mem_run_epoch ops (Build_MemJournal (mj_durable j) (N.succ (mj_epoch j)) (mj_recs j))) as Hm.
    simpl in *. unfold mem_Put. destruct (N.ltb_spec (Fence r)
      (mj_epoch (mem_run (Build_MemJournal (mj_durable j) (N.succ (mj_epoch j)) (mj_recs j)) ops))); [done|lia].
  - intros ops r r' j1 r2 Hp Hb Hk Hv.
    assert (version_at (Key r) j1 = Version r + 1) as H1.
    { revert Hp. unfold mem_Put. destruct (N.ltb _ _); [done|]. destruct (negb _); [done|].
      intros [= <- <-]. unfold version_at. simpl. rewrite lookup_insert_eq. simpl. unfold u64_succ.
      destruct (N.eqb_spec (Version r) u64_max); lia. }
    pose proof (mem_run_version ops (Key r) j1) as Hm.
    unfold mem_Put. destruct (N.ltb _ _); [by eexists|].
    assert (swaps (mj_recs (mem_run j1 ops) !! Key r2) r2 = false) as ->; [|by eexists].
    unfold version_at in Hm. rewrite Hk. unfold swaps. unfold version_at in H1.
    destruct (mj_recs (mem_run j1 ops) !! Key r); apply bool_decide_eq_false; lia.
Qed.
End sequences.
