(* ===== verification/Proposal.v ===== *)
(** * Proposals (pkg/action/proposal.go)

    [derive] turns an assessment and the declared responses into proposals.
    The Go code identifies things by the SHA-256 digest of their JSON form
    ([digestOf]); the class [Digests] has one function per type it is applied
    to, and nothing is assumed of them but that they are functions. *)

From S2P Require Import Prelude Identity Contract Assessment Profile ActionTypes.

Record proposal_subject := {
  su_Target : TargetIdentity;
  su_ResolvedUID : string;
  su_Contract : ContractIdentity;
  su_Providers : list string;
  su_Dependencies : list string;
  su_Action : ActionRef;
  su_For : CapabilityType;
  su_Profile : string;
  su_Declaration : string;
}.

(** The O4 identity of a declaration. *)
Record response := {
  rp_Action : ActionRef;
  rp_For : CapabilityType;
  rp_Owner : string;
  rp_RequiresApproval : bool;
  rp_Risks : list string;
  rp_Preconditions : list string;
}.

Record basis := {
  ba_ID : string;
  ba_Trigger : CapabilityState;
  ba_TriggerReasons : list string;
  ba_Preconditions : list ActionReason;
  ba_Binding : Binding;
  ba_Human : list string;
  ba_OwnerConflict : bool;
  ba_Owner : string;
  ba_Risks : list string;
  ba_Execution : Execution;
  ba_ProfileRevision : string;
}.

Class Digests := {
  digest_response : response -> string;
  digest_declaration : string * option Execution -> string;
  digest_subject : proposal_subject -> string;
  digest_id : string * nat -> string;
  digest_basis : basis -> string;
  digest_raw : Response -> string;
}.

Record Proposal := {
  p_ID : string;
  p_Digest : string;
  p_Subject : string;
  p_Episode : nat;
  p_Response : Response;
  p_ProfileRevision : string;
  p_Binding : Binding;
  p_For : CapabilityType;
  p_Expected : list CapabilityType;
  p_Trigger : CapabilityState;
  p_TriggerReasons : list string;
  p_Preconditions : list ActionReason;
  p_Human : list string;
  p_OwnerConflict : bool;
}.

Definition zero_Execution : Execution := Build_Execution "" [] [] [] 0 0 0 0 0 0 false.
Definition the_execution (r : Response) : Execution := default zero_Execution (rs_Execution r).

Section proposal.
Context `{SortSlice} `{Digests}.

Definition sortedCopy (xs : list string) : list string := sort_strings xs.

Definition responseKey (r : Response) : string :=
  digest_response {|
    rp_Action := rs_Action r; rp_For := rs_For r; rp_Owner := rs_Owner r;
    rp_RequiresApproval := rs_RequiresApproval r; rp_Risks := sortedCopy (rs_Risks r);
    rp_Preconditions := sort_strings (CapabilityType_String <$> rs_Preconditions r);
  |}.

Definition declarationKey (r : Response) : string := digest_declaration (responseKey r, rs_Execution r).

Definition bindingOf (t : Target) : Binding := {|
  b_Target := t_Identity t; b_ResolvedUID := t_ResolvedUID t; b_Contract := t_ContractRef t;
  b_Providers := sort_strings
    ((fun ab => ab_Slot ab +:+ "=" +:+ ProviderIdentity_String (ab_Provider ab)) <$> t_AssertionBindings t);
  b_Dependencies := sort_strings
    ((fun db => db_Slot db +:+ "=" +:+ db_TargetUID db +:+ "/" +:+ ContractIdentity_String (db_Contract db)) <$>
       t_DependencyBindings t);
|}.

Definition targetOf (s : Snapshot) (uid : string) : option Target :=
  List.find (fun t => bool_decide (ti_UID (t_Identity t) = uid)) (Targets s).

Definition capState (ta : TargetAssessment) (c : CapabilityType) : option CapabilityResult :=
  List.find (fun r => bool_decide (cr_Type r = c)) (ta_Capabilities ta).

Definition subjectKey (t : Target) (r : Response) (profile : string) : string :=
  let b := bindingOf t in
  digest_subject {|
    su_Target := t_Identity t; su_ResolvedUID := t_ResolvedUID t; su_Contract := t_ContractRef t;
    su_Providers := b_Providers b; su_Dependencies := b_Dependencies b; su_Action := rs_Action r;
    su_For := rs_For r; su_Profile := profile; su_Declaration := declarationKey r;
  |}.

Definition is_impaired (s : CapabilityState) : bool :=
  match s with Degraded | Unavailable => true | _ => false end.

Definition applicable (ta : TargetAssessment) (r : Response) : bool :=
  forallb (fun pc => match capState ta pc with
                     | Some res => negb (is_impaired (cr_State res))
                     | None => true
                     end) (rs_Preconditions r).

Definition triggers (r : Response) (s : CapabilityState) : bool :=
  if bool_decide (length (rs_States r) = 0) then is_impaired s
  else contains (rs_States r) (CapabilityState_string s).

Definition precondition_code (ta : TargetAssessment) (pc : CapabilityType) : string :=
  match capState ta pc with
  | Some res =>
      match cr_State res with
      | Available => "proven"
      | Degraded | Unavailable => "unmet"
      | Unknown => "unproven"
      end
  | None => "unproven"
  end.

Definition proposalOf (t : Target) (ta : TargetAssessment) (r : Response) (profile : string)
    (c : CapabilityResult) (episodes : string -> nat) (competing ownerConflict : bool) : Proposal :=
  let key := subjectKey t r profile in
  let ep := episodes key in
  let human := HumanDecisionReasons r ++ (if competing then [ReasonNoPriorityAuthority] else []) in
  let id := String.substring 0 32 (digest_id (key, ep)) in
  let trigger_reasons := sort_strings ((fun rs => Code rs +:+ ":" +:+ Subject rs) <$> cr_Reasons c) in
  let preconditions := sort_slice (fun a b => String.ltb (re_Subject a) (re_Subject b))
    ((fun pc => Build_ActionReason (precondition_code ta pc) (CapabilityType_String pc)) <$>
       rs_Preconditions r) in
  {|
    p_ID := id;
    p_Digest := digest_basis {|
      ba_ID := id; ba_Trigger := cr_State c; ba_TriggerReasons := trigger_reasons;
      ba_Preconditions := preconditions; ba_Binding := bindingOf t; ba_Human := human;
      ba_OwnerConflict := ownerConflict; ba_Owner := rs_Owner r; ba_Risks := sortedCopy (rs_Risks r);
      ba_Execution := the_execution r; ba_ProfileRevision := profile;
    |};
    p_Subject := key; p_Episode := ep; p_Response := r; p_ProfileRevision := profile;
    p_Binding := bindingOf t; p_For := cr_Type c; p_Expected := x_ExpectedImpact (the_execution r);
    p_Trigger := cr_State c; p_TriggerReasons := trigger_reasons; p_Preconditions := preconditions;
    p_Human := human; p_OwnerConflict := ownerConflict;
  |}.

(** ** derive *)

(** A response declared for this target, unless its capability is not
    assessed or not in a state it is declared for. *)
Definition for_target (t : Target) (r : Response) : bool :=
  bool_decide (tr_Namespace (rs_Target r) = ti_Namespace (t_Identity t)) &&
  bool_decide (tr_Name (rs_Target r) = ti_Name (t_Identity t)) &&
  (negb (nonempty (tr_UID (rs_Target r))) || bool_decide (tr_UID (rs_Target r) = ti_UID (t_Identity t))).

Definition triggered (t : Target) (ta : TargetAssessment) (r : Response) : bool :=
  for_target t r &&
  match capState ta (rs_For r) with Some c => triggers r (cr_State c) | None => false end.

(** A Go map[K]map[string]bool that only grows, of which only sizes are read. *)
Definition add_to {K} `{Countable K} (k : K) (x : string) (m : gmap K (gset string)) :
    gmap K (gset string) := <[k := {[x]} ∪ default ∅ (m !! k)]> m.
Definition size_at {K} `{Countable K} (m : gmap K (gset string)) (k : K) : nat :=
  size (default ∅ (m !! k)).

Record competition := {
  cm_viable : gmap CapabilityType (gset string);
  cm_contracts : gmap string (gset string);
  cm_owners : gmap string (gset string);
}.

Definition owner_key (r : Response) : string :=
  CapabilityType_String (rs_For r) +:+ "|" +:+ ActionRef_String (rs_Action r).

(** The first loop over the responses. *)
Definition compete (t : Target) (ta : TargetAssessment) (m : competition) (r : Response) : competition :=
  if negb (triggered t ta r) then m
  else
    let owners := add_to (owner_key r) (rs_Owner r) (cm_owners m) in
    if negb (applicable ta r) then Build_competition (cm_viable m) (cm_contracts m) owners
    else
      let rk := responseKey r in
      Build_competition (add_to (rs_For r) rk (cm_viable m))
        (match rs_Execution r with
         | Some _ => add_to rk (declarationKey r) (cm_contracts m)
         | None => cm_contracts m
         end) owners.

(** The second loop: one canonical declaration per declaration key. *)
Definition declare (t : Target) (ta : TargetAssessment) (decls : gmap string Response) (r : Response) :
    gmap string Response :=
  if negb (bool_decide (is_Some (rs_Execution r))) || negb (triggered t ta r) then decls
  else match decls !! declarationKey r with
       | Some cur => if String.ltb (digest_raw r) (digest_raw cur) then <[declarationKey r := r]> decls else decls
       | None => <[declarationKey r := r]> decls
       end.

Definition zero_CapabilityResult : CapabilityResult := Build_CapabilityResult zero_CapabilityType Unknown [].

Definition derive_target (episodes : string -> nat) (s : Snapshot) (p : Profile) (ta : TargetAssessment) :
    list Proposal :=
  if negb (ta_Valid ta) then []
  else match targetOf s (ti_UID (ta_Target ta)) with
  | None => []
  | Some t =>
      let m := foldl (compete t ta) (Build_competition ∅ ∅ ∅) (pf_Responses p) in
      let decls := foldl (declare t ta) ∅ (pf_Responses p) in
      (fun kr =>
         let r := kr.2 in
         proposalOf t ta r (pf_Revision p) (default zero_CapabilityResult (capState ta (rs_For r))) episodes
           ((1 <? size_at (cm_viable m) (rs_For r)) || (1 <? size_at (cm_contracts m) (responseKey r)))
           (1 <? size_at (cm_owners m) (owner_key r))) <$> map_to_list decls
  end.

Definition proposal_uid (p : Proposal) : string := ti_UID (b_Target (p_Binding p)).

Definition proposal_less (a b : Proposal) : bool :=
  if negb (bool_decide (proposal_uid a = proposal_uid b)) then String.ltb (proposal_uid a) (proposal_uid b)
  else String.ltb (p_ID a) (p_ID b).

Definition derive (s : Snapshot) (a : Assessment) (p : option Profile) (episodes : string -> nat) :
    list Proposal :=
  match p with
  | None => []
  | Some p => slice_stable proposal_less (mjoin (derive_target episodes s p <$> a_Targets a))
  end.
End proposal.
