(* ===== verification/Recovery.v ===== *)
(** * RecoveryAssessment (pkg/action/recovery.go) *)

From S2P Require Import Prelude Identity Predicate Contract Assessment Evaluator EvalSpec Profile.
From S2P Require Import ActionTypes Proposal.

Section recovery.
Context `{GoText} `{SortSlice} `{Digests}.

(** The snapshot at [now], restricted to the observations made strictly after
    the execution ended. *)
Definition post_snapshot (s : Snapshot) (ended now : Time) : Snapshot :=
  Build_Snapshot now (Contracts s) (Targets s)
    (List.filter (fun o => After (o_ObservedAt o) ended) (Observations s)).

Definition expected_state (ta : TargetAssessment) (c : CapabilityType) : CapabilityState :=
  match capState ta c with Some res => cr_State res | None => Unknown end.

Definition count_states (f : CapabilityState -> bool) (detail : list CapRecovery) : nat :=
  length (List.filter (fun d => f (cv_State d)) detail).

(** The final switch. *)
Definition judge_recovery (r : AttemptRecord) (now : Time) (detail : list CapRecovery) : Recovery :=
  let recovered := count_states is_available detail in
  let proven := count_states is_impaired detail in
  if bool_decide (recovered = length (Expected r)) then RecoveryRecovered
  else if Before now (Add (EndedAt r) (RecoveryWindow r)) then RecoveryPending
  else if 0 <? recovered then RecoveryPartial
  else if 0 <? proven then RecoveryNotRecovered
  else RecoveryUnconfirmed.

(** [inl] is an error. [Evaluate] never runs out of fuel (Evaluate_total). *)
Definition assessRecovery (r : AttemptRecord) (s : Snapshot) (now : Time) :
    evaluate_error + Recovery * list CapRecovery :=
  match targetOf s (TargetUID r) with
  | None => inr (RecoveryInapplicable, [])
  | Some t =>
      if negb (Binding_equal (bindingOf t) (RBinding r)) then inr (RecoveryInapplicable, [])
      else match default (inl ErrNoEvaluationInstant) (Evaluate (post_snapshot s (EndedAt r) now)) with
      | inl err => inl err
      | inr a =>
          match assessment_target a (TargetUID r) with
          | None => inr (RecoveryInapplicable, [])
          | Some ta =>
              if negb (ta_Valid ta) then inr (RecoveryInapplicable, [])
              else
                let detail := (fun c => Build_CapRecovery c (expected_state ta c)) <$> Expected r in
                inr (judge_recovery r now detail, detail)
          end
      end
  end.

(** * Lemmas *)
Lemma filter_all {A} (f : A -> bool) l : length (List.filter f l) = length l <-> Forall (fun x => f x = true) l.
Proof.
  induction l as [|x l IH]; [done|]. rewrite Forall_cons. simpl.
  assert (length (List.filter f l) <= length l) as Hle by apply filter_length_le.
  destruct (f x); simpl; [|split; [lia|by intros [? _]]].
  rewrite <- IH. split; [intros [=]; split; [done|lia]|intros [_ ->]; done].
Qed.

Lemma judge_recovery_recovered r now ta :
  judge_recovery r now ((fun c => Build_CapRecovery c (expected_state ta c)) <$> Expected r) =
    RecoveryRecovered <->
  Forall (fun c => expected_state ta c = Available) (Expected r).
Proof.
  unfold judge_recovery, count_states.
  set (detail := _ <$> Expected r).
  assert (length detail = length (Expected r)) as Hl by (unfold detail; by rewrite length_fmap).
  assert (Forall (fun d => is_available (cv_State d) = true) detail <->
          Forall (fun c => expected_state ta c = Available) (Expected r)) as Ha.
  { unfold detail. rewrite Forall_fmap. apply Forall_iff. intros c. simpl.
    by destruct (expected_state ta c). }
  rewrite <- Ha, <- filter_all, Hl. case_bool_decide; [done|].
  split; [|done]. by repeat case_match.
Qed.

(** The observations before the end play no part. *)
Lemma post_snapshot_filter s s' ended now :
  Contracts s = Contracts s' -> Targets s = Targets s' ->
  List.filter (fun o => After (o_ObservedAt o) ended) (Observations s) =
  List.filter (fun o => After (o_ObservedAt o) ended) (Observations s') ->
  post_snapshot s ended now = post_snapshot s' ended now.
Proof. unfold post_snapshot. by intros -> -> ->. Qed.

(** C33. An execution is Recovered only on fresh evidence for the unchanged
    identity: exactly when the target still has the record's binding and, in
    the evaluation at [now] of the snapshot without the observations made up
    to the recorded end, the target is valid and every expected capability is
    AVAILABLE.  Earlier observations have no influence on any verdict. *)
Theorem assessRecovery_recovered r s now :
  now <> 0%Z ->
  ((exists detail, assessRecovery r s now = inr (RecoveryRecovered, detail)) <->
   exists t a ta, targetOf s (TargetUID r) = Some t /\ bindingOf t = RBinding r /\
     Evaluate (post_snapshot s (EndedAt r) now) = Some (inr a) /\
     assessment_target a (TargetUID r) = Some ta /\ ta_Valid ta = true /\
     forall c, c ∈ Expected r -> expected_state ta c = Available) /\
  (forall s', Contracts s = Contracts s' -> Targets s = Targets s' ->
     List.filter (fun o => After (o_ObservedAt o) (EndedAt r)) (Observations s) =
     List.filter (fun o => After (o_ObservedAt o) (EndedAt r)) (Observations s') ->
     assessRecovery r s now = assessRecovery r s' now).
Proof.
  intros Hnow. split.
  - unfold assessRecovery. destruct (targetOf s (TargetUID r)) as [t|].
    2:{ split; [by intros [? [=]]|]. by intros (? & ? & ? & [=] & _). }
    destruct (Binding_equal (bindingOf t) (RBinding r)) eqn:Eb; simpl.
    2:{ split; [by intros [? [=]]|]. intros (? & ? & ? & [= <-] & Hb & _).
        apply Binding_equal_eq in Hb. congruence. }
    apply Binding_equal_eq in Eb.
    destruct (Evaluate_value (post_snapshot s (EndedAt r) now) Hnow) as (e & R & _ & _ & _ & _ & _ & Hev).
    rewrite Hev. simpl. set (a := Build_Assessment _).
    destruct (assessment_target a (TargetUID r)) as [ta|] eqn:Eta.
    2:{ split; [by intros [? [=]]|]. intros (? & a' & ? & _ & _ & [= <-] & Hta & _). congruence. }
    destruct (ta_Valid ta) eqn:Ev; simpl.
    2:{ split; [by intros [? [=]]|]. intros (? & a' & ? & _ & _ & [= <-] & Hta & Hv & _). congruence. }
    split.
    + intros [detail [= Hj _]]. apply judge_recovery_recovered in Hj. rewrite Forall_forall in Hj.
      by exists t, a, ta.
    + intros (t' & a' & ta' & _ & _ & [= <-] & Hta & _ & Hall). eexists. f_equal. f_equal.
      apply judge_recovery_recovered, Forall_forall. assert (ta' = ta) as <- by congruence. done.
  - intros s' Hc Ht Ho. unfold assessRecovery, targetOf. rewrite Ht.
    by rewrite (post_snapshot_filter s s').
Qed.
End recovery.
