(* ===== verification/Engine.v ===== *)
(** * The execution engine (pkg/action/engine.go): definitions

    One call of [Step] threads [estate]: the journal, the engine's records
    [e_recs] (Go: the map of pointers [step.recs], keyed by record key), the
    wake-up time, the counters, and a log of what was asked of the journal and
    of the providers.

    The outside world is the oracle: what a provider answers is any function of
    the log so far, and the journal is any instance of [Journal].  In Go the
    records are pointers; a record is always reached through its key here, and
    [put] updates the entry of the key it is given. *)

From S2P Require Import Prelude Identity Predicate Contract Assessment Evaluator Profile.
From S2P Require Import ActionTypes Journal Proposal Recovery.

Record Stats := {
  Submits : nat;
  Resends : nat;
  Adopted : nat;
  IgnoredResponses : nat;
  JournalFailures : nat;
  SendFailures : nat;
  Takeovers : nat;
  DecisionFailures : nat;
}.

Definition zero_Stats : Stats := Build_Stats 0 0 0 0 0 0 0 0.

Definition inc_Submits (s : Stats) : Stats := Build_Stats (S (Submits s)) (Resends s) (Adopted s)
  (IgnoredResponses s) (JournalFailures s) (SendFailures s) (Takeovers s) (DecisionFailures s).
Definition inc_Resends (s : Stats) : Stats := Build_Stats (Submits s) (S (Resends s)) (Adopted s)
  (IgnoredResponses s) (JournalFailures s) (SendFailures s) (Takeovers s) (DecisionFailures s).
Definition inc_Adopted (s : Stats) : Stats := Build_Stats (Submits s) (Resends s) (S (Adopted s))
  (IgnoredResponses s) (JournalFailures s) (SendFailures s) (Takeovers s) (DecisionFailures s).
Definition inc_Ignored (s : Stats) : Stats := Build_Stats (Submits s) (Resends s) (Adopted s)
  (S (IgnoredResponses s)) (JournalFailures s) (SendFailures s) (Takeovers s) (DecisionFailures s).
Definition inc_JournalFailures (s : Stats) : Stats := Build_Stats (Submits s) (Resends s) (Adopted s)
  (IgnoredResponses s) (S (JournalFailures s)) (SendFailures s) (Takeovers s) (DecisionFailures s).
Definition inc_SendFailures (s : Stats) : Stats := Build_Stats (Submits s) (Resends s) (Adopted s)
  (IgnoredResponses s) (JournalFailures s) (S (SendFailures s)) (Takeovers s) (DecisionFailures s).
Definition inc_Takeovers (s : Stats) : Stats := Build_Stats (Submits s) (Resends s) (Adopted s)
  (IgnoredResponses s) (JournalFailures s) (SendFailures s) (S (Takeovers s)) (DecisionFailures s).
Definition inc_DecisionFailures (s : Stats) : Stats := Build_Stats (Submits s) (Resends s) (Adopted s)
  (IgnoredResponses s) (JournalFailures s) (SendFailures s) (Takeovers s) (S (DecisionFailures s)).

(** What the engine asked, and the answer it got. *)
Inductive Event :=
  | EvPut (r : AttemptRecord) (answer : put_error + AttemptRecord)
  | EvSubmit (provider : string) (h : Handoff) (answer : option Receipt)
  | EvResult (provider key : string) (answer : option Result).

(** The providers' answers; [None] is a transport error. *)
Class Providers := {
  Submit : list Event -> string -> Handoff -> option Receipt;
  ProviderResult : list Event -> string -> string -> option Result;
}.

(** The engine's configuration and what the step reads from outside:
    [cfg_Decisions] is [None] without a decision source, [Some None] when the
    source fails. *)
Record Config := {
  cfg_Registry : gmap string Registration;
  cfg_Decisions : option (option (list Decision_));
  cfg_Verifier : option (Decision_ -> bool);
}.

Record Input := {
  in_Snapshot : Snapshot;
  in_Assessment : Assessment;
  in_Profile : option Profile;
  in_Now : Time;
}.

Record Output := { out_Views : gmap string (list View); out_NextWake : Time }.

(** ** Record updates: the fields the engine assigns *)
Definition update (r : AttemptRecord) (phase : Phase) (fence sent : N) (sends : Z) (refused : bool)
    (last acked completed ended : Time) (ref : string) (rec : Recovery) (detail : list CapRecovery) :
    AttemptRecord :=
  {| Key := Key r; ProposalID := ProposalID r; RSubject := RSubject r; TargetUID := TargetUID r;
     Digest := Digest r; Attempt := Attempt r; RPhase := phase; Fence := fence;
     SentFence := sent; Sends := sends; RApproval := RApproval r; RDecision := RDecision r;
     Refused := refused; RBinding := RBinding r; RAction := RAction r; RProvider := RProvider r;
     ROwner := ROwner r; For := For r; Expected := Expected r; RExecution := RExecution r;
     CreatedAt := CreatedAt r; LastSentAt := last; AckedAt := acked;
     CompletedAt := completed; EndedAt := ended; ProviderRef := ref;
     AckTimeout := AckTimeout r; CompletionTimeout := CompletionTimeout r;
     RecoveryWindow := RecoveryWindow r; Retryable := Retryable r; MaxAttempts := MaxAttempts r;
     MaxSends := MaxSends r; RRecovery := rec; RecoveryDetail := detail; Version := Version r |}.

Definition stamp (fence : N) (r : AttemptRecord) : AttemptRecord :=
  update r (RPhase r) fence (SentFence r) (Sends r) (Refused r) (LastSentAt r) (AckedAt r)
    (CompletedAt r) (EndedAt r) (ProviderRef r) (RRecovery r) (RecoveryDetail r).

(** [next.Phase, next.CompletedAt = p, now] *)
Definition close_as (p : Phase) (now : Time) (r : AttemptRecord) : AttemptRecord :=
  update r p (Fence r) (SentFence r) (Sends r) (Refused r) (LastSentAt r) (AckedAt r) now (EndedAt r)
    (ProviderRef r) (RRecovery r) (RecoveryDetail r).

(** [next.Sends++; next.LastSentAt = now; next.SentFence = epoch] *)
Definition resent (epoch : N) (now : Time) (r : AttemptRecord) : AttemptRecord :=
  update r (RPhase r) (Fence r) epoch (Sends r + 1) (Refused r) now (AckedAt r) (CompletedAt r)
    (EndedAt r) (ProviderRef r) (RRecovery r) (RecoveryDetail r).

Definition accepted_at (now : Time) (ref : string) (r : AttemptRecord) : AttemptRecord :=
  update r PhaseAccepted (Fence r) (SentFence r) (Sends r) (Refused r) (LastSentAt r) now (CompletedAt r)
    (EndedAt r) ref (RRecovery r) (RecoveryDetail r).

Definition refused_at (now : Time) (ref : string) (r : AttemptRecord) : AttemptRecord :=
  update r PhaseFailed (Fence r) (SentFence r) (Sends r) true (LastSentAt r) now now (EndedAt r) ref
    (RRecovery r) (RecoveryDetail r).

Definition ended_at (p : Phase) (now : Time) (ref : string) (r : AttemptRecord) : AttemptRecord :=
  update r p (Fence r) (SentFence r) (Sends r) (Refused r) (LastSentAt r)
    (if IsZero (AckedAt r) then now else AckedAt r) now now ref (RRecovery r) (RecoveryDetail r).

Definition assessed (rec : Recovery) (detail : list CapRecovery) (r : AttemptRecord) : AttemptRecord :=
  update r (RPhase r) (Fence r) (SentFence r) (Sends r) (Refused r) (LastSentAt r) (AckedAt r)
    (CompletedAt r) (EndedAt r) (ProviderRef r) rec detail.

Definition matches (r : AttemptRecord) (key : string) (fence : N) (digest : string) : bool :=
  bool_decide (key = Key r) && bool_decide (fence = SentFence r) && bool_decide (digest = Digest r).

Definition containsReason (rs : list ActionReason) (code : string) : bool :=
  existsb (fun r => bool_decide (re_Code r = code)) rs.

(** Duration division truncates; a record the engine writes never has
    [MaxSends] 0 (SendBudget).  For a foreign record that has, Go's division
    would panic, which is left out. *)
Definition send_interval (r : AttemptRecord) : Duration := Z.quot (AckTimeout r) (MaxSends r).

Definition handoff_of (r : AttemptRecord) : Handoff := {|
  h_Key := Key r; h_Fence := SentFence r; h_ProposalID := ProposalID r; h_Digest := Digest r;
  h_Action := RAction r; h_Owner := ROwner r; h_Target := b_Target (RBinding r);
  h_ResolvedUID := b_ResolvedUID (RBinding r); h_Contract := b_Contract (RBinding r);
  h_For := For r; h_ExpectedImpact := Expected r; h_Approval := RApproval r;
|}.

(** ** The state of one step *)
Record estate (J : Type) := {
  s_j : J;
  s_recs : gmap string AttemptRecord;
  s_wake : Time;
  s_stats : Stats;
  s_log : list Event;
}.
Arguments Build_estate {_} _ _ _ _ _.
Arguments s_j {_} _.
Arguments s_recs {_} _.
Arguments s_wake {_} _.
Arguments s_stats {_} _.
Arguments s_log {_} _.

Abbreviation eng J := (sm (estate J)).

Definition set_recs {J} (m : gmap string AttemptRecord) (s : estate J) : estate J :=
  Build_estate (s_j s) m (s_wake s) (s_stats s) (s_log s).
Definition count {J} (f : Stats -> Stats) : eng J unit :=
  modify_sm (fun s => Build_estate (s_j s) (s_recs s) (s_wake s) (f (s_stats s)) (s_log s)).
Definition log_event {J} (ev : Event) (s : estate J) : estate J :=
  Build_estate (s_j s) (s_recs s) (s_wake s) (s_stats s) (s_log s ++ [ev]).

(** [*r = stored], and the assignments to the fields of a shown record *)
Definition set_rec {J} (k : string) (r : AttemptRecord) : eng J unit :=
  modify_sm (fun s => set_recs (<[k := r]> (s_recs s)) s).

(** ** Readers of the records *)
Section records.
Context `{SortSlice}.
Variable recs : gmap string AttemptRecord.

Definition keys : list string := sort_strings (fst <$> map_to_list recs).

Definition record_at (k : string) : list AttemptRecord :=
  match recs !! k with Some r => [r] | None => [] end.

Definition episode (subject : string) : nat :=
  let done : gset string := list_to_set
    (ProposalID <$> List.filter (fun r => bool_decide (RSubject r = subject) &&
                                          bool_decide (RRecovery r = RecoveryRecovered))
                      (snd <$> map_to_list recs)) in
  size done + 1.

Definition attempts (proposalID : string) : list AttemptRecord :=
  sort_slice (fun a b => Z.ltb (Attempt a) (Attempt b))
    (List.filter (fun r => bool_decide (ProposalID r = proposalID)) (keys ≫= record_at)).

Definition later (r cur : AttemptRecord) : bool :=
  After (CreatedAt r) (CreatedAt cur) ||
  (Z.eqb (CreatedAt r) (CreatedAt cur) && String.ltb (Key cur) (Key r)).

Definition latestPerSubject : list AttemptRecord :=
  let latest := foldl (fun m r => match m !! RSubject r with
                                  | Some cur => if later r cur then <[RSubject r := r]> m else m
                                  | None => <[RSubject r := r]> m
                                  end) (∅ : gmap string AttemptRecord) (keys ≫= record_at) in
  sort_slice (fun a b => String.ltb (Key a) (Key b)) (snd <$> map_to_list latest).

Definition busy (targetUID proposalID : string) : bool :=
  existsb (fun r => bool_decide (TargetUID r = targetUID) && negb (bool_decide (ProposalID r = proposalID)) &&
                    occupies (RPhase r)) (snd <$> map_to_list recs).
End records.

Section step.
Context `{GoText} `{SortSlice} `{Digests} `{Providers} {J : Type} `{Journal J}.
Variables (cfg : Config) (epoch : N) (inp : Input).
(** [step.decisions] and [step.props] *)
Variables (decisions : list Decision_) (props : gmap string Proposal).

Abbreviation now := (in_Now inp).

Definition wakeAt (t : Time) : eng J unit :=
  modify_sm (fun s =>
    if negb (After t now) then s
    else if IsZero (s_wake s) || Before t (s_wake s)
    then Build_estate (s_j s) (s_recs s) t (s_stats s) (s_log s) else s).

(** Persist by compare-and-swap; [None] on failure. *)
Definition put_record (next : AttemptRecord) : eng J (option AttemptRecord) :=
  _ ← (if N.ltb (Fence next) epoch && negb (N.eqb (Version next) 0) then count inc_Takeovers else mret tt);
  let next := stamp epoch next in
  s ← get_sm;
  let '(answer, j) := Put next (s_j s) in
  _ ← modify_sm (fun s => log_event (EvPut next answer)
        (Build_estate j (s_recs s) (s_wake s) (s_stats s) (s_log s)));
  match answer with
  | inl _ => _ ← count inc_JournalFailures; mret None
  | inr stored => mret (Some stored)
  end.

(** [put] of the record at key [k]. *)
Definition put (k : string) (next : AttemptRecord) : eng J bool :=
  stored ← put_record next;
  match stored with
  | Some r => _ ← set_rec k r; mret true
  | None => mret false
  end.

Definition own (r : AttemptRecord) : bool := N.leb (Fence r) epoch.

(** ** Sending *)
Definition send (k : string) (provider : string) : eng J unit :=
  _ ← count inc_Submits;
  s ← get_sm;
  match s_recs s !! k with
  | None => mret tt
  | Some r =>
      let h := handoff_of r in
      let answer := Submit (s_log s) provider h in
      _ ← modify_sm (log_event (EvSubmit provider h answer));
      match answer with
      | None => _ ← count inc_SendFailures; wakeAt (Add (LastSentAt r) (send_interval r))
      | Some rc =>
          if negb (matches r (rc_Key rc) (rc_Fence rc) (rc_Digest rc)) then count inc_Ignored
          else
            let next := if rc_Accepted rc then accepted_at now (rc_Ref rc) r
                        else refused_at now (rc_Ref rc) r in
            ok ← put k next;
            s ← get_sm;
            let r := default r (s_recs s !! k) in
            if (ok : bool) && bool_decide (RPhase r = PhaseAccepted)
            then wakeAt (Add now (CompletionTimeout r)) else mret tt
      end
  end.

(** ** Gates and approvals *)
Definition precondition_reason (pc : ActionReason) : list ActionReason :=
  if decide (re_Code pc = "unmet") then [Build_ActionReason ReasonPreconditionUnmet (re_Subject pc)]
  else if decide (re_Code pc = "unproven") then [Build_ActionReason ReasonPreconditionUnproven (re_Subject pc)]
  else [].

Definition reason_if (b : bool) (code : string) : list ActionReason := if b then [reason code] else [].

Definition gates (s : estate J) (p : Proposal) (resend : bool) : list ActionReason :=
  let r := p_Response p in
  let ex := the_execution r in
  reason_if (negb (nonempty (rs_Owner r))) ReasonOwnerUndeclared ++
  reason_if (p_OwnerConflict p) ReasonOwnerConflict ++
  reason_if ((0 <? length (p_Human p)) && bool_decide (length (x_Approvers ex) = 0)) ReasonNoApprover ++
  match cfg_Registry cfg !! x_Provider ex with
  | None => [Build_ActionReason ReasonProviderUnregistered (x_Provider ex)]
  | Some reg =>
      if negb (authorises reg (rs_Owner r) (ti_Namespace (b_Target (p_Binding p))) (rs_Action r))
      then [Build_ActionReason ReasonAuthorityInsufficient (x_Provider ex)] else []
  end ++
  (p_Preconditions p ≫= precondition_reason) ++
  reason_if (negb (Durable (s_j s))) ReasonJournalNotDurable ++
  reason_if (negb resend && busy (s_recs s) (proposal_uid p) (p_ID p)) ReasonTargetBusy.

(** [invalid]: "" is no objection. *)
Definition invalid (p : Proposal) (d : Decision_) : string :=
  let ex := the_execution (p_Response p) in
  if negb (match cfg_Verifier cfg with Some verify => verify d | None => false end)
  then ReasonApprovalUnverified
  else if negb (contains (x_Approvers ex) (d_Principal d)) then ReasonApproverNotAllowed
  else if negb (bool_decide (d_Digest d = p_Digest p)) then ReasonApprovalDigestMismatch
  else if After (d_DecidedAt d) now then ReasonApprovalFuture
  else if Z.gtb (Sub now (d_DecidedAt d)) (ApprovalAge ex) then ReasonApprovalExpired
  else "".

Record approval_state := {
  aps_approved : option (Approval * Decision_);
  aps_rejected : bool;
  aps_notes : list ActionReason;
}.

Definition approval_step (p : Proposal) (acc : approval_state) (d : Decision_) : eng J approval_state :=
  let '(Build_approval_state approved rejected notes) := acc in
  if negb (bool_decide (d_ProposalID d = p_ID p)) then mret acc
  else if nonempty (invalid p d) then
    mret (Build_approval_state approved rejected
      (if containsReason notes (invalid p d) then notes else notes ++ [reason (invalid p d)]))
  else if decide (d_Verdict d = Reject) then mret (Build_approval_state approved true notes)
  else if bool_decide (d_Verdict d = Approve) && negb (bool_decide (is_Some approved)) then
    _ ← wakeAt (Add (d_DecidedAt d) (ApprovalAge (the_execution (p_Response p))));
    mret (Build_approval_state
      (Some (Build_Approval KindHuman (d_Principal d) (d_ID d), d)) rejected notes)
  else mret acc.

Definition approval (p : Proposal) : eng J approval_state :=
  if bool_decide (length (p_Human p) = 0) then
    mret (Build_approval_state
      (Some (Build_Approval KindPolicy ("policy:" +:+ p_ProfileRevision p) "", zero_Decision)) false [])
  else
    acc ← fold_sm (approval_step p) (Build_approval_state None false []) decisions;
    mret (if aps_rejected acc then Build_approval_state None true (aps_notes acc) else acc).

Definition stillApproved (p : Proposal) (r : AttemptRecord) : eng J bool :=
  acc ← approval p;
  let a := RApproval r in
  let d := RDecision r in
  mret (
    if aps_rejected acc then false
    else if decide (ap_Kind a = KindPolicy) then
      bool_decide (length (p_Human p) = 0) &&
      bool_decide (ap_Principal a = "policy:" +:+ p_ProfileRevision p)
    else if negb (bool_decide (ap_Kind a = KindHuman)) || bool_decide (length (p_Human p) = 0) ||
            negb (bool_decide (d_ID d = ap_DecisionID a)) || negb (bool_decide (d_Principal d = ap_Principal a)) ||
            negb (bool_decide (d_ProposalID d = p_ID p)) || negb (bool_decide (d_Verdict d = Approve)) ||
            nonempty (invalid p d)
    then false
    else existsb (fun s => same s d) decisions).

(** ** advance *)

(** A matching provider answer, applied; [true] when it settles the record for
    this step. *)
Definition adopt (k : string) (r : AttemptRecord) (res : Result) : eng J bool :=
  let apply next :=
    ok ← put k next;
    if negb ok then mret false
    else
      _ ← count inc_Adopted;
      s ← get_sm;
      let r := default r (s_recs s !! k) in
      _ ← (if bool_decide (RPhase r = PhaseAccepted)
           then wakeAt (Add (AckedAt r) (CompletionTimeout r)) else mret tt);
      mret true in
  if decide (rt_State res = ResultPending) then
    if negb (bool_decide (RPhase r = PhaseDispatching)) then mret false
    else apply (accepted_at now (rt_Ref res) r)
  else if decide (rt_State res = ResultRefused) then
    if negb (IsZero (AckedAt r)) then _ ← count inc_Ignored; mret false
    else apply (refused_at now (rt_Ref res) r)
  else if decide (rt_State res = ResultSucceeded) then apply (ended_at PhaseSucceeded now (rt_Ref res) r)
  else if decide (rt_State res = ResultFailed) then apply (ended_at PhaseFailed now (rt_Ref res) r)
  else mret false.

(** The keyed poll at the start of [advance]. *)
Definition poll (k : string) (r : AttemptRecord) : eng J bool :=
  match cfg_Registry cfg !! RProvider r with
  | None => mret false
  | Some _ =>
      s ← get_sm;
      let answer := ProviderResult (s_log s) (RProvider r) (Key r) in
      _ ← modify_sm (log_event (EvResult (RProvider r) (Key r) answer));
      match answer with
      | None => mret false
      | Some res =>
          if decide (rt_State res = ResultUnknown) then mret false
          else if negb (matches r (rt_Key res) (rt_Fence res) (rt_Digest res))
          then _ ← count inc_Ignored; mret false
          else adopt k r res
      end
  end.

Definition withdraw_or_resend (k : string) (r : AttemptRecord) : eng J unit :=
  s ← get_sm;
  let withdraw := _ ← put k (close_as PhaseWithdrawn now r); mret tt in
  match props !! ProposalID r with
  | None => withdraw
  | Some p =>
      if negb (bool_decide (p_Digest p = Digest r)) ||
         negb (bool_decide (is_Some (cfg_Registry cfg !! RProvider r))) ||
         (0 <? length (gates s p true))
      then withdraw
      else
        approved ← stillApproved p r;
        if negb approved then withdraw
        else
          ok ← put k (resent epoch now r);
          if negb ok then mret tt
          else _ ← count inc_Resends; send k (RProvider r)
  end.

Definition advance (k : string) (r : AttemptRecord) : eng J unit :=
  if negb (own r) then mret tt
  else
    settled ← poll k r;
    if (settled : bool) then mret tt
    else match RPhase r with
    | PhaseDispatching =>
        let deadline := Add (CreatedAt r) (AckTimeout r) in
        if negb (Before now deadline) then _ ← put k (close_as PhaseTimedOut now r); mret tt
        else
          _ ← wakeAt deadline;
          let next_send := Add (LastSentAt r) (send_interval r) in
          if Z.leb (MaxSends r) (Sends r) || Before now next_send then wakeAt next_send
          else withdraw_or_resend k r
    | PhaseAccepted =>
        let deadline := Add (AckedAt r) (CompletionTimeout r) in
        if negb (Before now deadline) then _ ← put k (close_as PhaseTimedOut now r); mret tt
        else wakeAt deadline
    | PhaseTimedOut | PhaseWithdrawn => wakeAt (Add now (send_interval r))
    | _ => mret tt
    end.

Definition recover (k : string) (r : AttemptRecord) : eng J unit :=
  match assessRecovery r (in_Snapshot inp) now with
  | inl _ => mret tt
  | inr (rec, detail) =>
      if negb (final rec) then
        _ ← set_rec k (assessed rec detail r);
        wakeAt (Add (EndedAt r) (RecoveryWindow r))
      else _ ← put k (assessed rec detail r); mret tt
  end.

(** ** Views and new attempts *)
Definition recordView (r : AttemptRecord) : View :=
  let changed := match props !! ProposalID r with
                 | Some p => negb (bool_decide (p_Digest p = Digest r)) && inFlight (RPhase r)
                 | None => false
                 end in
  let reasons :=
    reason_if changed ReasonIdentityChanged ++
    (if bool_decide (RRecovery r = RecoveryInapplicable) then [reason ReasonIdentityChanged]
     else if bool_decide (RPhase r = PhaseTimedOut) || bool_decide (RPhase r = PhaseWithdrawn)
     then [reason ReasonOutcomeUnknown]
     else reason_if (final (RRecovery r) && negb (bool_decide (RRecovery r = RecoveryRecovered)))
            ReasonExecutedNotRecovered) ++
    reason_if (bool_decide (RPhase r = PhaseFailed) && (negb (Retryable r) || Z.leb (MaxAttempts r) (Attempt r)))
      ReasonAttemptsExhausted in
  Build_View (ProposalID r) (Digest r) (RAction r) (For r) (RPhase r) (Attempt r) reasons
    (RRecovery r) (RecoveryDetail r).

Definition new_record (p : Proposal) (attempt : Z) (a : Approval) (by_ : Decision_) : AttemptRecord :=
  let ex := the_execution (p_Response p) in
  {| Key := p_ID p +:+ "/" +:+ pretty attempt; ProposalID := p_ID p; RSubject := p_Subject p;
     TargetUID := proposal_uid p; Digest := p_Digest p; Attempt := attempt; RPhase := PhaseDispatching;
     Fence := epoch; SentFence := epoch; Sends := 1; RApproval := a; RDecision := by_; Refused := false;
     RBinding := p_Binding p; RAction := rs_Action (p_Response p); RProvider := x_Provider ex;
     ROwner := rs_Owner (p_Response p); For := p_For p; Expected := p_Expected p; RExecution := ex;
     CreatedAt := now; LastSentAt := now; AckedAt := 0; CompletedAt := 0; EndedAt := 0; ProviderRef := "";
     AckTimeout := x_AckTimeout ex; CompletionTimeout := x_CompletionTimeout ex;
     RecoveryWindow := x_RecoveryWindow ex; Retryable := x_Retryable ex; MaxAttempts := AttemptBudget ex;
     MaxSends := SendBudget ex; RRecovery := RecoveryNone; RecoveryDetail := []; Version := 0 |}.

Definition view_of (p : Proposal) (attempt : Z) (phase : Phase) (reasons : list ActionReason) : View :=
  Build_View (p_ID p) (p_Digest p) (rs_Action (p_Response p)) (p_For p) phase attempt reasons RecoveryNone [].

(** The attempt a proposal may start now: the last attempt's view if it may
    not start any. *)
Definition next_attempt (rs : list AttemptRecord) : AttemptRecord + Z :=
  match last rs with
  | None => inr 1%Z
  | Some r =>
      if inFlight (RPhase r) || negb (bool_decide (RPhase r = PhaseFailed)) || negb (Retryable r) ||
         Z.leb (MaxAttempts r) (Attempt r)
      then inl r else inr (Attempt r + 1)%Z
  end.

Definition start_attempt (p : Proposal) (attempt : Z) (a : Approval) (by_ : Decision_) : eng J View :=
  stored ← put_record (new_record p attempt a by_);
  match stored with
  | None => mret (view_of p attempt PhaseBlocked [reason ReasonJournalWriteFailed])
  | Some r =>
      _ ← set_rec (Key r) r;
      _ ← send (Key r) (x_Provider (the_execution (p_Response p)));
      s ← get_sm;
      let r := default r (s_recs s !! Key r) in
      _ ← wakeAt (Add (CreatedAt r) (send_interval r));
      mret (recordView r)
  end.

Definition decide_proposal (p : Proposal) : eng J View :=
  s ← get_sm;
  match next_attempt (attempts (s_recs s) (p_ID p)) with
  | inl last => mret (recordView last)
  | inr attempt =>
      let gs := gates s p false in
      acc ← approval p;
      let human := reason <$> p_Human p in
      if aps_rejected acc then mret (view_of p attempt PhaseRejected [])
      else if 0 <? length gs then
        mret (view_of p attempt PhaseBlocked
                (gs ++ match aps_approved acc with None => human | Some _ => [] end))
      else match aps_approved acc with
      | None => mret (view_of p attempt PhaseAwaitingApproval (human ++ aps_notes acc))
      | Some (a, by_) => start_attempt p attempt a by_
      end
  end.

(** ** The body of Step *)
Definition advance_key (k : string) : eng J unit :=
  s ← get_sm;
  match s_recs s !! k with
  | Some r => if occupies (RPhase r) then advance k r else mret tt
  | None => mret tt
  end.

Definition recover_key (k : string) : eng J unit :=
  s ← get_sm;
  match s_recs s !! k with
  | Some r => if negb (IsZero (EndedAt r)) && negb (final (RRecovery r)) then recover k r else mret tt
  | None => mret tt
  end.

Record shown_state := {
  sh_views : gmap string (list View);
  sh_shown : gset string;
  sh_listed : gset string;
}.

Definition add_view (uid : string) (v : View) (o : shown_state) : shown_state :=
  Build_shown_state (group_add uid v (sh_views o)) (sh_shown o) ({[vw_ProposalID v]} ∪ sh_listed o).

Definition show_proposal (o : shown_state) (p : Proposal) : eng J shown_state :=
  v ← decide_proposal p;
  let o := add_view (proposal_uid p) v o in
  mret (Build_shown_state (sh_views o) ({[p_Subject p]} ∪ sh_shown o) (sh_listed o)).

Definition known_target (uid : string) : bool := bool_decide (is_Some (targetOf (in_Snapshot inp) uid)).

Definition show_latest (o : shown_state) (r : AttemptRecord) : shown_state :=
  if bool_decide (RSubject r ∈ sh_shown o) || negb (known_target (TargetUID r)) then o
  else add_view (TargetUID r) (recordView r) o.

Definition show_occupying (o : shown_state) (r : AttemptRecord) : shown_state :=
  if negb (occupies (RPhase r)) || bool_decide (ProposalID r ∈ sh_listed o) ||
     negb (known_target (TargetUID r)) then o
  else add_view (TargetUID r) (recordView r) o.

Definition step_body (proposals : list Proposal) : eng J Output :=
  s ← get_sm;
  _ ← each_sm advance_key (keys (s_recs s));
  s ← get_sm;
  _ ← each_sm recover_key (keys (s_recs s));
  o ← fold_sm show_proposal (Build_shown_state ∅ ∅ ∅) proposals;
  s ← get_sm;
  let o := foldl show_latest o (latestPerSubject (s_recs s)) in
  let o := foldl show_occupying o (keys (s_recs s) ≫= record_at (s_recs s)) in
  mret (Build_Output
    (slice_stable (fun a b => String.ltb (vw_ProposalID a) (vw_ProposalID b)) <$> sh_views o) (s_wake s)).
End step.

(** ** Step *)
Record Engine := { en_epoch : N; en_stats : Stats }.

Inductive step_error := JournalEpochError | JournalListError.

Section engine.
Context `{GoText} `{SortSlice} `{Digests} `{Providers} {J : Type} `{Journal J}.

Definition claim_epoch (en : Engine) (j : J) : (step_error + N) * J :=
  if N.eqb (en_epoch en) 0 then
    match Epoch j with (Some ep, j) => (inr ep, j) | (None, j) => (inl JournalEpochError, j) end
  else (inr (en_epoch en), j).

Definition read_decisions (cfg : Config) (st : Stats) : list Decision_ * Stats :=
  match cfg_Decisions cfg with
  | None => ([], st)
  | Some None => ([], inc_DecisionFailures st)
  | Some (Some ds) => (sort_slice (fun a b => String.ltb (d_ID a) (d_ID b)) ds, st)
  end.

(** One step: the output or the error, the engine, the journal and the log. *)
Definition Step (cfg : Config) (inp : Input) (en : Engine) (j : J) :
    (step_error + Output) * Engine * J * list Event :=
  match claim_epoch en j with
  | (inl err, j) => (inl err, en, j, [])
  | (inr ep, j) =>
      let en := Build_Engine ep (en_stats en) in
      match List_ j with
      | (None, j) => (inl JournalListError, en, j, [])
      | (Some l, j) =>
          let recs := list_to_map ((fun r => (Key r, r)) <$> rev l) : gmap string AttemptRecord in
          let '(decisions, stats) := read_decisions cfg (en_stats en) in
          let proposals := derive (in_Snapshot inp) (in_Assessment inp) (in_Profile inp) (episode recs) in
          let props := list_to_map ((fun p => (p_ID p, p)) <$> rev proposals) : gmap string Proposal in
          let '(out, s) := step_body cfg ep inp decisions props proposals
                             (Build_estate j recs 0%Z stats []) in
          (inr out, Build_Engine ep (s_stats s), s_j s, s_log s)
      end
  end.
End engine.
