(* ===== verification/EngineSpec.v ===== *)
(** * What one engine may do (pkg/action/engine.go): the protocol of its steps

    [trace] is the protocol as a state machine over the log of a step: which
    record an engine may write, given the records it has read and written, and
    when it may send.  [Step_conforms] says that [Step] follows it whatever the
    journal and the providers answer. *)

From S2P Require Import Prelude Identity Predicate Contract Assessment Evaluator Profile.
From S2P Require Import ActionTypes Journal Proposal Recovery Engine.

(** ** The protocol *)

(** The record without what the engine shows but does not persist. *)
Definition core (r : AttemptRecord) : AttemptRecord := assessed RecoveryNone [] r.

(** [next] changes only the fields that describe the progress of [old]. *)
Definition same_attempt (old next : AttemptRecord) : Prop :=
  next = update old (RPhase next) (Fence next) (SentFence next) (Sends next) (Refused next)
           (LastSentAt next) (AckedAt next) (CompletedAt next) (EndedAt next) (ProviderRef next)
           (RRecovery next) (RecoveryDetail next).

(** How an attempt may progress at time [now] without being sent. *)
Inductive progress (now : Time) (old next : AttemptRecord) : Prop :=
  | progress_ack :
      RPhase old = PhaseDispatching -> RPhase next = PhaseAccepted ->
      Sends next = Sends old -> SentFence next = SentFence old -> EndedAt next = EndedAt old ->
      progress now old next
  | progress_refuse :
      occupies (RPhase old) = true -> RPhase old = PhaseDispatching \/ IsZero (AckedAt old) = true ->
      RPhase next = PhaseFailed -> Refused next = true ->
      Sends next = Sends old -> SentFence next = SentFence old -> EndedAt next = EndedAt old ->
      progress now old next
  | progress_end :
      occupies (RPhase old) = true -> RPhase next = PhaseSucceeded \/ RPhase next = PhaseFailed ->
      Sends next = Sends old -> SentFence next = SentFence old -> EndedAt next = now ->
      progress now old next
  | progress_timeout :
      inFlight (RPhase old) = true -> RPhase next = PhaseTimedOut ->
      Sends next = Sends old -> SentFence next = SentFence old -> EndedAt next = EndedAt old ->
      progress now old next
  | progress_withdraw :
      RPhase old = PhaseDispatching -> RPhase next = PhaseWithdrawn ->
      Sends next = Sends old -> SentFence next = SentFence old -> EndedAt next = EndedAt old ->
      progress now old next
  | progress_recover :
      EndedAt old <> 0%Z -> final (RRecovery next) = true -> RPhase next = RPhase old ->
      Sends next = Sends old -> SentFence next = SentFence old -> EndedAt next = EndedAt old ->
      progress now old next.

(** One more sending of an unanswered attempt, under epoch [ep]. *)
Record resend (ep : N) (now : Time) (old next : AttemptRecord) : Prop := {
  re_phase : RPhase old = PhaseDispatching /\ RPhase next = PhaseDispatching;
  re_budget : (Sends old < MaxSends old)%Z;
  re_sends : Sends next = (Sends old + 1)%Z;
  re_fence : SentFence next = ep;
  re_sent : LastSentAt next = now;
  re_ended : EndedAt next = EndedAt old;
}.

Definition record_key (proposalID : string) (attempt : Z) : string := proposalID +:+ "/" +:+ pretty attempt.

(** A proposal's attempts: the first one, or the one after a failed, retryable
    last attempt within its budget. *)
Definition may_attempt (view : gmap string AttemptRecord) (next : AttemptRecord) : Prop :=
  (Attempt next = 1%Z /\ forall k r, view !! k = Some r -> ProposalID r <> ProposalID next) \/
  exists k last, view !! k = Some last /\ ProposalID last = ProposalID next /\
    RPhase last = PhaseFailed /\ Retryable last = true /\ (Attempt last < MaxAttempts last)%Z /\
    Attempt next = (Attempt last + 1)%Z /\
    forall k' r, view !! k' = Some r -> ProposalID r = ProposalID next -> (Attempt r <= Attempt last)%Z.

Record new_attempt (ep : N) (now : Time) (view : gmap string AttemptRecord) (next : AttemptRecord) :
    Prop := {
  na_key : Key next = record_key (ProposalID next) (Attempt next);
  na_version : Version next = 0%N;
  na_phase : RPhase next = PhaseDispatching;
  na_fence : SentFence next = ep;
  na_sends : Sends next = 1%Z;
  na_budget : MaxSends next <> 0%Z;
  na_created : CreatedAt next = now /\ LastSentAt next = now;
  na_fresh : AckedAt next = 0%Z /\ EndedAt next = 0%Z /\ Refused next = false;
  na_free : forall k r, view !! k = Some r -> TargetUID r = TargetUID next ->
              ProposalID r <> ProposalID next -> occupies (RPhase r) = false;
  na_attempt : may_attempt view next;
}.

(** What an engine of epoch [ep] may write: [auth] says which new attempts are
    authorised, [again] which attempts may be sent again; [launch] marks the
    writes that a sending may follow. *)
Inductive allowed (ep : N) (now : Time) (auth again : AttemptRecord -> Prop)
    (view : gmap string AttemptRecord) (next : AttemptRecord) : bool -> Prop :=
  | allowed_update old :
      view !! Key next = Some old -> Fence next = ep ->
      (RPhase next <> RPhase old -> (Fence old <= ep)%N) ->
      same_attempt (core old) (core next) -> progress now old next -> allowed ep now auth again view next false
  | allowed_resend old :
      view !! Key next = Some old -> Fence next = ep -> (Fence old <= ep)%N ->
      same_attempt (core old) (core next) -> resend ep now old next -> again old ->
      allowed ep now auth again view next true
  | allowed_create :
      Fence next = ep -> new_attempt ep now view next -> auth next -> allowed ep now auth again view next true.

(** One event of an engine that holds [view] and may send [fresh]. *)
Inductive event_ok (ep : N) (now : Time) (auth again : AttemptRecord -> Prop)
    (view : gmap string AttemptRecord) (fresh : option AttemptRecord) :
    Event -> gmap string AttemptRecord -> option AttemptRecord -> Prop :=
  | event_stored r launch :
      allowed ep now auth again view r launch ->
      event_ok ep now auth again view fresh (EvPut r (inr (bump r))) (<[Key r := bump r]> view)
        (if launch then Some (bump r) else None)
  | event_refused r launch err :
      allowed ep now auth again view r launch ->
      event_ok ep now auth again view fresh (EvPut r (inl err)) view None
  | event_submit r answer :
      fresh = Some r -> RPhase r = PhaseDispatching -> SentFence r = ep ->
      event_ok ep now auth again view fresh (EvSubmit (RProvider r) (handoff_of r) answer) view None
  | event_poll provider key answer :
      event_ok ep now auth again view fresh (EvResult provider key answer) view None.

(** [trace log view fresh]: the log follows the protocol from [view0]; [view] is
    what the engine then holds, [fresh] the record it has just persisted and may
    now send. *)
Inductive trace (ep : N) (now : Time) (auth again : AttemptRecord -> Prop) (view0 : gmap string AttemptRecord) :
    list Event -> gmap string AttemptRecord -> option AttemptRecord -> Prop :=
  | trace_start : trace ep now auth again view0 [] view0 None
  | trace_event log view fresh ev view' fresh' :
      trace ep now auth again view0 log view fresh -> event_ok ep now auth again view fresh ev view' fresh' ->
      trace ep now auth again view0 (log ++ [ev]) view' fresh'.

(** The journal's answers in a log are the journal's. *)
Inductive replays {J} `{Journal J} (j0 : J) : list Event -> J -> Prop :=
  | replays_start : replays j0 [] j0
  | replays_put log j r answer j' :
      replays j0 log j -> Put r j = (answer, j') -> replays j0 (log ++ [EvPut r answer]) j'
  | replays_submit log j provider h answer :
      replays j0 log j -> replays j0 (log ++ [EvSubmit provider h answer]) j
  | replays_result log j provider key answer :
      replays j0 log j -> replays j0 (log ++ [EvResult provider key answer]) j.

(** All that a step needs of its journal: while it is in a proper state
    ([Jok]), a stored record comes back with the next version. *)
Record versioned {J} `{Journal J} (Jok : J -> Prop) : Prop := {
  ve_epoch : forall j o j', Jok j -> Epoch j = (o, j') -> Jok j';
  ve_list : forall j o j', Jok j -> List_ j = (o, j') -> Jok j';
  ve_put : forall r j answer j', Jok j -> Put r j = (answer, j') -> Jok j';
  ve_stored : forall r j r' j', Jok j -> Put r j = (inr r', j') -> r' = bump r;
}.

(** ** Who is authorised *)
Section authorised.
Context `{GoText} `{SortSlice} `{Digests}.
Variables (cfg : Config) (epoch : N) (inp : Input) (decisions : list Decision_).

(** A decision counted for [p]: it names [p] and nothing is wrong with it. *)
Definition counts (p : Proposal) (d : Decision_) : Prop :=
  d ∈ decisions /\ d_ProposalID d = p_ID p /\ invalid cfg inp p d = "".

(** By policy when no person must decide, else by a counted approval that no
    counted rejection opposes. *)
Definition approved_by (p : Proposal) (a : Approval) (by_ : Decision_) : Prop :=
  (p_Human p = [] /\ a = Build_Approval KindPolicy ("policy:" +:+ p_ProfileRevision p) "" /\
     by_ = zero_Decision) \/
  (p_Human p <> [] /\ counts p by_ /\ d_Verdict by_ = Approve /\
     a = Build_Approval KindHuman (d_Principal by_) (d_ID by_) /\
     forall d, counts p d -> d_Verdict d <> Reject).

(** The registered provider acts for the declared owner, in the target's
    namespace, for this action. *)
Definition provider_authorised (p : Proposal) : Prop :=
  exists reg, cfg_Registry cfg !! x_Provider (the_execution (p_Response p)) = Some reg /\
    rs_Owner (p_Response p) <> "" /\ rg_Owner reg = rs_Owner (p_Response p) /\
    ti_Namespace (b_Target (p_Binding p)) ∈ rg_Namespaces reg /\
    ActionRef_String (rs_Action (p_Response p)) ∈ rg_Actions reg.

Definition preconditions_proven (p : Proposal) : Prop :=
  forall pc, pc ∈ p_Preconditions p -> re_Code pc <> "unmet" /\ re_Code pc <> "unproven".

(** Where a person must decide, somebody may. *)
Definition approver_declared (p : Proposal) : Prop :=
  p_Human p <> [] -> x_Approvers (the_execution (p_Response p)) <> [].

(** The gates that an attempt and its resending share.  The last one,
    target-busy, is for a new attempt only and depends on the records that are
    held when it is made: it is [na_free] of [new_attempt]. *)
Definition gates_open (durable : Prop) (p : Proposal) : Prop :=
  provider_authorised p /\ p_OwnerConflict p = false /\ approver_declared p /\ preconditions_proven p /\ durable.

(** [durable] says that the journal survives a restart. *)
Definition authorised (durable : Prop) (proposals : list Proposal) (r : AttemptRecord) : Prop :=
  exists p attempt a by_, p ∈ proposals /\ r = stamp epoch (new_record epoch inp p attempt a by_) /\
    approved_by p a by_ /\ gates_open durable p.

(** The approval a record was persisted with still stands: the policy
    unchanged, or the recorded decision itself still presented and counted. *)
Definition still_approved (p : Proposal) (r : AttemptRecord) : Prop :=
  (forall d, p_Human p <> [] -> counts p d -> d_Verdict d <> Reject) /\
  ((ap_Kind (RApproval r) = KindPolicy /\ p_Human p = [] /\
      ap_Principal (RApproval r) = "policy:" +:+ p_ProfileRevision p) \/
   (ap_Kind (RApproval r) = KindHuman /\ p_Human p <> [] /\ counts p (RDecision r) /\
      d_Verdict (RDecision r) = Approve /\ d_ID (RDecision r) = ap_DecisionID (RApproval r) /\
      d_Principal (RDecision r) = ap_Principal (RApproval r))).

Definition resendable (durable : Prop) (proposals : list Proposal) (r : AttemptRecord) : Prop :=
  exists p, p ∈ proposals /\ p_ID p = ProposalID r /\ p_Digest p = Digest r /\
    still_approved p r /\ gates_open durable p.
End authorised.

(** ** Hoare triples over the step state *)
Definition hoare {J A} (P : estate J -> Prop) (m : eng J A) (Q : A -> estate J -> Prop) : Prop :=
  forall s, P s -> Q (m s).1 (m s).2.

(** * Lemmas *)
Section hoare_rules.
Context {J : Type}.

Lemma hoare_ret {A} (v : A) (P : estate J -> Prop) : hoare P (mret v) (fun w s => w = v /\ P s).
Proof. by intros s Hs. Qed.

Lemma hoare_bind {A B} (m : eng J A) (f : A -> eng J B) P Q R :
  hoare P m Q -> (forall v, hoare (Q v) (f v) R) -> hoare P (m ≫= f) R.
Proof.
  intros Hm Hf s Hs. specialize (Hm s Hs). unfold mbind, sm_bind. destruct (m s) as [v s'].
  by apply Hf.
Qed.

Lemma hoare_weaken {A} (m : eng J A) (P P' : estate J -> Prop) (Q Q' : A -> estate J -> Prop) :
  hoare P' m Q' -> (forall s, P s -> P' s) -> (forall v s, Q' v s -> Q v s) -> hoare P m Q.
Proof. intros Hm HP HQ s Hs. apply HQ, Hm, HP, Hs. Qed.

Lemma hoare_pure {A} (phi : Prop) (m : eng J A) (P : estate J -> Prop) Q :
  (phi -> hoare P m Q) -> hoare (fun s => P s /\ phi) m Q.
Proof. intros Hm s [Hs Hphi]. by apply Hm. Qed.

Lemma hoare_get {A} (f : estate J -> eng J A) P Q :
  (forall s0, P s0 -> hoare (fun s => s = s0) (f s0) Q) -> hoare P (get_sm ≫= f) Q.
Proof. intros Hf s Hs. by apply Hf. Qed.

Lemma hoare_each {B} (f : B -> eng J unit) (l : list B) (P : estate J -> Prop) :
  (forall x, x ∈ l -> hoare P (f x) (fun _ => P)) -> hoare P (each_sm f l) (fun _ => P).
Proof.
  induction l as [|x l IH]; intros Hf; simpl; [by intros s Hs|].
  eapply hoare_bind; [apply Hf; left|]. intros v. apply IH. intros y Hy. apply Hf. by right.
Qed.

Lemma hoare_fold {A B} (f : A -> B -> eng J A) (l : list B) (I : A -> estate J -> Prop) acc :
  (forall acc x, x ∈ l -> hoare (I acc) (f acc x) I) -> hoare (I acc) (fold_sm f acc l) I.
Proof.
  revert acc. induction l as [|x l IH]; intros acc Hf; simpl; [by intros s Hs|].
  eapply hoare_bind; [apply Hf; left|]. intros acc'. apply IH. intros a y Hy. apply Hf. by right.
Qed.
End hoare_rules.

(** ** The invariant of a step *)
Section step_spec.
Context `{GoText} `{SortSlice} `{Digests} `{Providers} {J : Type} `{Journal J}.
Variables (cfg : Config) (epoch : N) (inp : Input).
Variables (decisions : list Decision_) (props : gmap string Proposal) (proposals : list Proposal).
Variables (view0 : gmap string AttemptRecord) (j0 : J).
Hypothesis Hprops : forall id p, props !! id = Some p -> p ∈ proposals /\ p_ID p = id.
Variable Jok : J -> Prop.
Hypotheses (Hversioned : versioned Jok) (Hj0 : Jok j0).

Lemma replays_ok log j : replays j0 log j -> Jok j.
Proof using Hversioned Hj0. induction 1; [done| |done..]. by eapply (ve_put _ Hversioned). Qed.

Abbreviation now := (in_Now inp).
Abbreviation durable := (exists j : J, Jok j /\ Durable j = true).
Abbreviation auth := (authorised cfg epoch inp decisions durable proposals).
Abbreviation again := (resendable cfg inp decisions durable proposals).
Abbreviation Tr := (trace epoch now auth again view0).
Abbreviation Allowed := (allowed epoch now auth again).

Definition keyed (m : gmap string AttemptRecord) : Prop := forall k r, m !! k = Some r -> Key r = k.

(** What the engine holds is what the protocol says it holds, up to the
    recovery it shows without persisting it. *)
Definition synced (view m : gmap string AttemptRecord) : Prop := core <$> view = core <$> m.

Definition inv (fresh : option AttemptRecord) (s : estate J) : Prop :=
  keyed (s_recs s) /\
  exists view, (Tr (s_log s) view fresh /\ replays j0 (s_log s) (s_j s)) /\ synced view (s_recs s).

Definition Inv (s : estate J) : Prop := exists fresh, inv fresh s.

Lemma Inv_journal s : Inv s -> Jok (s_j s).
Proof using Hversioned Hj0. intros (f & _ & view & [_ Hr] & _). by eapply replays_ok. Qed.

(** A write allowed whatever of the shown recoveries is persisted. *)
Definition allowed_now (m : gmap string AttemptRecord) (next : AttemptRecord) (launch : bool) : Prop :=
  forall view, synced view m -> Allowed view (stamp epoch next) launch.

(** ** Parts of the state *)
Definition stable (P : estate J -> Prop) : Prop :=
  forall s s', s_recs s = s_recs s' -> s_log s = s_log s' -> s_j s = s_j s' -> P s -> P s'.

Lemma inv_stable f : stable (inv f).
Proof. intros s s' Hr Hl Hj. unfold inv. by rewrite Hr, Hl, Hj. Qed.

Lemma Inv_stable : stable Inv.
Proof. intros s s' Hr Hl Hj [f Hf]. exists f. by apply (inv_stable f s). Qed.

Lemma and_stable P Q : stable P -> stable Q -> stable (fun s => P s /\ Q s).
Proof. intros HP HQ s s' Hr Hl Hj [? ?]. split; [by apply (HP s)|by apply (HQ s)]. Qed.

Lemma recs_stable (P : gmap string AttemptRecord -> Prop) : stable (fun s => P (s_recs s)).
Proof. intros s s' Hr Hl. by rewrite Hr. Qed.

Lemma wakeAt_stable t P : stable P -> hoare P (wakeAt inp t) (fun _ => P).
Proof.
  intros HP s Hs. unfold wakeAt, modify_sm. simpl.
  apply (HP s); [..|done]; by repeat case_match.
Qed.

Lemma count_stable f P : stable P -> hoare P (count f) (fun _ => P).
Proof. intros HP s Hs. by apply (HP s). Qed.

Lemma ret_stable {A} (v : A) (P : estate J -> Prop) : hoare P (mret v) (fun _ => P).
Proof. by intros s Hs. Qed.

(** ** Records up to their recovery *)
Lemma synced_lookup view m k r :
  synced view m -> m !! k = Some r -> exists r0, view !! k = Some r0 /\ core r0 = core r.
Proof.
  intros Hs Hk. assert ((core <$> view) !! k = Some (core r)) as Hv by by rewrite Hs, lookup_fmap, Hk.
  rewrite lookup_fmap in Hv. destruct (view !! k) as [r0|]; [|done]. apply (inj Some) in Hv. by exists r0.
Qed.

Lemma synced_lookup_back view m k r :
  synced view m -> view !! k = Some r -> exists r0, m !! k = Some r0 /\ core r0 = core r.
Proof. intros Hs. apply synced_lookup. by symmetry. Qed.

Lemma synced_insert view m k r r' :
  synced view m -> core r = core r' -> synced (<[k := r]> view) (<[k := r']> m).
Proof. intros Hs Hc. unfold synced. by rewrite !fmap_insert, Hs, Hc. Qed.

(** The fields [core] keeps. *)
Ltac core_fields Hc :=
  match type of Hc with core ?a = core ?b =>
    pose proof (f_equal Key Hc); pose proof (f_equal ProposalID Hc); pose proof (f_equal TargetUID Hc);
    pose proof (f_equal Digest Hc); pose proof (f_equal Attempt Hc); pose proof (f_equal RPhase Hc);
    pose proof (f_equal Fence Hc); pose proof (f_equal SentFence Hc); pose proof (f_equal Sends Hc);
    pose proof (f_equal AckedAt Hc); pose proof (f_equal EndedAt Hc); pose proof (f_equal MaxSends Hc);
    pose proof (f_equal RApproval Hc); pose proof (f_equal RDecision Hc);
    pose proof (f_equal Retryable Hc); pose proof (f_equal MaxAttempts Hc)
  end; simpl in *.

Lemma progress_core old old' next :
  core old = core old' -> progress now old next -> progress now old' next.
Proof.
  intros Hc Hp. core_fields Hc.
  destruct Hp; [eapply progress_ack|eapply progress_refuse|eapply progress_end|eapply progress_timeout|
    eapply progress_withdraw|eapply progress_recover]; try congruence; auto.
Qed.

Lemma again_core old old' : core old = core old' -> again old -> again old'.
Proof.
  intros Hc. core_fields Hc. unfold resendable, still_approved. intros (p & Hp'). exists p. congruence.
Qed.

Lemma allow_update m k r next :
  keyed m -> m !! k = Some r -> Key next = k ->
  (RPhase next <> RPhase r -> (Fence r <= epoch)%N) ->
  same_attempt (core r) (core (stamp epoch next)) -> progress now r (stamp epoch next) ->
  allowed_now m next false.
Proof.
  intros Hm Hk Hn Hf Hsame Hp view Hv. destruct (synced_lookup view m k r Hv Hk) as (r0 & Hr0 & Hc).
  eapply (allowed_update _ _ _ _ _ _ r0).
  - simpl. by rewrite Hn.
  - done.
  - intros Hch. assert (Fence r <= epoch)%N as Hle; [|core_fields Hc; congruence].
    apply Hf. core_fields Hc. simpl in Hch. congruence.
  - by rewrite Hc.
  - by eapply progress_core.
Qed.

Lemma allow_resend m k r :
  keyed m -> m !! k = Some r -> (Fence r <= epoch)%N -> RPhase r = PhaseDispatching ->
  (Sends r < MaxSends r)%Z -> again r -> allowed_now m (resent epoch now r) true.
Proof.
  intros Hm Hk Hf Hp Hs Ha view Hv. destruct (synced_lookup view m k r Hv Hk) as (r0 & Hr0 & Hc).
  eapply (allowed_resend _ _ _ _ _ _ r0).
  - simpl. by rewrite (Hm k r Hk).
  - done.
  - core_fields Hc. congruence.
  - by rewrite Hc.
  - core_fields Hc. split; simpl; try split; congruence.
  - by eapply again_core.
Qed.

(** ** put *)
Lemma put_record_ok next m launch :
  allowed_now m next launch ->
  hoare (fun s => Inv s /\ s_recs s = m) (put_record epoch next) (fun o s =>
    s_recs s = m /\
    match o with
    | Some r => r = bump (stamp epoch next) /\ keyed m /\
                exists view, (Tr (s_log s) (<[Key r := r]> view) (if launch then Some r else None) /\ replays j0 (s_log s) (s_j s)) /\
                  synced view m
    | None => inv None s
    end).
Proof.
  intros Hall. unfold put_record.
  eapply (hoare_bind _ _ _ (fun _ s => Inv s /\ s_recs s = m)).
  { destruct (_ && _); [apply count_stable|apply ret_stable].
    apply and_stable; [apply Inv_stable|apply (recs_stable (fun x => x = m))]. }
  intros _ s [[f [Hkey [view [[Ht Hj] Hs]]]] Hm]. rewrite Hm in *. specialize (Hall view Hs).
  unfold mbind, sm_bind, get_sm, modify_sm; simpl.
  destruct (Put (stamp epoch next) (s_j s)) as [answer j] eqn:Ep. simpl.
  destruct answer as [err|r]; simpl.
  - split; [done|]. split; [by simpl; rewrite Hm|]. exists view. simpl. rewrite Hm.
    split; [|done]. split; [|by eapply replays_put]. eapply trace_event; [exact Ht|]. by eapply event_refused.
  - pose proof (ve_stored _ Hversioned _ _ _ _ (replays_ok _ _ Hj) Ep) as ->. split; [done|]. split_and!; [done..|]. exists view. split; [|done].
    split; [|by eapply replays_put]. eapply trace_event; [exact Ht|]. by apply (event_stored _ _ _ _ _ _ (stamp epoch next) launch).
Qed.

Lemma put_ok k next m launch :
  Key next = k -> allowed_now m next launch ->
  hoare (fun s => Inv s /\ s_recs s = m) (put epoch k next) (fun b s =>
    if b : bool then inv (if launch then Some (bump (stamp epoch next)) else None) s /\ s_recs s = <[k := bump (stamp epoch next)]> m
    else inv None s /\ s_recs s = m).
Proof.
  intros Hk Hall. unfold put. eapply hoare_bind; [by eapply put_record_ok|].
  intros [r|]; intros s [Hm Hp]; simpl.
  - destruct Hp as (-> & Hkey & view & Ht & Hs). rewrite Hm. split; [|done]. split.
    + simpl. intros k' r'. rewrite lookup_insert. case_decide; [|apply Hkey].
      intros [= <-]. by subst.
    + exists (<[k := bump (stamp epoch next)]> view). simpl in *. rewrite Hk in Ht.
      split; [done|]. by apply synced_insert.
  - by split.
Qed.

(** A put whose result is ignored. *)
Lemma put_any k next m launch :
  Key next = k -> allowed_now m next launch ->
  hoare (fun s => Inv s /\ s_recs s = m) (put epoch k next) (fun _ => Inv).
Proof.
  intros Hk Hall. eapply hoare_weaken; [by apply put_ok|done|].
  intros [] s [Hi _]; by eexists.
Qed.

(** ** Sending *)
Lemma receipt_allowed m k r (b : bool) ref :
  keyed m -> m !! k = Some r -> (Fence r <= epoch)%N -> RPhase r = PhaseDispatching ->
  allowed_now m (if b then accepted_at now ref r else refused_at now ref r) false.
Proof.
  intros Hm Hk Hf Hp. eapply allow_update; [done|exact Hk| |done|by destruct b|].
  - by destruct b; simpl; apply Hm.
  - destruct b; [by apply progress_ack|]. apply progress_refuse; try done; [by rewrite Hp|by left].
Qed.

Lemma send_ok k r :
  Key r = k -> Fence r = epoch -> RPhase r = PhaseDispatching -> SentFence r = epoch ->
  hoare (fun s => inv (Some r) s /\ s_recs s !! k = Some r) (send epoch inp k (RProvider r)) (fun _ => Inv).
Proof.
  intros Hkey Hfence Hph Hsent. unfold send.
  eapply hoare_bind.
  { apply count_stable, and_stable; [apply inv_stable|apply (recs_stable (fun m => m !! k = Some r))]. }
  intros ?. apply hoare_get. intros s0 [Hi0 Hk0]. rewrite Hk0.
  eapply (hoare_bind _ _ _ (fun _ s => inv None s /\ s_recs s = s_recs s0)).
  { intros s ->. destruct Hi0 as (Hkeyed & view & [Ht Hj] & Hs). simpl. split; [|done]. split; [done|].
    exists view. split; [|done]. split; [|by apply replays_submit].
    eapply trace_event; [exact Ht|]. by apply event_submit. }
  intros ?. assert (Inv_none : forall s, inv None s -> Inv s) by (intros s Hs; by exists None).
  destruct (Submit _ _ _) as [rc|].
  2:{ eapply hoare_bind; [apply count_stable, and_stable;
        [apply inv_stable|apply (recs_stable (fun m => m = s_recs s0))]|].
      intros ?. eapply hoare_weaken; [apply wakeAt_stable, Inv_stable| |done].
      intros s [Hs _]. by apply Inv_none. }
  destruct (negb _).
  { eapply hoare_weaken; [apply count_stable, Inv_stable| |done]. intros s [Hs _]. by apply Inv_none. }
  eapply (hoare_bind _ _ _ (fun _ => Inv)).
  - eapply hoare_weaken; [eapply (put_any k _ (s_recs s0))| |done].
    + destruct (rc_Accepted rc); done.
    + apply (receipt_allowed _ k); [apply Hi0|done|lia|done].
    + intros s [Hs Hr]. split; [by apply Inv_none|done].
  - intros ok. apply hoare_get. intros s1 Hi1. destruct (_ && _).
    + eapply hoare_weaken; [apply wakeAt_stable, Inv_stable| |done]. by intros s ->.
    + by intros s ->.
Qed.

(** ** Polling *)
Lemma adopt_ok k r res m :
  keyed m -> m !! k = Some r -> (Fence r <= epoch)%N -> occupies (RPhase r) = true ->
  hoare (fun s => Inv s /\ s_recs s = m) (adopt epoch inp k r res)
    (fun b s => Inv s /\ ((b : bool) = false -> s_recs s = m)).
Proof.
  intros Hm Hk Hf Ho. assert (Key r = k) as Hkey by by apply Hm.
  assert (forall next, Key next = k -> allowed_now m next false ->
    hoare (fun s => Inv s /\ s_recs s = m)
      (ok ← put epoch k next;
       if negb ok then mret false
       else _ ← count inc_Adopted; s ← get_sm; let r := default r (s_recs s !! k) in
            _ ← (if bool_decide (RPhase r = PhaseAccepted)
                 then wakeAt inp (Add (AckedAt r) (CompletionTimeout r)) else mret tt);
            mret true)
      (fun b s => Inv s /\ ((b : bool) = false -> s_recs s = m))) as Happly.
  { intros next Hn Hall. eapply hoare_bind; [by eapply put_ok|]. intros [|]; simpl.
    - eapply (hoare_bind _ _ _ (fun _ => Inv)).
      { eapply hoare_weaken; [apply count_stable, Inv_stable| |done]. intros s [Hi _]. by eexists. }
      intros ?. apply hoare_get. intros s1 Hi1. eapply (hoare_bind _ _ _ (fun _ => Inv)).
      + case_bool_decide; [|by intros s ->].
        eapply hoare_weaken; [apply wakeAt_stable, Inv_stable| |done]. by intros s ->.
      + intros ? s Hs. by split.
    - intros s [Hi Hr]. simpl. split; [by exists None|done]. }
  assert (hoare (fun s => Inv s /\ s_recs s = m) (mret false)
            (fun b s => Inv s /\ ((b : bool) = false -> s_recs s = m))) as Hno.
  { intros s [Hi Hr]. by split. }
  unfold adopt. cbn zeta. case_decide.
  { case_bool_decide as Hp; simpl; [|done]. apply Happly; [done|].
    eapply allow_update; [done|exact Hk|done|done|done|]. by apply progress_ack. }
  case_decide.
  { destruct (IsZero (AckedAt r)) eqn:Ez; simpl.
    - apply Happly; [done|]. eapply allow_update; [done|exact Hk|done|done|done|].
      apply progress_refuse; try done. by right.
    - eapply hoare_bind; [|intros ?; exact Hno].
      apply count_stable, and_stable; [apply Inv_stable|apply (recs_stable (fun x => x = m))]. }
  case_decide.
  { apply Happly; [done|]. eapply allow_update; [done|exact Hk|done|done|done|].
    apply progress_end; try done. by left. }
  case_decide; [|done].
  apply Happly; [done|]. eapply allow_update; [done|exact Hk|done|done|done|].
  apply progress_end; try done. by right.
Qed.

Lemma poll_ok k r m :
  keyed m -> m !! k = Some r -> (Fence r <= epoch)%N -> occupies (RPhase r) = true ->
  hoare (fun s => Inv s /\ s_recs s = m) (poll cfg epoch inp k r)
    (fun b s => Inv s /\ ((b : bool) = false -> s_recs s = m)).
Proof.
  intros Hm Hk Hf Ho. unfold poll.
  assert (hoare (fun s => Inv s /\ s_recs s = m) (mret false)
            (fun b s => Inv s /\ ((b : bool) = false -> s_recs s = m))) as Hno.
  { intros s [Hi Hr]. by split. }
  destruct (cfg_Registry cfg !! RProvider r); [|done].
  apply hoare_get. intros s0 [Hi0 Hr0].
  eapply (hoare_bind _ _ _ (fun _ s => Inv s /\ s_recs s = m)).
  { intros s ->. simpl. split; [|done]. destruct Hi0 as (f & Hkeyed & view & [Ht Hj] & Hs).
    exists None. split; [done|]. exists view. split; [|done]. split; [|by apply replays_result].
    eapply trace_event; [exact Ht|]. by apply event_poll. }
  intros ?. destruct (ProviderResult _ _ _) as [res|]; [|done].
  case_decide; [done|]. destruct (negb _).
  - eapply hoare_bind; [|intros ?; exact Hno].
    apply count_stable, and_stable; [apply Inv_stable|apply (recs_stable (fun x => x = m))].
  - by apply adopt_ok.
Qed.

(** ** Gates and approvals *)
Lemma reason_if_nil b code : reason_if b code = [] <-> b = false.
Proof. by destruct b. Qed.

Lemma gates_nil s p resend :
  Jok (s_j s) -> gates cfg s p resend = [] ->
  gates_open cfg durable p /\
  (resend = false -> busy (s_recs s) (proposal_uid p) (p_ID p) = false).
Proof.
  intros Hjs. unfold gates. rewrite !app_nil_iff, !reason_if_nil, negb_false_iff.
  intros (Hown & Hconf & Happ & Hprov & Hpre & Hdur & Hbusy). split.
  - split; [|split; [done|split; [|split; [|by exists (s_j s); split; [|apply negb_false_iff]]]]].
    + destruct (cfg_Registry cfg !! _) as [reg|] eqn:Ereg; [|done].
      destruct (authorises _ _ _ _) eqn:Ea; [|done]. exists reg. split; [done|].
      unfold authorises in Ea. destruct (_ || _) eqn:Eo; [done|].
      rewrite orb_false_iff, !negb_false_iff, bool_decide_eq_true, nonempty_true in Eo.
      destruct Eo as [Hne Heq]. apply andb_true_iff in Ea as [H5 H6].
      apply contains_true in H5. apply contains_true in H6. split_and!; try done. by rewrite <- Heq.
    + intros Hh He. rewrite He, andb_true_r, Nat.ltb_ge, Nat.le_0_r, length_zero_iff_nil in Happ. done.
    + intros pc Hpc. unfold preconditions_proven in *.
      assert (precondition_reason pc = []) as Hn.
      { destruct (precondition_reason pc) as [|x l] eqn:E; [done|]. exfalso.
        assert (x ∈ p_Preconditions p ≫= precondition_reason) as Hx.
        { apply list_elem_of_bind. exists pc. split; [rewrite E; left|done]. }
        rewrite Hpre in Hx. nil_elem. }
      unfold precondition_reason in Hn. by repeat case_decide.
  - intros ->. done.
Qed.

Lemma invalid_counts p d :
  d ∈ decisions -> d_ProposalID d = p_ID p -> nonempty (invalid cfg inp p d) = false ->
  counts cfg inp decisions p d.
Proof. intros Hd Hid Hv. apply nonempty_false in Hv. by split_and!. Qed.

(** What the loop over the decisions accumulates. *)
Lemma approval_fold p l acc P :
  stable P -> (forall d, d ∈ l -> d ∈ decisions) ->
  hoare P (fold_sm (approval_step cfg inp p) acc l) (fun acc' s =>
    P s /\
    (aps_rejected acc' = false -> aps_rejected acc = false /\
       forall d, d ∈ l -> counts cfg inp decisions p d -> d_Verdict d <> Reject) /\
    (forall a by_, aps_approved acc' = Some (a, by_) -> aps_approved acc = Some (a, by_) \/
       (counts cfg inp decisions p by_ /\ d_Verdict by_ = Approve /\
        a = Build_Approval KindHuman (d_Principal by_) (d_ID by_)))).
Proof.
  intros HP. revert acc. induction l as [|d l IH]; intros acc Hl; cbn [fold_sm].
  { intros s Hs. simpl. split_and!; [done| |by left]. intros Hr. split; [done|].
    by intros d ?%elem_of_nil. }
  destruct acc as [approved rejected notes].
  assert (forall acc1, (aps_rejected acc1 = false -> rejected = false /\
      (counts cfg inp decisions p d -> d_Verdict d <> Reject)) ->
    (forall a by_, aps_approved acc1 = Some (a, by_) -> approved = Some (a, by_) \/
       (counts cfg inp decisions p by_ /\ d_Verdict by_ = Approve /\
        a = Build_Approval KindHuman (d_Principal by_) (d_ID by_))) ->
    hoare P (fold_sm (approval_step cfg inp p) acc1 l) (fun acc' s =>
      P s /\ (aps_rejected acc' = false -> rejected = false /\
         forall d', d' ∈ d :: l -> counts cfg inp decisions p d' -> d_Verdict d' <> Reject) /\
      (forall a by_, aps_approved acc' = Some (a, by_) -> approved = Some (a, by_) \/
         (counts cfg inp decisions p by_ /\ d_Verdict by_ = Approve /\
          a = Build_Approval KindHuman (d_Principal by_) (d_ID by_))))) as Hstep.
  { intros acc1 Hr Ha. eapply hoare_weaken; [apply IH; intros d' Hd'; apply Hl; by right|done|].
    intros acc' s (Hs & Hr' & Ha'). split; [done|]. split.
    - intros Hf. destruct (Hr' Hf) as [H1' H2']. destruct (Hr H1') as [H3' H4']. split; [done|].
      intros d' [->|Hd']%elem_of_cons; auto.
    - intros a by_ He. destruct (Ha' a by_ He) as [Hb|Hb]; [by apply Ha|by right]. }
  unfold approval_step at 1. simpl.
  destruct (negb (bool_decide (d_ProposalID d = p_ID p))) eqn:Eid; simpl.
  { apply Hstep; simpl; [|by left]. intros Hr. split; [done|]. intros (_ & Hid & _).
    by rewrite bool_decide_true in Eid. }
  apply negb_bool_decide_false in Eid.
  destruct (nonempty (invalid cfg inp p d)) eqn:Einv; simpl.
  { apply Hstep; simpl; [|by left]. intros Hr. split; [done|]. intros (_ & _ & Hno).
    by rewrite Hno in Einv. }
  case_decide as Hv.
  { apply Hstep; simpl; [done|by left]. }
  destruct (bool_decide (d_Verdict d = Approve) && _) eqn:Eap.
  - intros s Hs. unfold mbind, sm_bind. simpl. apply Hstep; simpl.
    + intros Hr. by split.
    + intros a by_ [= <- <-]. right. split; [by apply invalid_counts; [apply Hl; left|..]|].
      apply andb_true_iff in Eap as [Ev _]. by apply bool_decide_eq_true in Ev.
    + apply (wakeAt_stable _ P HP s Hs).
  - apply Hstep; simpl; [by intros Hr|by left].
Qed.

Lemma approval_ok p P :
  stable P ->
  hoare P (approval cfg inp decisions p) (fun acc s =>
    P s /\
    (aps_rejected acc = false -> forall d, p_Human p <> [] -> counts cfg inp decisions p d ->
       d_Verdict d <> Reject) /\
    (forall a by_, aps_rejected acc = false -> aps_approved acc = Some (a, by_) ->
       approved_by cfg inp decisions p a by_)).
Proof.
  intros HP. unfold approval. case_bool_decide as Hh.
  { apply length_zero_iff_nil in Hh. intros s Hs. simpl. split_and!; [done| |].
    - intros _ d Hne. by destruct Hne.
    - intros a by_ _ [= <- <-]. by left. }
  assert (p_Human p <> []) as Hne by (intros Hn; by rewrite Hn in Hh).
  eapply hoare_bind; [by apply (approval_fold p decisions)|].
  intros acc s (Hs & Hr & Ha). simpl in *. split; [done|].
  destruct (aps_rejected acc) eqn:Er; simpl; [done|]. rewrite Er.
  destruct (Hr eq_refl) as [_ Hno]. split.
  - intros _ d _ Hc. apply Hno; [apply Hc|done].
  - intros a by_ _ Hab. destruct (Ha a by_ Hab) as [?|(Hc & Hv & Heq)]; [done|]. right.
    split_and!; try done. intros d Hd. apply Hno; [apply Hd|done].
Qed.

Lemma stillApproved_ok p r P :
  stable P ->
  hoare P (stillApproved cfg inp decisions p r) (fun b s =>
    P s /\ ((b : bool) = true -> still_approved cfg inp decisions p r)).
Proof.
  intros HP. unfold stillApproved. eapply hoare_bind; [by apply approval_ok|].
  intros acc s (Hs & Hno & _). simpl. split; [done|].
  destruct (aps_rejected acc) eqn:Er; [done|]. specialize (Hno eq_refl).
  case_decide as Hk.
  { rewrite andb_true_iff, !bool_decide_eq_true, length_zero_iff_nil. intros [Hh Hp].
    split; [auto|]. by left. }
  destruct (_ || _) eqn:Eo; [done|].
  rewrite !orb_false_iff, !negb_bool_decide_false, bool_decide_eq_false, length_zero_iff_nil in Eo.
  destruct Eo as ((((((Hkind & Hh) & Hid) & Hpr) & Hpid) & Hv) & Hinv).
  intros Hex. apply existsb_exists in Hex as (d & Hd & Hsame). apply same_spec in Hsame as ->.
  apply list_elem_of_In in Hd. split; [auto|]. right. split_and!; try done. by apply invalid_counts.
Qed.

(** ** advance *)
Lemma withdraw_ok k r m :
  keyed m -> m !! k = Some r -> (Fence r <= epoch)%N -> RPhase r = PhaseDispatching ->
  hoare (fun s => Inv s /\ s_recs s = m)
    (_ ← put epoch k (close_as PhaseWithdrawn now r); mret tt) (fun _ => Inv).
Proof.
  intros Hm Hk Hf Hp. eapply hoare_bind; [|intros ? s Hs; exact Hs]. eapply (put_any k _ m).
  - exact (Hm k r Hk).
  - eapply allow_update; [done|exact Hk|exact (Hm k r Hk)|done|done|]. by apply progress_withdraw.
Qed.

Lemma withdraw_or_resend_ok k r m :
  keyed m -> m !! k = Some r -> (Fence r <= epoch)%N -> RPhase r = PhaseDispatching ->
  (Sends r < MaxSends r)%Z ->
  hoare (fun s => Inv s /\ s_recs s = m)
    (withdraw_or_resend cfg epoch inp decisions props k r) (fun _ => Inv).
Proof.
  intros Hm Hk Hf Hp Hsends. unfold withdraw_or_resend. assert (Key r = k) as Hkey by by apply Hm.
  apply hoare_get. intros s0 [Hi0 Hr0].
  assert (forall {A} (m : eng J A) Q, hoare (fun s => Inv s /\ s_recs s = s_recs s0) m Q ->
    hoare (fun s => s = s0) m Q) as Hat.
  { intros A m' Q Hm'. eapply hoare_weaken; [exact Hm'| |done]. by intros s ->. }
  apply Hat. rewrite Hr0.
  destruct (props !! ProposalID r) as [p|] eqn:Epr; [|by apply withdraw_ok].
  destruct (_ || _ || _) eqn:Eg; [by apply withdraw_ok|].
  rewrite !orb_false_iff, negb_bool_decide_false, Nat.ltb_ge, Nat.le_0_r, length_zero_iff_nil in Eg.
  destruct Eg as [[Hdig _] Hgates]. apply gates_nil in Hgates as [Hopen _]; [|by apply Inv_journal].
  eapply hoare_bind.
  { apply (stillApproved_ok p r (fun s => Inv s /\ s_recs s = m)), and_stable;
      [apply Inv_stable|apply (recs_stable (fun x => x = m))]. }
  intros [|]; simpl.
  2:{ eapply hoare_weaken; [by apply withdraw_ok| |done]. intros s [Hs _]. exact Hs. }
  eapply (hoare_weaken _ _ (fun s => (Inv s /\ s_recs s = m) /\ still_approved cfg inp decisions p r)
    _ (fun _ => Inv)); [|intros s [Hs Hst]; split; [exact Hs|exact (Hst eq_refl)]|done].
  apply hoare_pure. intros Hstill.
  assert (allowed_now m (resent epoch now r) true) as Hall.
  { eapply allow_resend; try done. destruct (Hprops _ _ Epr) as [Hin Hid]. exists p. by split_and!. }
  eapply hoare_bind; [by eapply put_ok|]. intros [|]; simpl.
  - eapply hoare_bind.
    { apply count_stable, and_stable; [apply inv_stable|].
      apply (recs_stable (fun x => x = <[k := bump (stamp epoch (resent epoch now r))]> m)). }
    intros ?. eapply hoare_weaken; [apply (send_ok k (bump (stamp epoch (resent epoch now r)))); done| |done].
    intros s [Hi ->]. split; [done|]. by rewrite lookup_insert_eq.
  - intros s [Hi _]. by exists None.
Qed.

Lemma advance_ok k r m :
  keyed m -> m !! k = Some r -> occupies (RPhase r) = true ->
  hoare (fun s => Inv s /\ s_recs s = m) (advance cfg epoch inp decisions props k r) (fun _ => Inv).
Proof.
  intros Hm Hk Ho. assert (Key r = k) as Hkey by by apply Hm. unfold advance, own.
  assert (forall t, hoare (fun s => Inv s /\ s_recs s = m) (wakeAt inp t) (fun _ => Inv)) as Hwake.
  { intros t. eapply hoare_weaken; [apply wakeAt_stable, Inv_stable| |done]. by intros s [? _]. }
  destruct (N.leb_spec (Fence r) epoch) as [Hf|Hf]; simpl; [|by intros s [? _]].
  eapply hoare_bind; [by apply poll_ok|]. intros [|]; [by intros s [? _]|].
  eapply (hoare_weaken _ _ (fun s => Inv s /\ s_recs s = m) _ (fun _ => Inv)); [|intros s [? Hr]; by auto|done].
  assert (forall next, Key next = k -> allowed_now m next false ->
    hoare (fun s => Inv s /\ s_recs s = m) (_ ← put epoch k next; mret tt) (fun _ => Inv)) as Hput'.
  { intros next Hn Hall. eapply hoare_bind; [by eapply put_any|]. intros ? s Hs; exact Hs. }
  assert (inFlight (RPhase r) = true -> allowed_now m (close_as PhaseTimedOut now r) false) as Htimeout.
  { intros Hfl. eapply allow_update; [done|exact Hk|done|done|done|]. by apply progress_timeout. }
  destruct (RPhase r) eqn:Ephase; try by intros s [? _].
  - destruct (negb (Before now _)); [by apply Hput'; [|apply Htimeout]|].
    eapply hoare_bind.
    { apply wakeAt_stable, and_stable; [apply Inv_stable|apply (recs_stable (fun x => x = m))]. }
    intros ?. destruct (_ || _) eqn:Esend; [done|].
    apply orb_false_iff in Esend as [Es _]. apply Z.leb_gt in Es.
    by apply withdraw_or_resend_ok.
  - destruct (negb (Before now _)); [by apply Hput'; [|apply Htimeout]|]. done.
  - done.
  - done.
Qed.

Lemma Inv_keyed s : Inv s -> keyed (s_recs s).
Proof. by intros [f [? _]]. Qed.

Lemma advance_key_ok k : hoare Inv (advance_key cfg epoch inp decisions props k) (fun _ => Inv).
Proof.
  apply hoare_get. intros s0 Hi0. destruct (s_recs s0 !! k) as [r|] eqn:Ek; [|by intros s ->].
  destruct (occupies (RPhase r)) eqn:Eo; [|by intros s ->].
  eapply hoare_weaken; [apply (advance_ok k r (s_recs s0)); [by apply Inv_keyed|done|done]| |done].
  by intros s ->.
Qed.

(** ** recover *)
Lemma recover_ok k r m :
  keyed m -> m !! k = Some r -> EndedAt r <> 0%Z ->
  hoare (fun s => Inv s /\ s_recs s = m) (recover epoch inp k r) (fun _ => Inv).
Proof.
  intros Hm Hk He. unfold recover.
  destruct (assessRecovery r _ _) as [err|[rec detail]]; [by intros s [? _]|].
  destruct (final rec) eqn:Ef; simpl.
  - eapply hoare_bind; [|intros ? s Hs; exact Hs]. eapply (put_any k _ m); [exact (Hm k r Hk)|].
    eapply allow_update; [done|exact Hk|exact (Hm k r Hk)| |done|by apply progress_recover].
    by intros [].
  - eapply (hoare_bind _ _ _ (fun _ => Inv)); [|intros ?; apply wakeAt_stable, Inv_stable].
    intros s [[f [Hkey (view & Ht & Hs)]] Hr]. exists f. simpl. rewrite Hr in *. split.
    + intros k' r'. simpl. rewrite lookup_insert. case_decide; [|apply Hm].
      intros [= <-]. subst. exact (Hm k' r Hk).
    + exists view. split; [done|]. unfold synced. simpl. rewrite fmap_insert.
      rewrite Hs. symmetry. apply insert_id. rewrite lookup_fmap, Hk. done.
Qed.

Lemma recover_key_ok k : hoare Inv (recover_key epoch inp k) (fun _ => Inv).
Proof.
  apply hoare_get. intros s0 Hi0. destruct (s_recs s0 !! k) as [r|] eqn:Ek; [|by intros s ->].
  destruct (negb (IsZero (EndedAt r)) && _) eqn:Ee; [|by intros s ->].
  apply andb_true_iff in Ee as [He _].
  eapply hoare_weaken; [apply (recover_ok k r (s_recs s0)); [by apply Inv_keyed|done|]| |done].
  - unfold IsZero in He. apply negb_true_iff in He. by apply bool_decide_eq_false in He.
  - by intros s ->.
Qed.

(** ** New attempts *)
Lemma elem_of_record_at m k r : r ∈ record_at m k <-> m !! k = Some r.
Proof.
  unfold record_at. destruct (m !! k) as [r'|]; [|by rewrite elem_of_nil].
  rewrite list_elem_of_singleton. split; [by intros ->|by intros [= ->]].
Qed.

Lemma elem_of_keys m k : k ∈ keys m <-> is_Some (m !! k).
Proof.
  unfold keys, sort_strings. rewrite elem_of_sort_slice, list_elem_of_fmap. split.
  - intros ([k' r] & -> & Hin). apply elem_of_map_to_list in Hin. by exists r.
  - intros [r Hr]. exists (k, r). split; [done|]. by apply elem_of_map_to_list.
Qed.

Lemma elem_of_attempts m pid r :
  r ∈ attempts m pid <-> ProposalID r = pid /\ exists k, m !! k = Some r.
Proof.
  unfold attempts. rewrite elem_of_sort_slice, !list_elem_of_In, List.filter_In, <- !list_elem_of_In.
  rewrite bool_decide_eq_true, list_elem_of_bind. split.
  - intros [(k & Hr & _) ?]. split; [done|]. exists k. by apply elem_of_record_at.
  - intros [? [k Hk]]. split; [|done]. exists k. split; [by apply elem_of_record_at|].
    apply elem_of_keys. by exists r.
Qed.

#[local] Instance attempt_strict_weak : StrictWeak (fun a b => Z.ltb (Attempt a) (Attempt b)).
Proof.
  split.
  - intros x. apply Z.ltb_irrefl.
  - intros x y z. rewrite !Z.ltb_lt. lia.
  - intros x y z. rewrite !Z.ltb_ge. lia.
Qed.

Lemma last_max {A} (less : A -> A -> bool) l x y :
  StronglySorted (le_of less) l -> last l = Some x -> y ∈ l -> y = x \/ le_of less y x.
Proof.
  intros Hs. revert x. induction Hs as [|a l _ IH Hall]; intros x; [by intros [=]|].
  destruct l as [|b l].
  - intros [= ->] [->|Hy]%elem_of_cons; [by left|nil_elem].
  - intros Hl [->|Hy]%elem_of_cons; [|by apply IH].
    right. rewrite Forall_forall in Hall. apply Hall.
    apply last_Some in Hl as [l' Hl']. change (last (a :: b :: l)) with (last (b :: l)) in *.
    destruct l' as [|a' l']; [done|]. injection Hl' as -> ->. set_solver.
Qed.

Lemma busy_false m uid pid :
  busy m uid pid = false -> forall k r, m !! k = Some r -> TargetUID r = uid -> ProposalID r <> pid ->
  occupies (RPhase r) = false.
Proof.
  unfold busy. intros Hb k r Hk Hu Hp. destruct (occupies (RPhase r)) eqn:Eo; [|done].
  apply not_true_iff_false in Hb. destruct Hb. apply existsb_exists. exists r.
  rewrite <- list_elem_of_In, Eo, bool_decide_true, bool_decide_false by done. split; [|done].
  apply list_elem_of_fmap. exists (k, r). split; [done|]. by apply elem_of_map_to_list.
Qed.

Lemma next_attempt_may m p attempt next :
  keyed m -> next_attempt (attempts m (p_ID p)) = inr attempt ->
  ProposalID next = p_ID p -> Attempt next = attempt ->
  forall view, synced view m -> may_attempt view next.
Proof.
  intros Hm Hn Hid Hat view Hv. unfold next_attempt in Hn.
  destruct (last (attempts m (p_ID p))) as [r|] eqn:El.
  - destruct (_ || _ || _ || _) eqn:Eo; [done|]. injection Hn as Hn.
    rewrite !orb_false_iff, negb_bool_decide_false, negb_false_iff, Z.leb_gt in Eo.
    destruct Eo as [[[_ Hph] Hret] Hb].
    assert (r ∈ attempts m (p_ID p)) as Hin.
    { apply last_Some in El as [l' ->]. set_solver. }
    apply elem_of_attempts in Hin as [Hpid [k Hk]]. right.
    destruct (synced_lookup view m k r Hv Hk) as (r0 & Hr0 & Hc). exists k, r0. core_fields Hc.
    split_and!; try congruence.
    intros k' r' Hk' Hp'. destruct (synced_lookup_back view m k' r' Hv Hk') as (r1 & Hr1 & Hc1).
    core_fields Hc1. assert (r1 ∈ attempts m (p_ID p)) as Hin1.
    { apply elem_of_attempts. split; [congruence|by exists k']. }
    destruct (last_max _ _ _ _ (sort_slice_sorted _ _ _ attempt_strict_weak) El Hin1) as [->|Hle].
    + lia.
    + unfold le_of in Hle. apply Z.ltb_ge in Hle. lia.
  - injection Hn as <-. left. split; [done|]. intros k r Hk Hp.
    destruct (synced_lookup_back view m k r Hv Hk) as (r1 & Hr1 & Hc1). core_fields Hc1.
    assert (r1 ∈ attempts m (p_ID p)) as Hin.
    { apply elem_of_attempts. split; [congruence|by exists k]. }
    apply last_None in El. rewrite El in Hin. nil_elem.
Qed.

Lemma SendBudget_nonzero x : SendBudget x <> 0%Z.
Proof. unfold SendBudget, DefaultMaxSends. destruct (Z.eqb_spec (x_MaxSends x) 0); [done|done]. Qed.

Lemma new_record_allowed m p attempt a by_ :
  keyed m -> p ∈ proposals -> next_attempt (attempts m (p_ID p)) = inr attempt ->
  busy m (proposal_uid p) (p_ID p) = false -> gates_open cfg durable p ->
  approved_by cfg inp decisions p a by_ ->
  allowed_now m (new_record epoch inp p attempt a by_) true.
Proof.
  intros Hm Hp Hn Hb Hg Ha view Hv. apply allowed_create; [done| |].
  - split; try done.
    + apply SendBudget_nonzero.
    + intros k r Hk Hu Hpid. destruct (synced_lookup_back view m k r Hv Hk) as (r1 & Hr1 & Hc1).
      core_fields Hc1. rewrite <- (busy_false m _ _ Hb k r1 Hr1); congruence.
    + eapply next_attempt_may; [exact Hm|exact Hn|done|done|done].
  - exists p, attempt, a, by_. by split_and!.
Qed.

Lemma start_attempt_ok p attempt a by_ m :
  allowed_now m (new_record epoch inp p attempt a by_) true ->
  hoare (fun s => Inv s /\ s_recs s = m) (start_attempt epoch inp props p attempt a by_) (fun _ => Inv).
Proof.
  intros Hall. unfold start_attempt. eapply hoare_bind; [by eapply put_record_ok|].
  intros [r|]; simpl.
  2:{ intros s [_ Hi]. by exists None. }
  set (r1 := bump (stamp epoch (new_record epoch inp p attempt a by_))).
  eapply (hoare_bind _ _ _ (fun _ s => r = r1 /\ inv (Some r) s /\ s_recs s !! Key r = Some r)).
  { intros s (Hm & -> & Hkey & view & Ht & Hs). simpl. split; [done|]. rewrite Hm.
    split; [|by rewrite lookup_insert_eq]. split.
    - intros k' r'. simpl. rewrite lookup_insert. case_decide; [|apply Hkey]. by intros [= <-].
    - exists (<[Key r1 := r1]> view). split; [done|]. by apply synced_insert. }
  intros ?. eapply (hoare_bind _ _ _ (fun _ => Inv)).
  { intros s (-> & Hi & Hk). revert s Hi Hk.
    assert (hoare (fun s => inv (Some r1) s /\ s_recs s !! Key r1 = Some r1)
      (send epoch inp (Key r1) (RProvider r1)) (fun _ => Inv)) as Hsend by by apply send_ok.
    intros s Hi Hk. by apply Hsend. }
  intros ?. apply hoare_get. intros s1 Hi1.
  eapply hoare_bind; [|intros ? s Hs; exact Hs].
  eapply hoare_weaken; [apply wakeAt_stable, Inv_stable| |done]. by intros s ->.
Qed.

Lemma decide_proposal_ok p :
  p ∈ proposals -> hoare Inv (decide_proposal cfg epoch inp decisions props p) (fun _ => Inv).
Proof.
  intros Hp. unfold decide_proposal. apply hoare_get. intros s0 Hi0.
  destruct (next_attempt _) as [last|attempt] eqn:En; [by intros s ->|].
  eapply hoare_bind.
  { eapply (hoare_weaken _ _ (fun s => Inv s /\ s_recs s = s_recs s0)); [|by intros s ->|done].
    apply approval_ok, and_stable; [apply Inv_stable|apply (recs_stable (fun m => m = s_recs s0))]. }
  intros acc. simpl.
  destruct (aps_rejected acc) eqn:Er; [by intros s [[? _] _]|].
  destruct (0 <? length (gates cfg s0 p false)) eqn:Eg; [by intros s [[? _] _]|].
  apply Nat.ltb_ge, Nat.le_0_r, length_zero_iff_nil, gates_nil in Eg as [Hopen Hbusy];
    [|by apply Inv_journal].
  destruct (aps_approved acc) as [[a by_]|] eqn:Ea; [|by intros s [[? _] _]].
  intros s (Hs & _ & Hap). specialize (Hap a by_ eq_refl eq_refl). revert s Hs.
  apply start_attempt_ok. apply new_record_allowed; auto. by apply Inv_keyed.
Qed.

Lemma step_body_ok :
  hoare Inv (step_body cfg epoch inp decisions props proposals) (fun _ => Inv).
Proof.
  unfold step_body. apply hoare_get. intros s0 Hi0.
  eapply (hoare_bind _ _ _ (fun _ => Inv)).
  { eapply hoare_weaken; [apply hoare_each; intros k _; apply advance_key_ok| |done]. by intros s ->. }
  intros ?. apply hoare_get. intros s1 Hi1. eapply (hoare_bind _ _ _ (fun _ => Inv)).
  { eapply hoare_weaken; [apply hoare_each; intros k _; apply recover_key_ok| |done]. by intros s ->. }
  intros ?. eapply (hoare_bind _ _ _ (fun _ => Inv)).
  { apply (hoare_fold _ _ (fun _ => Inv)). intros acc p Hp. unfold show_proposal.
    eapply hoare_bind; [by apply decide_proposal_ok|]. intros ? s Hs; exact Hs. }
  intros ?. apply hoare_get. intros s2 Hi2. by intros s ->.
Qed.
End step_spec.
