(* ===== verification/StepSpec.v ===== *)
(** * What [Step] guarantees (pkg/action/engine.go)

    The protocol of EngineSpec.v, applied to the whole of [Step]: every log is
    a trace of the protocol, every hand-off follows a persisted and authorised
    record, and a journal that does not survive a restart starts nothing. *)

From S2P Require Import Prelude Identity Predicate Contract Assessment Evaluator Profile.
From S2P Require Import ActionTypes Journal Proposal Recovery Engine EngineSpec.

(** The records of a listing by key, as [Step] reads them. *)
Definition listed (l : list AttemptRecord) : gmap string AttemptRecord :=
  list_to_map ((fun r => (Key r, r)) <$> rev l).

(** What is held after a log: what was listed, and every record stored since. *)
Definition hold (view : gmap string AttemptRecord) (ev : Event) : gmap string AttemptRecord :=
  match ev with EvPut r (inr r') => <[Key r := r']> view | _ => view end.

Definition held (l : list AttemptRecord) (log : list Event) : gmap string AttemptRecord := foldl hold (listed l) log.

Section step_facts.
Context `{GoText} `{SortSlice} `{Digests} `{Providers} {J : Type} `{Journal J}.

(** The proposals a step derives from what it lists. *)
Definition step_proposals (inp : Input) (l : list AttemptRecord) : list Proposal :=
  derive (in_Snapshot inp) (in_Assessment inp) (in_Profile inp) (episode (listed l)).

(** Two executions of the claim: the attempts that may be started, and those
    that may be sent again, in a step that lists [l]. *)
Definition step_authorised (Jok : J -> Prop) (cfg : Config) (inp : Input) (en : Engine) (ep : N) (l : list AttemptRecord)
    (r : AttemptRecord) : Prop :=
  authorised cfg ep inp (read_decisions cfg (en_stats en)).1 (exists j : J, Jok j /\ Durable j = true)
    (step_proposals inp l) r.

Definition step_resendable (Jok : J -> Prop) (cfg : Config) (inp : Input) (en : Engine) (l : list AttemptRecord)
    (r : AttemptRecord) : Prop :=
  resendable cfg inp (read_decisions cfg (en_stats en)).1 (exists j : J, Jok j /\ Durable j = true)
    (step_proposals inp l) r.

(** * Lemmas *)
Lemma listed_keyed l : keyed (listed l).
Proof.
  intros k r Hr. apply elem_of_list_to_map_2, list_elem_of_fmap in Hr as (r' & [= -> ->] & _). done.
Qed.

Lemma props_in (ps : list Proposal) id p :
  (list_to_map ((fun p => (p_ID p, p)) <$> rev ps) : gmap string Proposal) !! id = Some p ->
  p ∈ ps /\ p_ID p = id.
Proof.
  intros Hp. apply elem_of_list_to_map_2, list_elem_of_fmap in Hp as (p' & [= -> ->] & Hin).
  split; [|done]. by rewrite list_elem_of_In, in_rev, <- list_elem_of_In.
Qed.

Lemma claim_epoch_ok (Jok : J -> Prop) en j answer j' :
  versioned Jok -> Jok j -> claim_epoch en j = (answer, j') -> Jok j'.
Proof.
  intros Hv Hj. unfold claim_epoch. destruct (N.eqb _ _); [|by intros [= _ <-]].
  destruct (Epoch j) as [[ep|] j1] eqn:Ee; intros [= _ <-]; by eapply (ve_epoch _ Hv).
Qed.

Lemma Step_trace (Jok : J -> Prop) cfg inp en (j : J) :
  versioned Jok -> Jok j ->
  match Step cfg inp en j with
  | (inl _, en', j', log) => log = []
  | (inr out, en', j', log) => exists l j1 j2 view fresh,
      claim_epoch en j = (inr (en_epoch en'), j1) /\ List_ j1 = (Some l, j2) /\
      trace (en_epoch en') (in_Now inp) (step_authorised Jok cfg inp en (en_epoch en') l)
        (step_resendable Jok cfg inp en l) (listed l) log view fresh /\
      replays j2 log j'
  end.
Proof.
  intros Hv Hj. unfold Step. destruct (claim_epoch en j) as [[err|ep] j1] eqn:Ec; [done|].
  assert (Jok j1) as Hj1 by by eapply claim_epoch_ok.
  destruct (List_ j1) as [[l|] j2] eqn:El; [|done]. assert (Jok j2) as Hj2 by by eapply (ve_list _ Hv).
  destruct (read_decisions cfg (en_stats en)) as [ds st] eqn:Eds.
  change (list_to_map ((λ r, (Key r, r)) <$> rev l)) with (listed l).
  pose proof (step_body_ok cfg ep inp ds
    (list_to_map ((fun p => (p_ID p, p)) <$> rev (step_proposals inp l))) (step_proposals inp l)
    (listed l) j2 (props_in _) Jok Hv Hj2) as Hok.
  specialize (Hok (Build_estate j2 (listed l) 0%Z st [])).
  unfold step_authorised, step_resendable. simpl in *. rewrite Eds. unfold step_proposals in *.
  destruct (step_body _ _ _ _ _ _ _) as [out s].
  destruct Hok as (fresh & Hk & view & [Ht Hr] & _).
  { exists None. split; [apply listed_keyed|]. exists (listed l). split; [|done].
    split; constructor. }
  exists l, j1, j2, view, fresh. by split_and!.
Qed.

(** What an engine holds follows from what it started with and its log. *)
Lemma trace_held ep now auth again view0 log view fresh :
  trace ep now auth again view0 log view fresh -> foldl hold view0 log = view.
Proof.
  induction 1 as [|log view fresh ev view' fresh' _ IH He]; [done|]. rewrite foldl_app, IH.
  by inversion He; subst.
Qed.

Lemma trace_fresh ep now auth again view0 log view r :
  trace ep now auth again view0 log view (Some r) ->
  exists log' r0, log = log' ++ [EvPut r0 (inr r)] /\ r = bump r0 /\ allowed ep now auth again (foldl hold view0 log') r0 true.
Proof.
  inversion 1 as [|log' view' fresh ev view'' fresh' Ht He]; subst.
  inversion He as [r0 launch Ha| | |]; subst. destruct launch; [|done].
  match goal with E : Some _ = Some _ |- _ => apply (inj Some) in E; subst end. exists log', r0.
  by rewrite (trace_held _ _ _ _ _ _ _ _ Ht).
Qed.

(** A sending immediately follows the storing of the record it sends. *)
Lemma trace_submits ep now auth again view0 log view fresh i provider h answer :
  trace ep now auth again view0 log view fresh -> log !! i = Some (EvSubmit provider h answer) ->
  exists i' r, i = S i' /\ log !! i' = Some (EvPut r (inr (bump r))) /\
    allowed ep now auth again (foldl hold view0 (take i' log)) r true /\ RPhase r = PhaseDispatching /\ SentFence r = ep /\
    provider = RProvider r /\ h = handoff_of r.
Proof.
  intros Ht. revert i. induction Ht as [|log view fresh ev view' fresh' Ht IH He]; intros i Hi; [done|].
  apply lookup_app_Some in Hi as [Hi|[Hl Hi]].
  - destruct (IH i Hi) as (i' & r & -> & Hlog & Hrest). exists i', r.
    rewrite take_app_le by (apply lookup_lt_Some in Hlog; lia).
    split; [done|]. split; [by apply lookup_app_l_Some|done].
  - apply list_lookup_singleton_Some in Hi as [Hi ->].
    inversion He as [| |r a Hf Hp Hs|]; subst.
    apply trace_fresh in Ht as (log' & r0 & -> & -> & Ha).
    rewrite length_app in Hl, Hi. simpl in Hl, Hi. exists (length log'), r0. split; [lia|].
    rewrite <- app_assoc, take_app_length. split; [|done]. by rewrite lookup_app_r, Nat.sub_diag.
Qed.

(** C3. Whatever the journal and the providers answer (and whoever else
    writes to the journal between two calls), a step that fails to claim an
    epoch or to list the journal does nothing more, and any other step follows
    the protocol: starting from the records it listed, every write is either
    the update of a held record that its phase allows (no record of a newer
    epoch changes phase) or an authorised new attempt on a target no other
    attempt occupies; and a hand-off is made only of the record just stored.
    The journal it leaves is the result of those writes. *)
Theorem Step_conforms (Jok : J -> Prop) cfg inp en (j : J) :
  versioned Jok -> Jok j ->
  match Step cfg inp en j with
  | (inl _, en', j', log) => log = []
  | (inr out, en', j', log) => exists l j1 j2 view fresh,
      claim_epoch en j = (inr (en_epoch en'), j1) /\ List_ j1 = (Some l, j2) /\
      trace (en_epoch en') (in_Now inp) (step_authorised Jok cfg inp en (en_epoch en') l)
        (step_resendable Jok cfg inp en l) (listed l) log view fresh /\
      replays j2 log j'
  end.
Proof. apply Step_trace. Qed.

Lemma Step_submit_facts (Jok : J -> Prop) cfg inp en (j : J) out en' j' log i provider h answer :
  versioned Jok -> Jok j ->
  Step cfg inp en j = (out, en', j', log) -> log !! i = Some (EvSubmit provider h answer) ->
  exists i' r l j1 j2, i = S i' /\ log !! i' = Some (EvPut r (inr (bump r))) /\
    claim_epoch en j = (inr (en_epoch en'), j1) /\ List_ j1 = (Some l, j2) /\
    provider = RProvider r /\ h = handoff_of r /\
    RPhase r = PhaseDispatching /\ SentFence r = en_epoch en' /\
    let view := held l (take i' log) in
    (step_authorised Jok cfg inp en (en_epoch en') l r /\ new_attempt (en_epoch en') (in_Now inp) view r \/
     exists old, view !! Key r = Some old /\ (Fence old <= en_epoch en')%N /\
       resend (en_epoch en') (in_Now inp) old r /\ same_attempt (core old) (core r) /\
       step_resendable Jok cfg inp en l old).
Proof.
  intros Hv Hj Hstep Hi. pose proof (Step_trace Jok cfg inp en j Hv Hj) as Ht. rewrite Hstep in Ht.
  destruct out as [err|out]; [by subst log|].
  destruct Ht as (l & j1 & j2 & view & fresh & Hc & Hl & Ht & _).
  destruct (trace_submits _ _ _ _ _ _ _ _ _ _ _ _ Ht Hi) as
    (i' & r & -> & Hlog & Ha & Hp & Hs & -> & ->).
  exists i', r, l, j1, j2. split_and!; try done. cbn zeta. unfold held.
  inversion Ha as [|old Hold _ Hf Hsame Hres Hagain|_ Hnew Hauth]; subst.
  - right. by exists old.
  - by left.
Qed.

(** C4. Every hand-off of a step immediately follows the successful storing of
    exactly the record it hands off, under the engine's own fence, and is
    authorised.  It is either a new attempt for a proposal derived from the
    listing this step read, that policy or a counted human decision approved,
    with every gate open: the registered provider acts for the declared owner,
    in the namespace, for the action; no owner conflict; an approver declared
    where a person must decide; preconditions proven; a durable journal; and no
    attempt of another proposal occupying the target among the records held at
    that moment (what was listed and has been stored since), in which the
    attempt is also the proposal's next.  Or it is the bounded resending of the
    unanswered attempt that is held under the same key, whose proposal has the
    same digest and the same gates open (but for the target, which the attempt
    itself occupies), and whose recorded approval still stands. *)
Theorem Step_submits (Jok : J -> Prop) cfg inp en (j : J) out en' j' log i provider h answer :
  versioned Jok -> Jok j ->
  Step cfg inp en j = (out, en', j', log) -> log !! i = Some (EvSubmit provider h answer) ->
  exists i' r l j1 j2, i = S i' /\ log !! i' = Some (EvPut r (inr (bump r))) /\
    claim_epoch en j = (inr (en_epoch en'), j1) /\ List_ j1 = (Some l, j2) /\
    provider = RProvider r /\ h = handoff_of r /\
    RPhase r = PhaseDispatching /\ SentFence r = en_epoch en' /\
    let view := held l (take i' log) in
    (step_authorised Jok cfg inp en (en_epoch en') l r /\ new_attempt (en_epoch en') (in_Now inp) view r \/
     exists old, view !! Key r = Some old /\ (Fence old <= en_epoch en')%N /\
       resend (en_epoch en') (in_Now inp) old r /\ same_attempt (core old) (core r) /\
       step_resendable Jok cfg inp en l old).
Proof. apply Step_submit_facts. Qed.

(** With a journal that never survives a restart, and equally with no
    registered provider, a step hands nothing off. *)
Theorem Step_sends_nothing (Jok : J -> Prop) cfg inp en (j : J) out en' j' log :
  versioned Jok -> Jok j ->
  (forall j : J, Jok j -> Durable j = false) \/ cfg_Registry cfg = ∅ ->
  Step cfg inp en j = (out, en', j', log) ->
  forall provider h answer, EvSubmit provider h answer ∉ log.
Proof.
  intros Hv Hj Hno Hstep provider h answer [i Hi]%list_elem_of_lookup.
  destruct (Step_submit_facts _ _ _ _ _ _ _ _ _ _ _ _ _ Hv Hj Hstep Hi) as
    (i' & r & l & j1 & j2 & _ & _ & _ & _ & _ & _ & _ & _ & Hwhy).
  assert (exists p, gates_open cfg (exists j : J, Jok j /\ Durable j = true) p) as
    (p & (reg & Hreg & _) & _ & _ & _ & jd & Hjd & Hd).
  { destruct Hwhy as [[(p & ? & ? & ? & _ & _ & _ & Hg) _]|(old & _ & _ & _ & _ & p & _ & _ & _ & _ & Hg)]; by exists p. }
  destruct Hno as [Hno|Hno]; [by rewrite (Hno jd Hjd) in Hd|by rewrite Hno, lookup_empty in Hreg].
Qed.
End step_facts.
