(* ===== verification/Fleet.v ===== *)
(** * Several engines on one journal (pkg/action: engine.go, journal.go)

    Processes are replaced and may overlap: a stalled engine can resume after
    its successor has claimed the journal.  [fleet_step] interleaves, call by
    call, any number of engines that each follow the protocol of EngineSpec.v
    ([event_ok]) on a journal that fences epochs and swaps by version.  Time,
    authorisation, provider answers and lost calls are arbitrary. *)

From S2P Require Import Prelude.
From S2P Require Import StepSpec.
From S2P Require Import Identity.
From S2P Require Import Predicate.
From S2P Require Import Contract.
From S2P Require Import Assessment.
From S2P Require Import Evaluator.
From S2P Require Import Profile.
From S2P Require Import ActionTypes.
From S2P Require Import Journal.
From S2P Require Import Proposal.
From S2P Require Import Recovery.
From S2P Require Import Engine.
From S2P Require Import EngineSpec.

(** One step of an engine in progress: what it holds and may send. *)
Record session := {
  se_now : Time;
  se_auth : AttemptRecord -> Prop;
  se_again : AttemptRecord -> Prop;
  se_view : gmap string AttemptRecord;
  se_fresh : option AttemptRecord;
}.

Record member := { me_epoch : N; me_session : option session }.

(** [fl_sent]: the hand-offs so far, each with the number of its sending. *)
Record fleet := {
  fl_newest : N;
  fl_contents : gmap string AttemptRecord;
  fl_members : gmap nat member;
  fl_sent : list (string * Z);
}.

Definition empty_fleet : fleet := Build_fleet 0 ∅ ∅ [].

(** What an event does to the journal, and to the hand-offs made. *)
Definition journal_event (newest : N) (m : gmap string AttemptRecord) (ev : Event)
    (m' : gmap string AttemptRecord) : Prop :=
  match ev with
  | EvPut r (inr r') => (newest <= Fence r)%N /\ swaps (m !! Key r) r = true /\ m' = <[Key r := r']> m
  | _ => m' = m
  end.

Definition handed_off (ev : Event) (fresh : option AttemptRecord) : list (string * Z) :=
  match ev, fresh with EvSubmit _ _ _, Some r => [(Key r, Sends r)] | _, _ => [] end.

Inductive fleet_step : fleet -> fleet -> Prop :=
  (** Epoch: an engine (new, or restarted) claims a newer epoch. *)
  | fleet_claim f e ep :
      (fl_newest f < ep)%N ->
      fleet_step f (Build_fleet ep (fl_contents f) (<[e := Build_member ep None]> (fl_members f)) (fl_sent f))
  (** List: a step begins. *)
  | fleet_list f e ep se now auth again :
      fl_members f !! e = Some (Build_member ep se) ->
      fleet_step f (Build_fleet (fl_newest f) (fl_contents f)
        (<[e := Build_member ep (Some (Build_session now auth again (fl_contents f) None))]> (fl_members f))
        (fl_sent f))
  (** Put, Submit and Result. *)
  | fleet_event f e ep now auth again view fresh ev view' fresh' m' :
      fl_members f !! e = Some (Build_member ep (Some (Build_session now auth again view fresh))) ->
      event_ok ep now auth again view fresh ev view' fresh' ->
      journal_event (fl_newest f) (fl_contents f) ev m' ->
      fleet_step f (Build_fleet (fl_newest f) m'
        (<[e := Build_member ep (Some (Build_session now auth again view' fresh'))]> (fl_members f))
        (fl_sent f ++ handed_off ev fresh)).

(** Reachable in [n] calls from an empty journal. *)
Inductive reachable : nat -> fleet -> Prop :=
  | reachable_start : reachable 0 empty_fleet
  | reachable_step n f f' : reachable n f -> fleet_step f f' -> reachable (S n) f'.

(** ** The invariant of the journal's contents after [n] calls *)
Record store_ok (n : N) (m : gmap string AttemptRecord) : Prop := {
  so_key : forall k r, m !! k = Some r -> k = Key r /\ Key r = record_key (ProposalID r) (Attempt r);
  so_version : forall k r, m !! k = Some r -> (1 <= Version r <= n)%N;
  so_attempt : forall k r, m !! k = Some r -> (1 <= Attempt r)%Z;
  so_sends : forall k r, m !! k = Some r -> (1 <= Sends r)%Z /\ (Sends r = 1 \/ Sends r <= MaxSends r)%Z;
  so_failed : forall k1 k2 r1 r2, m !! k1 = Some r1 -> m !! k2 = Some r2 -> ProposalID r1 = ProposalID r2 ->
    (Attempt r1 < Attempt r2)%Z ->
    RPhase r1 = PhaseFailed /\ Retryable r1 = true /\ (Attempt r1 < MaxAttempts r1)%Z;
  so_previous : forall k r, m !! k = Some r -> (1 < Attempt r)%Z ->
    exists r', m !! record_key (ProposalID r) (Attempt r - 1) = Some r' /\
      ProposalID r' = ProposalID r /\ Attempt r' = (Attempt r - 1)%Z;
  so_exclusive : forall k1 k2 r1 r2, m !! k1 = Some r1 -> m !! k2 = Some r2 -> TargetUID r1 = TargetUID r2 ->
    occupies (RPhase r1) = true -> occupies (RPhase r2) = true -> k1 = k2;
}.

(** The sendings of the attempt at [k], and the hand-off engine [e] may make. *)
Definition sends_at (m : gmap string AttemptRecord) (k : string) : Z :=
  match m !! k with Some r => Sends r | None => 0%Z end.

Definition pending (ms : gmap nat member) (e : nat) : option (string * Z) :=
  match ms !! e with
  | Some (Build_member _ (Some se)) => (fun r => (Key r, Sends r)) <$> se_fresh se
  | _ => None
  end.

(** ** The invariant of the fleet after [n] calls *)
Record fleet_ok (n : N) (f : fleet) : Prop := {
  fo_store : store_ok n (fl_contents f);
  fo_epochs : forall e m, fl_members f !! e = Some m -> (me_epoch m <= fl_newest f)%N;
  fo_distinct : forall e1 e2 m1 m2, fl_members f !! e1 = Some m1 -> fl_members f !! e2 = Some m2 ->
    me_epoch m1 = me_epoch m2 -> e1 = e2;
  fo_view : forall e se, fl_members f !! e = Some (Build_member (fl_newest f) (Some se)) ->
    se_view se = fl_contents f;
  fo_pending : forall e k i, pending (fl_members f) e = Some (k, i) ->
    (1 <= i <= sends_at (fl_contents f) k)%Z /\ (k, i) ∉ fl_sent f;
  fo_pending_distinct : forall e1 e2 s, pending (fl_members f) e1 = Some s ->
    pending (fl_members f) e2 = Some s -> e1 = e2;
  fo_sent : NoDup (fl_sent f);
  fo_sent_bound : forall k i, (k, i) ∈ fl_sent f -> (1 <= i <= sends_at (fl_contents f) k)%Z;
}.

(** [next] is [old] further along: same attempt, next version. *)
Record continues (old next : AttemptRecord) : Prop := {
  co_key : Key next = Key old;
  co_proposal : ProposalID next = ProposalID old;
  co_target : TargetUID next = TargetUID old;
  co_attempt : Attempt next = Attempt old;
  co_limits : Retryable next = Retryable old /\ MaxAttempts next = MaxAttempts old /\ MaxSends next = MaxSends old;
  co_failed : RPhase old = PhaseFailed -> RPhase next = PhaseFailed;
  co_occupies : occupies (RPhase next) = true -> occupies (RPhase old) = true;
  co_sends : Sends next = Sends old \/ (Sends next = Sends old + 1 /\ Sends old < MaxSends old)%Z;
  co_version : Version next = u64_succ (Version old);
}.

(** * Lemmas *)
Lemma store_empty n : store_ok n ∅.
Proof.
  split; intros *; rewrite ?lookup_empty; try done.
Qed.

Lemma store_weaken n n' m : (n <= n')%N -> store_ok n m -> store_ok n' m.
Proof.
  intros Hn Hok. destruct Hok as [Hkey Hver Hatt Hsend Hfail Hprev Hexcl]. split; try done.
  intros k r Hr. specialize (Hver k r Hr). lia.
Qed.

Lemma u64_succ_bound v n : (1 <= v <= n)%N -> (n < u64_max)%N -> (1 <= u64_succ v <= n + 1)%N.
Proof. intros Hv Hn. unfold u64_succ. destruct (N.eqb_spec v u64_max); lia. Qed.

Section store_update.
Variables (n : N) (m : gmap string AttemptRecord) (k : string) (old next : AttemptRecord).
Hypotheses (Hok : store_ok n m) (Hn : (n < u64_max)%N) (Hold : m !! k = Some old)
  (Hco : continues old next).

(** Every record of the new contents continues one of the old contents. *)
Lemma update_origin k' r :
  <[k := next]> m !! k' = Some r ->
  exists r0, m !! k' = Some r0 /\ (r = r0 \/ (k' = k /\ r0 = old /\ r = next)).
Proof.
  rewrite lookup_insert. case_decide as Hk; [intros [= <-]; subst k'; exists old; auto|eauto].
Qed.

Lemma store_update : store_ok (n + 1) (<[k := next]> m).
Proof using All.
  destruct Hok as [Hkey Hver Hatt Hsend Hfail Hprev Hexcl].
  destruct Hco as [Ck Cp Ct Ca (Cr & Cm & Cs) Cf Co Cn Cv].
  split.
  - intros k' r (r0 & Hr0 & [->|(-> & -> & ->)])%update_origin; [by apply Hkey|].
    destruct (Hkey k old Hr0). split; congruence.
  - intros k' r (r0 & Hr0 & Hr)%update_origin. specialize (Hver k' r0 Hr0).
    destruct Hr as [->|(-> & -> & ->)]; [lia|]. rewrite Cv. by apply u64_succ_bound.
  - intros k' r (r0 & Hr0 & [->|(-> & -> & ->)])%update_origin; [by eapply Hatt|].
    rewrite Ca. by eapply Hatt.
  - intros k' r (r0 & Hr0 & Hr)%update_origin. specialize (Hsend k' r0 Hr0).
    destruct Hr as [->|(-> & -> & ->)]; [done|]. destruct Cn; lia.
  - intros k1 k2 r1 r2 (s1 & Hs1 & H1)%update_origin (s2 & Hs2 & H2)%update_origin Hp Ha.
    assert (ProposalID s1 = ProposalID s2) as Hp'
      by (destruct H1 as [->|(_ & -> & ->)]; destruct H2 as [->|(_ & -> & ->)]; congruence).
    assert (Attempt s1 < Attempt s2)%Z as Ha'
      by (destruct H1 as [->|(_ & -> & ->)]; destruct H2 as [->|(_ & -> & ->)]; congruence).
    destruct (Hfail k1 k2 s1 s2 Hs1 Hs2 Hp' Ha') as (F1 & F2 & F3).
    destruct H1 as [->|(_ & -> & ->)]; [done|]. split; [auto|]. split; congruence.
  - intros k' r (r0 & Hr0 & Hr)%update_origin Ha.
    assert (ProposalID r = ProposalID r0 /\ Attempt r = Attempt r0) as [Hp' Ha']
      by (destruct Hr as [->|(-> & -> & ->)]; auto).
    rewrite Hp', Ha' in *. destruct (Hprev k' r0 Hr0 Ha) as (r' & Hr' & Hpr & Har).
    rewrite lookup_insert. case_decide as Hk; [|by exists r']. rewrite <- Hk, Hold in Hr'.
    injection Hr' as <-. exists next. split_and!; [done|congruence..].
  - intros k1 k2 r1 r2 (s1 & Hs1 & H1)%update_origin (s2 & Hs2 & H2)%update_origin Ht O1 O2.
    apply (Hexcl k1 k2 s1 s2 Hs1 Hs2).
    + destruct H1 as [->|(_ & -> & ->)]; destruct H2 as [->|(_ & -> & ->)]; congruence.
    + destruct H1 as [->|(_ & -> & ->)]; auto.
    + destruct H2 as [->|(_ & -> & ->)]; auto.
Qed.
End store_update.

Lemma same_attempt_static old next :
  same_attempt (core old) (core next) ->
  Key next = Key old /\ ProposalID next = ProposalID old /\ TargetUID next = TargetUID old /\
  Attempt next = Attempt old /\ Retryable next = Retryable old /\ MaxAttempts next = MaxAttempts old /\
  MaxSends next = MaxSends old /\ Version next = Version old.
Proof.
  unfold same_attempt. intros Hs.
  pose proof (f_equal Key Hs). pose proof (f_equal ProposalID Hs). pose proof (f_equal TargetUID Hs).
  pose proof (f_equal Attempt Hs). pose proof (f_equal Retryable Hs). pose proof (f_equal MaxAttempts Hs).
  pose proof (f_equal MaxSends Hs). pose proof (f_equal Version Hs). simpl in *. by split_and!.
Qed.

Lemma progress_phases now old next :
  progress now old next ->
  (RPhase old = PhaseFailed -> RPhase next = PhaseFailed) /\
  (occupies (RPhase next) = true -> occupies (RPhase old) = true) /\ Sends next = Sends old.
Proof.
  destruct 1 as [Ho Hn|Ho _ Hn|Ho Hn|Ho Hn|Ho Hn|_ _ Hn]; (split_and!; [| |done]);
    try (rewrite Ho in *; done); try done; try congruence.
  - intros He. by rewrite He in Ho.
  - intros He. by rewrite He in Ho.
  - by destruct (RPhase old).
Qed.

Lemma update_continues ep now auth again m next :
  allowed ep now auth again m next false ->
  exists old, m !! Key next = Some old /\ continues old (bump next) /\ Sends next = Sends old.
Proof.
  inversion 1 as [old Hold _ _ Hsame Hp| |]; subst. exists old.
  destruct (same_attempt_static _ _ Hsame) as (H1 & H2 & H3 & H4 & H5 & H6 & H7 & H8).
  destruct (progress_phases _ _ _ Hp) as (P1 & P2 & P3).
  split_and!; [done| |done]. split; simpl; auto. by rewrite H8.
Qed.

Lemma resend_continues ep now again old next :
  same_attempt (core old) (core next) -> resend ep now old next -> again old -> continues old (bump next).
Proof.
  intros Hsame [[R0 R0'] R1 R2 R3 _ _] _.
  destruct (same_attempt_static _ _ Hsame) as (H1 & H2 & H3 & H4 & H5 & H6 & H7 & H8).
  split; simpl; auto; try congruence.
Qed.

Section store_create.
Variables (n : N) (m : gmap string AttemptRecord) (ep : N) (now : Time) (r : AttemptRecord).
Hypotheses (Hok : store_ok n m) (Hn : (n < u64_max)%N) (Hnew : new_attempt ep now m r)
  (Hswap : swaps (m !! Key r) r = true).

Lemma create_absent : m !! Key r = None.
Proof using All.
  destruct (m !! Key r) as [c|] eqn:Ec; [|done]. exfalso.
  apply (so_version n m Hok) in Ec. simpl in Hswap.
  apply bool_decide_eq_true in Hswap. pose proof (na_version _ _ _ _ Hnew). lia.
Qed.

(** An attempt after [r] in the same proposal does not exist yet, and those
    before it have failed. *)
Lemma create_before k r1 :
  m !! k = Some r1 -> ProposalID r1 = ProposalID r ->
  (Attempt r1 < Attempt r)%Z /\ RPhase r1 = PhaseFailed /\ Retryable r1 = true /\
  (Attempt r1 < MaxAttempts r1)%Z.
Proof using All.
  intros Hk Hp. destruct (na_attempt _ _ _ _ Hnew) as [[_ Hfirst]|(kl & last & Hl & Hpl & F1 & F2 & F3 & Ha & Hmax)].
  { by destruct (Hfirst k r1 Hk). }
  pose proof (Hmax k r1 Hk Hp) as Hle.
  destruct (Z.eq_dec (Attempt r1) (Attempt last)) as [He|Hne].
  - destruct (so_key n m Hok k r1 Hk) as [-> Hk1]. destruct (so_key n m Hok kl last Hl) as [-> Hk2].
    assert (Key r1 = Key last) as Hkeys by congruence. rewrite Hkeys, Hl in Hk. injection Hk as <-.
    split_and!; try done; lia.
  - destruct (so_failed n m Hok k kl r1 last Hk Hl) as (G1 & G2 & G3); [congruence|lia|].
    split_and!; try done; lia.
Qed.

Lemma create_cases k r1 :
  <[Key r := bump r]> m !! k = Some r1 -> (k = Key r /\ r1 = bump r) \/ m !! k = Some r1.
Proof. rewrite lookup_insert. case_decide; [intros [= <-]; auto|auto]. Qed.

Lemma store_create : store_ok (n + 1) (<[Key r := bump r]> m).
Proof using All.
  pose proof (so_key n m Hok) as Hkey. pose proof (so_failed n m Hok) as Hfail.
  pose proof (so_exclusive n m Hok) as Hexcl. pose proof create_absent as Habs.
  destruct Hnew as [Nk Nv Np _ Ns _ _ _ Nfree Na].
  assert (1 <= Attempt r)%Z as Hat.
  { destruct Na as [[-> _]|(kl & last & Hl & _ & _ & _ & _ & -> & _)]; [done|].
    pose proof (so_attempt n m Hok kl last Hl). lia. }
  split.
  - intros k r1 [[-> ->]|Hk]%create_cases; [by split|by apply Hkey].
  - intros k r1 [[-> ->]|Hk]%create_cases.
    + simpl. rewrite Nv. unfold u64_succ. simpl. lia.
    + pose proof (so_version n m Hok k r1 Hk). lia.
  - intros k r1 [[-> ->]|Hk]%create_cases; [done|by eapply (so_attempt n m Hok)].
  - intros k r1 [[-> ->]|Hk]%create_cases; [simpl; lia|by eapply (so_sends n m Hok)].
  - intros k1 k2 r1 r2 [[-> ->]|Hk1]%create_cases [[-> ->]|Hk2]%create_cases Hp Ha; simpl in *; try lia.
    + destruct (create_before k2 r2 Hk2) as [Hlt _]; [done|lia].
    + by apply (create_before k1 r1 Hk1).
    + by eapply (Hfail k1 k2).
  - intros k r1 [[-> ->]|Hk]%create_cases Hlt; simpl in *.
    + destruct Na as [[He _]|(kl & last & Hl & Hpl & _ & _ & _ & Ha & _)]; [lia|].
      exists last. destruct (Hkey kl last Hl) as [-> Hkl].
      assert (record_key (ProposalID r) (Attempt r - 1) = Key last) as Hprev
        by (rewrite Hkl, Hpl; f_equal; lia).
      rewrite Hprev. rewrite lookup_insert_ne; [split_and!; [done|done|lia]|].
      intros He. rewrite He, Hl in Habs. done.
    + destruct (so_previous n m Hok k r1 Hk Hlt) as (r' & Hr' & ? & ?). exists r'.
      rewrite lookup_insert_ne; [done|]. intros He. by rewrite <- He, Habs in Hr'.
  - intros k1 k2 r1 r2 [[-> ->]|Hk1]%create_cases [[-> ->]|Hk2]%create_cases Ht O1 O2; simpl in *; try done.
    + destruct (decide (ProposalID r2 = ProposalID r)) as [Hp|Hp].
      * destruct (create_before k2 r2 Hk2 Hp) as (_ & Hf & _). by rewrite Hf in O2.
      * by rewrite (Nfree k2 r2 Hk2) in O2.
    + destruct (decide (ProposalID r1 = ProposalID r)) as [Hp|Hp].
      * destruct (create_before k1 r1 Hk1 Hp) as (_ & Hf & _). by rewrite Hf in O1.
      * by rewrite (Nfree k1 r1 Hk1) in O1.
    + by eapply (Hexcl k1 k2).
Qed.
End store_create.

(** ** Writes *)
Lemma store_put n m ep now auth again r launch :
  store_ok n m -> (n < u64_max)%N -> allowed ep now auth again m r launch -> swaps (m !! Key r) r = true ->
  store_ok (n + 1) (<[Key r := bump r]> m) /\
  (sends_at m (Key r) <= Sends r)%Z /\ (launch = true -> (sends_at m (Key r) < Sends r)%Z).
Proof.
  intros Hok Hn Ha Hs. unfold sends_at. destruct launch.
  - inversion Ha as [|old Hold _ _ Hsame Hre Hagain|_ Hnew _]; subst.
    + rewrite Hold. split; [|rewrite (re_sends _ _ _ _ Hre); lia].
      eapply store_update; try done. by eapply resend_continues.
    + rewrite (create_absent n m ep now r Hok Hn Hnew Hs). split; [by eapply store_create|].
      rewrite (na_sends _ _ _ _ Hnew). lia.
  - destruct (update_continues _ _ _ _ _ _ Ha) as (old & Hold & Hco & Hse). rewrite Hold, Hse.
    split; [by eapply store_update|]. split; [lia|done].
Qed.

Lemma sends_at_insert m r k :
  (sends_at m (Key r) <= Sends r)%Z -> (sends_at m k <= sends_at (<[Key r := bump r]> m) k)%Z.
Proof.
  unfold sends_at. intros Hle. rewrite lookup_insert. case_decide as Hk; [|lia]. subst. simpl. done.
Qed.

Lemma sends_at_insert_eq m r : sends_at (<[Key r := bump r]> m) (Key r) = Sends r.
Proof. unfold sends_at. by rewrite lookup_insert_eq. Qed.

(** ** Members *)
Lemma pending_insert ms e m e' :
  pending (<[e := m]> ms) e' = if decide (e' = e) then pending {[e := m]} e else pending ms e'.
Proof.
  unfold pending. case_decide as He; [subst; by rewrite lookup_insert_eq, lookup_singleton_eq|].
  by rewrite lookup_insert_ne.
Qed.

Lemma pending_single e ep se : pending {[e := Build_member ep (Some se)]} e = (fun r => (Key r, Sends r)) <$> se_fresh se.
Proof. unfold pending. by rewrite lookup_singleton_eq. Qed.

Lemma pending_none e ep : pending {[e := Build_member ep None]} e = None.
Proof. unfold pending. by rewrite lookup_singleton_eq. Qed.

Lemma fleet_ok_empty : fleet_ok 0 empty_fleet.
Proof.
  split; simpl.
  - apply store_empty.
  - intros e m. by rewrite lookup_empty.
  - intros e1 e2 m1 m2. by rewrite lookup_empty.
  - intros e se. by rewrite lookup_empty.
  - intros e k i. unfold pending. by rewrite lookup_empty.
  - intros e1 e2 s. unfold pending. by rewrite lookup_empty.
  - constructor.
  - intros k i Hin. nil_elem.
Qed.

(** A member that is not about to send replaces the entry of [e]. *)
Lemma claim_ok n f e ep :
  fleet_ok n f -> (fl_newest f < ep)%N ->
  fleet_ok (n + 1) (Build_fleet ep (fl_contents f) (<[e := Build_member ep None]> (fl_members f)) (fl_sent f)).
Proof.
  intros Hok Hep. pose proof (fo_epochs n f Hok) as Hepochs. split; simpl.
  - eapply store_weaken; [|apply Hok]. lia.
  - intros e' m. rewrite lookup_insert. case_decide; [intros [= <-]; simpl; lia|].
    intros Hm. specialize (Hepochs e' m Hm). lia.
  - intros e1 e2 m1 m2. rewrite !lookup_insert.
    case_decide; case_decide; subst; try done; intros Hm1 Hm2 He.
    + injection Hm1 as <-. specialize (Hepochs _ _ Hm2). simpl in He. lia.
    + injection Hm2 as <-. specialize (Hepochs _ _ Hm1). simpl in He. lia.
    + by eapply (fo_distinct n f Hok).
  - intros e' se. rewrite lookup_insert. case_decide; [done|]. intros Hm.
    specialize (Hepochs _ _ Hm). simpl in Hepochs. lia.
  - intros e' k i. rewrite pending_insert, pending_none. case_decide; [done|]. apply (fo_pending n f Hok).
  - intros e1 e2 s. rewrite !pending_insert, !pending_none. case_decide; [done|]. case_decide; [done|].
    apply (fo_pending_distinct n f Hok).
  - apply Hok.
  - apply (fo_sent_bound n f Hok).
Qed.

(** Replacing the session of [e], with the journal unchanged. *)
Lemma session_ok n f e ep se0 se sent :
  fleet_ok n f -> fl_members f !! e = Some (Build_member ep se0) ->
  (ep = fl_newest f -> se_view se = fl_contents f) -> se_fresh se = None ->
  (sent = [] \/ exists s, pending (fl_members f) e = Some s /\ sent = [s]) ->
  fleet_ok (n + 1) (Build_fleet (fl_newest f) (fl_contents f)
    (<[e := Build_member ep (Some se)]> (fl_members f)) (fl_sent f ++ sent)).
Proof.
  intros Hok He Hview Hfresh Hsent.
  assert (forall e' s, e' <> e -> pending (fl_members f) e' = Some s -> s ∉ sent) as Hnot.
  { intros e' s Hne Hp Hin. destruct Hsent as [->|(s' & Hp' & ->)]; [nil_elem|].
    apply list_elem_of_singleton in Hin as ->. by apply Hne, (fo_pending_distinct n f Hok e' e s'). }
  split; simpl.
  - eapply store_weaken; [|apply Hok]. lia.
  - intros e' m. rewrite lookup_insert. case_decide; [intros [= <-]|apply (fo_epochs n f Hok)].
    apply (fo_epochs n f Hok e _ He).
  - intros e1 e2 m1 m2. rewrite !lookup_insert. pose proof (fo_distinct n f Hok) as Hd.
    case_decide; case_decide; subst; try done; intros Hm1 Hm2 Heq.
    + injection Hm1 as <-. by eapply (Hd _ _ _ _ He Hm2).
    + injection Hm2 as <-. by eapply (Hd _ _ _ _ Hm1 He).
    + by eapply Hd.
  - intros e' se'. rewrite lookup_insert. case_decide; [intros [= -> <-]; auto|apply (fo_view n f Hok)].
  - intros e' k i. rewrite pending_insert, pending_single, Hfresh. case_decide as Hne; [done|].
    intros Hp. destruct (fo_pending n f Hok _ _ _ Hp) as [Hb Hns]. split; [done|].
    rewrite elem_of_app. intros [?|Hin]; [done|]. by eapply Hnot.
  - intros e1 e2 s. rewrite !pending_insert, !pending_single, Hfresh. case_decide; [done|]. case_decide; [done|].
    apply (fo_pending_distinct n f Hok).
  - destruct Hsent as [->|([k i] & Hp & ->)]; [rewrite app_nil_r; apply Hok|].
    apply NoDup_app. split; [apply Hok|]. split; [|apply NoDup_singleton].
    intros x Hx ->%list_elem_of_singleton. by apply (fo_pending n f Hok _ _ _ Hp).
  - intros k i [Hin|Hin]%elem_of_app; [by apply (fo_sent_bound n f Hok)|].
    destruct Hsent as [->|([k' i'] & Hp & ->)]; [nil_elem|].
    apply list_elem_of_singleton in Hin as [= -> ->]. by apply (fo_pending n f Hok _ _ _ Hp).
Qed.

(** A write of [e], which must hold the newest epoch. *)
Lemma stored_ok n f e now auth again view fresh r launch :
  fleet_ok n f -> (n < u64_max)%N ->
  fl_members f !! e = Some (Build_member (fl_newest f) (Some (Build_session now auth again view fresh))) ->
  allowed (fl_newest f) now auth again view r launch -> swaps (fl_contents f !! Key r) r = true ->
  fleet_ok (n + 1) (Build_fleet (fl_newest f) (<[Key r := bump r]> (fl_contents f))
    (<[e := Build_member (fl_newest f) (Some (Build_session now auth again (<[Key r := bump r]> view)
             (if launch then Some (bump r) else None)))]> (fl_members f)) (fl_sent f)).
Proof.
  intros Hok Hn He Ha Hs. pose proof (fo_view n f Hok e _ He) as Hv. simpl in Hv. subst view.
  destruct (store_put n _ _ _ _ _ _ _ (fo_store n f Hok) Hn Ha Hs) as (Hst & Hle & Hlt).
  assert (forall k, (sends_at (fl_contents f) k <= sends_at (<[Key r := bump r]> (fl_contents f)) k)%Z) as Hmono.
  { intros k. by apply sends_at_insert. }
  pose proof (fo_pending n f Hok) as Hpend. pose proof (fo_distinct n f Hok) as Hd.
  split; simpl.
  - done.
  - intros e' m. rewrite lookup_insert. case_decide; [intros [= <-]; simpl; lia|apply (fo_epochs n f Hok)].
  - intros e1 e2 m1 m2. rewrite !lookup_insert.
    case_decide; case_decide; subst; try done; intros Hm1 Hm2 Heq.
    + injection Hm1 as <-. by eapply (Hd _ _ _ _ He Hm2).
    + injection Hm2 as <-. by eapply (Hd _ _ _ _ Hm1 He).
    + by eapply Hd.
  - intros e' se'. rewrite lookup_insert. case_decide as Hne; [by intros [= <-]|].
    intros Hm. destruct Hne. by eapply (Hd _ _ _ _ He Hm).
  - intros e' k i. rewrite pending_insert, pending_single. case_decide as Hne.
    + destruct launch; [|done]. simpl. intros [= <- <-]. rewrite sends_at_insert_eq. specialize (Hlt eq_refl).
      assert (0 <= sends_at (fl_contents f) (Key r))%Z as H0.
      { unfold sends_at. destruct (fl_contents f !! Key r) as [c|] eqn:Ec; [|done].
        pose proof (so_sends n _ (fo_store n f Hok) _ _ Ec). lia. }
      split; [lia|]. intros Hin. apply (fo_sent_bound n f Hok) in Hin. lia.
    + intros Hp. destruct (Hpend _ _ _ Hp) as [Hb Hns]. split; [|done]. specialize (Hmono k). lia.
  - assert (forall e' s, launch = true -> s = (Key r, Sends r) -> pending (fl_members f) e' <> Some s) as Hnew.
    { intros e' s -> -> Hp. destruct (Hpend _ _ _ Hp) as [Hb _]. specialize (Hlt eq_refl). lia. }
    intros e1 e2 s. rewrite !pending_insert, !pending_single. simpl.
    case_decide; case_decide; subst; try done.
    + destruct launch; [|done]. simpl. intros [= <-] Hp. by destruct (Hnew e2 _ eq_refl eq_refl Hp).
    + destruct launch; [|done]. simpl. intros Hp [= <-]. by destruct (Hnew e1 _ eq_refl eq_refl Hp).
    + apply (fo_pending_distinct n f Hok).
  - apply Hok.
  - intros k i Hin. pose proof (fo_sent_bound n f Hok _ _ Hin). specialize (Hmono k). lia.
Qed.

Lemma step_ok n f f' : fleet_ok n f -> (n < u64_max)%N -> fleet_step f f' -> fleet_ok (n + 1) f'.
Proof.
  intros Hok Hn Hstep.
  destruct Hstep as [f e ep Hep|f e ep se now auth again He|f e ep now auth again view fresh ev view' fresh' m' He Hev Hj].
  - by apply claim_ok.
  - rewrite <- (app_nil_r (fl_sent f)). eapply session_ok; try done. by left.
  - assert (forall sent, (sent = [] \/ exists s, pending (fl_members f) e = Some s /\ sent = [s]) ->
      fleet_ok (n + 1) (Build_fleet (fl_newest f) (fl_contents f)
        (<[e := Build_member ep (Some (Build_session now auth again view None))]> (fl_members f))
        (fl_sent f ++ sent))) as Hkeep.
    { intros sent Hsent. eapply session_ok; try done. simpl. intros ->. exact (fo_view n f Hok e _ He). }
    inversion Hev as [r launch Ha|r launch err Ha|r answer Hf Hp Hs|provider key answer]; subst; simpl in *.
    + destruct Hj as (Hfence & Hsw & ->).
      assert (Fence r = ep) as Hfe by (by inversion Ha).
      assert (ep = fl_newest f) as ->.
      { pose proof (fo_epochs n f Hok e _ He). simpl in *. lia. }
      rewrite app_nil_r. by eapply stored_ok.
    + subst m'. apply Hkeep. by left.
    + subst m'. apply Hkeep. right. eexists. split; [|done]. unfold pending. by rewrite He.
    + subst m'. apply Hkeep. by left.
Qed.

(** * What several engines on one journal guarantee (pkg/action)

    Theorems on every reachable state of Fleet.v, and the theorem that [Step],
    on a journal with the laws of Journal.v, is a run of the fleet. *)

Lemma reachable_ok n f : reachable n f -> (N.of_nat n <= u64_max)%N -> fleet_ok (N.of_nat n) f.
Proof.
  induction 1 as [|n f f' _ IH Hstep]; intros Hn; [apply fleet_ok_empty|].
  rewrite Nat2N.inj_succ in *. rewrite <- N.add_1_r. eapply step_ok; [apply IH; lia|lia|done].
Qed.

(** C5. However many engines overlap, are restarted or resume late: at most
    one attempt occupies a target.  (Fewer than 2^64 calls.) *)
Theorem fleet_exclusive n f k1 k2 r1 r2 :
  reachable n f -> (N.of_nat n <= u64_max)%N ->
  fl_contents f !! k1 = Some r1 -> fl_contents f !! k2 = Some r2 -> TargetUID r1 = TargetUID r2 ->
  occupies (RPhase r1) = true -> occupies (RPhase r2) = true -> k1 = k2 /\ r1 = r2.
Proof.
  intros Hr Hn H1 H2 Ht O1 O2. pose proof (fo_store _ _ (reachable_ok n f Hr Hn)) as Hst.
  assert (k1 = k2) as -> by by apply (so_exclusive _ _ Hst k1 k2 r1 r2).
  split; [done|]. congruence.
Qed.

Lemma attempts_before n m k r d :
  store_ok n m -> m !! k = Some r -> forall i, (i = Attempt r - Z.of_nat d)%Z -> (1 <= i)%Z ->
  exists r', m !! record_key (ProposalID r) i = Some r' /\ ProposalID r' = ProposalID r /\ Attempt r' = i.
Proof.
  intros Hok Hk. destruct (so_key n m Hok k r Hk) as [-> Hkey].
  induction d as [|d IH]; intros i Hi Hpos.
  - exists r. rewrite Hi, Z.sub_0_r, <- Hkey. done.
  - destruct (IH (i + 1)%Z) as (r1 & Hr1 & Hp1 & Ha1); [lia..|].
    destruct (so_previous n m Hok _ r1 Hr1) as (r' & Hr' & Hp' & Ha'); [lia|].
    exists r'. rewrite <- Hp1. split_and!; [|congruence|lia]. rewrite <- Hr'. f_equal. f_equal. lia.
Qed.

(** A proposal's attempts are numbered 1, 2, ... without gaps, each stored
    under its own key; every attempt before the last one has failed, was
    declared retryable, and was below its declared number of attempts. *)
Theorem fleet_attempts n f k r :
  reachable n f -> (N.of_nat n <= u64_max)%N -> fl_contents f !! k = Some r ->
  k = record_key (ProposalID r) (Attempt r) /\ (1 <= Attempt r)%Z /\
  forall i, (1 <= i < Attempt r)%Z -> exists r',
    fl_contents f !! record_key (ProposalID r) i = Some r' /\ ProposalID r' = ProposalID r /\ Attempt r' = i /\
    RPhase r' = PhaseFailed /\ Retryable r' = true /\ (Attempt r' < MaxAttempts r')%Z.
Proof.
  intros Hr Hn Hk. pose proof (fo_store _ _ (reachable_ok n f Hr Hn)) as Hst.
  destruct (so_key _ _ Hst k r Hk) as [Hk1 Hk2]. split; [congruence|].
  split; [by apply (so_attempt _ _ Hst k r)|]. intros i Hi.
  destruct (attempts_before _ _ k r (Z.to_nat (Attempt r - i)) Hst Hk i) as (r' & Hr' & Hp & Ha); [lia..|].
  exists r'. destruct (so_failed _ _ Hst _ k r' r Hr' Hk Hp) as (? & ? & ?); [lia|]. by split_and!.
Qed.

Lemma sends_counted (sent : list (string * Z)) k b :
  NoDup sent -> (forall i, (k, i) ∈ sent -> (1 <= i <= b)%Z) ->
  (Z.of_nat (length (List.filter (fun s => bool_decide (s.1 = k)) sent)) <= Z.max 0 b)%Z.
Proof.
  intros Hnd Hb. set (l := List.filter _ sent).
  assert (forall s, s ∈ l -> s.1 = k /\ s ∈ sent) as Hl.
  { intros s. unfold l. rewrite list_elem_of_In, List.filter_In, <- list_elem_of_In, bool_decide_eq_true. by intros []. }
  assert (NoDup (snd <$> l)) as Hnd'.
  { apply NoDup_fmap_2_strong.
    - intros [k1 i1] [k2 i2] H1 H2 He. apply Hl in H1 as [? _]. apply Hl in H2 as [? _]. simpl in *. congruence.
    - apply NoDup_ListNoDup, List.NoDup_filter, NoDup_ListNoDup, Hnd. }
  assert (snd <$> l ⊆+ seqZ 1 b) as Hsub.
  { apply NoDup_submseteq; [done|]. intros i ([k' i'] & -> & Hin)%list_elem_of_fmap.
    apply Hl in Hin as [Hk Hin]. simpl in *. subst. apply elem_of_seqZ. specialize (Hb _ Hin). lia. }
  apply submseteq_length in Hsub. rewrite length_fmap, length_seqZ in Hsub. lia.
Qed.

(** C6. All engines together hand an attempt off at most once per persisted
    sending, hence at most [MaxSends] times (once if that is below one),
    whatever crashes, takeovers and stalled engines come in between. *)
Theorem fleet_send_budget n f k :
  reachable n f -> (N.of_nat n <= u64_max)%N ->
  let handed := length (List.filter (fun s => bool_decide (s.1 = k)) (fl_sent f)) in
  match fl_contents f !! k with
  | Some r => (Z.of_nat handed <= Sends r)%Z /\ (Sends r <= Z.max 1 (MaxSends r))%Z
  | None => handed = 0
  end.
Proof.
  intros Hr Hn. pose proof (reachable_ok n f Hr Hn) as Hok. cbn zeta.
  pose proof (sends_counted (fl_sent f) k (sends_at (fl_contents f) k) (fo_sent _ _ Hok)
    (fun i => fo_sent_bound _ _ Hok k i)) as Hc.
  unfold sends_at in Hc. destruct (fl_contents f !! k) as [r|] eqn:Ek; [|lia].
  destruct (so_sends _ _ (fo_store _ _ Hok) k r Ek). lia.
Qed.

(** ** [Step] runs in the fleet *)
Section step_runs.
Context `{GoText} `{SortSlice} `{Digests} `{Providers} {J : Type} `{JournalLaws J}.

(** The fleet's journal is [j], and its member [e] has epoch [ep]. *)
Record holds (f : fleet) (j : J) (e : nat) (ep : N) (se : option session) : Prop := {
  ho_ok : journal_ok j;
  ho_contents : fl_contents f = contents j;
  ho_newest : fl_newest f = newest j;
  ho_member : fl_members f !! e = Some (Build_member ep se);
}.

Lemma put_event j r answer j' m :
  journal_ok j -> Put r j = (answer, j') -> m = contents j ->
  journal_event (newest j) m (EvPut r answer) (contents j') /\ journal_ok j' /\ newest j' = newest j /\
  (forall r', answer = inr r' -> r' = bump r).
Proof.
  intros Hok Hp ->. destruct answer as [err|r'].
  - destruct (put_error_law _ _ _ _ Hok Hp) as (? & -> & ->). by split_and!.
  - destruct (put_law _ _ _ _ Hok Hp) as (? & -> & ? & ? & -> & ->). split_and!; try done. by intros r' [= <-].
Qed.

Lemma event_run f j e ep now auth again view fresh ev view' fresh' j' :
  holds f j e ep (Some (Build_session now auth again view fresh)) ->
  event_ok ep now auth again view fresh ev view' fresh' ->
  journal_event (newest j) (contents j) ev (contents j') -> journal_ok j' -> newest j' = newest j ->
  exists f', fleet_step f f' /\ holds f' j' e ep (Some (Build_session now auth again view' fresh')).
Proof.
  intros [Hok Hc Hn Hm] Hev Hj Hok' Hn'. rewrite <- Hc, <- Hn in Hj.
  eexists. split; [by eapply fleet_event|]. split; simpl; [done|done|by rewrite Hn, Hn'|].
  by rewrite lookup_insert_eq.
Qed.

Lemma replays_snoc (j : J) log ev j' :
  replays j (log ++ [ev]) j' ->
  exists j1, replays j log j1 /\ match ev with EvPut r answer => Put r j1 = (answer, j') | _ => j' = j1 end.
Proof.
  inversion 1 as [Hl|log1 j1 r answer j2 Hr1 Hp Hl|log1 j1 pr h answer Hr1 Hl|log1 j1 pr key answer Hr1 Hl]; subst.
  - by destruct log.
  - apply app_inj_tail in Hl as [-> <-]. by exists j1.
  - apply app_inj_tail in Hl as [-> <-]. by exists j'.
  - apply app_inj_tail in Hl as [-> <-]. by exists j'.
Qed.

Lemma trace_runs f j e ep now auth again view0 log view fresh j' :
  trace ep now auth again view0 log view fresh -> replays j log j' ->
  holds f j e ep (Some (Build_session now auth again view0 None)) ->
  exists f', rtc fleet_step f f' /\ holds f' j' e ep (Some (Build_session now auth again view fresh)).
Proof.
  intros Ht. revert j'. induction Ht as [|log view fresh ev view' fresh' _ IH Hev]; intros j' Hr Hh.
  - assert (j' = j) as ->; [|exists f; by split; [constructor|]].
    inversion Hr as [Hl|log ? ? ? ? _ _ Hl|log ? ? ? ? _ Hl|log ? ? ? ? _ Hl]; subst; [done|by destruct log..].
  - apply replays_snoc in Hr as (j1 & Hr1 & Hj). destruct (IH j1 Hr1 Hh) as (f1 & Hrun & Hh1).
    pose proof (ho_ok _ _ _ _ _ Hh1) as Hok1.
    assert (journal_event (newest j1) (contents j1) ev (contents j') /\ journal_ok j' /\ newest j' = newest j1)
      as (He & Hok' & Hn').
    { destruct ev as [r answer| |]; [|by subst j'..].
      destruct (put_event _ _ _ _ _ Hok1 Hj eq_refl) as (? & ? & ? & _). by split_and!. }
    destruct (event_run _ _ _ _ _ _ _ _ _ _ _ _ _ Hh1 Hev He Hok' Hn') as (f2 & Hstep & Hh2).
    exists f2. split; [by eapply rtc_r|done].
Qed.

Lemma laws_versioned : versioned (journal_ok (J := J)).
Proof.
  split.
  - intros j [ep|] j' Hok He; [by apply (epoch_law _ _ _ Hok He)|by apply (epoch_error_law _ _ Hok He)].
  - intros j [l|] j' Hok He; [by apply (list_law _ _ _ Hok He)|by apply (list_error_law _ _ Hok He)].
  - intros r j [err|r'] j' Hok Hp; [by apply (put_error_law _ _ _ _ Hok Hp)|by apply (put_law _ _ _ _ Hok Hp)].
  - intros r j r' j' Hok Hp. by destruct (put_law _ _ _ _ Hok Hp) as (_ & -> & _).
Qed.

(** The listing is the journal's contents. *)
Lemma listed_contents j l j' :
  journal_ok j -> List_ j = (Some l, j') -> listed l = contents j'.
Proof.
  intros Hok Hl. destruct (list_law _ _ _ Hok Hl) as (_ & -> & _ & Hnd & <-).
  unfold listed. apply list_to_map_proper.
  - rewrite <- list_fmap_compose. change (NoDup (Key <$> rev l)).
    by rewrite <- Permutation_rev.
  - by rewrite <- Permutation_rev.
Qed.

Lemma claim_runs f j e en ep j' se :
  journal_ok j -> fl_contents f = contents j -> fl_newest f = newest j -> (newest j < u64_max)%N ->
  (en_epoch en <> 0%N -> fl_members f !! e = Some (Build_member (en_epoch en) se)) ->
  claim_epoch en j = (inr ep, j') ->
  exists f' se', rtc fleet_step f f' /\ holds f' j' e ep se'.
Proof.
  intros Hok Hc Hn Hmax Hm. unfold claim_epoch. destruct (N.eqb_spec (en_epoch en) 0) as [Hz|Hz].
  - destruct (Epoch j) as [[ep1|] j1] eqn:Ee; [|done]. intros [= <- <-].
    destruct (epoch_law _ _ _ Hok Ee) as (Hok' & Hc' & Hn' & Hlt).
    eexists _, None. split; [apply rtc_once, (fleet_claim f e ep1); rewrite Hn; auto|].
    split; simpl; [done|congruence|done|]. by rewrite lookup_insert_eq.
  - intros [= <- <-]. exists f, se. split; [constructor|]. split; auto.
Qed.

(** C7. A step of an engine on a lawful journal is a run of the fleet, whatever
    the providers answer: from any fleet state whose journal this is (and where
    the engine is new or holds the epoch it claimed), the run ends in a fleet
    state with the journal the step leaves and the engine's epoch.  Everything
    proved of the fleet holds of every sequence of steps. *)
Theorem Step_in_fleet cfg inp en (j : J) f e se :
  journal_ok j -> fl_contents f = contents j -> fl_newest f = newest j -> (newest j < u64_max)%N ->
  (en_epoch en <> 0%N -> fl_members f !! e = Some (Build_member (en_epoch en) se)) ->
  match Step cfg inp en j with
  | (inr _, en', j', log) => exists f' se',
      rtc fleet_step f f' /\ journal_ok j' /\ fl_contents f' = contents j' /\ fl_newest f' = newest j' /\
      fl_members f' !! e = Some (Build_member (en_epoch en') se')
  | (inl _, _, j', _) => journal_ok j' /\ contents j' = contents j
  end.
Proof.
  intros Hok Hc Hn Hmax Hm.
  pose proof (Step_trace journal_ok cfg inp en j laws_versioned Hok) as Ht.
  destruct (Step cfg inp en j) as [[[out en'] j'] log] eqn:Es. destruct out as [err|out].
  - revert Es. unfold Step, claim_epoch. destruct (N.eqb (en_epoch en) 0).
    + destruct (Epoch j) as [[ep|] j1] eqn:Ee.
      * destruct (epoch_law _ _ _ Hok Ee) as (Hok1 & Hc1 & _ & _).
        destruct (List_ j1) as [[l|] j2] eqn:El.
        { destruct (read_decisions _ _). by destruct (step_body _ _ _ _ _ _ _). }
        intros [= _ _ <- _]. destruct (list_error_law _ _ Hok1 El) as (? & -> & _). by split.
      * intros [= _ _ <- _]. destruct (epoch_error_law _ _ Hok Ee) as (? & -> & _). by split.
    + destruct (List_ j) as [[l|] j2] eqn:El.
      { destruct (read_decisions _ _). by destruct (step_body _ _ _ _ _ _ _). }
      intros [= _ _ <- _]. destruct (list_error_law _ _ Hok El) as (? & -> & _). by split.
  - destruct Ht as (l & j1 & j2 & view & fresh & Hcl & Hl & Ht & Hr).
    destruct (claim_runs f j e en (en_epoch en') j1 se Hok Hc Hn Hmax Hm Hcl) as (f1 & se1 & Hrun1 & Hh1).
    destruct Hh1 as [Hok1 Hc1 Hn1 Hm1]. destruct (list_law _ _ _ Hok1 Hl) as (Hok2 & Hc2 & Hn2 & _ & _).
    pose proof (listed_contents _ _ _ Hok1 Hl) as Hlisted.
    assert (exists f2, fleet_step f1 f2 /\ holds f2 j2 e (en_epoch en')
      (Some (Build_session (in_Now inp) (step_authorised journal_ok cfg inp en (en_epoch en') l)
               (step_resendable journal_ok cfg inp en l) (listed l) None))) as (f2 & Hstep & Hh2).
    { eexists. split; [by eapply fleet_list|]. split; simpl; [done|congruence|congruence|].
      rewrite lookup_insert_eq. rewrite Hlisted, Hc2, <- Hc1. done. }
    destruct (trace_runs _ _ _ _ _ _ _ _ _ _ _ _ Ht Hr Hh2) as (f3 & Hrun3 & [? ? ? ?]).
    exists f3. eexists. split_and!; try done. etrans; [exact Hrun1|]. by eapply rtc_l.
Qed.
End step_runs.
