(* ===== verification/DemoEngine.v ===== *)
(** * A small run of the engine, on which the theorems are evaluated

    The database of Demo.v is down and the restart of Profile.v is declared for
    it; the provider accepts every hand-off.  Each witness applies one theorem
    of the development to this run, or to a part of it. *)

From S2P Require Import Prelude Identity Predicate Contract Assessment Evaluator Demo Profile.
From S2P Require Import ActionTypes EvalEvidence EvalResolve EvalSpec EvalMeaning Journal Proposal.
From S2P Require Import Recovery Engine EngineSpec StepSpec Fleet.

(** Digests by concatenation: enough to tell the demo's proposals apart. *)
#[export] Instance demo_digests : Digests := {|
  digest_response r := ActionRef_String (rp_Action r) +:+ "/" +:+ rp_Owner r;
  digest_declaration d := "decl:" +:+ d.1;
  digest_subject s := ti_UID (su_Target s) +:+ ":" +:+ su_ResolvedUID s;
  digest_id s := s.1 +:+ "#" +:+ pretty s.2;
  digest_basis b := "digest:" +:+ ba_ID b;
  digest_raw r := ActionRef_String (rs_Action r);
|}.

#[export] Instance demo_providers : Providers := {|
  Submit log provider h := Some (Build_Receipt (h_Key h) (h_Fence h) (h_Digest h) true "job-1");
  ProviderResult log provider key := None;
|}.

Definition demo_registration : Registration := Build_Registration "team" ["ns"] ["restart@1"].

Definition demo_config : Config := Build_Config {["runner" := demo_registration]} None None.

Definition demo_assessment : Assessment :=
  match Evaluate demo with Some (inr a) => a | _ => Build_Assessment [] end.

Definition demo_input : Input := Build_Input demo demo_assessment (Some demo_profile) 1000.

Definition demo_engine : Engine := Build_Engine 0 zero_Stats.

Definition demo_journal : MemJournal := NewSimulatedDurableJournal.

Definition demo_step := Step demo_config demo_input demo_engine demo_journal.

(** The record the first step persists. *)
Definition demo_record : option AttemptRecord :=
  match demo_step.2 with EvPut r _ :: _ => Some r | _ => None end.

(** The database is up again after an execution that ended at 945. *)
Definition demo_recovered : Snapshot := {|
  At := 1000; Contracts := Contracts demo; Targets := Targets demo;
  Observations := Observations demo ++ [demo_observation db_target "ready" true 960 "r4"];
|}.

Definition demo_ended (r : AttemptRecord) : AttemptRecord := ended_at PhaseSucceeded 945 "job-1" r.

(** A journal no one has made durable. *)
Definition plain_ok (j : MemJournal) : Prop := mem_ok j /\ mj_durable j = false.

(** * Lemmas *)
Lemma plain_versioned : versioned plain_ok.
Proof.
  split.
  - intros j o j' [Hok Hd] [= _ <-]. done.
  - intros j o j' [Hok Hd] [= _ <-]. done.
  - intros r j answer j' [Hok Hd]. simpl. intros Hp. destruct answer as [err|r'].
    + revert Hp. unfold mem_Put. destruct (N.ltb _ _); [by intros [= _ <-]|].
      destruct (negb _); [by intros [= _ <-]|done].
    + split; [by apply (mem_Put_ok r j r' j')|]. revert Hp. unfold mem_Put.
      destruct (N.ltb _ _); [done|]. destruct (negb _); [done|]. by intros [= _ <-].
  - intros r j r' j' [Hok Hd] Hp. by destruct (mem_Put_ok r j r' j' Hok Hp) as (_ & -> & _).
Qed.

Lemma new_mem_ok b : mem_ok (Build_MemJournal b 0 ∅).
Proof. intros k r Hr. simpl in Hr. by rewrite lookup_empty in Hr. Qed.

Lemma mem_versioned : versioned mem_ok.
Proof. exact (laws_versioned (J := MemJournal)). Qed.

(** The first calls of the demo: a claim, a listing and the first write. *)
Definition demo_session (view : gmap string AttemptRecord) (fresh : option AttemptRecord) : member :=
  Build_member 1 (Some (Build_session 1000 (fun _ => True) (fun _ => False) view fresh)).
Definition demo_claimed : fleet := Build_fleet 1 ∅ (<[0 := Build_member 1 None]> ∅) [].
Definition demo_listed : fleet :=
  Build_fleet 1 ∅ (<[0 := demo_session ∅ None]> (fl_members demo_claimed)) [].
Definition demo_fleet (r : AttemptRecord) : fleet :=
  Build_fleet 1 (<[Key r := bump r]> ∅)
    (<[0 := demo_session (<[Key r := bump r]> ∅) (Some (bump r))]> (fl_members demo_listed)) [].

Lemma first_attempt_reachable r :
  Fence r = 1%N -> new_attempt 1 1000 ∅ r -> reachable 3 (demo_fleet r).
Proof.
  intros Hf Hnew. apply (reachable_step 2 demo_listed).
  - apply (reachable_step 1 demo_claimed); [apply (reachable_step 0 empty_fleet); [constructor|]|].
    + exact (fleet_claim empty_fleet 0 1 eq_refl).
    + exact (fleet_list demo_claimed 0 1 None 1000 (fun _ => True) (fun _ => False) eq_refl).
  - refine (fleet_event demo_listed 0 1 1000 (fun _ => True) (fun _ => False) ∅ None
      (EvPut r (inr (bump r))) (<[Key r := bump r]> ∅) (Some (bump r)) (<[Key r := bump r]> ∅) eq_refl _ _).
    + apply (event_stored _ _ _ _ _ _ r true). by apply allowed_create.
    + simpl. rewrite Hf, lookup_empty. split; [done|]. split; [|done]. unfold swaps.
      by rewrite (na_version _ _ _ _ Hnew).
Qed.

Lemma demo_reachable :
  exists r, demo_record = Some r /\ reachable 3 (demo_fleet r) /\ occupies (RPhase (bump r)) = true.
Proof.
  destruct demo_record as [r|] eqn:Er; [|vm_compute in Er; discriminate].
  vm_compute in Er. injection Er as Er. exists r. split; [reflexivity|].
  split; [apply first_attempt_reachable|]; subst r; try reflexivity.
  split; try reflexivity; try discriminate; try (repeat split; reflexivity).
  left. split; [reflexivity|]. intros k r. rewrite lookup_empty. discriminate.
Qed.

(** ** Witnesses *)
Lemma resolveEvidence_order_witness :
  se_core (resolveEvidence (newEvaluator demo) db_target (demo_slot "ready")) =
  se_core (resolveEvidence (newEvaluator (Build_Snapshot 1000 (Contracts demo) (Targets demo)
    (rev (Observations demo)))) db_target (demo_slot "ready")).
Proof. apply resolveEvidence_order. apply Permutation_rev. Defined.

Lemma resolveTargets_valid_witness : wf_target demo db_target db_contract.
Proof.
  apply (resolveTargets_valid demo 2 db_target db_contract eq_refl). vm_compute. split; reflexivity.
Defined.

Lemma capability_composition_witness :
  exists e R, prepare demo = Some e /\
    forall i cp, live e i cp -> cr_State (R i cp) = composed_state (verdicts e R i cp).
Proof.
  destruct (capability_composition demo ltac:(discriminate)) as (e & R & He & _ & Hall).
  exists e, R. exact (conj He Hall).
Defined.

Lemma available_supported_witness :
  exists e R, prepare demo = Some e /\
    forall i cp, live e i cp -> cr_State (R i cp) = Available <-> supported e i cp.
Proof.
  destruct (available_supported demo ltac:(discriminate)) as (e & R & He & _ & Hall).
  exists e, R. exact (conj He Hall).
Defined.

Lemma assessRecovery_recovered_witness :
  exists r t a ta, demo_record = Some r /\ targetOf demo_recovered (TargetUID r) = Some t /\
    bindingOf t = RBinding r /\ Evaluate (post_snapshot demo_recovered 945 1000) = Some (inr a) /\
    assessment_target a (TargetUID r) = Some ta /\
    forall c, c ∈ Expected r -> expected_state ta c = Available.
Proof.
  destruct demo_record as [r|] eqn:Er; [|vm_compute in Er; discriminate].
  destruct (assessRecovery_recovered (demo_ended r) demo_recovered 1000 ltac:(discriminate)) as [[Hrec _] _].
  destruct Hrec as (t & a & ta & H1 & H2 & H3 & H4 & _ & H5).
  - vm_compute in Er. injection Er as <-. eexists. vm_compute. reflexivity.
  - exists r, t, a, ta. exact (conj eq_refl (conj H1 (conj H2 (conj H3 (conj H4 H5))))).
Defined.

Lemma MemJournal_excludes_witness :
  exists r, demo_record = Some r /\
    mem_Put r (mem_run (mem_Epoch (mem_Epoch demo_journal).2).2 [CallPut r]) =
      (inl ErrFenced, mem_run (mem_Epoch (mem_Epoch demo_journal).2).2 [CallPut r]).
Proof.
  destruct demo_record as [r|] eqn:Er; [|vm_compute in Er; discriminate]. exists r. split; [reflexivity|].
  apply (proj1 (MemJournal_excludes (mem_Epoch demo_journal).2) [CallPut r] r 2%N); [reflexivity|vm_compute; discriminate|].
  vm_compute in Er. injection Er as <-. reflexivity.
Defined.

Lemma Step_conforms_witness :
  exists l j1 j2 view fresh, claim_epoch demo_engine demo_journal = (inr 1%N, j1) /\
    List_ j1 = (Some l, j2) /\
    trace 1 1000 (step_authorised mem_ok demo_config demo_input demo_engine 1 l)
      (step_resendable mem_ok demo_config demo_input demo_engine l) (listed l) demo_step.2 view fresh.
Proof.
  pose proof (Step_conforms mem_ok demo_config demo_input demo_engine demo_journal
    mem_versioned (new_mem_ok true)) as Ht.
  change (Step demo_config demo_input demo_engine demo_journal) with demo_step in Ht.
  destruct demo_step as [[[[err|out] en] j] log] eqn:Es; [vm_compute in Es; discriminate|].
  assert (en_epoch en = 1%N) as Hep.
  { assert (en_epoch demo_step.1.1.2 = 1%N) as He by (vm_compute; reflexivity). rewrite Es in He. exact He. }
  rewrite Hep in Ht. destruct Ht as (l & j1 & j2 & view & fresh & H1 & H2 & H3 & _).
  exists l, j1, j2, view, fresh. exact (conj H1 (conj H2 H3)).
Defined.

Lemma Step_submits_witness :
  exists provider h answer r l j1 j2, demo_step.2 !! 1 = Some (EvSubmit provider h answer) /\
    demo_step.2 !! 0 = Some (EvPut r (inr (bump r))) /\ provider = RProvider r /\ h = handoff_of r /\
    claim_epoch demo_engine demo_journal = (inr (en_epoch demo_step.1.1.2), j1) /\ List_ j1 = (Some l, j2) /\
    (step_authorised mem_ok demo_config demo_input demo_engine (en_epoch demo_step.1.1.2) l r /\
       new_attempt (en_epoch demo_step.1.1.2) 1000 (held l []) r \/
     exists old, held l [] !! Key r = Some old /\ resend (en_epoch demo_step.1.1.2) 1000 old r /\
       step_resendable mem_ok demo_config demo_input demo_engine l old).
Proof.
  assert (exists pr h a, demo_step.2 !! 1 = Some (EvSubmit pr h a)) as (pr & h & a & Hl).
  { vm_compute. eexists _, _, _. reflexivity. }
  destruct demo_step as [[[out en] j] log] eqn:Es.
  destruct (Step_submits mem_ok demo_config demo_input demo_engine demo_journal out en j log 1 pr h a
    mem_versioned (new_mem_ok true) Es Hl) as (i & r & l & j1 & j2 & Hi & Hr & Hc & Hj & Hpr & Hh & _ & _ & Hw).
  injection Hi as <-. exists pr, h, a, r, l, j1, j2.
  refine (conj Hl (conj Hr (conj Hpr (conj Hh (conj Hc (conj Hj _)))))).
  destruct Hw as [Hw|(old & Ho & _ & H1 & _ & H2)]; [left; exact Hw|right; exists old; exact (conj Ho (conj H1 H2))].
Defined.

(** The plain journal shipped with the operator: nothing is handed off. *)
Lemma Step_sends_nothing_witness :
  mj_durable NewMemJournal = false /\
  forall provider h answer, EvSubmit provider h answer ∉ (Step demo_config demo_input demo_engine NewMemJournal).2.
Proof.
  split; [reflexivity|].
  destruct (Step demo_config demo_input demo_engine NewMemJournal) as [[[out en] j] log] eqn:Es.
  apply (Step_sends_nothing plain_ok demo_config demo_input demo_engine NewMemJournal out en j log
    plain_versioned (conj (new_mem_ok false) eq_refl) (or_introl (fun j Hj => proj2 Hj)) Es).
Defined.

Lemma Step_in_fleet_witness :
  exists f' se', rtc fleet_step empty_fleet f' /\ fl_contents f' = mj_recs demo_step.1.2 /\
    fl_members f' !! 0 = Some (Build_member (en_epoch demo_step.1.1.2) se').
Proof.
  pose proof (Step_in_fleet demo_config demo_input demo_engine demo_journal empty_fleet 0 None
    (new_mem_ok true) eq_refl eq_refl eq_refl (fun H => False_ind _ (H eq_refl))) as Hs.
  change (Step demo_config demo_input demo_engine demo_journal) with demo_step in Hs.
  destruct demo_step as [[[[err|out] en] j] log] eqn:Es; [vm_compute in Es; discriminate|].
  destruct Hs as (f' & se' & H1 & _ & H2 & _ & H3). exists f', se'. exact (conj H1 (conj H2 H3)).
Defined.

Lemma fleet_exclusive_witness :
  exists r, demo_record = Some r /\ reachable 3 (demo_fleet r) /\
    forall k r2, fl_contents (demo_fleet r) !! k = Some r2 -> TargetUID (bump r) = TargetUID r2 ->
      occupies (RPhase r2) = true -> Key r = k /\ bump r = r2.
Proof.
  destruct demo_reachable as (r & Er & Hr & Ho).
  exists r. refine (conj Er (conj Hr _)). intros k r2 Hk2 Ht Ho2.
  exact (fleet_exclusive 3 (demo_fleet r) (Key r) k (bump r) r2 Hr ltac:(discriminate)
    (lookup_insert_eq ∅ (Key r) (bump r)) Hk2 Ht Ho Ho2).
Defined.

Lemma fleet_attempts_witness :
  exists r, reachable 3 (demo_fleet r) /\ fl_contents (demo_fleet r) !! Key r = Some (bump r) /\
    Key r = record_key (ProposalID r) (Attempt r).
Proof.
  destruct demo_reachable as (r & Er & Hr & _). exists r.
  destruct (fleet_attempts 3 (demo_fleet r) (Key r) (bump r) Hr ltac:(discriminate)
    (lookup_insert_eq ∅ (Key r) (bump r))) as [H1 _].
  exact (conj Hr (conj (lookup_insert_eq ∅ (Key r) (bump r)) H1)).
Defined.

Lemma fleet_send_budget_witness :
  exists r, reachable 3 (demo_fleet r) /\
    match fl_contents (demo_fleet r) !! Key r with
    | Some r' => (Sends r' <= Z.max 1 (MaxSends r'))%Z
    | None => False
    end.
Proof.
  destruct demo_reachable as (r & Er & Hr & _). exists r.
  pose proof (fleet_send_budget 3 (demo_fleet r) (Key r) Hr ltac:(discriminate)) as Hb. cbn zeta in Hb.
  assert (fl_contents (demo_fleet r) !! Key r = Some (bump r)) as Hk by exact (lookup_insert_eq ∅ (Key r) (bump r)).
  rewrite Hk in *. exact (conj Hr (proj2 Hb)).
Defined.

(** A record stored before a takeover is still sent, once, after it: the newer
    epoch stops the older engine's writes, not the hand-off it already wrote. *)
Example stalled_engine_sends :
  exists r f f', reachable 4 f /\ fl_newest f = 2%N /\ me_epoch <$> fl_members f !! 0 = Some 1%N /\
    fleet_step f f' /\ fl_sent f = [] /\ fl_sent f' = [(Key r, Sends r)].
Proof.
  destruct demo_record as [r|] eqn:Er; [|vm_compute in Er; discriminate].
  destruct demo_reachable as (r' & Er' & Hr & _). rewrite Er in Er'. injection Er' as <-.
  set (s := demo_session (<[Key r := bump r]> ∅) (Some (bump r))).
  set (f := Build_fleet 2 (<[Key r := bump r]> ∅) (<[1 := Build_member 2 None]> (fl_members (demo_fleet r))) []).
  exists r, f, (Build_fleet 2 (<[Key r := bump r]> ∅)
    (<[0 := demo_session (<[Key r := bump r]> ∅) None]> (fl_members f)) [(Key r, Sends r)]).
  split_and!; try reflexivity.
  - apply (reachable_step 3 (demo_fleet r)); [exact Hr|]. exact (fleet_claim (demo_fleet r) 1 2 eq_refl).
  - refine (fleet_event f 0 1 1000 (fun _ => True) (fun _ => False) (<[Key r := bump r]> ∅) (Some (bump r))
      (EvSubmit (RProvider (bump r)) (handoff_of (bump r)) None) (<[Key r := bump r]> ∅) None
      (<[Key r := bump r]> ∅) eq_refl _ eq_refl).
    vm_compute in Er. injection Er as <-. by constructor.
Qed.
