(* ===== verification/OpsStatus.v ===== *)
(** * The published status of a target (apis/ops/v1alpha1)

    The semantic fields of OperationalTargetStatus and InteractionStatus, and
    of the types they are made of.  Kubernetes metadata (generation, assessment
    time, conditions) is left out: no modelled code reads it. *)

From S2P Require Import Prelude Identity.

(** ** target_types.go *)
Record ObservedIdentity := {
  oi_TargetUID : string;
  oi_ResolvedUID : string;
  oi_ContractName : string;
  oi_ContractUID : string;
  oi_ContractSpecDigest : string;
}.

Record StatusReason := { sr_Code : string; sr_Subject : string; sr_Detail : string }.

#[export] Instance StatusReason_eq_dec : EqDecision StatusReason.
Proof. solve_decision. Defined.

(** [StatusReason{Code, Subject}] *)
Definition status_reason (code subject : string) : StatusReason := Build_StatusReason code subject "".

Record DeniedReference := { dn_Type : string; dn_Slot : string; dn_Namespace : string }.

(** EvidenceStatus *)
Record EvidenceEntry := {
  ee_Slot : string;
  ee_State : string;
  ee_Provider : string;
  ee_ConfigRevision : string;
  ee_EvidenceRef : string;
}.

Record CapabilityStatus := {
  cs_Type : CapabilityType;
  cs_State : string;
  cs_Reasons : list StatusReason;
}.

Record EnvelopeStatus := {
  es_Name : string;
  es_Class : string;
  es_State : string;
  es_Reasons : list StatusReason;
}.

(** OperationalTargetStatus *)
Record TargetStatus := {
  st_Identity : ObservedIdentity;
  st_Valid : bool;
  st_Sync : string;
  st_EnvelopeSelection : string;
  st_InvalidReasons : list StatusReason;
  st_DeniedReferences : list DeniedReference;
  st_Evidence : list EvidenceEntry;
  st_Capabilities : list CapabilityStatus;
  st_Envelopes : list EnvelopeStatus;
}.

(** ** interaction_types.go *)
Inductive InteractionLevel :=
  | LevelNoAction | LevelAwareness | LevelDecisionRequired | LevelImmediateIntervention.

#[export] Instance InteractionLevel_eq_dec : EqDecision InteractionLevel.
Proof. solve_decision. Defined.

Record InteractionCapability := {
  ic_Type : CapabilityType;
  ic_State : string;
  ic_Reasons : list StatusReason;
}.

Record InteractionCandidate := { cd_ID : string; cd_Kind : string; cd_Ref : string; cd_Status : string }.

Record InteractionInvestigation := {
  ii_Outcome : string;
  ii_Refuted : nat;
  ii_Maintained : nat;
  ii_Open : nat;
}.

Record InteractionResponse := {
  ir_Name : string;
  ir_Target : string;
  ir_For : CapabilityType;
  ir_Owner : string;
  ir_RequiresApproval : bool;
  ir_Risks : list string;
  ir_Preconditions : list StatusReason;
  ir_Status : string;
}.

Record InteractionAction := {
  ia_Proposal : string;
  ia_Digest : string;
  ia_Name : string;
  ia_For : CapabilityType;
  ia_Phase : string;
  ia_Attempt : Z;
  ia_Reasons : list StatusReason;
  ia_Recovery : string;
  ia_RecoveryDetail : list StatusReason;
}.

Record InteractionStatus := {
  is_Level : InteractionLevel;
  is_Summary : string;
  is_LevelReasons : list StatusReason;
  is_Affected : list InteractionCapability;
  is_Unaffected : list InteractionCapability;
  is_Unknown : list InteractionCapability;
  is_ConfirmedFacts : list EvidenceEntry;
  is_MissingEvidence : list EvidenceEntry;
  is_CauseCandidates : list InteractionCandidate;
  is_Investigation : InteractionInvestigation;
  is_Responses : list InteractionResponse;
  is_HumanReasons : list StatusReason;
  is_PendingPostConditions : list StatusReason;
  is_Actions : list InteractionAction;
  is_IdentityDigest : string;
  is_Fingerprint : string;
  is_RecentFingerprints : list string;
  is_Recurring : bool;
  is_Recurrences : Z;
}.
