(* ===== verification/Interaction.v ===== *)
(** * The operator interaction summary (pkg/interaction/project.go): definitions

    [Project] is a pure function of the target's published status, its
    investigation record, the declared profile, the O5 actions and the previous
    summary.  SHA-256 digests and the JSON form of a response are functions of
    the class [Summaries], of which nothing is assumed. *)

From S2P Require Import Prelude Identity Assessment Profile ActionTypes OpsStatus.

(** ** Reason codes and bounds *)
Definition LReasonTargetNotAssessed : string := "target-not-assessed".
Definition LReasonNoCapabilities : string := "no-capabilities-assessed".
Definition LReasonCapabilityUnknown : string := "capability-unknown".
Definition LReasonEnvelopeUnsatisfied : string := "envelope-unsatisfied".
Definition LReasonEnvelopeUnknown : string := "envelope-unknown".
Definition LReasonInvestigationActive : string := "investigation-in-progress".
Definition LReasonImpactFromDependency : string := "impact-from-dependency".
Definition LReasonNoDeclaredResponse : string := "no-declared-response".
Definition LReasonDeclaredResponseReady : string := "declared-response-ready".
Definition LReasonApprovalRequired : string := "approval-required".
Definition LReasonSafetyUnproven : string := "safety-condition-unproven".
Definition LReasonOwnerUndeclared : string := "owner-undeclared".
Definition LReasonOwnerConflict : string := "owner-conflict".
Definition LReasonNoPriorityAuthority : string := "no-priority-authority".
Definition LReasonNoViableResponse : string := "no-viable-response".
Definition LReasonNoSafePath : string := "no-safe-path".
Definition LReasonAllAvailable : string := "all-capabilities-available".
Definition LReasonSpecCorrection : string := "spec-correction-required".
Definition LReasonActionOutcomeUnknown : string := "action-outcome-unknown".
Definition LReasonActionNotRecovered : string := "action-not-recovered".

Definition ResponseReady : string := "Ready".
Definition ResponseApprovalRequired : string := "ApprovalRequired".
Definition ResponseSafetyUnproven : string := "SafetyUnproven".
Definition ResponseOwnerUndeclared : string := "OwnerUndeclared".
Definition ResponseOwnerConflict : string := "OwnerConflict".
Definition ResponseInapplicable : string := "Inapplicable".

Definition PostCapabilityAvailable : string := "capability-available-on-current-evidence".
Definition PostEnvelopeSatisfied : string := "envelope-satisfied-on-current-evidence".
Definition PostUnconfirmed : string := "unconfirmed".
Definition PreProven : string := "proven".
Definition PreUnproven : string := "unproven".
Definition PreUnmet : string := "unmet".

Definition maxCaps : nat := 64.
Definition maxFacts : nat := 64.
Definition maxCandidates : nat := 16.
Definition maxResponses : nat := 8.
Definition maxActions : nat := 8.
Definition maxReasons : nat := 8.
Definition maxCapReasons : nat := 4.
Definition maxPost : nat := 16.
Definition maxHistory : nat := 4.
Definition maxSummary : nat := 256.
Definition statusReasonBound : nat := 40.

(** ** Input *)
Record Candidate := { ca_ID : string; ca_Kind : string; ca_Ref : string; ca_Status : string }.

Record Investigation := { iv_Kind : string; iv_Outcome : string; iv_Candidates : list Candidate }.

Record InteractionInput := {
  ip_Namespace : string;
  ip_Name : string;
  ip_UID : string;
  ip_Status : TargetStatus;
  ip_Investigation : option Investigation;
  ip_Profile : option Profile;
  ip_Actions : list InteractionAction;
}.

(** ** Decisions *)
Definition level_rank (l : InteractionLevel) : nat :=
  match l with
  | LevelNoAction => 0
  | LevelAwareness => 1
  | LevelDecisionRequired => 2
  | LevelImmediateIntervention => 3
  end.

Record decision := {
  de_level : InteractionLevel;
  de_reasons : list StatusReason;
  de_human : list StatusReason;
}.

Definition raise (l : InteractionLevel) (code subject : string) (d : decision) : decision :=
  Build_decision (if level_rank (de_level d) <? level_rank l then l else de_level d)
    (de_reasons d ++ [status_reason code subject]) (de_human d).

Definition needHuman (code subject : string) (d : decision) : decision :=
  Build_decision (de_level d) (de_reasons d) (de_human d ++ [status_reason code subject]).

(** ** Small helpers *)
Definition typeKey (c : CapabilityType) : string :=
  ct_Domain c +:+ "/" +:+ ct_Name c +:+ "@" +:+ ct_Revision c.

(** [limit], [limitCaps] and the slices cut at a bound *)
Definition limit {A} (rs : list A) (n : nat) : list A := take n rs.

Definition is_state_available (s : string) : bool := bool_decide (s = "AVAILABLE").
Definition is_state_affected (s : string) : bool := bool_decide (s = "DEGRADED") || bool_decide (s = "UNAVAILABLE").

(** utf8.ValidString *)
Fixpoint valid_utf8 (fuel : nat) (bs : list nat) : bool :=
  match fuel, bs with
  | _, [] => true
  | O, _ => false
  | S fuel, b :: _ =>
      let w := rune_width bs in
      ((b <? 128) || (1 <? w)) && valid_utf8 fuel (drop w bs)
  end.

Definition ValidString (s : string) : bool := valid_utf8 (String.length s) (string_bytes s).

(** The loop of [clip]: drop last bytes until the text is valid. *)
Fixpoint trim_valid (n : nat) (s : string) : string :=
  let cut := String.substring 0 n s in
  match n with
  | O => cut
  | S m => if ValidString cut then cut else trim_valid m s
  end.

Definition clip (s : string) : string :=
  if String.length s <=? maxSummary then s
  else trim_valid (maxSummary - 3) s +:+ "...".

Definition joinCodes (rs : list StatusReason) (n : nat) : string :=
  let s := (sr_Code <$> take n rs) ++
           (if n <? length rs then ["+" +:+ pretty (length rs - n) +:+ " more"] else []) in
  match s with [] => "no reason reported" | _ => join ", " s end.

(** JSON and SHA-256, as functions. *)
Record fingerprint_basis := {
  fb_ID : string;
  fb_Level : InteractionLevel;
  fb_Reasons : list StatusReason;
  fb_Caps : list (string * string);
  fb_Missing : list EvidenceEntry;
  fb_Response : list string;
  fb_Human : list StatusReason;
  fb_Actions : list string;
}.

Class Summaries := {
  digest_fingerprint : fingerprint_basis -> string;
  digest_identity : list string -> string;
  response_json : InteractionResponse -> string;
}.

Section projection.
Context `{SortSlice} `{Summaries}.

Definition sortCaps (cs : list InteractionCapability) : list InteractionCapability :=
  sort_slice (fun a b => String.ltb (typeKey (ic_Type a)) (typeKey (ic_Type b))) cs.

(** [dedupReasons]: the loop over [seen], then the sort. *)
Fixpoint first_seen {A} `{EqDecision A} (seen : list A) (rs : list A) : list A :=
  match rs with
  | [] => []
  | r :: rs => if decide (r ∈ seen) then first_seen seen rs else r :: first_seen (r :: seen) rs
  end.

Definition status_reason_less (a b : StatusReason) : bool :=
  if negb (bool_decide (sr_Code a = sr_Code b)) then String.ltb (sr_Code a) (sr_Code b)
  else String.ltb (sr_Subject a) (sr_Subject b).

Definition dedupReasons (rs : list StatusReason) : list StatusReason :=
  sort_slice status_reason_less (first_seen [] rs).

(** ** Evidence *)
Definition confirmed (st : TargetStatus) : list EvidenceEntry :=
  take maxFacts (sort_slice (fun a b => String.ltb (ee_Slot a) (ee_Slot b))
    (List.filter (fun e => bool_decide (ee_State e = "Current")) (st_Evidence st))).

Definition evidence_less (a b : EvidenceEntry) : bool :=
  if negb (bool_decide (ee_Slot a = ee_Slot b)) then String.ltb (ee_Slot a) (ee_Slot b)
  else String.ltb (ee_State a) (ee_State b).

Definition missing (st : TargetStatus) : list EvidenceEntry :=
  take maxFacts (sort_slice evidence_less
    (((fun e => Build_EvidenceEntry (ee_Slot e) (ee_State e) (ee_Provider e) (ee_ConfigRevision e) "") <$>
        List.filter (fun e => negb (bool_decide (ee_State e = "Current"))) (st_Evidence st)) ++
     ((fun dr => Build_EvidenceEntry (dn_Slot dr) ("BindingDenied:" +:+ dn_Type dr) "" "" "") <$>
        st_DeniedReferences st))).

(** ** Investigation *)
Definition relevant (cs : list Candidate) (open : gset string) : list Candidate :=
  List.filter (fun c => existsb (fun k => has_prefix (k +:+ "/") (ca_ID c)) (elements open)) cs.

Definition candidateOrder (status : string) : nat :=
  if decide (status = "Maintained") then 0 else if decide (status = "Open") then 1
  else if decide (status = "Refuted") then 2 else 0.

Definition candidate_less (a b : InteractionCandidate) : bool :=
  if negb (candidateOrder (cd_Status a) =? candidateOrder (cd_Status b))
  then candidateOrder (cd_Status a) <? candidateOrder (cd_Status b)
  else String.ltb (cd_ID a) (cd_ID b).

Definition candidates (inv : option Investigation) (open : gset string) : list InteractionCandidate :=
  match inv with
  | None => []
  | Some inv =>
      take maxCandidates (sort_slice candidate_less
        ((fun c => Build_InteractionCandidate (ca_ID c) (ca_Kind c) (ca_Ref c) (ca_Status c)) <$>
           relevant (iv_Candidates inv) open))
  end.

(** The map [outcomeClass]; "" for an absent key. *)
Definition outcomeClass (o : string) : string :=
  if decide (o = "Active") then "InProgress"
  else if decide (o = "Resolved") then "Concluded"
  else if decide (o = "Refreshed") then "Concluded"
  else if decide (o = "NoAllowedQuery") then "NoAllowedQuery"
  else if decide (o = "ExhaustedCalls") then "BudgetExhausted"
  else if decide (o = "ExhaustedSteps") then "BudgetExhausted"
  else if decide (o = "Deadline") then "BudgetExhausted"
  else if decide (o = "Cancelled") then "Cancelled"
  else if decide (o = "Capacity") then "CapacityLimited"
  else if decide (o = "Superseded") then "Superseded"
  else if decide (o = "TargetInvalid") then "Superseded"
  else "".

Definition count_status (s : string) (cs : list Candidate) : nat :=
  length (List.filter (fun c => bool_decide (ca_Status c = s)) cs).

Definition investigationOf (inv : option Investigation) (open : gset string) : InteractionInvestigation :=
  match inv with
  | None => Build_InteractionInvestigation "NotRun" 0 0 0
  | Some inv =>
      let o := outcomeClass (iv_Outcome inv) in
      let cs := relevant (iv_Candidates inv) open in
      Build_InteractionInvestigation (if decide (o = "") then "Superseded" else o)
        (count_status "Refuted" cs) (count_status "Maintained" cs) (count_status "Open" cs)
  end.

(** ** Declared responses *)
Definition precondition_state (caps : gmap string CapabilityStatus) (p : CapabilityType) : string :=
  match caps !! typeKey p with
  | Some pc =>
      if is_state_available (cs_State pc) then PreProven
      else if is_state_affected (cs_State pc) then PreUnmet else PreUnproven
  | None => PreUnproven
  end.

Definition response_status (caps : gmap string CapabilityStatus) (r : Response) : string :=
  let codes := precondition_state caps <$> rs_Preconditions r in
  if existsb (fun c => bool_decide (c = PreUnmet)) codes then ResponseInapplicable
  else if decide (rs_Owner r = "") then ResponseOwnerUndeclared
  else if existsb (fun c => bool_decide (c = PreUnproven)) codes then ResponseSafetyUnproven
  else if rs_RequiresApproval r || (0 <? length (rs_Risks r)) then ResponseApprovalRequired
  else ResponseReady.

Definition response_of (inp : InteractionInput) (caps : gmap string CapabilityStatus) (r : Response) :
    InteractionResponse := {|
  ir_Name := ActionRef_String (rs_Action r);
  ir_Target := ip_Namespace inp +:+ "/" +:+ ip_Name inp +:+ "#" +:+ ip_UID inp;
  ir_For := rs_For r; ir_Owner := rs_Owner r; ir_RequiresApproval := rs_RequiresApproval r;
  ir_Risks := sort_strings (rs_Risks r);
  ir_Preconditions := sort_slice (fun a b => String.ltb (sr_Subject a) (sr_Subject b))
    ((fun p => status_reason (precondition_state caps p) (typeKey p)) <$> rs_Preconditions r);
  ir_Status := response_status caps r;
|}.

(** A response declared for this exact target, in a state it is declared for. *)
Definition declared_for (inp : InteractionInput) (caps : gmap string CapabilityStatus) (r : Response) : bool :=
  bool_decide (tr_Namespace (rs_Target r) = ip_Namespace inp) &&
  bool_decide (tr_Name (rs_Target r) = ip_Name inp) &&
  (negb (nonempty (tr_UID (rs_Target r))) || bool_decide (tr_UID (rs_Target r) = ip_UID inp)) &&
  match caps !! typeKey (rs_For r) with
  | Some c => Response_triggers r (cs_State c)
  | None => false
  end.

Definition declare_step (inp : InteractionInput) (caps : gmap string CapabilityStatus)
    (acc : gmap string (list InteractionResponse) * gmap string (gset string)) (r : Response) :
    gmap string (list InteractionResponse) * gmap string (gset string) :=
  let '(out, owners) := acc in
  if negb (declared_for inp caps r) then acc
  else
    let k := typeKey (rs_For r) in
    let ir := response_of inp caps r in
    let ok2 := k +:+ "|" +:+ ir_Name ir in
    (group_add k ir out, <[ok2 := {[rs_Owner r]} ∪ default ∅ (owners !! ok2)]> owners).

Definition set_ir_Status (s : string) (r : InteractionResponse) : InteractionResponse :=
  Build_InteractionResponse (ir_Name r) (ir_Target r) (ir_For r) (ir_Owner r) (ir_RequiresApproval r)
    (ir_Risks r) (ir_Preconditions r) s.

Definition conflict_status (owners : gmap string (gset string)) (k : string) (r : InteractionResponse) :
    InteractionResponse :=
  if (1 <? size (default ∅ (owners !! (k +:+ "|" +:+ ir_Name r)))) &&
     negb (bool_decide (ir_Status r = ResponseInapplicable))
  then set_ir_Status ResponseOwnerConflict r else r.

Definition response_less (a b : InteractionResponse) : bool :=
  if negb (bool_decide (ir_Name a = ir_Name b)) then String.ltb (ir_Name a) (ir_Name b)
  else String.ltb (ir_Owner a) (ir_Owner b).

(** [dedupResponses]: the first response of each JSON form. *)
Fixpoint dedup_json (seen : list string) (rs : list InteractionResponse) : list InteractionResponse :=
  match rs with
  | [] => []
  | r :: rs =>
      if decide (response_json r ∈ seen) then dedup_json seen rs
      else r :: dedup_json (response_json r :: seen) rs
  end.

Definition declared (inp : InteractionInput) (caps : gmap string CapabilityStatus) :
    gmap string (list InteractionResponse) :=
  match ip_Profile inp with
  | None => ∅
  | Some p =>
      let '(out, owners) := foldl (declare_step inp caps) (∅, ∅) (pf_Responses p) in
      map_imap (fun k rs => Some (dedup_json [] (slice_stable response_less (conflict_status owners k <$> rs))))
        out
  end.

(** ** Decisions *)
Definition fromDependencyOnly (reasons : list StatusReason) : bool :=
  if bool_decide (length reasons = 0) || (statusReasonBound <=? length reasons) then false
  else forallb (fun r => has_prefix "dependency-" (sr_Code r)) reasons.

Definition viable_responses (rs : list InteractionResponse) : list InteractionResponse :=
  List.filter (fun r => negb (bool_decide (ir_Status r = ResponseInapplicable))) rs.

Definition decide_response (subject : string) (alone : bool) (d : decision) (r : InteractionResponse) :
    decision :=
  if decide (ir_Status r = ResponseReady) then
    if alone then raise LevelAwareness LReasonDeclaredResponseReady subject d else d
  else
    let code :=
      if decide (ir_Status r = ResponseApprovalRequired) then LReasonApprovalRequired
      else if decide (ir_Status r = ResponseSafetyUnproven) then LReasonSafetyUnproven
      else if decide (ir_Status r = ResponseOwnerUndeclared) then LReasonOwnerUndeclared
      else if decide (ir_Status r = ResponseOwnerConflict) then LReasonOwnerConflict
      else "" in
    needHuman code (ir_Name r) (raise LevelDecisionRequired code subject d).

Definition decideCapability (d : decision) (c : InteractionCapability) (reasons : list StatusReason)
    (rs : list InteractionResponse) : decision :=
  let subject := typeKey (ic_Type c) in
  match rs with
  | [] =>
      if negb (is_state_affected (ic_State c)) then d
      else if fromDependencyOnly reasons then raise LevelAwareness LReasonImpactFromDependency subject d
      else raise LevelAwareness LReasonNoDeclaredResponse subject d
  | _ =>
      match viable_responses rs with
      | [] =>
          if decide (ic_State c = "UNAVAILABLE")
          then needHuman LReasonNoSafePath subject (raise LevelImmediateIntervention LReasonNoSafePath subject d)
          else needHuman LReasonNoViableResponse subject
                 (raise LevelDecisionRequired LReasonNoViableResponse subject d)
      | [r] => decide_response subject true d r
      | viable =>
          let d := needHuman LReasonNoPriorityAuthority subject
                     (raise LevelDecisionRequired LReasonNoPriorityAuthority subject d) in
          foldl (decide_response subject false) d viable
      end
  end.

(** ** Actions *)
Definition action_code (a : InteractionAction) : string :=
  if bool_decide (ia_Recovery a = "Recovered") || bool_decide (ia_Recovery a = "Inapplicable") then ""
  else if bool_decide (ia_Phase a = "TimedOut") || bool_decide (ia_Phase a = "Withdrawn")
  then LReasonActionOutcomeUnknown
  else if bool_decide (ia_Recovery a = "NotRecovered") || bool_decide (ia_Recovery a = "Partial") ||
          bool_decide (ia_Recovery a = "Unconfirmed") then LReasonActionNotRecovered
  else "".

Definition action_available (caps : gmap string CapabilityStatus) (a : InteractionAction) : bool :=
  match caps !! typeKey (ia_For a) with Some c => is_state_available (cs_State c) | None => false end.

Definition action_step (caps : gmap string CapabilityStatus) (first : gmap string string)
    (a : InteractionAction) : gmap string string :=
  if action_available caps a then first
  else
    let code := action_code a in
    match first !! code with
    | Some n => if nonempty code && String.ltb (ia_Name a) n then <[code := ia_Name a]> first else first
    | None => if nonempty code then <[code := ia_Name a]> first else first
    end.

Definition raise_action (first : gmap string string) (d : decision) (code : string) : decision :=
  match first !! code with
  | Some n => needHuman code n (raise LevelDecisionRequired code n d)
  | None => d
  end.

Definition sorted_actions (inp : InteractionInput) : list InteractionAction :=
  slice_stable (fun a b => String.ltb (ia_Proposal a) (ia_Proposal b)) (ip_Actions inp).

(** [caps] is [None] for a target that is not assessed. *)
Definition actionsOf (inp : InteractionInput) (d : decision) (caps : option (gmap string CapabilityStatus)) :
    list InteractionAction * decision :=
  let all := sorted_actions inp in
  (take maxActions all,
   match caps with
   | None => d
   | Some caps =>
       let first := foldl (action_step caps) ∅ all in
       foldl (raise_action first) d [LReasonActionNotRecovered; LReasonActionOutcomeUnknown]
   end).

(** ** The summary line *)
Definition capList (cs : list InteractionCapability) : string :=
  join ", " (((fun c => ct_Name (ic_Type c) +:+ " " +:+ ic_State c) <$> take 3 cs) ++
             (if 3 <? length cs then ["+" +:+ pretty (length cs - 3) +:+ " more"] else [])).

Definition summary_part (cs : list InteractionCapability) (word : string) : list string :=
  if 0 <? length cs then [pretty (length cs) +:+ " " +:+ word +:+ " (" +:+ capList cs +:+ ")"] else [].

Definition summaryLine (affected unknown unaffected : list InteractionCapability) (total : nat) : string :=
  if total =? 0 then "no capability is assessed for this target"
  else match (summary_part affected "affected" ++ summary_part unknown "unknown")%list with
  | [] => "all " +:+ pretty total +:+ " capabilities AVAILABLE on current evidence"
  | parts => join "; " (parts ++ [pretty (length unaffected) +:+ " AVAILABLE on current evidence"])
  end.

(** ** Digests *)
Definition identityDigest (inp : InteractionInput) : string :=
  let st := ip_Status inp in
  let id := st_Identity st in
  digest_identity
    ([ip_UID inp; oi_TargetUID id; oi_ResolvedUID id; oi_ContractUID id; oi_ContractSpecDigest id] ++
     sort_strings
       (((fun e => "e|" +:+ ee_Slot e +:+ "|" +:+ ee_Provider e +:+ "|" +:+ ee_ConfigRevision e) <$> st_Evidence st) ++
        ((fun dr => "d|" +:+ dn_Type dr +:+ "|" +:+ dn_Slot dr +:+ "|" +:+ dn_Namespace dr) <$> st_DeniedReferences st)) ++
     match ip_Profile inp with Some p => ["p|" +:+ pf_Revision p] | None => [] end).

(** ** finish

    The summary before [finish], as one record of the fields set by then. *)
Record draft := {
  dr_IdentityDigest : string;
  dr_Summary : string;
  dr_Affected : list InteractionCapability;
  dr_Unaffected : list InteractionCapability;
  dr_Unknown : list InteractionCapability;
  dr_ConfirmedFacts : list EvidenceEntry;
  dr_MissingEvidence : list EvidenceEntry;
  dr_CauseCandidates : list InteractionCandidate;
  dr_Investigation : InteractionInvestigation;
  dr_Responses : list InteractionResponse;
  dr_PendingPostConditions : list StatusReason;
  dr_Actions : list InteractionAction;
}.

Definition level_reasons (d : decision) : list StatusReason := limit (dedupReasons (de_reasons d)) maxReasons.
Definition human_reasons (d : decision) : list StatusReason := limit (dedupReasons (de_human d)) maxReasons.

Definition fingerprint (o : draft) (d : decision) : string :=
  digest_fingerprint {|
    fb_ID := dr_IdentityDigest o; fb_Level := de_level d; fb_Reasons := level_reasons d;
    fb_Caps := (fun c => (typeKey (ic_Type c), ic_State c)) <$> dr_Affected o ++ dr_Unknown o ++ dr_Unaffected o;
    fb_Missing := dr_MissingEvidence o;
    fb_Response := (fun r => typeKey (ir_For r) +:+ "|" +:+ ir_Name r +:+ "|" +:+ ir_Owner r +:+ "|" +:+ ir_Status r) <$>
                     dr_Responses o;
    fb_Human := human_reasons d;
    fb_Actions := (fun a => ia_Proposal a +:+ "|" +:+ ia_Digest a +:+ "|" +:+ ia_Phase a +:+ "|" +:+ ia_Recovery a) <$>
                    dr_Actions o;
  |}.

(** The recurrence history: recent fingerprints, recurring, recurrences. *)
Definition history_step (fp : string) (acc : list string * bool * Z) (f : string) : list string * bool * Z :=
  let '(recent, recurring, n) := acc in
  if decide (f = fp) then (recent, true, if Z.ltb n (2 ^ 30) then (n + 1)%Z else n)
  else if length recent <? maxHistory then (recent ++ [f], recurring, n) else acc.

Definition history (fp identity : string) (prev : option InteractionStatus) : list string * bool * Z :=
  match prev with
  | None => ([fp], false, 0%Z)
  | Some p =>
      if negb (bool_decide (is_IdentityDigest p = identity)) then ([fp], false, 0%Z)
      else if decide (is_Fingerprint p = fp) then (is_RecentFingerprints p, is_Recurring p, is_Recurrences p)
      else foldl (history_step fp) ([fp], false, is_Recurrences p) (is_RecentFingerprints p)
  end.

Definition finish (o : draft) (d : decision) (prev : option InteractionStatus) : InteractionStatus :=
  let fp := fingerprint o d in
  let '(recent, recurring, n) := history fp (dr_IdentityDigest o) prev in
  {|
    is_Level := de_level d; is_Summary := dr_Summary o; is_LevelReasons := level_reasons d;
    is_Affected := dr_Affected o; is_Unaffected := dr_Unaffected o; is_Unknown := dr_Unknown o;
    is_ConfirmedFacts := dr_ConfirmedFacts o; is_MissingEvidence := dr_MissingEvidence o;
    is_CauseCandidates := dr_CauseCandidates o; is_Investigation := dr_Investigation o;
    is_Responses := dr_Responses o; is_HumanReasons := human_reasons d;
    is_PendingPostConditions := dr_PendingPostConditions o; is_Actions := dr_Actions o;
    is_IdentityDigest := dr_IdentityDigest o; is_Fingerprint := fp; is_RecentFingerprints := recent;
    is_Recurring := recurring; is_Recurrences := n;
  |}.

(** ** Project *)
Definition start_decision : decision := Build_decision LevelNoAction [] [].

Definition shown_capability (c : CapabilityStatus) : InteractionCapability :=
  Build_InteractionCapability (cs_Type c) (cs_State c)
    (if is_state_available (cs_State c) then [] else limit (cs_Reasons c) maxCapReasons).

Definition caps_where (f : string -> bool) (st : TargetStatus) : list InteractionCapability :=
  sortCaps (shown_capability <$> List.filter (fun c => f (cs_State c)) (st_Capabilities st)).

Definition is_state_unknown (s : string) : bool := negb (is_state_available s) && negb (is_state_affected s).

Definition capability_map (st : TargetStatus) : gmap string CapabilityStatus :=
  foldl (fun m c => <[typeKey (cs_Type c) := c]> m) ∅ (st_Capabilities st).

(** The loop over the envelopes: a minimum or selected one that is not
    satisfied. *)
Definition envelope_counts (st : TargetStatus) (e : EnvelopeStatus) : bool :=
  (bool_decide (es_Name e = st_EnvelopeSelection st) || bool_decide (es_Class e = "Minimum")) &&
  negb (bool_decide (es_State e = "SATISFIED")).

Definition envelope_decide (st : TargetStatus) (d : decision) (e : EnvelopeStatus) : decision :=
  if negb (envelope_counts st e) then d
  else raise LevelAwareness
    (if decide (es_State e = "UNSATISFIED") then LReasonEnvelopeUnsatisfied else LReasonEnvelopeUnknown)
    ("envelope:" +:+ es_Name e) d.

Definition envelope_pending (st : TargetStatus) (e : EnvelopeStatus) : list StatusReason :=
  if envelope_counts st e
  then [Build_StatusReason PostEnvelopeSatisfied ("envelope:" +:+ es_Name e) PostUnconfirmed] else [].

Definition sortedKeys {V} (m : gmap string V) : list string := sort_strings (fst <$> map_to_list m).

Definition project_invalid (inp : InteractionInput) (prev : option InteractionStatus) : InteractionStatus :=
  let st := ip_Status inp in
  let subject := match st_InvalidReasons st with r :: _ => sr_Code r | [] => "" end in
  let d := needHuman LReasonSpecCorrection subject
             (raise LevelDecisionRequired LReasonTargetNotAssessed subject start_decision) in
  let '(actions, d) := actionsOf inp d None in
  finish {|
    dr_IdentityDigest := identityDigest inp;
    dr_Summary := clip ("not assessed (" +:+ joinCodes (st_InvalidReasons st) 3 +:+ "); no capability result is reported");
    dr_Affected := []; dr_Unaffected := []; dr_Unknown := []; dr_ConfirmedFacts := [];
    dr_MissingEvidence := missing st; dr_CauseCandidates := []; dr_Investigation := investigationOf None ∅;
    dr_Responses := []; dr_PendingPostConditions := []; dr_Actions := actions;
  |} d prev.

(** The decision of a valid target, before its actions. *)
Definition base_decision (inp : InteractionInput) : decision :=
  let st := ip_Status inp in
  let unknown := caps_where is_state_unknown st in
  let d := if length (st_Capabilities st) =? 0 then raise LevelAwareness LReasonNoCapabilities "" start_decision
           else start_decision in
  let d := foldl (fun d c => raise LevelAwareness LReasonCapabilityUnknown (typeKey (ic_Type c)) d) d unknown in
  let d := foldl (envelope_decide st) d (st_Envelopes st) in
  match ip_Investigation inp with
  | Some iv => if decide (iv_Outcome iv = "Active") then raise LevelAwareness LReasonInvestigationActive "" d else d
  | None => d
  end.

Definition capability_decision (inp : InteractionInput) (d : decision) (c : InteractionCapability) : decision :=
  let caps := capability_map (ip_Status inp) in
  let k := typeKey (ic_Type c) in
  decideCapability d c (default [] (cs_Reasons <$> caps !! k)) (default [] (declared inp caps !! k)).

(** Affected capabilities, then the unknown ones. *)
Definition open_capabilities (st : TargetStatus) : list InteractionCapability :=
  caps_where is_state_affected st ++ caps_where is_state_unknown st.

Definition project_valid (inp : InteractionInput) (prev : option InteractionStatus) : InteractionStatus :=
  let st := ip_Status inp in
  let affected := caps_where is_state_affected st in
  let unaffected := caps_where is_state_available st in
  let unknown := caps_where is_state_unknown st in
  let caps := capability_map st in
  let responses := declared inp caps in
  let d := foldl (capability_decision inp) (base_decision inp) (open_capabilities st) in
  let '(actions, d) := actionsOf inp d (Some caps) in
  let d := match de_level d with
           | LevelNoAction => Build_decision LevelNoAction (de_reasons d ++ [status_reason LReasonAllAvailable ""]) (de_human d)
           | _ => d
           end in
  let open := list_to_set ((fun c => typeKey (ic_Type c)) <$> open_capabilities st) in
  finish {|
    dr_IdentityDigest := identityDigest inp;
    dr_Summary := clip (summaryLine (take maxCaps affected) (take maxCaps unknown) (take maxCaps unaffected)
                          (length (st_Capabilities st)));
    dr_Affected := take maxCaps affected; dr_Unaffected := take maxCaps unaffected;
    dr_Unknown := take maxCaps unknown; dr_ConfirmedFacts := confirmed st; dr_MissingEvidence := missing st;
    dr_CauseCandidates := candidates (ip_Investigation inp) open;
    dr_Investigation := investigationOf (ip_Investigation inp) open;
    dr_Responses := take maxResponses (sortedKeys responses ≫= (fun k => default [] (responses !! k)));
    dr_PendingPostConditions :=
      limit ((st_Envelopes st ≫= envelope_pending st) ++
             ((fun c => Build_StatusReason PostCapabilityAvailable (typeKey (ic_Type c)) PostUnconfirmed) <$>
                open_capabilities st)) maxPost;
    dr_Actions := actions;
  |} d prev.

Definition Project (inp : InteractionInput) (prev : option InteractionStatus) : InteractionStatus :=
  if st_Valid (ip_Status inp) then project_valid inp prev else project_invalid inp prev.
End projection.
