(* ===== verification/InteractionSpec.v ===== *)
(** * What the interaction summary promises (pkg/interaction/project.go)

    The level is exactly determined by the capability states, the declared
    responses, the envelopes and the actions; it does not depend on the order
    of the actions; and every list and the recurrence history stay within the
    bounds the CRD declares. *)

From S2P Require Import Prelude Identity Assessment Profile ActionTypes OpsStatus Interaction.

Section spec.
Context `{SortSlice} `{Summaries}.

(** ** The level, case by case *)

(** What one open capability with responses [rs] asks for. *)
Definition capability_rank (c : InteractionCapability) (rs : list InteractionResponse) : nat :=
  match rs with
  | [] => if is_state_affected (ic_State c) then 1 else 0
  | _ => match viable_responses rs with
         | [] => if decide (ic_State c = "UNAVAILABLE") then 3 else 2
         | [r] => if decide (ir_Status r = ResponseReady) then 1 else 2
         | _ => 2
         end
  end.

(** The responses declared for a capability in its current state. *)
Definition responses_for (inp : InteractionInput) (c : CapabilityType) : list InteractionResponse :=
  default [] (declared inp (capability_map (ip_Status inp)) !! typeKey c).

(** An action whose outcome is unknown or that ended without recovery, for a
    capability not AVAILABLE now. *)
Definition escalates (caps : gmap string CapabilityStatus) (code : string) (a : InteractionAction) : Prop :=
  action_available caps a = false /\ action_code a = code /\ code <> "".

(** Nobody needs to decide: the one viable response is ready. *)
Definition settled (rs : list InteractionResponse) : Prop :=
  exists r, viable_responses rs = [r] /\ ir_Status r = ResponseReady.

(** ** The history of a summary *)
Record history_ok (s : InteractionStatus) : Prop := {
  hi_distinct : NoDup (is_RecentFingerprints s);
  hi_head : head (is_RecentFingerprints s) = Some (is_Fingerprint s);
  hi_bound : length (is_RecentFingerprints s) <= maxHistory;
  hi_count : (0 <= is_Recurrences s <= 2 ^ 30)%Z;
}.

(** * Lemmas *)
Abbreviation rank d := (level_rank (de_level d)).

Lemma rank_raise l code subject d : rank (raise l code subject d) = max (rank d) (level_rank l).
Proof. unfold raise. simpl. destruct (Nat.ltb_spec (rank d) (level_rank l)); lia. Qed.

Lemma rank_needHuman code subject d : rank (needHuman code subject d) = rank d.
Proof. done. Qed.

Lemma rank_inj l l' : level_rank l = level_rank l' -> l = l'.
Proof. by destruct l, l'. Qed.

Lemma rank_fold {A} (f : decision -> A -> decision) (g : A -> nat) l d n :
  (forall d x, x ∈ l -> rank (f d x) = max (rank d) (g x)) ->
  n <= rank (foldl f d l) <-> n <= rank d \/ exists x, x ∈ l /\ n <= g x.
Proof.
  revert d. induction l as [|x l IH]; intros d Hf; simpl.
  - split; [auto|]. intros [?|(x & Hx & _)]; [done|nil_elem].
  - rewrite IH by (intros d' y Hy; apply Hf; by right). rewrite Hf by left. split.
    + intros [Hn|(y & Hy & Hn)]; [|right; exists y; split; [by right|done]].
      destruct (Nat.le_gt_cases n (rank d)); [by left|]. right. exists x. split; [left|lia].
    + intros [Hn|(y & [->|Hy]%elem_of_cons & Hn)]; [left; lia|left; lia|right; eauto].
Qed.

Lemma rank_decide_response subject alone d r :
  rank (decide_response subject alone d r) =
  max (rank d) (if decide (ir_Status r = ResponseReady) then if alone then 1 else 0 else 2).
Proof.
  unfold decide_response. destruct (decide (ir_Status r = ResponseReady)).
  - destruct alone; [by rewrite rank_raise|lia].
  - by rewrite rank_needHuman, rank_raise.
Qed.

Lemma rank_responses subject d rs :
  2 <= rank d -> rank d <= 2 -> rank (foldl (decide_response subject false) d rs) = 2.
Proof.
  revert d. induction rs as [|r rs IH]; intros d H1 H2; simpl; [lia|].
  apply IH; rewrite rank_decide_response; case_decide; lia.
Qed.

Lemma rank_foldl_responses subject d rs :
  2 <= rank d -> rank (foldl (decide_response subject false) d rs) = rank d.
Proof.
  revert d. induction rs as [|r rs IH]; intros d H1; simpl; [done|].
  assert (rank (decide_response subject false d r) = rank d) as Hd.
  { rewrite rank_decide_response. case_decide; lia. }
  rewrite IH; lia.
Qed.

Lemma rank_decideCapability d c reasons rs :
  rank (decideCapability d c reasons rs) = max (rank d) (capability_rank c rs).
Proof.
  unfold decideCapability, capability_rank. destruct rs as [|r0 rs].
  - destruct (is_state_affected (ic_State c)); simpl; [|lia].
    by destruct (fromDependencyOnly reasons); rewrite rank_raise.
  - destruct (viable_responses (r0 :: rs)) as [|r [|r' viable]].
    + by case_decide; rewrite rank_needHuman, rank_raise.
    + by rewrite rank_decide_response.
    + rewrite rank_foldl_responses; rewrite rank_needHuman, rank_raise; simpl; lia.
Qed.

(** ** Actions *)
Lemma nonempty_ne s : nonempty s = true <-> s <> "".
Proof. apply nonempty_true. Qed.

#[local] Instance escalates_dec caps code a : Decision (escalates caps code a).
Proof. apply _. Defined.

Lemma action_step_lookup caps first a code :
  action_step caps first a !! code =
  if decide (escalates caps code a)
  then match first !! code with
       | Some n => Some (if String.ltb (ia_Name a) n then ia_Name a else n)
       | None => Some (ia_Name a)
       end
  else first !! code.
Proof.
  unfold action_step. case_decide as Hd.
  - destruct Hd as (-> & -> & Hne). apply nonempty_true in Hne as Hn. rewrite Hn.
    destruct (first !! code) as [n|] eqn:Ef; simpl; [|by rewrite lookup_insert_eq].
    destruct (String.ltb _ _); [by rewrite lookup_insert_eq|done].
  - destruct (action_available caps a) eqn:Ea; [done|].
    destruct (decide (action_code a = code)) as [<-|Hc].
    + assert (nonempty (action_code a) = false) as ->.
      { apply nonempty_false. destruct (decide (action_code a = "")); [done|]. by destruct Hd. }
      by destruct (first !! action_code a) eqn:Ef; simpl; rewrite Ef.
    + destruct (first !! action_code a); repeat case_match; try done; by rewrite lookup_insert_ne.
Qed.

(** The entry of a code is the least name of the actions that escalate with it. *)
Definition least_name (caps : gmap string CapabilityStatus) (code : string) (l : list InteractionAction)
    (o : option string) : Prop :=
  match o with
  | None => forall a, a ∈ l -> ~ escalates caps code a
  | Some n => (exists a, a ∈ l /\ escalates caps code a /\ ia_Name a = n) /\
              forall a, a ∈ l -> escalates caps code a -> String.ltb (ia_Name a) n = false
  end.

Lemma action_fold caps code l :
  least_name caps code l (foldl (action_step caps) ∅ l !! code).
Proof.
  induction l as [|a l IH] using rev_ind.
  - simpl. rewrite lookup_empty. by intros a ?%elem_of_nil.
  - rewrite foldl_app. simpl. rewrite action_step_lookup. case_decide as He.
    + destruct (_ !! code) as [n|] eqn:En; simpl in *.
      * destruct IH as [(a0 & Ha0 & He0 & <-) Hmin].
        destruct (String.ltb (ia_Name a) (ia_Name a0)) eqn:El.
        -- split; [exists a; set_solver|]. intros b [Hb| ->%list_elem_of_singleton]%elem_of_app Heb;
             [|apply string_ltb_irrefl]. specialize (Hmin b Hb Heb).
           destruct (String.ltb (ia_Name b) (ia_Name a)) eqn:Eb; [|done].
           by rewrite (string_ltb_trans _ _ _ Eb El) in Hmin.
        -- split; [exists a0; set_solver|]. intros b [Hb| ->%list_elem_of_singleton]%elem_of_app Heb; [auto|done].
      * split; [exists a; set_solver|]. intros b [Hb| ->%list_elem_of_singleton]%elem_of_app Heb;
          [by destruct (IH b Hb)|apply string_ltb_irrefl].
    + destruct (_ !! code) as [n|] eqn:En; simpl in *.
      * destruct IH as [(a0 & Ha0 & He0 & <-) Hmin]. split; [exists a0; set_solver|].
        intros b [Hb| ->%list_elem_of_singleton]%elem_of_app Heb; [auto|done].
      * intros b [Hb| ->%list_elem_of_singleton]%elem_of_app; [auto|done].
Qed.

Lemma least_name_unique caps code l l' o o' :
  (forall a, a ∈ l <-> a ∈ l') -> least_name caps code l o -> least_name caps code l' o' -> o = o'.
Proof.
  intros Hl. destruct o as [n|], o' as [n'|]; simpl.
  - intros [(a & Ha & He & <-) Hmin] [(b & Hb & He' & <-) Hmin']. f_equal.
    destruct (decide (ia_Name a = ia_Name b)) as [|Hne]; [done|].
    apply Hl in Hb. apply Hl in Ha. specialize (Hmin b Hb He'). specialize (Hmin' a Ha He).
    by rewrite (string_ltb_total _ _ Hne Hmin') in Hmin.
  - intros [(a & Ha & He & _) _] Hno. apply Hl in Ha. by destruct (Hno a Ha).
  - intros Hno [(a & Ha & He & _) _]. apply Hl in Ha. by destruct (Hno a Ha).
  - done.
Qed.

Lemma action_codes a : action_code a = "" \/ action_code a = LReasonActionNotRecovered \/
  action_code a = LReasonActionOutcomeUnknown.
Proof. unfold action_code. repeat case_match; auto. Qed.

Lemma rank_raise_action first d code :
  rank (raise_action first d code) = max (rank d) (if decide (is_Some (first !! code)) then 2 else 0).
Proof.
  unfold raise_action. destruct (first !! code) as [n|] eqn:Ef.
  - rewrite rank_needHuman, rank_raise, decide_True by done. done.
  - rewrite decide_False by (by intros [? [=]]). lia.
Qed.

Lemma first_is_Some caps l code :
  is_Some (foldl (action_step caps) ∅ l !! code) <-> exists a, a ∈ l /\ escalates caps code a.
Proof.
  pose proof (action_fold caps code l) as Hl. destruct (_ !! code) as [n|]; simpl in Hl.
  - split; [|done]. intros _. destruct Hl as [(a & Ha & He & _) _]. by exists a.
  - split; [by intros [? [=]]|]. intros (a & Ha & He). by destruct (Hl a Ha).
Qed.

Lemma elem_of_sorted_actions inp a : a ∈ sorted_actions inp <-> a ∈ ip_Actions inp.
Proof. unfold sorted_actions. by rewrite slice_stable_perm. Qed.

Lemma rank_actions inp d caps n :
  n <= rank (actionsOf inp d (Some caps)).2 <->
  n <= rank d \/ (n <= 2 /\ exists a code, a ∈ ip_Actions inp /\ escalates caps code a).
Proof.
  unfold actionsOf. cbn zeta. cbn [snd].
  rewrite (rank_fold _ (fun code => if decide (is_Some (foldl (action_step caps) ∅ (sorted_actions inp) !! code))
    then 2 else 0)) by (intros; apply rank_raise_action).
  split; (intros [?|Hn]; [by left|]).
  - destruct Hn as (code & _ & Hn). case_decide as Hs; [|by left; lia].
    apply first_is_Some in Hs as (a & Ha & He). apply elem_of_sorted_actions in Ha. right. split; [done|eauto].
  - destruct Hn as (Hn & a & code & Ha & He). right. exists code.
    apply elem_of_sorted_actions in Ha. rewrite decide_True by (apply first_is_Some; eauto).
    split; [|done]. destruct He as (_ & <- & Hne). destruct (action_codes a) as [?|[-> | ->]]; [done|left|right; left].
Qed.

Lemma elem_of_caps_where f st c :
  c ∈ caps_where f st <->
  exists cs, cs ∈ st_Capabilities st /\ f (cs_State cs) = true /\ c = shown_capability cs.
Proof.
  unfold caps_where, sortCaps. rewrite elem_of_sort_slice, list_elem_of_fmap.
  setoid_rewrite list_elem_of_In. setoid_rewrite List.filter_In. naive_solver.
Qed.

(** What makes a valid target need attention whatever its responses. *)
Definition base_aware (inp : InteractionInput) : Prop :=
  let st := ip_Status inp in
  st_Capabilities st = [] \/
  (exists cs, cs ∈ st_Capabilities st /\ is_state_unknown (cs_State cs) = true) \/
  (exists e, e ∈ st_Envelopes st /\ envelope_counts st e = true) \/
  (exists iv, ip_Investigation inp = Some iv /\ iv_Outcome iv = "Active").

Lemma rank_envelope st d e :
  rank (envelope_decide st d e) = max (rank d) (if envelope_counts st e then 1 else 0).
Proof. unfold envelope_decide. destruct (envelope_counts st e); cbn [negb]; [apply rank_raise|lia]. Qed.

Lemma rank_base inp n :
  n <= rank (base_decision inp) <-> n = 0 \/ (n <= 1 /\ base_aware inp).
Proof.
  unfold base_decision, base_aware. cbn zeta. set (st := ip_Status inp).
  set (d1 := if length (st_Capabilities st) =? 0 then _ else _).
  set (d2 := foldl _ d1 _). set (d3 := foldl _ d2 _).
  assert (forall n, n <= rank d1 <-> n = 0 \/ (n <= 1 /\ st_Capabilities st = [])) as H1.
  { intros m. unfold d1. destruct (st_Capabilities st); cbn [length Nat.eqb].
    - rewrite rank_raise. cbn. split; [|intros [->|[? _]]; lia].
      intros Hm. destruct (decide (m = 0)); [by left|right]. split; [lia|done].
    - cbn. split; [intros ?; left; lia|]. intros [->|[_ ?]]; done. }
  assert (forall n, n <= rank d2 <-> n <= rank d1 \/
    (n <= 1 /\ exists cs, cs ∈ st_Capabilities st /\ is_state_unknown (cs_State cs) = true)) as H2.
  { intros m. unfold d2. rewrite (rank_fold _ (fun _ => 1)) by (intros; apply rank_raise).
    setoid_rewrite elem_of_caps_where. split; (intros [?|Hm]; [by left|right]); naive_solver. }
  assert (forall n, n <= rank d3 <-> n <= rank d2 \/
    (n = 0 \/ n <= 1 /\ exists e, e ∈ st_Envelopes st /\ envelope_counts st e = true)) as H3.
  { intros m. unfold d3. rewrite (rank_fold _ (fun e => if envelope_counts st e then 1 else 0))
      by (intros; apply rank_envelope).
    split; (intros [?|Hm]; [by left|]).
    - destruct Hm as (e & He & Hm). destruct (envelope_counts st e) eqn:Ec; [right; right; split; [done|eauto]|].
      right. left. lia.
    - destruct Hm as [->|(Hm & e & He & Hc)]; [left; lia|]. right. exists e. by rewrite Hc. }
  specialize (H1 n). specialize (H2 n). specialize (H3 n).
  assert (n <= rank match ip_Investigation inp with
    | Some iv => if decide (iv_Outcome iv = "Active") then raise LevelAwareness LReasonInvestigationActive "" d3 else d3
    | None => d3 end <-> n <= rank d3 \/
    (n <= 1 /\ exists iv, ip_Investigation inp = Some iv /\ iv_Outcome iv = "Active")) as H4.
  { destruct (ip_Investigation inp) as [iv|]; [|naive_solver].
    case_decide as Ha; [rewrite rank_raise; cbn|naive_solver].
    split; [|intros [?|[? _]]; lia]. intros Hm.
    destruct (Nat.le_gt_cases n (rank d3)); [by left|right]. split; [lia|eauto]. }
  rewrite H4. tauto.
Qed.

(** ** The level of a valid target *)
Definition final_decision (inp : InteractionInput) : decision :=
  (actionsOf inp (foldl (capability_decision inp) (base_decision inp) (open_capabilities (ip_Status inp)))
     (Some (capability_map (ip_Status inp)))).2.

Lemma Project_valid_level inp prev :
  st_Valid (ip_Status inp) = true -> is_Level (Project inp prev) = de_level (final_decision inp).
Proof.
  intros Hv. unfold Project, project_valid. rewrite Hv. cbn zeta.
  unfold final_decision. destruct (actionsOf _ _ _) as [actions d]. unfold finish. simpl.
  destruct (history _ _ _) as [[? ?] ?]. simpl. destruct (de_level d) eqn:El; simpl; by rewrite ?El.
Qed.

Lemma rank_final inp n :
  n <= rank (final_decision inp) <->
  n = 0 \/ (n <= 1 /\ base_aware inp) \/
  (exists c, c ∈ open_capabilities (ip_Status inp) /\ n <= capability_rank c (responses_for inp (ic_Type c))) \/
  (n <= 2 /\ exists a code, a ∈ ip_Actions inp /\ escalates (capability_map (ip_Status inp)) code a).
Proof.
  unfold final_decision. rewrite rank_actions.
  rewrite (rank_fold _ (fun c => capability_rank c (responses_for inp (ic_Type c))))
    by (intros; apply rank_decideCapability).
  rewrite rank_base. tauto.
Qed.

Lemma elem_of_open st c :
  c ∈ open_capabilities st <->
  exists cs, cs ∈ st_Capabilities st /\ is_state_available (cs_State cs) = false /\ c = shown_capability cs.
Proof.
  unfold open_capabilities. rewrite elem_of_app, !elem_of_caps_where. unfold is_state_unknown. split.
  - intros [(cs & ? & Ha & ->)|(cs & ? & Ha & ->)]; exists cs; split_and!; try done.
    + unfold is_state_affected, is_state_available in *. rewrite bool_decide_eq_false. intros He. by rewrite He in Ha.
    + by apply andb_true_iff in Ha as [?%negb_true_iff _].
  - intros (cs & ? & Ha & ->). destruct (is_state_affected (cs_State cs)) eqn:Ef; [left|right]; exists cs; split_and!; try done.
    by rewrite Ha, Ef.
Qed.

Lemma level_eq_rank d l n : level_rank l = n -> n <= rank d -> (forall m, m <= rank d -> m <= n) -> de_level d = l.
Proof. intros <- H1 H2. apply rank_inj. specialize (H2 _ (le_n _)). lia. Qed.

Lemma capability_rank_two c rs : 2 <= capability_rank c rs <-> rs <> [] /\ ~ settled rs.
Proof.
  unfold capability_rank, settled. destruct rs as [|r0 rs].
  - split; [destruct (is_state_affected _); lia|by intros []].
  - set (v := viable_responses _). destruct v as [|r [|r' v]]; simpl.
    + split; [|case_decide; lia]. intros _. split; [done|]. by intros (? & ? & _).
    + case_decide as Hr; (split; [|intros [_ Hn]; try lia]); try lia.
      * destruct Hn. eauto.
      * intros _. split; [done|]. by intros (? & [= <-] & ?).
    + split; [|lia]. intros _. split; [done|]. by intros (? & ? & _).
Qed.

Lemma capability_rank_three c rs :
  3 <= capability_rank c rs <-> rs <> [] /\ viable_responses rs = [] /\ ic_State c = "UNAVAILABLE".
Proof.
  unfold capability_rank. destruct rs as [|r0 rs].
  - split; [destruct (is_state_affected _); lia|by intros []].
  - set (v := viable_responses _). destruct v as [|r [|r' v]]; simpl.
    + case_decide; (split; [intros ?; try lia; done|]); [lia|by intros (_ & _ & ?)].
    + split; [case_decide; lia|by intros (_ & ? & _)].
    + split; [lia|by intros (_ & ? & _)].
Qed.

(** C35. The level of an assessed target, exactly.  IMMEDIATE_INTERVENTION: some
    UNAVAILABLE capability has declared responses and every one of them is
    inapplicable (UNKNOWN alone never gets there).  At least DECISION_REQUIRED:
    some capability that is not AVAILABLE has declared responses other than one
    viable response that is ready, or some action of a capability not AVAILABLE
    has an unknown outcome or did not recover.  NO_ACTION: there are
    capabilities, all are AVAILABLE, no minimum or selected envelope is
    unsatisfied or unknown, no investigation is active and no action escalates. *)
Theorem Project_level inp prev :
  st_Valid (ip_Status inp) = true ->
  let st := ip_Status inp in
  let level := is_Level (Project inp prev) in
  (level = LevelImmediateIntervention <->
   exists cs, cs ∈ st_Capabilities st /\ cs_State cs = "UNAVAILABLE" /\
     responses_for inp (cs_Type cs) <> [] /\ viable_responses (responses_for inp (cs_Type cs)) = []) /\
  (2 <= level_rank level <->
   (exists cs, cs ∈ st_Capabilities st /\ is_state_available (cs_State cs) = false /\
      responses_for inp (cs_Type cs) <> [] /\ ~ settled (responses_for inp (cs_Type cs))) \/
   (exists a code, a ∈ ip_Actions inp /\ escalates (capability_map st) code a)) /\
  (level = LevelNoAction <->
   st_Capabilities st <> [] /\
   (forall cs, cs ∈ st_Capabilities st -> is_state_available (cs_State cs) = true) /\
   (forall e, e ∈ st_Envelopes st -> envelope_counts st e = false) /\
   (forall iv, ip_Investigation inp = Some iv -> iv_Outcome iv <> "Active") /\
   forall a code, a ∈ ip_Actions inp -> ~ escalates (capability_map st) code a).
Proof.
  intros Hv st level. unfold level. rewrite Project_valid_level by done.
  pose proof (rank_final inp) as Hr. fold st in Hr. split; [|split].
  - assert (de_level (final_decision inp) = LevelImmediateIntervention <-> 3 <= rank (final_decision inp)) as ->.
    { destruct (de_level (final_decision inp)); simpl; split; (done || lia). }
    rewrite Hr. split.
    + intros [?|[[? _]|[(c & Hc & Hrank)|[? _]]]]; [lia|lia| |lia].
      apply elem_of_open in Hc as (cs & Hcs & _ & ->). apply capability_rank_three in Hrank as (? & ? & ?).
      by exists cs.
    + intros (cs & Hcs & Hs & Hne & Hno). right. right. left. exists (shown_capability cs). split.
      * apply elem_of_open. exists cs. split_and!; [done| |done]. by rewrite Hs.
      * by apply capability_rank_three.
  - rewrite Hr. split.
    + intros [?|[[? _]|[(c & Hc & Hrank)|[_ Ha]]]]; [lia|lia| |by right].
      apply elem_of_open in Hc as (cs & Hcs & Hs & ->). apply capability_rank_two in Hrank as [? ?].
      left. by exists cs.
    + intros [(cs & Hcs & Hs & Hne & Hno)|Ha]; [right; right; left|by right; right; right].
      exists (shown_capability cs). split; [apply elem_of_open; by exists cs|by apply capability_rank_two].
  - assert (de_level (final_decision inp) = LevelNoAction <-> ~ 1 <= rank (final_decision inp)) as ->.
    { destruct (de_level (final_decision inp)); simpl; split; (done || lia). }
    rewrite Hr. unfold base_aware. fold st. split.
    + intros Hn. assert (forall cs, cs ∈ st_Capabilities st -> is_state_unknown (cs_State cs) = false) as Hunk.
      { intros cs Hcs. apply not_true_iff_false. intros Hu. destruct Hn. right. left. split; [done|]. right. left. eauto. }
      split_and!.
      * intros He. destruct Hn. right. left. auto.
      * intros cs Hcs. apply not_false_iff_true. intros Ha. destruct Hn. right. right. left.
        exists (shown_capability cs). split; [apply elem_of_open; by exists cs|].
        specialize (Hunk cs Hcs). unfold is_state_unknown in Hunk. rewrite Ha in Hunk. simpl in Hunk.
        apply negb_false_iff in Hunk. unfold capability_rank. simpl. rewrite Hunk.
        repeat case_match; repeat case_decide; lia.
      * intros e He. apply not_true_iff_false. intros Hc. destruct Hn. right. left. split; [done|]. right. right. left. eauto.
      * intros iv Hi Ha. destruct Hn. right. left. split; [done|]. right. right. right. eauto.
      * intros a code Ha He. destruct Hn. right. right. right. split; [lia|eauto].
    + intros (Hne & Hall & Henv & Hinv & Hact) [?|[[_ Hb]|[(c & Hc & _)|(_ & a & code & Ha & He)]]]; [lia| | |].
      * destruct Hb as [?|[(cs & Hcs & Hu)|[(e & He & Hc)|(iv & Hi & Ha)]]]; [done| | |].
        -- unfold is_state_unknown in Hu. by rewrite (Hall cs Hcs) in Hu.
        -- by rewrite (Henv e He) in Hc.
        -- by apply (Hinv iv).
      * apply elem_of_open in Hc as (cs & Hcs & Ha & _). by rewrite (Hall cs Hcs) in Ha.
      * by apply (Hact a code).
Qed.
End spec.
