(* ===== verification/InteractionFacts.v ===== *)
(** * Order, history and bounds of the interaction summary (pkg/interaction) *)

From S2P Require Import Prelude.
From S2P Require Import Identity.
From S2P Require Import Assessment.
From S2P Require Import Profile.
From S2P Require Import ActionTypes.
From S2P Require Import OpsStatus.
From S2P Require Import Interaction.
From S2P Require Import InteractionSpec.

Definition with_actions (inp : InteractionInput) (l : list InteractionAction) : InteractionInput :=
  Build_InteractionInput (ip_Namespace inp) (ip_Name inp) (ip_UID inp) (ip_Status inp) (ip_Investigation inp)
    (ip_Profile inp) l.

(** The bounds of the CRD schema on the lists of a summary. *)
Record summary_bounded (s : InteractionStatus) : Prop := {
  sb_reasons : length (is_LevelReasons s) <= 8 /\ length (is_HumanReasons s) <= 8;
  sb_capabilities : length (is_Affected s) <= 64 /\ length (is_Unaffected s) <= 64 /\ length (is_Unknown s) <= 64;
  sb_capability_reasons : Forall (fun c => length (ic_Reasons c) <= 4)
    (is_Affected s ++ is_Unaffected s ++ is_Unknown s);
  sb_evidence : length (is_ConfirmedFacts s) <= 64 /\ length (is_MissingEvidence s) <= 64;
  sb_candidates : length (is_CauseCandidates s) <= 16;
  sb_responses : length (is_Responses s) <= 8;
  sb_pending : length (is_PendingPostConditions s) <= 16;
  sb_actions : length (is_Actions s) <= 8;
  sb_summary : String.length (is_Summary s) <= 256;
}.

Section facts.
Context `{SortSlice} `{Summaries}.

(** Every declaration for this target, in a state it is declared for. *)
Definition applicable_declarations (inp : InteractionInput) : list Response :=
  match ip_Profile inp with
  | Some p => List.filter (declared_for inp (capability_map (ip_Status inp))) (pf_Responses p)
  | None => []
  end.

(** * Lemmas *)
Lemma finish_decision o d prev :
  is_Level (finish o d prev) = de_level d /\ is_LevelReasons (finish o d prev) = level_reasons d /\
  is_HumanReasons (finish o d prev) = human_reasons d.
Proof. unfold finish. by destruct (history _ _ _) as [[? ?] ?]. Qed.

Lemma finish_same o1 o2 d prev :
  is_Level (finish o1 d prev) = is_Level (finish o2 d prev) /\
  is_LevelReasons (finish o1 d prev) = is_LevelReasons (finish o2 d prev) /\
  is_HumanReasons (finish o1 d prev) = is_HumanReasons (finish o2 d prev).
Proof.
  destruct (finish_decision o1 d prev) as (-> & -> & ->). by destruct (finish_decision o2 d prev) as (-> & -> & ->).
Qed.

Lemma actions_decision_perm inp l1 l2 d caps :
  l1 ≡ₚ l2 -> (actionsOf (with_actions inp l1) d caps).2 = (actionsOf (with_actions inp l2) d caps).2.
Proof.
  intros Hl. unfold actionsOf. cbn zeta. destruct caps as [caps|]; [|done]. cbn [snd].
  assert (foldl (action_step caps) ∅ (sorted_actions (with_actions inp l1)) =
          foldl (action_step caps) ∅ (sorted_actions (with_actions inp l2))) as ->; [|done].
  apply map_eq. intros code. eapply least_name_unique; [|apply action_fold|apply action_fold].
  intros a. rewrite !elem_of_sorted_actions. simpl. by rewrite Hl.
Qed.

(** Escalation is judged on all actions: the level, its reasons and the
    reasons a person is needed do not depend on the order in which the actions
    are given (nor on the bound of the list that is shown). *)
Theorem Project_actions_order inp l1 l2 prev :
  l1 ≡ₚ l2 ->
  let s1 := Project (with_actions inp l1) prev in
  let s2 := Project (with_actions inp l2) prev in
  is_Level s1 = is_Level s2 /\ is_LevelReasons s1 = is_LevelReasons s2 /\ is_HumanReasons s1 = is_HumanReasons s2.
Proof.
  intros Hl. cbn zeta. unfold Project. simpl. destruct (st_Valid (ip_Status inp)).
  - unfold project_valid. cbn zeta.
    change (base_decision (with_actions inp l2)) with (base_decision (with_actions inp l1)).
    change (capability_decision (with_actions inp l2)) with (capability_decision (with_actions inp l1)).
    set (d := foldl _ _ _).
    pose proof (actions_decision_perm inp l1 l2 d (Some (capability_map (ip_Status inp))) Hl) as Hd.
    change (ip_Status (with_actions inp l2)) with (ip_Status inp) in *.
    change (ip_Status (with_actions inp l1)) with (ip_Status inp) in *.
    destruct (actionsOf (with_actions inp l1) _ _) as [a1 d1].
    destruct (actionsOf (with_actions inp l2) _ _) as [a2 d2]. simpl in Hd. subst d2.
    apply finish_same.
  - unfold project_invalid, actionsOf. cbn zeta.
    apply finish_same.
Qed.

(** ** History *)
Lemma history_fold fp prev recent recurring n :
  NoDup prev -> NoDup recent -> head recent = Some fp -> (forall f, f ∈ prev -> f <> fp -> f ∉ recent) ->
  length recent <= maxHistory -> (0 <= n <= 2 ^ 30)%Z ->
  let '(recent', recurring', n') := foldl (history_step fp) (recent, recurring, n) prev in
  NoDup recent' /\ head recent' = Some fp /\ length recent' <= maxHistory /\ (0 <= n' <= 2 ^ 30)%Z /\
  (recurring' = true <-> recurring = true \/ fp ∈ prev).
Proof.
  revert recent recurring n. induction prev as [|f prev IH]; intros recent recurring n Hp Hnd Hh Hout Hl Hn; simpl.
  - do 4 (split; [done|]). split; [auto|]. intros [?|Hin]; [done|nil_elem].
  - apply NoDup_cons in Hp as [Hf Hp]. case_decide as Hfp.
    + subst f. specialize (IH recent true (if Z.ltb n (2 ^ 30) then (n + 1)%Z else n) Hp Hnd Hh).
      destruct (foldl _ _ prev) as [[recent' recurring'] n'].
      destruct IH as (? & ? & ? & ? & Hr);
        [intros g Hg Hgf; apply (Hout g); [by right|done]|done|destruct (Z.ltb_spec n (2 ^ 30)); lia|].
      do 4 (split; [done|]). rewrite Hr. split; [intros _; right; left|by left].
    + destruct (Nat.ltb_spec (length recent) maxHistory) as [Hlt|Hge].
      * specialize (IH (recent ++ [f]) recurring n Hp).
        destruct (foldl _ _ prev) as [[recent' recurring'] n']. destruct IH as (? & ? & ? & ? & Hr).
        { apply NoDup_app. split; [done|]. split; [|apply NoDup_singleton].
          intros x Hx ->%list_elem_of_singleton. by apply (Hout f); [left| |]. }
        { by destruct recent. }
        { intros g Hg Hgf. rewrite elem_of_app. intros [Hin| ->%list_elem_of_singleton]; [|done].
          by apply (Hout g); [right| |]. }
        { rewrite length_app. simpl. lia. }
        { done. }
        do 4 (split; [done|]). rewrite Hr, elem_of_cons. naive_solver.
      * specialize (IH recent recurring n Hp Hnd Hh).
        destruct (foldl _ _ prev) as [[recent' recurring'] n'].
        destruct IH as (? & ? & ? & ? & Hr); [intros g Hg Hgf; apply (Hout g); [by right|done]|done|done|].
        do 4 (split; [done|]). rewrite Hr, elem_of_cons. naive_solver.
Qed.

Lemma finish_history o d prev :
  let s := finish o d prev in
  is_IdentityDigest s = dr_IdentityDigest o /\ is_Fingerprint s = fingerprint o d /\
  (is_RecentFingerprints s, is_Recurring s, is_Recurrences s) =
    history (fingerprint o d) (dr_IdentityDigest o) prev.
Proof. cbn zeta. unfold finish. destruct (history _ _ _) as [[? ?] ?] eqn:Eh. done. Qed.

Lemma Project_finish inp prev :
  exists o d, Project inp prev = finish o d prev /\ dr_IdentityDigest o = identityDigest inp.
Proof.
  unfold Project. destruct (st_Valid _).
  - unfold project_valid. cbn zeta. destruct (actionsOf _ _ _) as [actions d]. eexists _, _. by split.
  - unfold project_invalid. cbn zeta. destruct (actionsOf _ _ _) as [actions d]. eexists _, _. by split.
Qed.

(** The recurrence history of a summary: a new or changed identity starts
    with only its own meaning and no recurrence; an unchanged meaning changes
    nothing; a changed meaning is recurring exactly when it is among the recent
    ones.  The recent meanings stay distinct, at most four, newest first, and
    the counter never overflows. *)
Theorem Project_history inp prev :
  (forall p, prev = Some p -> history_ok p) ->
  let s := Project inp prev in
  history_ok s /\
  match prev with
  | Some p =>
      if decide (is_IdentityDigest p = is_IdentityDigest s) then
        if decide (is_Fingerprint p = is_Fingerprint s)
        then is_RecentFingerprints s = is_RecentFingerprints p /\ is_Recurring s = is_Recurring p /\
             is_Recurrences s = is_Recurrences p
        else is_Recurring s = true <-> is_Fingerprint s ∈ is_RecentFingerprints p
      else is_RecentFingerprints s = [is_Fingerprint s] /\ is_Recurring s = false /\ is_Recurrences s = 0%Z
  | None => is_RecentFingerprints s = [is_Fingerprint s] /\ is_Recurring s = false /\ is_Recurrences s = 0%Z
  end.
Proof.
  intros Hprev s. destruct (Project_finish inp prev) as (o & d & Hs & Hid). unfold s. rewrite Hs.
  destruct (finish_history o d prev) as (-> & Hf & Hh). unfold history in Hh.
  set (fp := fingerprint o d) in *.
  assert (forall recent recurring n, (is_RecentFingerprints (finish o d prev), is_Recurring (finish o d prev),
    is_Recurrences (finish o d prev)) = (recent, recurring, n) ->
    NoDup recent -> head recent = Some fp -> length recent <= maxHistory -> (0 <= n <= 2 ^ 30)%Z ->
    history_ok (finish o d prev)) as Hok.
  { intros recent recurring n [= E1 E2 E3] ????. split; rewrite ?E1, ?E3, ?Hf; done. }
  assert (NoDup [fp] /\ length [fp] <= maxHistory) as [Hnd1 Hl1].
  { split; [apply NoDup_singleton|]. unfold maxHistory. simpl. lia. }
  destruct prev as [p|].
  2:{ split; [by eapply Hok|done]. }
  destruct (Hprev p eq_refl) as [P1 P2 P3 P4].
  case_bool_decide as Hsame; simpl in Hh.
  2:{ rewrite decide_False by done. split; [by eapply Hok|]. rewrite Hf. by injection Hh as -> -> ->. }
  rewrite decide_True by done. rewrite Hf. case_decide as Hfp.
  - injection Hh as E1 E2 E3. split; [|done]. split; rewrite ?E1, ?E3, ?Hf, <- ?Hfp; done.
  - pose proof (history_fold fp (is_RecentFingerprints p) [fp] false (is_Recurrences p) P1 Hnd1 eq_refl) as Hfold.
    rewrite <- Hh in Hfold. destruct Hfold as (R1 & R2 & R3 & R4 & R5); [|done|done|].
    { intros f _ Hne. by rewrite list_elem_of_singleton. }
    split; [by split; rewrite ?Hf|]. rewrite R5. naive_solver.
Qed.

(** ** Bounds *)
Lemma length_first_seen {A} `{EqDecision A} (seen rs : list A) : length (first_seen seen rs) <= length rs.
Proof. revert seen. induction rs as [|r rs IH]; intros seen; simpl; [lia|]. case_decide; simpl; [etrans; [apply IH|lia]|]. specialize (IH (r :: seen)). lia. Qed.

Lemma length_limit {A} (rs : list A) n : length (limit rs n) <= n.
Proof. unfold limit. rewrite length_take. lia. Qed.

Lemma length_take_le {A} (rs : list A) n : length (take n rs) <= n.
Proof. rewrite length_take. lia. Qed.

Lemma length_substring n s : String.length (String.substring 0 n s) <= n.
Proof. revert s. induction n as [|n IH]; intros [|c s]; simpl; try lia. specialize (IH s). lia. Qed.

Lemma length_trim_valid n s : String.length (trim_valid n s) <= n.
Proof.
  induction n as [|n IH]; simpl; [by destruct s|].
  destruct s as [|c s]; simpl; [lia|].
  destruct (ValidString _); simpl; [|lia]. pose proof (length_substring n s). lia.
Qed.

Lemma length_clip s : String.length (clip s) <= maxSummary.
Proof.
  unfold clip. destruct (Nat.leb_spec (String.length s) maxSummary); [done|].
  rewrite length_string_app. pose proof (length_trim_valid (maxSummary - 3) s). unfold maxSummary in *. simpl in *. lia.
Qed.

Lemma caps_where_reasons f st n :
  Forall (fun c => length (ic_Reasons c) <= maxCapReasons) (take n (caps_where f st)).
Proof.
  apply Forall_take, Forall_forall. intros c Hc. apply elem_of_caps_where in Hc as (cs & _ & _ & ->). unfold shown_capability.
  cbn [ic_Reasons]. destruct (is_state_available _); [unfold maxCapReasons; simpl; lia|apply length_limit].
Qed.

Lemma length_candidates inv open : length (candidates inv open) <= maxCandidates.
Proof. unfold candidates. destruct inv; [apply length_take_le|simpl; lia]. Qed.

(** Every summary is within the bounds of the CRD schema, whatever the
    status, the profile and the actions: the lists, the reasons of each
    capability, and the line of text (in bytes). *)
Theorem Project_bounded inp prev : summary_bounded (Project inp prev).
Proof.
  unfold Project. destruct (st_Valid _).
  - unfold project_valid. cbn zeta. unfold actionsOf. cbn zeta. unfold finish.
    destruct (history _ _ _) as [[? ?] ?].
    split; cbn; try (split_and?; apply length_limit || apply length_take_le || apply length_clip || apply length_candidates).
    rewrite !Forall_app. split_and!; apply caps_where_reasons.
  - unfold project_invalid. cbn zeta. unfold actionsOf. cbn zeta. unfold finish.
    destruct (history _ _ _) as [[? ?] ?].
    split; cbn; try (split_and?; apply length_limit || apply length_take_le || apply length_clip || lia).
    constructor.
Qed.
End facts.

(** * Which declared responses are shown, and which are ready (pkg/interaction/project.go)

    [declared] keeps, per capability, the responses the profile declares for
    this exact target in its present state.  A response is shown Ready only on
    a declaration whose whole condition holds. *)

Section responses.
Context `{SortSlice} `{Summaries}.

(** The declarations of capability key [k] that apply to the target now. *)
Definition applicable (inp : InteractionInput) (k : string) (rs : list Response) : list Response :=
  List.filter (fun r => declared_for inp (capability_map (ip_Status inp)) r && bool_decide (typeKey (rs_For r) = k)) rs.

(** The whole condition under which a declaration may be carried out. *)
Record ready (inp : InteractionInput) (p : Profile) (d : Response) : Prop := {
  rd_applies : declared_for inp (capability_map (ip_Status inp)) d = true;
  rd_owner : rs_Owner d <> "";
  rd_unapproved : rs_RequiresApproval d = false /\ rs_Risks d = [];
  rd_preconditions : forall c, c ∈ rs_Preconditions d ->
    precondition_state (capability_map (ip_Status inp)) c = PreProven;
  rd_sole_owner : forall d', d' ∈ pf_Responses p ->
    declared_for inp (capability_map (ip_Status inp)) d' = true ->
    typeKey (rs_For d') = typeKey (rs_For d) ->
    ActionRef_String (rs_Action d') = ActionRef_String (rs_Action d) -> rs_Owner d' = rs_Owner d;
}.

(** * Lemmas *)
Lemma elem_of_applicable inp k rs d :
  d ∈ applicable inp k rs <->
  d ∈ rs /\ declared_for inp (capability_map (ip_Status inp)) d = true /\ typeKey (rs_For d) = k.
Proof.
  unfold applicable. rewrite list_elem_of_In, List.filter_In, <- list_elem_of_In, andb_true_iff, bool_decide_eq_true.
  done.
Qed.

(** What the loop over the declarations has collected. *)
Record collected (inp : InteractionInput) (rs : list Response)
    (acc : gmap string (list InteractionResponse) * gmap string (gset string)) : Prop := {
  cl_out : forall k, default [] (acc.1 !! k) =
    response_of inp (capability_map (ip_Status inp)) <$> applicable inp k rs;
  cl_owners : forall d, d ∈ rs -> declared_for inp (capability_map (ip_Status inp)) d = true ->
    rs_Owner d ∈ default ∅ (acc.2 !! (typeKey (rs_For d) +:+ "|" +:+ ActionRef_String (rs_Action d)));
}.

Lemma declare_collects inp rs :
  collected inp rs (foldl (declare_step inp (capability_map (ip_Status inp))) (∅, ∅) rs).
Proof.
  induction rs as [|r rs IH] using rev_ind.
  - split; [intros k; simpl; by rewrite lookup_empty|]. by intros d ?%elem_of_nil.
  - rewrite foldl_app. simpl. destruct (foldl _ _ rs) as [out owners]. destruct IH as [IHo IHw]. unfold declare_step.
    destruct (declared_for inp _ r) eqn:Ed; simpl in *.
    + split; simpl.
      * intros k. unfold applicable. rewrite List.filter_app, fmap_app. fold (applicable inp k rs). simpl.
        rewrite Ed. simpl. unfold group_add. rewrite lookup_insert. rewrite <- IHo.
        case_decide as Hk; subst; [by rewrite bool_decide_true|].
        rewrite bool_decide_false by done. simpl. by rewrite app_nil_r.
      * intros d [Hd| ->%list_elem_of_singleton]%elem_of_app Hdf.
        -- rewrite lookup_insert. specialize (IHw d Hd Hdf). case_decide as Hk; simpl; [rewrite Hk; set_solver|done].
        -- rewrite lookup_insert_eq. simpl. set_solver.
    + split; simpl.
      * intros k. unfold applicable. rewrite List.filter_app, fmap_app. simpl. rewrite Ed. simpl. by rewrite app_nil_r.
      * intros d [Hd| ->%list_elem_of_singleton]%elem_of_app Hdf; [auto|congruence].
Qed.

Lemma elem_of_dedup_json seen rs r : r ∈ dedup_json seen rs -> r ∈ rs.
Proof. revert seen. induction rs as [|r' rs IH]; intros seen; simpl; [done|]. case_decide; set_solver. Qed.

(** The JSON forms that are kept are all those not seen before. *)
Lemma dedup_json_forms seen rs r :
  r ∈ rs -> response_json r ∈ seen \/ exists r', r' ∈ dedup_json seen rs /\ response_json r' = response_json r.
Proof.
  revert seen. induction rs as [|r0 rs IH]; intros seen; simpl; [by intros ?%elem_of_nil|].
  intros [->|Hr]%elem_of_cons.
  - case_decide; [by left|]. right. exists r0. split; [left|done].
  - case_decide; [by apply IH|]. destruct (IH (response_json r0 :: seen) Hr) as [[->|?]%elem_of_cons|(r' & ? & ?)].
    + right. exists r0. split; [left|done].
    + by left.
    + right. exists r'. split; [by right|done].
Qed.

(** The responses shown for a key, before the duplicates go. *)
Definition candidates_for (inp : InteractionInput) (p : Profile) (k : string) : list InteractionResponse :=
  let owners := (foldl (declare_step inp (capability_map (ip_Status inp))) (∅, ∅) (pf_Responses p)).2 in
  slice_stable response_less
    ((fun d => conflict_status owners k (response_of inp (capability_map (ip_Status inp)) d)) <$>
       applicable inp k (pf_Responses p)).

Lemma declared_lookup inp p k :
  ip_Profile inp = Some p ->
  default [] (declared inp (capability_map (ip_Status inp)) !! k) = dedup_json [] (candidates_for inp p k).
Proof.
  intros Hp. unfold declared, candidates_for. rewrite Hp. pose proof (declare_collects inp (pf_Responses p)) as Hc.
  destruct (foldl _ _ (pf_Responses p)) as [out owners]. destruct Hc as [Hout _]. specialize (Hout k). simpl in *.
  change (fun d => conflict_status owners k (response_of inp (capability_map (ip_Status inp)) d))
    with (conflict_status owners k ∘ response_of inp (capability_map (ip_Status inp))).
  rewrite list_fmap_compose, <- Hout, map_lookup_imap. by destruct (out !! k).
Qed.

Lemma response_status_ready caps d :
  response_status caps d = ResponseReady ->
  rs_Owner d <> "" /\ rs_RequiresApproval d = false /\ rs_Risks d = [] /\
  forall c, c ∈ rs_Preconditions d -> precondition_state caps c = PreProven.
Proof.
  unfold response_status. cbn zeta.
  destruct (existsb (fun c => bool_decide (c = PreUnmet)) _) eqn:E1; [done|].
  case_decide as Ho; [done|].
  destruct (existsb (fun c => bool_decide (c = PreUnproven)) _) eqn:E2; [done|].
  destruct (rs_RequiresApproval d) eqn:Ea; simpl; [done|].
  destruct (rs_Risks d) eqn:Er; simpl; [|done]. intros _. split_and!; try done.
  intros c Hc. apply not_true_iff_false in E1, E2. rewrite !List.existsb_exists in E1, E2.
  apply (list_elem_of_fmap_2 (precondition_state caps)) in Hc. apply list_elem_of_In in Hc.
  unfold precondition_state in *. repeat case_match; try done;
    first [destruct E1; eexists; split; [exact Hc|]; by rewrite bool_decide_true
          |destruct E2; eexists; split; [exact Hc|]; by rewrite bool_decide_true].
Qed.

Lemma sole_member (X : gset string) x y : size X <= 1 -> x ∈ X -> y ∈ X -> x = y.
Proof.
  intros Hs Hx Hy. destruct (decide (x = y)) as [|Hne]; [done|].
  assert (size ({[x; y]} : gset string) <= size X) as Hle by (apply subseteq_size; set_solver).
  rewrite size_union, !size_singleton in Hle by set_solver. lia.
Qed.

(** A response shown for a capability comes from a declaration of the
    profile for this exact target, in a state it is declared for; and it is
    shown Ready only where that declaration's whole condition holds: an owner,
    no approval and no risk asked for, every precondition AVAILABLE now, and no
    other owner declared for the same action.  Every applicable declaration is
    shown, in the JSON form it has. *)
Theorem responses_declared inp c p :
  ip_Profile inp = Some p ->
  let caps := capability_map (ip_Status inp) in
  (forall r, r ∈ responses_for inp c ->
     exists d, d ∈ pf_Responses p /\ declared_for inp caps d = true /\ typeKey (rs_For d) = typeKey c /\
       ir_Name r = ActionRef_String (rs_Action d) /\ ir_Owner r = rs_Owner d /\
       (ir_Status r = ResponseReady -> r = response_of inp caps d /\ ready inp p d)) /\
  (forall d, d ∈ pf_Responses p -> declared_for inp caps d = true -> typeKey (rs_For d) = typeKey c ->
     exists r status, r ∈ responses_for inp c /\
       response_json r = response_json (set_ir_Status status (response_of inp caps d)) /\
       (status = ResponseOwnerConflict \/ status = response_status caps d)).
Proof.
  intros Hp caps. unfold responses_for. rewrite (declared_lookup inp p _ Hp). split.
  - intros r Hr%elem_of_dedup_json. unfold candidates_for in Hr. rewrite slice_stable_perm in Hr.
    apply list_elem_of_fmap in Hr as (d & -> & Hd). apply elem_of_applicable in Hd as (Hd & Hfor & Hk).
    exists d. split_and!; try done; unfold conflict_status; cbn [ir_Name response_of].
    + by destruct (_ && _).
    + by destruct (_ && _).
    + destruct (_ && _) eqn:Ec; [done|]. cbn [ir_Status response_of]. intros Hs. split; [done|].
      cbn [ir_Status response_of] in Ec. rewrite Hs in Ec. rewrite (bool_decide_false (ResponseReady = ResponseInapplicable)), andb_true_r in Ec by done.
      apply Nat.ltb_ge in Ec. apply response_status_ready in Hs as (? & ? & ? & ?).
      pose proof (declare_collects inp (pf_Responses p)) as [_ Hw]. split; try done.
      intros d' Hd' Hfor' Hk' Ha'. eapply sole_member; [exact Ec| |].
      * specialize (Hw d' Hd' Hfor'). by rewrite Hk', Ha', Hk in Hw.
      * specialize (Hw d Hd Hfor). by rewrite Hk in Hw.
  - intros d Hd Hfor Hk.
    set (owners := (foldl (declare_step inp (capability_map (ip_Status inp))) (∅, ∅) (pf_Responses p)).2).
    set (r := conflict_status owners (typeKey c) (response_of inp caps d)).
    destruct (dedup_json_forms [] (candidates_for inp p (typeKey c)) r) as [?%elem_of_nil|(r' & Hr' & Hj)]; [|done|].
    { unfold candidates_for. rewrite slice_stable_perm. apply list_elem_of_fmap. exists d. split; [done|].
      by apply elem_of_applicable. }
    exists r', (ir_Status r). split; [done|]. rewrite Hj. unfold r, conflict_status.
    destruct (_ && _); simpl; auto.
Qed.
End responses.
