(* ===== verification/ActionStatus.v ===== *)
(** * The status form of action views (pkg/action/status.go), and what it makes the summary say

    [Status] projects the engine's views into the form the summary reads.  A
    person is told of every action that ended without a known outcome or
    without recovery: its reason is never cut by a bound. *)

From S2P Require Import Prelude Identity Assessment Profile ActionTypes OpsStatus Interaction.
From S2P Require Import InteractionSpec InteractionFacts.

Definition maxStatusReasons : nat := 16.
Definition maxStatusDetail : nat := 8.

(** The string constants of [Phase] and [Recovery] (types.go). *)
Definition Phase_string (p : Phase) : string :=
  match p with
  | PhaseBlocked => "Blocked"
  | PhaseAwaitingApproval => "AwaitingApproval"
  | PhaseRejected => "Rejected"
  | PhaseDispatching => "Dispatching"
  | PhaseAccepted => "Accepted"
  | PhaseSucceeded => "Succeeded"
  | PhaseFailed => "Failed"
  | PhaseTimedOut => "TimedOut"
  | PhaseWithdrawn => "Withdrawn"
  end.

Definition Recovery_string (r : Recovery) : string :=
  match r with
  | RecoveryNone => ""
  | RecoveryPending => "Pending"
  | RecoveryRecovered => "Recovered"
  | RecoveryPartial => "Partial"
  | RecoveryNotRecovered => "NotRecovered"
  | RecoveryUnconfirmed => "Unconfirmed"
  | RecoveryInapplicable => "Inapplicable"
  end.

(** The conversion [int32(n)]. *)
Definition int32 (n : Z) : Z := ((n + 2 ^ 31) mod 2 ^ 32 - 2 ^ 31)%Z.

Definition status_of (v : View) : InteractionAction := {|
  ia_Proposal := vw_ProposalID v; ia_Digest := vw_Digest v; ia_Name := ActionRef_String (vw_Action v);
  ia_For := vw_For v; ia_Phase := Phase_string (vw_Phase v); ia_Attempt := int32 (vw_Attempt v);
  ia_Reasons := (fun r => status_reason (re_Code r) (re_Subject r)) <$> take maxStatusReasons (vw_Reasons v);
  ia_Recovery := Recovery_string (vw_Recovery v);
  ia_RecoveryDetail :=
    (fun d => status_reason (CapabilityState_string (cv_State d)) (CapabilityType_String (cv_Type d))) <$>
      take maxStatusDetail (vw_Detail v);
|}.

Definition Status (vs : list View) : list InteractionAction := status_of <$> vs.

(** ** Specification: the views a person has to hear of *)
Definition unresolved (v : View) : option string :=
  match vw_Recovery v with
  | RecoveryRecovered | RecoveryInapplicable => None
  | RecoveryPartial | RecoveryNotRecovered | RecoveryUnconfirmed =>
      match vw_Phase v with
      | PhaseTimedOut | PhaseWithdrawn => Some LReasonActionOutcomeUnknown
      | _ => Some LReasonActionNotRecovered
      end
  | RecoveryNone | RecoveryPending =>
      match vw_Phase v with
      | PhaseTimedOut | PhaseWithdrawn => Some LReasonActionOutcomeUnknown
      | _ => None
      end
  end.

(** * Lemmas *)
Lemma action_code_status v : action_code (status_of v) = default "" (unresolved v).
Proof. unfold action_code, unresolved, status_of. by destruct (vw_Recovery v), (vw_Phase v). Qed.

Lemma int32_small n : (- 2 ^ 31 <= n < 2 ^ 31)%Z -> int32 n = n.
Proof. intros Hn. unfold int32. rewrite Z.mod_small; lia. Qed.

Section shown.
Context `{SortSlice} `{Summaries}.

(** A reason that sorts after those of actions. *)
Definition late (r : StatusReason) : Prop := String.ltb LReasonActionOutcomeUnknown (sr_Code r) = true.

Definition lates (d : decision) : Prop := Forall late (de_reasons d) /\ Forall late (de_human d).

Lemma lates_raise l code subject d :
  String.ltb LReasonActionOutcomeUnknown code = true -> lates d -> lates (raise l code subject d).
Proof. intros Hc [H1 H2]. split; [|done]. cbn [de_reasons raise]. apply Forall_app. by repeat constructor. Qed.

Lemma lates_human code subject d :
  String.ltb LReasonActionOutcomeUnknown code = true -> lates d -> lates (needHuman code subject d).
Proof. intros Hc [H1 H2]. split; [done|]. cbn [de_human needHuman]. apply Forall_app. by repeat constructor. Qed.

Lemma lates_fold {A} (f : decision -> A -> decision) l d :
  (forall d x, x ∈ l -> lates d -> lates (f d x)) -> lates d -> lates (foldl f d l).
Proof.
  revert d. induction l as [|x l IH]; intros d Hf Hd; simpl; [done|].
  apply IH; [intros; apply Hf; [by right|done]|]. apply Hf; [left|done].
Qed.

Lemma base_lates inp : lates (base_decision inp).
Proof.
  assert (lates start_decision) as H0' by (split; constructor).
  assert (forall d, lates d -> lates match ip_Investigation inp with
    | Some iv => if decide (iv_Outcome iv = "Active") then raise LevelAwareness LReasonInvestigationActive "" d else d
    | None => d end) as Hi.
  { intros d Hd. destruct (ip_Investigation inp); [|done]. case_decide; [by apply lates_raise|done]. }
  unfold base_decision. cbn zeta. apply Hi. apply lates_fold.
  - intros d e _ Hd. unfold envelope_decide. destruct (negb _); [done|]. apply lates_raise; [|done]. by case_decide.
  - apply lates_fold; [intros; by apply lates_raise|]. destruct (_ =? _); [by apply lates_raise|done].
Qed.

Definition known_status (s : string) : Prop :=
  s = ResponseReady \/ s = ResponseApprovalRequired \/ s = ResponseSafetyUnproven \/
  s = ResponseOwnerUndeclared \/ s = ResponseOwnerConflict \/ s = ResponseInapplicable.

Lemma response_known inp c r : r ∈ responses_for inp c -> known_status (ir_Status r).
Proof.
  unfold responses_for. destruct (ip_Profile inp) as [p|] eqn:Ep.
  - rewrite (declared_lookup inp p _ Ep). intros Hr%elem_of_dedup_json. unfold candidates_for in Hr.
    rewrite slice_stable_perm in Hr. apply list_elem_of_fmap in Hr as (d & -> & _).
    unfold conflict_status, known_status. destruct (_ && _); cbn [ir_Status set_ir_Status response_of]; [tauto|].
    unfold response_status. cbn zeta. repeat case_match; tauto.
  - unfold declared. rewrite Ep, lookup_empty. by intros ?%elem_of_nil.
Qed.

Lemma decide_response_lates subject alone d r :
  known_status (ir_Status r) -> ir_Status r <> ResponseInapplicable -> lates d -> lates (decide_response subject alone d r).
Proof.
  intros Hk Hi Hd. unfold decide_response. case_decide; [destruct alone; [by apply lates_raise|done]|].
  cbn zeta. destruct Hk as [?|[Hk|[Hk|[Hk|[Hk|?]]]]]; try done; rewrite Hk; by apply lates_human, lates_raise.
Qed.

Lemma decideCapability_lates d c reasons rs :
  Forall (fun r => known_status (ir_Status r)) rs -> lates d -> lates (decideCapability d c reasons rs).
Proof.
  intros Hk Hd. unfold decideCapability. destruct rs as [|r0 rs].
  - destruct (negb _); [done|]. destruct (fromDependencyOnly _); by apply lates_raise.
  - assert (forall r, r ∈ viable_responses (r0 :: rs) -> known_status (ir_Status r) /\ ir_Status r <> ResponseInapplicable) as Hv.
    { intros r Hr. unfold viable_responses in Hr. apply list_elem_of_In, List.filter_In in Hr as [Hr Hb].
      apply list_elem_of_In in Hr. rewrite Forall_forall in Hk. apply negb_true_iff, bool_decide_eq_false in Hb. auto. }
    destruct (viable_responses _) as [|r [|r' v]].
    + case_decide; by apply lates_human, lates_raise.
    + destruct (Hv r) as [? ?]; [left|]. by apply decide_response_lates.
    + apply lates_fold; [|by apply lates_human, lates_raise].
      intros d' r'' Hr Hd'. destruct (Hv r'' Hr) as [? ?]. by apply decide_response_lates.
Qed.

Lemma capabilities_lates inp :
  lates (foldl (capability_decision inp) (base_decision inp) (open_capabilities (ip_Status inp))).
Proof.
  apply lates_fold; [|apply base_lates]. intros d c _ Hd. apply decideCapability_lates; [|done].
  apply Forall_forall. intros r Hr. by eapply response_known.
Qed.

(** ** A reason with at most one before it is never cut *)
Lemma sorted_prefix {A} (less : A -> A -> bool) `{!StrictWeak less} l r p n :
  NoDup l -> r ∈ l -> (forall x, x ∈ l -> x <> r -> less r x = false -> x = p) -> 2 <= n ->
  r ∈ take n (sort_slice less l).
Proof.
  intros Hnd Hr Hp Hn. assert (r ∈ sort_slice less l) as Hs by by rewrite elem_of_sort_slice.
  apply list_elem_of_split in Hs as (l1 & l2 & E).
  assert (NoDup (l1 ++ r :: l2)) as Hnd' by (rewrite <- E; by rewrite (sort_slice_perm _ less l)).
  assert (StronglySorted (le_of less) (l1 ++ r :: l2)) as Hso by (rewrite <- E; by apply sort_slice_sorted).
  assert (forall x, x ∈ l1 -> x = p) as Hl1.
  { intros x Hx. apply Hp.
    - apply (elem_of_sort_slice less). rewrite E. set_solver.
    - intros ->. apply NoDup_app in Hnd' as (_ & Hd & _). apply (Hd r Hx). left.
    - eapply (StronglySorted_app_1_elem_of (le_of less)); [exact Hso|done|left]. }
  assert (length l1 <= 1) as Hlen.
  { destruct l1 as [|x [|y l1]]; simpl; try lia.
    assert (x = y) as -> by (rewrite (Hl1 x), (Hl1 y) by set_solver; done).
    apply NoDup_app in Hnd' as (Hd & _). apply NoDup_cons in Hd as [Hd _]. destruct Hd. left. }
  rewrite E, take_app_ge by lia. apply elem_of_app. right.
  destruct (n - length l1) eqn:En; [lia|]. left.
Qed.

Lemma elem_of_first_seen seen (rs : list StatusReason) x : x ∈ first_seen seen rs <-> x ∈ rs /\ x ∉ seen.
Proof.
  revert seen. induction rs as [|r rs IH]; intros seen; simpl; [set_solver|].
  case_decide as Hd; [rewrite IH; set_solver|]. rewrite !elem_of_cons, IH, not_elem_of_cons.
  destruct (decide (x = r)) as [->|]; naive_solver.
Qed.

Lemma NoDup_first_seen seen (rs : list StatusReason) : NoDup (first_seen seen rs).
Proof.
  revert seen. induction rs as [|r rs IH]; intros seen; simpl; [constructor|].
  case_decide; [done|]. constructor; [|done]. rewrite elem_of_first_seen. set_solver.
Qed.

#[local] Instance status_reason_order : StrictWeak status_reason_less.
Proof.
  apply (key_strict_weak (fun r => [sr_Code r; sr_Subject r])). intros x y. unfold status_reason_less. simpl.
  case_bool_decide as Hc; simpl; [|by rewrite decide_False].
  rewrite decide_True by done. case_decide as Hs; [|done]. rewrite Hs. apply string_ltb_irrefl.
Qed.

(** ** The reasons of actions *)
Definition action_reasons (first : gmap string string) : list StatusReason :=
  [LReasonActionNotRecovered; LReasonActionOutcomeUnknown] ≫= (fun code =>
    match first !! code with Some n => [status_reason code n] | None => [] end).

Lemma actionsOf_reasons inp d caps :
  let first := foldl (action_step caps) ∅ (sorted_actions inp) in
  let d' := (actionsOf inp d (Some caps)).2 in
  de_reasons d' = de_reasons d ++ action_reasons first /\ de_human d' = de_human d ++ action_reasons first.
Proof.
  cbn zeta. unfold actionsOf, action_reasons. cbn zeta. cbn [snd foldl].
  set (first := foldl (action_step caps) ∅ (sorted_actions inp)). simpl. unfold raise_action.
  destruct (first !! LReasonActionNotRecovered), (first !! LReasonActionOutcomeUnknown);
    cbn [needHuman raise de_reasons de_human]; rewrite ?app_nil_r, <- ?app_assoc; done.
Qed.

Lemma late_after_action code n x :
  code = LReasonActionNotRecovered \/ code = LReasonActionOutcomeUnknown -> late x ->
  status_reason_less (status_reason code n) x = true.
Proof.
  unfold late, status_reason_less. intros Hc Hx. cbn [sr_Code status_reason].
  assert (String.ltb code (sr_Code x) = true) as Hl.
  { destruct Hc as [-> | ->]; [|done]. by apply (string_ltb_trans _ LReasonActionOutcomeUnknown). }
  rewrite bool_decide_false; [done|]. intros E. rewrite E, string_ltb_irrefl in Hl. done.
Qed.

(** The two reasons that actions raise. *)
Definition of_action (code : string) : Prop := code = LReasonActionNotRecovered \/ code = LReasonActionOutcomeUnknown.

Lemma elem_of_action_reasons first x :
  x ∈ action_reasons first <-> exists c m, first !! c = Some m /\ x = status_reason c m /\ of_action c.
Proof.
  unfold action_reasons. rewrite list_elem_of_bind. split.
  - intros (c & Hx & Hin). exists c. destruct (first !! c) as [m|]; [|nil_elem].
    apply list_elem_of_singleton in Hx as ->. exists m. unfold of_action. set_solver.
  - intros (c & m & Hm & -> & Hin). exists c. rewrite Hm. unfold of_action in Hin. set_solver.
Qed.

Lemma late_other code n : of_action code -> ~ late (status_reason code n).
Proof. unfold late. by intros [-> | ->]. Qed.

Lemma elem_of_shown rs n x : x ∈ limit (dedupReasons rs) n -> x ∈ rs.
Proof.
  unfold dedupReasons, limit. intros (i & Hi%list_elem_of_lookup_2 & _)%elem_of_take.
  by apply elem_of_sort_slice, elem_of_first_seen in Hi as [Hi _].
Qed.

Lemma action_reason_shown base first code n :
  Forall late base -> of_action code ->
  status_reason code n ∈ limit (dedupReasons (base ++ action_reasons first)) maxReasons <-> first !! code = Some n.
Proof.
  intros Hb Hc. split.
  - intros [Hin|Hin]%elem_of_shown%elem_of_app.
    + rewrite Forall_forall in Hb. destruct (late_other code n Hc (Hb _ Hin)).
    + apply elem_of_action_reasons in Hin as (c & m & Hm & [= -> ->] & _). done.
  - intros Hf. unfold dedupReasons, limit.
    apply (sorted_prefix _ _ _ (status_reason LReasonActionNotRecovered (default "" (first !! LReasonActionNotRecovered)))).
    + apply NoDup_first_seen.
    + rewrite elem_of_first_seen, elem_of_app, elem_of_action_reasons. split; [right; eauto|set_solver].
    + intros x Hx Hne Hless. apply elem_of_first_seen in Hx as [[Hx|Hx]%elem_of_app _].
      * rewrite Forall_forall in Hb. pose proof (late_after_action code n x Hc (Hb x Hx)). congruence.
      * apply elem_of_action_reasons in Hx as (c & m & Hm & -> & [-> | ->]); [by rewrite Hm|].
        destruct Hc as [-> | ->]; [done|]. congruence.
    + unfold maxReasons. lia.
Qed.

(** ** What a person has to hear of *)

(** An action of [vs] without a known outcome, or without recovery, for a
    capability that is not AVAILABLE. *)
Definition must_hear (inp : InteractionInput) (vs : list View) (code : string) (v : View) : Prop :=
  v ∈ vs /\ unresolved v = Some code /\ action_available (capability_map (ip_Status inp)) (status_of v) = false.

(** The least name of such an action. *)
Definition first_named (inp : InteractionInput) (vs : list View) (code name : string) : Prop :=
  (exists v, must_hear inp vs code v /\ ActionRef_String (vw_Action v) = name) /\
  forall v, must_hear inp vs code v -> String.ltb (ActionRef_String (vw_Action v)) name = false.

Lemma escalates_unresolved caps code v :
  of_action code ->
  escalates caps code (status_of v) <-> unresolved v = Some code /\ action_available caps (status_of v) = false.
Proof.
  intros Hc. assert (code <> "") as Hne by by destruct Hc as [-> | ->]. unfold escalates. rewrite action_code_status.
  destruct (unresolved v); simpl; split; [intros (? & -> & _); done|intros [[= ->] ?]; done|intros (_ & <- & ?); done|by intros [? _]].
Qed.

Lemma first_named_least inp vs code name :
  ip_Actions inp = Status vs -> of_action code ->
  foldl (action_step (capability_map (ip_Status inp))) ∅ (sorted_actions inp) !! code = Some name <-> first_named inp vs code name.
Proof.
  intros Hvs Hc. set (caps := capability_map _). pose proof (action_fold caps code (sorted_actions inp)) as Hl.
  assert (least_name caps code (ip_Actions inp) (Some name) <-> first_named inp vs code name) as <-.
  { unfold least_name, first_named, must_hear. fold caps. rewrite Hvs. unfold Status. split.
    - intros [(a & Ha & He & Hn) Hmin]. apply list_elem_of_fmap in Ha as (v & -> & Hv).
      split; [exists v; split; [split; [done|by apply escalates_unresolved]|exact Hn]|].
      intros w [Hw Hu]. apply (Hmin (status_of w)); [by apply list_elem_of_fmap_2|by apply escalates_unresolved].
    - intros [(v & [Hv Hu] & Hn) Hmin]. split.
      + exists (status_of v). split; [by apply list_elem_of_fmap_2|]. split; [by apply escalates_unresolved|exact Hn].
      + intros a Ha He. apply list_elem_of_fmap in Ha as (w & -> & Hw). apply (Hmin w). split; [done|]. by apply escalates_unresolved. }
  split.
  - intros E. rewrite E in Hl. destruct Hl as [(a & Ha & He & Hn) Hmin]. split; [exists a|intros b Hb].
    + split; [by apply elem_of_sorted_actions|done].
    + apply Hmin. by apply elem_of_sorted_actions.
  - intros Hn. apply (least_name_unique caps code (sorted_actions inp) (ip_Actions inp)); [apply elem_of_sorted_actions|done..].
Qed.

Lemma must_hear_level inp vs prev code v :
  ip_Actions inp = Status vs -> of_action code -> must_hear inp vs code v -> 2 <= level_rank (is_Level (Project inp prev)).
Proof.
  intros Hvs Hc (Hv & Hu & Ha). destruct (st_Valid (ip_Status inp)) eqn:Hval.
  - rewrite Project_valid_level by done. apply rank_final. right. right. right. split; [done|].
    exists (status_of v), code. split; [rewrite Hvs; by apply list_elem_of_fmap_2|]. by apply escalates_unresolved.
  - unfold Project, project_invalid. rewrite Hval. cbn zeta. unfold actionsOf. cbn zeta. unfold finish.
    destruct (history _ _ _) as [[? ?] ?]. simpl. lia.
Qed.

(** The reasons of an assessed target: those of its capabilities, which sort
    after those of actions, and those of actions. *)
Lemma Project_reasons inp vs prev :
  ip_Actions inp = Status vs -> st_Valid (ip_Status inp) = true ->
  let first := foldl (action_step (capability_map (ip_Status inp))) ∅ (sorted_actions inp) in
  exists base human, Forall late base /\ Forall late human /\
    is_LevelReasons (Project inp prev) = limit (dedupReasons (base ++ action_reasons first)) maxReasons /\
    is_HumanReasons (Project inp prev) = limit (dedupReasons (human ++ action_reasons first)) maxReasons.
Proof.
  intros Hvs Hv first. set (d0 := foldl (capability_decision inp) (base_decision inp) (open_capabilities (ip_Status inp))).
  destruct (actionsOf_reasons inp d0 (capability_map (ip_Status inp))) as [E1 E2]. fold first in E1, E2.
  destruct (capabilities_lates inp) as [L1 L2]. fold d0 in L1, L2.
  pose proof (Project_valid_level inp prev Hv) as Hlevel. unfold final_decision in Hlevel. fold d0 in Hlevel.
  assert (is_Level (Project inp prev) = LevelNoAction -> action_reasons first = []) as Hno.
  { intros Hn. destruct (action_reasons first) as [|x xs] eqn:Ex; [done|]. exfalso.
    assert (x ∈ action_reasons first) as (c & m & Hm & _ & Hc)%elem_of_action_reasons by (rewrite Ex; left).
    apply (first_named_least inp vs) in Hm as [(v & Hh & _) _]; [|done..].
    apply (must_hear_level inp vs prev) in Hh; [|done..]. rewrite Hn in Hh. simpl in Hh. lia. }
  unfold Project, project_valid in Hlevel, Hno |- *. rewrite Hv in Hlevel, Hno |- *. cbn zeta in Hlevel, Hno |- *.
  fold d0 in Hlevel, Hno |- *.
  destruct (actionsOf _ _ _) as [actions d']. cbn [snd] in *.
  match type of Hlevel with context [finish ?o ?dd _] => destruct (finish_decision o dd prev) as (F1 & F2 & F3) end.
  rewrite F2, F3. unfold level_reasons, human_reasons.
  destruct (de_level d') eqn:El; [|exists (de_reasons d0), (de_human d0); by rewrite ?E1, ?E2..].
  exists (de_reasons d0 ++ [status_reason LReasonAllAvailable ""]), (de_human d0). cbn [de_reasons de_human]. rewrite E1, E2.
  rewrite Hno, !app_nil_r; [|by rewrite Hlevel]. split_and!; try done. apply Forall_app. by repeat constructor.
Qed.

(** C34. No action without a known outcome or without recovery, for a capability
    that is not AVAILABLE, is kept from a person: where there is one, the summary
    asks for a decision or more, whatever else there is to say and whether or not
    the target is assessed.  For an assessed target it also states the reason,
    both for its level and for the person, exactly when there is such an action,
    and with the least name among these actions -- the bounds of the lists never
    cut it, and neither the order nor the number of the actions matters.  A
    target that is not assessed asks for its correction instead, and an action
    for a capability that is AVAILABLE raises nothing. *)
Theorem unresolved_shown inp vs prev code :
  ip_Actions inp = Status vs -> of_action code ->
  let s := Project inp prev in
  ((exists v, must_hear inp vs code v) -> 2 <= level_rank (is_Level s)) /\
  forall name,
    (status_reason code name ∈ is_LevelReasons s <-> st_Valid (ip_Status inp) = true /\ first_named inp vs code name) /\
    (status_reason code name ∈ is_HumanReasons s <-> st_Valid (ip_Status inp) = true /\ first_named inp vs code name).
Proof.
  intros Hvs Hc s. split; [intros [v Hh]; by apply (must_hear_level inp vs prev code v)|]. intros name.
  destruct (st_Valid (ip_Status inp)) eqn:Hv.
  - destruct (Project_reasons inp vs prev Hvs Hv) as (base & human & Hb & Hh & E1 & E2). unfold s. rewrite E1, E2.
    rewrite !action_reason_shown, (first_named_least inp vs) by done. tauto.
  - unfold s, Project, project_invalid. rewrite Hv. cbn zeta. unfold actionsOf. cbn zeta. unfold finish.
    destruct (history _ _ _) as [[? ?] ?]. cbn. split; (split; [|by intros [? _]]).
    all: unfold level_reasons, human_reasons; intros [[= E]|?%elem_of_nil]%elem_of_shown%elem_of_cons; [|done];
      by destruct Hc as [-> | ->].
Qed.
End shown.
