(* ===== verification/DemoInteraction.v ===== *)
(** * A small summary, on which the theorems of pkg/interaction are evaluated

    A target with one AVAILABLE and one UNAVAILABLE capability, one declared
    response and one action that timed out. *)

From S2P Require Import Prelude Identity Assessment Profile ActionTypes OpsStatus Interaction.
From S2P Require Import InteractionSpec.
From S2P Require Import InteractionFacts ActionStatus.

#[export] Instance demo_summaries : Summaries := {|
  digest_fingerprint b := join "|" ([fb_ID b; pretty (level_rank (fb_Level b))] ++ fb_Response b ++ fb_Actions b);
  digest_identity l := join "|" l;
  response_json r := join "|" [ir_Name r; ir_Owner r; ir_Status r];
|}.

Definition serve_type : CapabilityType := Build_CapabilityType "app" "serve" "v1".
Definition store_type : CapabilityType := Build_CapabilityType "app" "store" "v1".

Definition demo_status : TargetStatus := {|
  st_Identity := Build_ObservedIdentity "uid" "pod" "c" "uid-c" "sha"; st_Valid := true; st_Sync := "NotApplicable";
  st_EnvelopeSelection := ""; st_InvalidReasons := []; st_DeniedReferences := []; st_Evidence := [];
  st_Capabilities := [Build_CapabilityStatus serve_type "UNAVAILABLE" [status_reason "requirement-unmet" "serve"];
                      Build_CapabilityStatus store_type "AVAILABLE" []];
  st_Envelopes := [];
|}.

Definition demo_response : Response := {|
  rs_Action := Build_ActionRef "restart" "v1"; rs_Target := Build_TargetRef "ns" "web" ""; rs_For := serve_type;
  rs_States := []; rs_Owner := "team"; rs_RequiresApproval := false; rs_Risks := [];
  rs_Preconditions := [store_type]; rs_Execution := None;
|}.

Definition demo_profile : Profile := Build_Profile "r1" [demo_response].

Definition demo_view : View := {|
  vw_ProposalID := "p"; vw_Digest := "d"; vw_Action := Build_ActionRef "restart" "v1"; vw_For := serve_type;
  vw_Phase := PhaseTimedOut; vw_Attempt := 1; vw_Reasons := []; vw_Recovery := RecoveryPending; vw_Detail := [];
|}.

Definition demo_summary_input : InteractionInput := {|
  ip_Namespace := "ns"; ip_Name := "web"; ip_UID := "uid"; ip_Status := demo_status; ip_Investigation := None;
  ip_Profile := Some demo_profile; ip_Actions := Status [demo_view];
|}.

(** The response is ready, the timed-out action asks for a decision. *)
Example demo_ready :
  ir_Status <$> responses_for demo_summary_input serve_type = [ResponseReady].
Proof. vm_compute. reflexivity. Qed.

Example demo_level : is_Level (Project demo_summary_input None) = LevelDecisionRequired.
Proof. vm_compute. reflexivity. Qed.

Lemma Project_level_witness :
  st_Valid (ip_Status demo_summary_input) = true /\
  (is_Level (Project demo_summary_input None) = LevelImmediateIntervention <->
   exists cs, cs ∈ st_Capabilities (ip_Status demo_summary_input) /\ cs_State cs = "UNAVAILABLE" /\
     responses_for demo_summary_input (cs_Type cs) <> [] /\
     viable_responses (responses_for demo_summary_input (cs_Type cs)) = []).
Proof. split; [reflexivity|]. exact (proj1 (Project_level demo_summary_input None eq_refl)). Defined.

Lemma Project_actions_order_witness :
  let l1 := Status [demo_view; demo_view] in
  l1 ≡ₚ l1 /\
  is_Level (Project (with_actions demo_summary_input l1) None) =
  is_Level (Project (with_actions demo_summary_input (rev l1)) None).
Proof.
  cbn zeta. split; [reflexivity|].
  exact (proj1 (Project_actions_order demo_summary_input _ _ None (Permutation_rev (Status [demo_view; demo_view])))).
Defined.

Lemma Project_history_witness :
  history_ok (Project demo_summary_input None) /\
  history_ok (Project demo_summary_input (Some (Project demo_summary_input None))).
Proof.
  assert (history_ok (Project demo_summary_input None)) as Hh
    by exact (proj1 (Project_history demo_summary_input None ltac:(intros p Hp; discriminate Hp))).
  split; [exact Hh|].
  refine (proj1 (Project_history demo_summary_input (Some (Project demo_summary_input None)) _)).
  intros p [= <-]. exact Hh.
Defined.

Lemma responses_declared_witness :
  ip_Profile demo_summary_input = Some demo_profile /\
  exists r, r ∈ responses_for demo_summary_input serve_type.
Proof.
  split; [reflexivity|].
  destruct (proj2 (responses_declared demo_summary_input serve_type demo_profile eq_refl) demo_response
    (list_elem_of_here _ _) eq_refl eq_refl) as (r & status & Hr & _).
  exists r. exact Hr.
Defined.

Lemma unresolved_shown_witness :
  unresolved demo_view = Some LReasonActionOutcomeUnknown /\
  2 <= level_rank (is_Level (Project demo_summary_input None)) /\
  status_reason LReasonActionOutcomeUnknown (ActionRef_String (vw_Action demo_view)) ∈ is_HumanReasons (Project demo_summary_input None).
Proof.
  assert (must_hear demo_summary_input [demo_view] LReasonActionOutcomeUnknown demo_view) as Hh
    by (split; [apply list_elem_of_here|split; reflexivity]).
  destruct (unresolved_shown demo_summary_input [demo_view] None LReasonActionOutcomeUnknown eq_refl (or_intror eq_refl)) as [Hlevel Hnames].
  split; [reflexivity|]. split; [exact (Hlevel (ex_intro _ demo_view Hh))|].
  apply (proj2 (Hnames (ActionRef_String (vw_Action demo_view)))). split; [reflexivity|]. split; [exists demo_view; exact (conj Hh eq_refl)|].
  intros v (Hv & _). apply list_elem_of_singleton in Hv as ->. apply string_ltb_irrefl.
Defined.

(** Nine capabilities whose declared response needs an approval, and one that is
    UNAVAILABLE with no applicable response. *)
Definition crowd_type (n : nat) : CapabilityType := Build_CapabilityType "app" ("c" +:+ pretty n) "v1".

Definition crowd_response (n : nat) (pre : list CapabilityType) : Response := {|
  rs_Action := Build_ActionRef ("fix" +:+ pretty n) "v1"; rs_Target := Build_TargetRef "ns" "web" ""; rs_For := crowd_type n;
  rs_States := []; rs_Owner := "team"; rs_RequiresApproval := true; rs_Risks := []; rs_Preconditions := pre;
  rs_Execution := None;
|}.

Definition crowd_input : InteractionInput := {|
  ip_Namespace := "ns"; ip_Name := "web"; ip_UID := "uid";
  ip_Status := Build_TargetStatus (st_Identity demo_status) true "NotApplicable" "" [] [] []
    ((fun n => Build_CapabilityStatus (crowd_type n) "UNAVAILABLE" []) <$> seq 0 10) [];
  ip_Investigation := None;
  ip_Profile := Some (Build_Profile "r1"
    ((fun n => crowd_response n (if n =? 9 then [crowd_type 0] else [])) <$> seq 0 10));
  ip_Actions := [];
|}.

(** Reasons are ordered by code and cut at eight: the reason of the highest
    level can be among those cut. *)
Example level_reason_cut :
  is_Level (Project crowd_input None) = LevelImmediateIntervention /\
  existsb (fun r => bool_decide (sr_Code r = LReasonNoSafePath))
    (is_LevelReasons (Project crowd_input None) ++ is_HumanReasons (Project crowd_input None)) = false.
Proof. vm_compute. split; reflexivity. Qed.
