(* ===== verification/Text.v ===== *)
(** * Text: runes, fields and padding (packages strings, unicode/utf8, fmt)

    A Go string is a sequence of bytes.  What the commands and the parsers of
    the repository do to text goes by runes: the code points of its UTF-8
    form, each byte that is not part of one counting as one rune. *)

From S2P Require Import Prelude.
From Stdlib Require Import Ascii.

(** ** unicode/utf8 *)
Definition rune_error : N := 0xFFFD.

(** The byte at [i], if it lies between [lo] and [hi]. *)
Definition byte_in (lo hi : N) (i : nat) (s : string) : option N :=
  match String.get i s with
  | Some a => let b := N_of_ascii a in if N.leb lo b && N.leb b hi then Some b else None
  | None => None
  end.

(** The six bits a continuation byte carries. *)
Definition tail_bits (b : N) : N := N.land b 0x3F.

(** utf8.DecodeRuneInString of a string that starts with the byte [c]: the
    code point and the number of bytes. *)
Definition decode_rune (c : N) (s : string) : N * nat :=
  let two lo hi bits :=
    match byte_in lo hi 1 s with Some b1 => (N.lor (N.shiftl bits 6) (tail_bits b1), 2) | None => (rune_error, 1) end in
  let three lo hi bits :=
    match byte_in lo hi 1 s, byte_in 0x80 0xBF 2 s with
    | Some b1, Some b2 => (N.lor (N.shiftl bits 12) (N.lor (N.shiftl (tail_bits b1) 6) (tail_bits b2)), 3)
    | _, _ => (rune_error, 1)
    end in
  let four lo hi bits :=
    match byte_in lo hi 1 s, byte_in 0x80 0xBF 2 s, byte_in 0x80 0xBF 3 s with
    | Some b1, Some b2, Some b3 =>
        (N.lor (N.shiftl bits 18)
           (N.lor (N.shiftl (tail_bits b1) 12) (N.lor (N.shiftl (tail_bits b2) 6) (tail_bits b3))), 4)
    | _, _, _ => (rune_error, 1)
    end in
  if N.ltb c 0x80 then (c, 1)
  else if N.ltb c 0xC2 then (rune_error, 1)
  else if N.ltb c 0xE0 then two 0x80%N 0xBF%N (N.land c 0x1F)
  else if N.eqb c 0xE0 then three 0xA0%N 0xBF%N 0%N
  else if N.eqb c 0xED then three 0x80%N 0x9F%N 0xD%N
  else if N.ltb c 0xF0 then three 0x80%N 0xBF%N (N.land c 0xF)
  else if N.eqb c 0xF0 then four 0x90%N 0xBF%N 0%N
  else if N.ltb c 0xF4 then four 0x80%N 0xBF%N (N.land c 0x7)
  else if N.eqb c 0xF4 then four 0x80%N 0x8F%N 4%N
  else (rune_error, 1).

(** A rune: its code point and the bytes it stands for. *)
Record rune := { code : N; bytes : string }.

(** The runes of a string; [skip] bytes still belong to the last one. *)
Fixpoint runes_from (skip : nat) (s : string) : list rune :=
  match s with
  | EmptyString => []
  | String a s' =>
      match skip with
      | S skip => runes_from skip s'
      | O =>
          let '(c, w) := decode_rune (N_of_ascii a) s in
          {| code := c; bytes := String.substring 0 w s |} :: runes_from (w - 1) s'
      end
  end.

Definition runes (s : string) : list rune := runes_from 0 s.

Fixpoint text (rs : list rune) : string :=
  match rs with [] => "" | r :: rs => bytes r +:+ text rs end.

(** utf8.RuneCountInString *)
Definition rune_count (s : string) : nat := length (runes s).

(** ** fmt: %-<n>s and %s *)
Fixpoint spaces (n : nat) : string := match n with O => "" | S n => " " +:+ spaces n end.

Definition pad_right (n : nat) (s : string) : string := s +:+ spaces (n - rune_count s).

Definition line_feed : string := String (ascii_of_nat 10) EmptyString.

(** ** unicode.IsSpace *)
Definition is_space (r : rune) : bool :=
  let c := code r in
  (N.leb 9 c && N.leb c 13) || N.eqb c 32 || N.eqb c 0x85 || N.eqb c 0xA0 || N.eqb c 0x1680 ||
  (N.leb 0x2000 c && N.leb c 0x200A) || N.eqb c 0x2028 || N.eqb c 0x2029 || N.eqb c 0x202F || N.eqb c 0x205F ||
  N.eqb c 0x3000.

Fixpoint drop_while {A} (f : A -> bool) (l : list A) : list A :=
  match l with [] => [] | x :: l' => if f x then drop_while f l' else l end.

(** strings.TrimSpace *)
Definition TrimSpace (s : string) : string :=
  text (rev (drop_while is_space (rev (drop_while is_space (runes s))))).

(** strings.Fields: the maximal runs of runes that are not space. *)
Fixpoint fields_from (word : list rune) (rs : list rune) : list (list rune) :=
  let flush rest := match word with [] => rest | _ => rev word :: rest end in
  match rs with
  | [] => flush []
  | r :: rs => if is_space r then flush (fields_from [] rs) else fields_from (r :: word) rs
  end.

Definition Fields (s : string) : list string := text <$> fields_from [] (runes s).

(** ** Separators of one byte *)

(** strings.SplitN(s, sep, 2): what stands before and after the first
    separator, or nothing when there is none. *)
Fixpoint split_first (sep : ascii) (s : string) : option (string * string) :=
  match s with
  | EmptyString => None
  | String a s => if bool_decide (a = sep) then Some ("", s) else (fun '(k, v) => (String a k, v)) <$> split_first sep s
  end.

(** strings.TrimPrefix *)
Definition trim_prefix (p s : string) : string :=
  if has_prefix p s then String.substring (String.length p) (String.length s - String.length p) s else s.

(** strings.ReplaceAll with a pattern that is not empty: the leftmost
    occurrences that do not overlap; [skip] bytes were replaced already. *)
Fixpoint replace_from (skip : nat) (old new s : string) : string :=
  match s with
  | EmptyString => ""
  | String a s' =>
      match skip with
      | S skip => replace_from skip old new s'
      | O => if has_prefix old s then new +:+ replace_from (String.length old - 1) old new s'
             else String a (replace_from 0 old new s')
      end
  end.

Definition replace_all (old new s : string) : string := replace_from 0 old new s.

(** ** path/filepath on Unix *)

(** The elements of a cleaned path, last first: "." and empty elements are
    dropped, ".." takes back the element before it, if there is one. *)
Fixpoint clean_elements (rooted : bool) (acc elements : list string) : list string :=
  match elements with
  | [] => acc
  | e :: es =>
      if bool_decide (e = "") || bool_decide (e = ".") then clean_elements rooted acc es
      else if bool_decide (e = "..") then
        match acc with
        | [] => clean_elements rooted (if rooted then [] else [".."]) es
        | a :: acc' => clean_elements rooted (if bool_decide (a = "..") then ".." :: acc else acc') es
        end
      else clean_elements rooted (e :: acc) es
  end.

(** filepath.Clean *)
Definition path_clean (path : string) : string :=
  let rooted := has_prefix "/" path in
  let es := rev (clean_elements rooted [] (split_on "/" path)) in
  if rooted then "/" +:+ join "/" es else match es with [] => "." | _ => join "/" es end.

(** filepath.Join *)
Definition path_join (elements : list string) : string :=
  match drop_while (fun e => bool_decide (e = "")) elements with [] => "" | es => path_clean (join "/" es) end.

(** filepath.Base and filepath.Dir of a cleaned path. *)
Definition path_base (path : string) : string :=
  match List.filter (fun e => negb (bool_decide (e = ""))) (split_on "/" path) with
  | [] => if bool_decide (path = "") then "." else "/"
  | es => default "" (last es)
  end.

Definition path_dir (path : string) : string :=
  let es := split_on "/" path in
  let dir := join "/" (removelast es) in
  path_clean (if has_prefix "/" path then "/" +:+ dir else dir).

(** * Lemmas *)

Lemma append_nil_r s : s +:+ "" = s.
Proof. induction s as [|a s IH]; [done|]. by apply (f_equal (String a)). Qed.

Lemma append_assoc s1 s2 s3 : (s1 +:+ s2) +:+ s3 = s1 +:+ s2 +:+ s3.
Proof. induction s1 as [|a s1 IH]; [done|]. by apply (f_equal (String a)). Qed.

Lemma text_app rs1 rs2 : text (rs1 ++ rs2) = text rs1 +:+ text rs2.
Proof. induction rs1 as [|r rs1 IH]; [done|]. cbn. by rewrite IH, append_assoc. Qed.

(** ** Decoding *)

Lemma byte_in_app lo hi i s t : i < String.length s -> byte_in lo hi i (s +:+ t) = byte_in lo hi i s.
Proof. intros Hi. unfold byte_in. by rewrite <- String.append_correct1. Qed.

Lemma get_length s : String.get (String.length s) s = None.
Proof. by induction s. Qed.

Lemma get_Some i s a : String.get i s = Some a -> i < String.length s.
Proof. revert i. induction s as [|b s IH]; intros i; [done|]. destruct i; cbn; [lia|]. intros ?%IH. lia. Qed.

Lemma get_None i s : String.get i s = None -> String.length s <= i.
Proof. revert i. induction s as [|b s IH]; intros i; cbn; [lia|]. destruct i; [done|]. intros ?%IH. lia. Qed.

Lemma byte_in_Some lo hi i s b : byte_in lo hi i s = Some b -> i < String.length s.
Proof. unfold byte_in. destruct (String.get i s) as [a|] eqn:E; [|done]. intros _. by eapply get_Some. Qed.

Lemma substring_prefix n s t : n <= String.length s -> String.substring 0 n (s +:+ t) = String.substring 0 n s.
Proof.
  revert n. induction s as [|a s IH]; intros [|n] Hn; [by destruct t|cbn in Hn; lia|done|].
  change (String a s +:+ t) with (String a (s +:+ t)). cbn [String.substring String.length] in *. by rewrite IH by lia.
Qed.

Lemma substring_all s : String.substring 0 (String.length s) s = s.
Proof. induction s as [|a s IH]; [done|]. by apply (f_equal (String a)). Qed.

Lemma append_split n s : n <= String.length s -> String.substring 0 n s +:+ String.substring n (String.length s - n) s = s.
Proof.
  revert n. induction s as [|a s IH]; intros [|n] Hn; cbn [String.length] in *; try lia; [done| |].
  - apply (substring_all (String a s)).
  - apply (f_equal (String a)). apply IH. lia.
Qed.

(** A byte that can stand inside a code point but not begin one. *)
Definition continues (a : ascii) : bool := N.leb 0x80 (N_of_ascii a) && N.leb (N_of_ascii a) 0xBF.

(** No code point goes on into [s]. *)
Definition cut (s : string) : Prop := match s with EmptyString => True | String a _ => continues a = false end.

Lemma byte_in_cut lo hi i s t :
  (0x80 <= lo)%N -> (hi <= 0xBF)%N -> cut t -> i <= String.length s ->
  byte_in lo hi i (s +:+ t) = byte_in lo hi i s.
Proof.
  intros Hlo Hhi Ht Hi. destruct (decide (i = String.length s)) as [->|]; [|apply byte_in_app; lia].
  unfold byte_in. rewrite get_length, <- (Nat.add_0_l (String.length s)), <- String.append_correct2.
  destruct t as [|a t]; [done|]. cbn in *. unfold continues in Ht.
  destruct (N.leb_spec lo (N_of_ascii a)), (N.leb_spec (N_of_ascii a) hi); cbn; try done.
  apply andb_false_iff in Ht as [Ht|Ht]; apply N.leb_gt in Ht; lia.
Qed.

Lemma byte_in_end lo hi i s : i = String.length s -> byte_in lo hi i s = None.
Proof. intros ->. unfold byte_in. by rewrite get_length. Qed.

(** What follows a string does not change how its last rune is read. *)
Lemma decode_rune_app c a s t : cut t -> decode_rune c (String a s +:+ t) = decode_rune c (String a s).
Proof.
  intros Ht. set (u := String a s). assert (1 <= String.length u) as Hu by (cbn; lia).
  assert (forall lo hi i, (0x80 <= lo)%N -> (hi <= 0xBF)%N -> i <= String.length u ->
    byte_in lo hi i (u +:+ t) = byte_in lo hi i u) as Hb by auto using byte_in_cut.
  unfold decode_rune. rewrite !(Hb _ _ 1) by lia.
  destruct (decide (String.length u = 1)) as [E1|]; [by rewrite !(byte_in_end _ _ 1) by done|].
  rewrite !(Hb _ _ 2) by lia.
  destruct (decide (String.length u = 2)) as [E2|]; [|by rewrite !(Hb _ _ 3) by lia].
  rewrite !(byte_in_end _ _ 2) by done. by repeat case_match.
Qed.

Lemma decode_rune_width c s : 1 <= (decode_rune c s).2.
Proof. unfold decode_rune. repeat case_match; cbn; lia. Qed.

Lemma decode_rune_fits c a s : (decode_rune c (String a s)).2 <= String.length (String a s).
Proof.
  unfold decode_rune.
  repeat case_match; cbn -[String.length];
    repeat match goal with H : byte_in _ _ _ _ = Some _ |- _ => apply byte_in_Some in H end; cbn in *; lia.
Qed.

Lemma runes_from_app n s t : cut t -> n <= String.length s -> runes_from n (s +:+ t) = runes_from n s ++ runes_from 0 t.
Proof.
  intros Ht. revert n. induction s as [|a s IH]; intros n Hn; cbn [String.length] in Hn.
  - by assert (n = 0) as -> by lia.
  - change (String a s +:+ t) with (String a (s +:+ t)). destruct n as [|n]; cbn [runes_from]; [|apply IH; lia].
    change (String a (s +:+ t)) with (String a s +:+ t).
    rewrite decode_rune_app by done. pose proof (decode_rune_fits (N_of_ascii a) a s) as Hw.
    destruct (decode_rune _ _) as [c w]. cbn in Hw |- *. rewrite IH by lia. f_equal. f_equal.
    by apply substring_prefix.
Qed.

(** Cutting a string where no code point goes on cuts its runes. *)
Lemma runes_app s t : cut t -> runes (s +:+ t) = runes s ++ runes t.
Proof. intros Ht. apply runes_from_app; [done|lia]. Qed.

Lemma text_runes_from n s : n <= String.length s ->
  text (runes_from n s) = String.substring n (String.length s - n) s.
Proof.
  revert n. induction s as [|a s IH]; intros n Hn; cbn [String.length] in *; [by assert (n = 0) as -> by lia|].
  destruct n as [|n]; cbn [runes_from]; [|apply IH; lia].
  pose proof (decode_rune_fits (N_of_ascii a) a s) as Hf. pose proof (decode_rune_width (N_of_ascii a) (String a s)) as Hw.
  destruct (decode_rune _ _) as [c w]. cbn [snd String.length text bytes] in *. rewrite IH by lia.
  destruct w as [|w]; [lia|]. rewrite Nat.sub_succ, Nat.sub_0_r.
  transitivity (String a s); [|symmetry; apply (substring_all (String a s))]. apply (f_equal (String a)). apply append_split. lia.
Qed.

(** The runes of a string are that string. *)
Lemma text_runes s : text (runes s) = s.
Proof.
  unfold runes. rewrite text_runes_from by lia. rewrite Nat.sub_0_r. apply substring_all.
Qed.

(** A byte below 0x80 is a rune of its own. *)
Definition ascii_rune (a : ascii) : rune := {| code := N_of_ascii a; bytes := String a "" |}.

Lemma runes_ascii a s : (N_of_ascii a < 0x80)%N -> runes (String a s) = ascii_rune a :: runes s.
Proof.
  intros Ha. unfold runes. cbn [runes_from]. unfold decode_rune. apply N.ltb_lt in Ha as ->. cbn. by destruct s.
Qed.

Lemma ascii_cut a s : (N_of_ascii a < 0x80)%N -> cut (String a s).
Proof. intros Ha. cbn. unfold continues. by apply andb_false_iff; left; apply N.leb_gt. Qed.

(** ** Trimming *)
Lemma drop_while_all {A} (f : A -> bool) l : drop_while f l = [] <-> Forall (fun x => f x = true) l.
Proof.
  induction l as [|x l IH]; cbn; [done|]. destruct (f x) eqn:Ex; [rewrite IH, Forall_cons; naive_solver|].
  rewrite Forall_cons. naive_solver congruence.
Qed.

Lemma drop_while_suffix {A} (f : A -> bool) l : exists pre, l = pre ++ drop_while f l /\ Forall (fun x => f x = true) pre.
Proof.
  induction l as [|x l (pre & Hl & Hp)]; cbn; [by exists []|]. destruct (f x) eqn:Ex; [|by exists []].
  exists (x :: pre). split; [cbn; by f_equal|by constructor].
Qed.

Lemma drop_while_idem {A} (f : A -> bool) l : drop_while f (drop_while f l) = drop_while f l.
Proof. induction l as [|x l IH]; cbn; [done|]. destruct (f x) eqn:E; [done|]. cbn. by rewrite E. Qed.

Lemma drop_while_length {A} (f : A -> bool) l : length (drop_while f l) <= length l.
Proof. induction l as [|x l IH]; cbn; [done|]. destruct (f x); cbn; lia. Qed.

(** ** Texts given by their runes *)
Definition coded (rs : list rune) : Prop := runes (text rs) = rs.

Lemma coded_runes s : coded (runes s).
Proof. unfold coded. by rewrite text_runes. Qed.

Lemma runes_from_drop n s t : String.length s = n -> runes_from n (s +:+ t) = runes t.
Proof. intros <-. induction s as [|a s IH]; [done|]. exact IH. Qed.

Lemma runes_step s r rs : runes s = r :: rs -> exists t, s = bytes r +:+ t /\ rs = runes t.
Proof.
  unfold runes. destruct s as [|a s]; [done|]. cbn [runes_from].
  pose proof (decode_rune_fits (N_of_ascii a) a s) as Hf. pose proof (decode_rune_width (N_of_ascii a) (String a s)) as Hw.
  destruct (decode_rune _ _) as [c w]. cbn [fst snd] in *. intros [= <- <-]. cbn [bytes].
  exists (String.substring w (String.length (String a s) - w) (String a s)).
  split; [symmetry; by apply (append_split w (String a s))|].
  destruct w as [|w]; [lia|]. cbn [String.length] in *. rewrite Nat.sub_succ, Nat.sub_0_r.
  rewrite <- (append_split w s) at 1 by lia. rewrite runes_from_drop; [done|]. rewrite substring_length. lia.
Qed.

Lemma append_inj_l s t1 t2 : s +:+ t1 = s +:+ t2 -> t1 = t2.
Proof. induction s as [|a s IH]; [done|]. intros [= H]. by apply IH. Qed.

Lemma coded_tail q rs : coded (q ++ rs) -> coded rs.
Proof.
  induction q as [|r q IH]; [done|]. intros Hc. apply IH. unfold coded in *. cbn [app text] in Hc.
  destruct (runes_step _ _ _ Hc) as (t & Ht & Hr). apply append_inj_l in Ht as <-. done.
Qed.

(** Where no code point goes on, a text can be cut and pasted. *)
Lemma coded_prefix a b : coded (a ++ b) -> cut (text b) -> coded a.
Proof.
  intros Hc Hb. pose proof (coded_tail _ _ Hc) as Hcb. unfold coded in *.
  rewrite text_app, runes_app, Hcb in Hc by done. by apply app_inv_tail in Hc.
Qed.

Lemma coded_app a b : coded a -> coded b -> cut (text b) -> coded (a ++ b).
Proof. unfold coded. intros Ha Hb Hc. rewrite text_app, runes_app by done. by rewrite Ha, Hb. Qed.

Lemma coded_cut r rs : coded (r :: rs) -> (code r < 0x80)%N -> cut (text (r :: rs)).
Proof.
  unfold coded. set (s := text (r :: rs)). clearbody s. unfold runes. destruct s as [|a s]; [done|]. cbn [runes_from cut].
  unfold continues. destruct (N.leb_spec 0x80 (N_of_ascii a)) as [Ha|]; [|done].
  destruct (N.leb_spec (N_of_ascii a) 0xBF) as [Hb|]; [|done]. unfold decode_rune.
  destruct (N.ltb_spec (N_of_ascii a) 0x80); [lia|]. destruct (N.ltb_spec (N_of_ascii a) 0xC2); [|lia].
  intros [= <- _]. cbn. unfold rune_error. lia.
Qed.

(** ** Cleaned paths *)

(** The elements of a cleaned rooted path, and the path. *)
Definition plain_element (e : string) : Prop := e <> "" /\ e <> "." /\ e <> ".." /\ has_char "/"%char e = false.

Definition rooted_path (es : list string) : string := "/" +:+ join "/" es.

Lemma clean_elements_plain rooted es acc : Forall plain_element es -> clean_elements rooted acc es = rev es ++ acc.
Proof.
  intros Hes. revert acc. induction Hes as [|e es (H1 & H2 & H3 & _) _ IH]; intros acc; cbn [clean_elements rev]; [done|].
  rewrite !bool_decide_eq_false_2 by done. cbn [orb]. by rewrite IH, <- app_assoc.
Qed.

Lemma plain_no_slash es : Forall plain_element es -> Forall (fun e => has_char "/"%char e = false) es.
Proof. intros Hes. apply (Forall_impl _ _ _ Hes). by intros e (_ & _ & _ & H). Qed.

Lemma split_rooted es : es <> [] -> Forall plain_element es -> split_on "/" (rooted_path es) = "" :: es.
Proof.
  intros Hne Hes. unfold rooted_path. change ("/" +:+ ?t) with ("" +:+ String "/" t). rewrite split_on_app.
  rewrite (split_on_joined "/"%char es) by (done || by apply plain_no_slash). done.
Qed.

Lemma path_clean_rooted es : Forall plain_element es -> path_clean ("/" +:+ rooted_path es) = rooted_path es.
Proof.
  intros Hes. unfold path_clean. change (has_prefix "/" ("/" +:+ rooted_path es)) with true. cbn beta iota.
  change ("/" +:+ rooted_path es) with ("" +:+ String "/" (rooted_path es)). rewrite split_on_app.
  destruct es as [|e es]; [done|]. rewrite split_rooted by done.
  change (clean_elements true [] (split_on "/" "" ++ "" :: e :: es)) with (clean_elements true [] (e :: es)).
  rewrite (clean_elements_plain _ (e :: es)), app_nil_r, rev_involutive by done. done.
Qed.

(** filepath.Dir drops the last element; the root is its own parent. *)
Lemma path_dir_rooted es e : Forall plain_element (es ++ [e]) -> path_dir (rooted_path (es ++ [e])) = rooted_path es.
Proof.
  intros Hes. unfold path_dir. rewrite split_rooted by (done || by destruct es). change (has_prefix "/" (rooted_path (es ++ [e]))) with true.
  cbn beta iota. rewrite app_comm_cons, removelast_last. apply Forall_app in Hes as [Hes _].
  destruct es as [|e' es]; [done|]. by apply (path_clean_rooted (e' :: es)).
Qed.

Lemma path_dir_root : path_dir (rooted_path []) = rooted_path [].
Proof. done. Qed.

Lemma rooted_length es : Forall plain_element es -> length es < String.length (rooted_path es).
Proof.
  intros Hes. change (String.length (rooted_path es)) with (S (String.length (join "/" es))). apply le_n_S.
  induction Hes as [|e es (He & _) _ IH]; [done|]. destruct e as [|a e]; [done|]. destruct es as [|e' es]; [cbn; lia|].
  change (join "/" (String a e :: e' :: es)) with (String a e +:+ "/" +:+ join "/" (e' :: es)).
  set (t := join "/" (e' :: es)) in *. clearbody t. rewrite !length_string_app. cbn in *. lia.
Qed.

Lemma rooted_inj es es' : Forall plain_element es -> Forall plain_element es' -> rooted_path es = rooted_path es' -> es = es'.
Proof.
  intros Hes Hes' E. pose proof (rooted_length _ Hes) as Hl. pose proof (rooted_length _ Hes') as Hl'.
  destruct es as [|e es], es' as [|e' es']; [done|..].
  - rewrite <- E in Hl'. change (S (length es') < 1) in Hl'. lia.
  - rewrite E in Hl. change (S (length es) < 1) in Hl. lia.
  - apply (f_equal (split_on "/")) in E. rewrite !split_rooted in E by done. congruence.
Qed.
