(* ===== verification/Release.v ===== *)
(** * Release orchestration (pkg/release and the data of pkg/model): definitions

    Dependency order (order.go), what a change affects (diff.go) and the
    compatibility matrix (release.go).  Loading YAML files is not modelled: the
    functions take the loaded values. *)

From S2P Require Import Prelude.
From Stdlib Require Import Ascii.

(** ** pkg/model *)
Record ComponentRef := {
  cf_Name : string;
  cf_Version : string;
  cf_ImageDigest : string;
  cf_GitSha : string;
}.

#[export] Instance ComponentRef_eq_dec : EqDecision ComponentRef.
Proof. solve_decision. Defined.

(** PromotionPolicy with its BaselinePolicy. *)
Record PromotionPolicy := {
  pp_RequiredGateResult : string;
  pp_UpdateFrom : string;
  pp_ReviewRequired : bool;
}.

(** CompatibilityRef is its matrix, ReleaseVerification its policies. *)
Record BoriRelease := {
  rl_Name : string;
  rl_Components : list ComponentRef;
  rl_Matrix : string;
  rl_Policies : list string;
  rl_Promotion : PromotionPolicy;
}.

Record BootstrapDeploy := { bs_Adapter : string; bs_Path : string }.

(** The fields of BoriComponent that are read; an UpdateDeploy is its adapter,
    and of the ports and endpoints only those of the metrics are used. *)
Record BoriComponent := {
  bc_Name : string;
  bc_ImageRef : string;
  bc_Dependencies : list string;
  bc_Namespace : string;
  bc_Bootstrap : option BootstrapDeploy;
  bc_Update : option string;
  bc_Version : string;
  bc_VerificationPolicies : list string;
  bc_MetricsPort : Z;
  bc_MetricsPath : string;
}.

(** [DeployConfig.BootstrapAdapter] and [UpdateAdapter]: [None] is a nil
    configuration. *)
Definition BootstrapAdapter (c : BoriComponent) : string :=
  match bc_Bootstrap c with
  | Some b => if decide (bs_Adapter b <> "") then bs_Adapter b else "kustomize"
  | None => "kustomize"
  end.

Definition UpdateAdapter (c : BoriComponent) : string :=
  match bc_Update c with
  | Some a => if decide (a <> "") then a else "imageswap"
  | None => "imageswap"
  end.

Definition names (refs : list ComponentRef) : list string := cf_Name <$> refs.

(** ** order.go *)
Definition refByName (rel : BoriRelease) : gmap string ComponentRef :=
  foldl (fun m ref => <[cf_Name ref := ref]> m) ∅ (rl_Components rel).

(** The map [inDegree], 0 for an absent key, and the map [dependents]. *)
Record degrees := { dg_in : gmap string Z; dg_dependents : gmap string (list string) }.

Definition degree (m : gmap string Z) (n : string) : Z := default 0%Z (m !! n).

Definition add_edge (refs : gmap string ComponentRef) (name : string) (g : degrees) (dep : string) : degrees :=
  match refs !! dep with
  | None => g
  | Some _ => Build_degrees (<[name := (degree (dg_in g) name + 1)%Z]> (dg_in g)) (group_add dep name (dg_dependents g))
  end.

Definition add_component (refs : gmap string ComponentRef) (comps : gmap string BoriComponent) (g : degrees)
    (ref : ComponentRef) : degrees :=
  match comps !! cf_Name ref with
  | None => g
  | Some comp => foldl (add_edge refs (cf_Name ref)) g (bc_Dependencies comp)
  end.

Definition build_degrees (rel : BoriRelease) (comps : gmap string BoriComponent) : degrees :=
  foldl (add_component (refByName rel) comps)
    (Build_degrees (foldl (fun m ref => <[cf_Name ref := 0%Z]> m) ∅ (rl_Components rel)) ∅) (rl_Components rel).

(** The body of the loop over the dependents of a name. *)
Definition release_step (acc : gmap string Z * list string) (dependent : string) : gmap string Z * list string :=
  let '(indeg, queue) := acc in
  let d := (degree indeg dependent - 1)%Z in
  (<[dependent := d]> indeg, if Z.eqb d 0 then queue ++ [dependent] else queue).

(** Kahn's loop; [None] when out of fuel. *)
Fixpoint kahn (dependents : gmap string (list string)) (fuel : nat) (indeg : gmap string Z) (queue : list string)
    (ordered : list string) : option (list string) :=
  match queue with
  | [] => Some ordered
  | name :: queue =>
      match fuel with
      | O => None
      | S fuel =>
          let '(indeg, queue) := foldl release_step (indeg, queue) (default [] (dependents !! name)) in
          kahn dependents fuel indeg queue (ordered ++ [name])
      end
  end.

Definition zero_ComponentRef : ComponentRef := Build_ComponentRef "" "" "" "".

Definition Order `{GoText} (rel : BoriRelease) (comps : gmap string BoriComponent) : option (string + list ComponentRef) :=
  let refs := refByName rel in
  let g := build_degrees rel comps in
  let queue := List.filter (fun n => Z.eqb (degree (dg_in g) n) 0) (names (rl_Components rel)) in
  ordered ← kahn (dg_dependents g) (length (rl_Components rel)) (dg_in g) queue [];
  Some (if negb (length ordered =? length (rl_Components rel))
        then inl ("dependency cycle detected in release " +:+ quote (rl_Name rel))
        else inr ((fun n => default zero_ComponentRef (refs !! n)) <$> ordered)).

(** ** diff.go *)
Definition reverse_deps (refs : list ComponentRef) (comps : gmap string BoriComponent) : gmap string (list string) :=
  foldl (fun m ref =>
      match comps !! cf_Name ref with
      | None => m
      | Some comp => foldl (fun m dep => group_add dep (cf_Name ref) m) m (bc_Dependencies comp)
      end) ∅ refs.

(** The breadth-first search; [None] when out of fuel. *)
Fixpoint affected_from (rev : gmap string (list string)) (fuel : nat) (queue : list string) (affected : gset string) :
    option (gset string) :=
  match queue with
  | [] => Some affected
  | name :: queue =>
      match fuel with
      | O => None
      | S fuel =>
          if decide (name ∈ affected) then affected_from rev fuel queue affected
          else
            let affected := {[name]} ∪ affected in
            affected_from rev fuel
              (queue ++ List.filter (fun d => bool_decide (d ∉ affected)) (default [] (rev !! name))) affected
      end
  end.

(** Every name is expanded once, so the queue holds at most the changed names
    and one entry per dependency edge. *)
Definition bfs_fuel (changed : list string) (rev : gmap string (list string)) : nat :=
  length changed + sum_list_with (fun kv => length kv.2) (map_to_list rev).

Definition AffectedComponents (changed : list string) (refs : list ComponentRef) (comps : gmap string BoriComponent) :
    option (list string) :=
  let rev := reverse_deps refs comps in
  affected ← affected_from rev (bfs_fuel changed rev) changed ∅;
  Some (List.filter (fun n => bool_decide (n ∈ affected)) (names refs)).

(** ** release.go *)
Record VersionRequirement := { vq_Component : string; vq_MinVersion : string }.
Record Constraint := { cn_Component : string; cn_Version : string; cn_Requires : list VersionRequirement }.
Record CompatibilityMatrix := { Constraints : list Constraint }.
Record Violation := { vi_Component : string; vi_Message : string }.

Definition Violation_String (v : Violation) : string := vi_Component v +:+ ": " +:+ vi_Message v.

(** strconv.Atoi, its error ignored: 0 for malformed text, the nearest int64
    for a number out of range. *)
Fixpoint digits_value (acc : Z) (s : string) : option Z :=
  match s with
  | EmptyString => Some acc
  | String c s =>
      let n := Z.of_nat (Ascii.nat_of_ascii c) in
      if (Z.leb 48 n && Z.leb n 57)%bool then digits_value (acc * 10 + (n - 48)) s else None
  end.

Definition parse_digits (s : string) : option Z :=
  match s with EmptyString => None | _ => digits_value 0 s end.

(** strconv.ParseUint stops at the first digit that takes it out of range,
    whatever follows. *)
Fixpoint uint_value (acc : Z) (s : string) : option Z :=
  match s with
  | EmptyString => Some acc
  | String c s =>
      let n := Z.of_nat (Ascii.nat_of_ascii c) in
      if (Z.leb 48 n && Z.leb n 57)%bool then
        let acc := (acc * 10 + (n - 48))%Z in if Z.ltb uint64_max acc then Some uint64_max else uint_value acc s
      else None
  end.

Definition uint_digits (s : string) : option Z :=
  match s with EmptyString => None | _ => uint_value 0 s end.

Definition atoi (s : string) : Z :=
  let clamp n := Z.max int64_min (Z.min int64_max n) in
  match s with
  | String "-"%char s => from_option (fun n => clamp (- n)%Z) 0%Z (uint_digits s)
  | String "+"%char s => from_option clamp 0%Z (uint_digits s)
  | _ => from_option clamp 0%Z (uint_digits s)
  end.

(** strings.SplitN with the separator dot and [n + 1] parts. *)
Fixpoint split_dot (n : nat) (s : string) : list string :=
  match s with
  | EmptyString => [""]
  | String c s =>
      match n with
      | O => [String c s]
      | S m =>
          if decide (c = "."%char) then "" :: split_dot m s
          else match split_dot n s with p :: ps => String c p :: ps | [] => [String c ""] end
      end
  end.

Definition trim_v (s : string) : string := match s with String "v"%char s => s | _ => s end.

(** The loop of [semverCompare] from part [i], with [n] parts to go. *)
Fixpoint compare_parts (n : nat) (pa pb : list string) (i : nat) : Z :=
  match n with
  | O => 0
  | S n =>
      let na := from_option atoi 0%Z (pa !! i) in
      let nb := from_option atoi 0%Z (pb !! i) in
      if negb (Z.eqb na nb) then (if Z.gtb na nb then 1 else -1)
      else compare_parts n pa pb (S i)
  end%Z.

Definition semverCompare (a b : string) : Z := compare_parts 3 (split_dot 2 a) (split_dot 2 b) 0.

Definition versionAtLeast (version minVersion : string) : bool :=
  Z.leb 0 (semverCompare (trim_v version) (trim_v minVersion)).

Definition check_requirement (versions : gmap string string) (c : Constraint) (req : VersionRequirement) :
    list Violation :=
  match versions !! vq_Component req with
  | None => [Build_Violation (cn_Component c) ("requires " +:+ vq_Component req +:+ " " +:+ vq_MinVersion req +:+
                " but " +:+ vq_Component req +:+ " is not in the release")]
  | Some actual =>
      if negb (versionAtLeast actual (vq_MinVersion req))
      then [Build_Violation (cn_Component c) ("requires " +:+ vq_Component req +:+ " >= " +:+ vq_MinVersion req +:+
              " but release has " +:+ actual)]
      else []
  end.

Definition check_constraint (versions : gmap string string) (c : Constraint) : list Violation :=
  match versions !! cn_Component c with
  | None => []
  | Some v => if decide (v = cn_Version c) then cn_Requires c ≫= check_requirement versions c else []
  end.

Definition release_versions (rel : BoriRelease) : gmap string string :=
  foldl (fun m ref => <[cf_Name ref := cf_Version ref]> m) ∅ (rl_Components rel).

Definition CheckCompatibility (rel : BoriRelease) (matrix : CompatibilityMatrix) : list Violation :=
  Constraints matrix ≫= check_constraint (release_versions rel).
