(* ===== verification/ReleaseSpec.v ===== *)
(** * What the release functions promise (pkg/release) *)

From S2P Require Import Prelude.
From Stdlib Require Import Ascii.
From S2P Require Import Release.

(** ** Specification *)

(** Component [n] of the release depends on component [d] of the release. *)
Definition depends (rel : BoriRelease) (comps : gmap string BoriComponent) (n d : string) : Prop :=
  n ∈ names (rl_Components rel) /\ d ∈ names (rl_Components rel) /\
  exists c, comps !! n = Some c /\ d ∈ bc_Dependencies c.

(** Every element stands after all it depends on. *)
Definition topological (R : string -> string -> Prop) (l : list string) : Prop :=
  forall i n d, l !! i = Some n -> R n d -> d ∈ take i l.

(** * Lemmas *)

(** A finite set in which every element has a successor holds a cycle. *)
Lemma finite_cycle (R : string -> string -> Prop) (X : gset string) x :
  (forall n, n ∈ X -> exists d, R n d /\ d ∈ X) -> x ∈ X -> exists n, tc R n n.
Proof.
  intros Hs Hx.
  assert (forall k V x, size (X ∖ V) <= k -> x ∈ X -> x ∉ V -> (forall v, v ∈ V -> tc R v x) -> exists n, tc R n n) as Hk.
  { induction k as [|k IH]; intros V y Hk Hy Hn HV.
    - assert (size (X ∖ V) = 0) as Hz%size_empty_inv by lia. set_solver.
    - destruct (Hs y Hy) as (d & Hd & Hdx). destruct (decide (d = y)) as [->|Hdy]; [exists y; by apply tc_once|].
      destruct (decide (d ∈ V)) as [Hin|Hout]; [exists d; eapply tc_r; [by apply HV|done]|].
      apply (IH ({[y]} ∪ V) d).
      + assert (size (X ∖ ({[y]} ∪ V)) < size (X ∖ V)); [|lia].
        apply subset_size. split; [intros v; set_solver|]. intros Hsub.
        assert (y ∈ X ∖ V) as Hyv by by apply elem_of_difference.
        apply Hsub, elem_of_difference in Hyv as [_ Hyv]. apply Hyv. by apply elem_of_union_l, elem_of_singleton.
      + done.
      + apply not_elem_of_union. split; [by apply not_elem_of_singleton|done].
      + intros v [->%elem_of_singleton|Hv]%elem_of_union; [by apply tc_once|]. eapply tc_r; [by apply HV|done]. }
  apply (Hk (size (X ∖ ∅)) ∅ x); [done|done|by apply not_elem_of_empty|].
  intros v Hv. by apply elem_of_empty in Hv.
Qed.

(** ** The release_edges of a release: pairs of a dependency and its dependent *)
Definition release_edges (rel : BoriRelease) (comps : gmap string BoriComponent) : list (string * string) :=
  rl_Components rel ≫= fun ref =>
    match comps !! cf_Name ref with
    | None => []
    | Some c => (fun d => (d, cf_Name ref)) <$> filter (.∈ names (rl_Components rel)) (bc_Dependencies c)
    end.

Lemma elem_of_release_edges rel comps d n : (d, n) ∈ release_edges rel comps <-> depends rel comps n d.
Proof.
  unfold release_edges, depends, names. rewrite list_elem_of_bind. split.
  - intros (ref & He & Hr). destruct (comps !! cf_Name ref) as [c|] eqn:Ec; [|nil_elem].
    apply list_elem_of_fmap in He as (d' & [= -> ->] & Hd). apply list_elem_of_filter in Hd as [Hd1 Hd2].
    split; [by apply list_elem_of_fmap_2|]. split; [done|eauto].
  - intros (Hn & Hd & c & Hc & Hdc). apply list_elem_of_fmap in Hn as (ref & -> & Hr). exists ref. rewrite Hc.
    split; [|done]. apply list_elem_of_fmap. exists d. split; [done|]. by apply list_elem_of_filter.
Qed.

(** How often a name occurs, and how many of its dependencies are open. *)
Definition occurs (n : string) (l : list string) : nat := length (filter (.= n) l).
Definition open_deps (E : list (string * string)) (placed : list string) (n : string) : nat :=
  length (filter (fun e => e.2 = n /\ e.1 ∉ placed) E).

(** The index of [refByName] over a list. *)
Definition index (l : list ComponentRef) : gmap string ComponentRef :=
  foldl (fun m ref => <[cf_Name ref := ref]> m) ∅ l.

Lemma index_app l r : index (l ++ [r]) = <[cf_Name r := r]> (index l).
Proof. unfold index. by rewrite foldl_app. Qed.

Lemma names_app l l' : names (l ++ l') = names l ++ names l'.
Proof. apply fmap_app. Qed.

Lemma lookup_index l n : is_Some (index l !! n) <-> n ∈ names l.
Proof.
  induction l as [|r l IH] using rev_ind.
  - unfold index. simpl. rewrite lookup_empty. split; [by intros []|by intros ?%elem_of_nil].
  - rewrite index_app, names_app, elem_of_app, lookup_insert. simpl. rewrite list_elem_of_singleton.
    case_decide as Hd; [split; [auto|by eauto]|]. rewrite IH. naive_solver.
Qed.

Lemma lookup_index_unique l r : NoDup (names l) -> r ∈ l -> index l !! cf_Name r = Some r.
Proof.
  induction l as [|r' l IH] using rev_ind; intros Hnd Hr; [nil_elem|].
  rewrite index_app. rewrite names_app in Hnd. apply NoDup_app in Hnd as (Hnd & Hd & _).
  apply elem_of_app in Hr as [Hr| ->%list_elem_of_singleton]; [|by rewrite lookup_insert_eq].
  rewrite lookup_insert_ne; [by apply IH|]. intros E. apply (Hd (cf_Name r)); [by apply list_elem_of_fmap_2|].
  rewrite <- E. by apply list_elem_of_singleton.
Qed.

(** What the loops have built from the edges [E]. *)
Record built (E : list (string * string)) (g : degrees) : Prop := {
  bt_in : forall n, degree (dg_in g) n = Z.of_nat (open_deps E [] n);
  bt_dependents : forall d, default [] (dg_dependents g !! d) = snd <$> filter (fun e => e.1 = d) E;
}.

Lemma open_deps_app E F placed n : open_deps (E ++ F) placed n = open_deps E placed n + open_deps F placed n.
Proof. unfold open_deps. by rewrite filter_app, length_app. Qed.

Lemma degree_insert m k v n : degree (<[k := v]> m) n = if decide (k = n) then v else degree m n.
Proof. unfold degree. rewrite lookup_insert. by case_decide. Qed.

Lemma built_edge refs E g name dep :
  built E g ->
  built (E ++ (if decide (is_Some (refs !! dep)) then [(dep, name)] else [])) (add_edge refs name g dep).
Proof.
  intros [Hi Hd]. unfold add_edge. destruct (refs !! dep) as [r|] eqn:Er.
  - rewrite decide_True by done. split.
    + intros n. cbn [dg_in]. rewrite open_deps_app, degree_insert. unfold open_deps at 2.
      rewrite filter_cons. cbn [fst snd]. case_decide as Hn.
      * subst n. rewrite decide_True by (split; [done|apply not_elem_of_nil]). simpl. rewrite Hi. lia.
      * rewrite decide_False by naive_solver. simpl. rewrite Hi. lia.
    + intros d. cbn [dg_dependents]. unfold group_add. rewrite lookup_insert, filter_app, filter_cons. cbn [fst].
      case_decide as Hn.
      * subst d. by rewrite filter_nil, fmap_app, <- Hd.
      * rewrite filter_nil, app_nil_r. apply Hd.
  - rewrite decide_False by (by intros [? [=]]). rewrite app_nil_r. by split.
Qed.

Lemma built_component rel comps E g ref :
  built E g ->
  built (E ++ match comps !! cf_Name ref with
              | None => []
              | Some c => (fun d => (d, cf_Name ref)) <$> filter (.∈ names (rl_Components rel)) (bc_Dependencies c)
              end) (add_component (refByName rel) comps g ref).
Proof.
  intros Hb. unfold add_component. destruct (comps !! cf_Name ref) as [c|]; [|by rewrite app_nil_r].
  induction (bc_Dependencies c) as [|dep deps IH] using rev_ind; [by rewrite app_nil_r|].
  rewrite foldl_app, filter_app, fmap_app, app_assoc. simpl.
  assert ((fun d => (d, cf_Name ref)) <$> filter (.∈ names (rl_Components rel)) [dep] =
          if decide (is_Some (refByName rel !! dep)) then [(dep, cf_Name ref)] else []) as ->.
  { rewrite filter_cons, filter_nil. pose proof (lookup_index (rl_Components rel) dep) as Hl.
    change (index (rl_Components rel)) with (refByName rel) in Hl.
    by repeat case_decide; try tauto. }
  by apply built_edge.
Qed.

Lemma built_degrees rel comps : built (release_edges rel comps) (build_degrees rel comps).
Proof.
  unfold build_degrees, release_edges.
  set (g0 := Build_degrees _ _).
  assert (built [] g0) as H0.
  { split; [|intros d; unfold g0; cbn [dg_dependents]; by rewrite lookup_empty].
    intros n. unfold g0. cbn [dg_in]. unfold open_deps. simpl.
    induction (rl_Components rel) as [|r l IH] using rev_ind; [done|].
    rewrite foldl_app. cbn [foldl]. rewrite degree_insert. by case_decide. }
  revert H0. generalize g0. clear g0.
  assert (forall l, forall g, built [] g ->
    built (l ≫= fun ref => match comps !! cf_Name ref with
      | None => []
      | Some c => (fun d => (d, cf_Name ref)) <$> filter (.∈ names (rl_Components rel)) (bc_Dependencies c)
      end) (foldl (add_component (refByName rel) comps) g l)) as Hall; [|apply Hall].
  intros l g Hg. induction l as [|r l IH] using rev_ind; [done|].
  rewrite foldl_app, bind_app. simpl. rewrite app_nil_r. by apply built_component.
Qed.

(** ** Kahn's loop *)
Lemma occurs_app n l l' : occurs n (l ++ l') = occurs n l + occurs n l'.
Proof. unfold occurs. by rewrite filter_app, length_app. Qed.

Lemma occurs_one n m : occurs n [m] = if decide (m = n) then 1 else 0.
Proof. unfold occurs. rewrite filter_cons. by case_decide. Qed.

Lemma occurs_pos n l : 0 < occurs n l <-> n ∈ l.
Proof.
  unfold occurs. split.
  - intros Hl. destruct (filter (.= n) l) as [|m l'] eqn:Ef; [simpl in Hl; lia|].
    assert (m ∈ filter (.= n) l) as Hm by (rewrite Ef; left). apply list_elem_of_filter in Hm as [-> Hm]. done.
  - intros Hn. assert (n ∈ filter (.= n) l) as Hm by by apply list_elem_of_filter.
    destruct (filter _ l); [nil_elem|simpl; lia].
Qed.

(** The loop over the dependents: every degree drops by the occurrences, and
    the names that reach 0 are queued, once each. *)
Lemma release_fold L indeg queue :
  (forall n, Z.of_nat (occurs n L) <= degree indeg n)%Z ->
  exists indeg' Q, foldl release_step (indeg, queue) L = (indeg', queue ++ Q) /\
    (forall n, degree indeg' n = degree indeg n - Z.of_nat (occurs n L))%Z /\ NoDup Q /\
    (forall n, n ∈ Q <-> n ∈ L /\ degree indeg n = Z.of_nat (occurs n L)).
Proof.
  induction L as [|x L IH] using rev_ind; intros Hle.
  - exists indeg, []. rewrite app_nil_r. split; [done|]. split; [intros; unfold occurs; simpl; lia|].
    split; [constructor|]. intros n. split; [by intros ?%elem_of_nil|by intros [?%elem_of_nil _]].
  - assert (forall n, Z.of_nat (occurs n L) <= degree indeg n)%Z as Hle'.
    { intros n. specialize (Hle n). rewrite occurs_app in Hle. lia. }
    destruct (IH Hle') as (indeg' & Q & Hf & Hd & HQ & Hin). rewrite foldl_app, Hf. simpl.
    pose proof (Hle x) as Hx. rewrite occurs_app, occurs_one, decide_True in Hx by done.
    assert (x ∉ Q) as HxQ by (intros [_ ?]%Hin; lia).
    assert (forall n, degree (<[x := (degree indeg' x - 1)%Z]> indeg') n =
                      degree indeg n - Z.of_nat (occurs n (L ++ [x])))%Z as Hd'.
    { intros n. rewrite degree_insert, occurs_app, occurs_one. case_decide; subst; rewrite Hd; lia. }
    assert (forall n, n ∈ Q \/ (n = x /\ degree indeg x = Z.of_nat (occurs x L) + 1)%Z <->
                      n ∈ L ++ [x] /\ degree indeg n = Z.of_nat (occurs n (L ++ [x]))) as Hn.
    { intros n. rewrite Hin, elem_of_app, list_elem_of_singleton, occurs_app, occurs_one. split.
      - intros [[HnL Hdeg]|[-> Hdeg]]; [|split; [by right|rewrite decide_True by done; lia]].
        split; [by left|]. case_decide; [subst; lia|lia].
      - case_decide as Hxn; [subst; intros [_ ?]; right; split; [done|lia]|].
        intros [[?| ->] ?]; [left; split; [done|lia]|done]. }
    destruct (Z.eqb_spec (degree indeg' x - 1) 0) as [E0|E0].
    + exists (<[x := (degree indeg' x - 1)%Z]> indeg'), (Q ++ [x]). rewrite app_assoc. split; [done|]. split; [done|].
      split; [apply NoDup_app; split; [done|]; split; [|apply NoDup_singleton];
        intros y Hy ->%list_elem_of_singleton; done|].
      intros n. rewrite <- Hn, elem_of_app, list_elem_of_singleton. rewrite Hd in E0.
      split; (intros [?|Hnx]; [by left|right]); [split; [done|lia]|by destruct Hnx].
    + exists (<[x := (degree indeg' x - 1)%Z]> indeg'), Q. split; [done|]. split; [done|]. split; [done|].
      intros n. rewrite <- Hn. rewrite Hd in E0. split; [by left|]. intros [?|[_ ?]]; [done|lia].
Qed.

Section kahn.
Variables (E : list (string * string)) (N : list string).
Hypothesis edges_names : forall e, e ∈ E -> e.2 ∈ N.

(** The state of the loop: [placed] is the order so far. *)
Record kahn_inv (indeg : gmap string Z) (queue placed : list string) : Prop := {
  ki_degree : forall n, degree indeg n = Z.of_nat (open_deps E placed n);
  ki_distinct : NoDup (placed ++ queue);
  ki_ready : forall n, n ∈ placed ++ queue <-> n ∈ N /\ open_deps E placed n = 0;
  ki_order : topological (fun n d => (d, n) ∈ E) placed;
}.

Lemma open_deps_zero placed n : open_deps E placed n = 0 <-> forall d, (d, n) ∈ E -> d ∈ placed.
Proof.
  unfold open_deps. rewrite length_zero_iff_nil. split.
  - intros Hnil d Hd. destruct (decide (d ∈ placed)) as [|Hp]; [done|].
    assert ((d, n) ∈ filter (fun e => e.2 = n /\ e.1 ∉ placed) E) as Hf by by apply list_elem_of_filter.
    rewrite Hnil in Hf. nil_elem.
  - intros Hall. destruct (filter _ E) as [|[d m] l] eqn:Ef; [done|].
    assert ((d, m) ∈ filter (fun e => e.2 = n /\ e.1 ∉ placed) E) as Hf by (rewrite Ef; left).
    apply list_elem_of_filter in Hf as [[Hm Hp] Hin]. simpl in *. subst m. by destruct Hp; apply Hall.
Qed.

End kahn.

Lemma open_deps_cons (d m : string) E placed n :
  open_deps ((d, m) :: E) placed n = (if decide (m = n /\ d ∉ placed) then 1 else 0) + open_deps E placed n.
Proof. unfold open_deps. rewrite filter_cons. cbn [fst snd]. by case_decide. Qed.

Lemma occurs_dependents (name d m : string) E n :
  occurs n (snd <$> filter (fun e => e.1 = name) ((d, m) :: E)) =
  (if decide (d = name /\ m = n) then 1 else 0) + occurs n (snd <$> filter (fun e => e.1 = name) E).
Proof.
  rewrite filter_cons. cbn [fst]. unfold occurs. case_decide as Hd; case_decide as Hm.
  - rewrite fmap_cons, filter_cons. cbn [snd]. by rewrite decide_True by tauto.
  - rewrite fmap_cons, filter_cons. cbn [snd]. by rewrite decide_False by tauto.
  - tauto.
  - done.
Qed.

(** Placing a name closes one dependency per edge from it. *)
Lemma open_deps_place E placed name n :
  name ∉ placed ->
  open_deps E placed n = open_deps E (placed ++ [name]) n + occurs n (snd <$> filter (fun e => e.1 = name) E).
Proof.
  intros Hname. induction E as [|[d m] E IH]; [done|]. rewrite !open_deps_cons, occurs_dependents, IH.
  assert ((d ∉ placed ++ [name]) <-> ((d ∉ placed) /\ (d <> name))) as Hd.
  { rewrite not_elem_of_app, not_elem_of_cons. split; [tauto|]. split; [tauto|]. split; [tauto|apply not_elem_of_nil]. }
  destruct (decide (d = name)) as [->|Hdn]; repeat case_decide; tauto || lia.
Qed.

(** Placing the head of the queue keeps the invariant. *)
Lemma kahn_inv_step E N L indeg name queue placed :
  (forall e, e ∈ E -> e.2 ∈ N) -> L = snd <$> filter (fun e => e.1 = name) E ->
  kahn_inv E N indeg (name :: queue) placed ->
  exists indeg' Q, foldl release_step (indeg, queue) L = (indeg', queue ++ Q) /\
    kahn_inv E N indeg' (queue ++ Q) (placed ++ [name]).
Proof.
  intros Hnames HL [Hdeg Hnd Hready Hord].
  assert (name ∉ placed) as Hname.
  { apply NoDup_app in Hnd as (_ & Hd & _). intros Hp. apply (Hd name Hp). left. }
  assert (forall n, open_deps E placed n = open_deps E (placed ++ [name]) n + occurs n L) as Hopen.
  { intros n. rewrite HL. by apply open_deps_place. }
  destruct (release_fold L indeg queue) as (indeg' & Q & Hf & Hd & HQ & Hin).
  { intros n. rewrite Hdeg, Hopen. lia. }
  exists indeg', Q. split; [done|].
  assert (forall n, n ∈ Q -> open_deps E placed n <> 0) as HQpos.
  { intros n [HnL Hn]%Hin. apply occurs_pos in HnL. rewrite Hdeg in Hn. lia. }
  split.
  - intros n. rewrite Hd, Hdeg, Hopen. lia.
  - rewrite <- app_assoc. simpl. rewrite (app_assoc placed (name :: queue) Q : placed ++ name :: queue ++ Q = _).
    apply NoDup_app. split; [done|]. split; [|done].
    intros n Hn HnQ. apply Hready in Hn as [_ Hn]. by apply (HQpos n).
  - intros n. rewrite <- app_assoc. simpl.
    rewrite (app_assoc placed (name :: queue) Q : placed ++ name :: queue ++ Q = _). rewrite elem_of_app, Hready, Hin.
    specialize (Hopen n). rewrite Hdeg. split.
    + intros [[HN H0]|[HnL Hn]]; [split; [done|lia]|]. split; [|lia].
      rewrite HL in HnL. apply list_elem_of_fmap in HnL as (e & -> & He). apply list_elem_of_filter in He as [_ He].
      by apply Hnames.
    + intros [HN H0]. destruct (decide (open_deps E placed n = 0)) as [|Hp]; [by left|right].
      split; [|lia]. apply occurs_pos. lia.
  - intros i n d Hi Hdn. destruct (decide (i < length placed)) as [Hlt|Hge].
    + rewrite lookup_app_l in Hi by done. rewrite take_app_le by lia. by eapply Hord.
    + rewrite lookup_app_r in Hi by lia. rewrite take_app_ge by lia. apply elem_of_app. left.
      apply list_lookup_singleton_Some in Hi as [_ <-].
      assert (name ∈ placed ++ name :: queue) as Hn by set_solver.
      apply Hready in Hn as [_ Hn]. rewrite open_deps_zero in Hn. by apply Hn.
Qed.

Lemma kahn_result E N dependents fuel indeg queue placed ordered :
  (forall e, e ∈ E -> e.2 ∈ N) ->
  (forall d, default [] (dependents !! d) = snd <$> filter (fun e => e.1 = d) E) ->
  kahn_inv E N indeg queue placed -> kahn dependents fuel indeg queue placed = Some ordered ->
  exists indeg', kahn_inv E N indeg' [] ordered.
Proof.
  intros Hnames Hdep. revert indeg queue placed. induction fuel as [|fuel IH]; intros indeg [|name queue] placed Hinv Hk.
  - injection Hk as <-. eauto.
  - done.
  - injection Hk as <-. eauto.
  - simpl in Hk. rewrite Hdep in Hk.
    destruct (kahn_inv_step E N _ indeg name queue placed Hnames eq_refl Hinv) as (indeg' & Q & Hf & Hinv').
    rewrite Hf in Hk. by apply IH in Hk.
Qed.

(** Every name is popped at most once per listing: a push uses up one name of
    positive degree. *)
Definition waiting (N : list string) (indeg : gmap string Z) : nat :=
  length (filter (fun n => 0 < degree indeg n)%Z N).

Lemma waiting_step N indeg queue x indeg' queue' :
  x ∈ N -> release_step (indeg, queue) x = (indeg', queue') ->
  length queue' + waiting N indeg' <= length queue + waiting N indeg.
Proof.
  intros Hx. unfold release_step. intros [= <- <-]. unfold waiting.
  assert (forall n, (0 < degree (<[x := degree indeg x - 1]> indeg) n -> 0 < degree indeg n)%Z) as Hmono.
  { intros n. rewrite degree_insert. case_decide; subst; lia. }
  destruct (Z.eqb_spec (degree indeg x - 1) 0) as [E0|E0].
  - rewrite length_app. simpl.
    assert (length (filter (fun n => 0 < degree (<[x := degree indeg x - 1]> indeg) n)%Z N) <
            length (filter (fun n => 0 < degree indeg n)%Z N)); [|lia].
    apply (filter_length_strict _ _ _ x); [intros; by apply Hmono|done|lia|].
    rewrite degree_insert, decide_True by done. lia.
  - pose proof (filter_length_mono (fun n => 0 < degree (<[x := degree indeg x - 1]> indeg) n)%Z
      (fun n => 0 < degree indeg n)%Z N) as Hm. specialize (Hm (fun n _ => Hmono n)). lia.
Qed.

Lemma waiting_fold N L indeg queue indeg' queue' :
  (forall x, x ∈ L -> x ∈ N) -> foldl release_step (indeg, queue) L = (indeg', queue') ->
  length queue' + waiting N indeg' <= length queue + waiting N indeg.
Proof.
  revert indeg queue. induction L as [|x L IH]; intros indeg queue HL Hf; [by injection Hf as <- <-|].
  cbn [foldl] in Hf. destruct (release_step (indeg, queue) x) as [indeg1 queue1] eqn:Es.
  apply IH in Hf; [|intros; apply HL; by right].
  apply (waiting_step N) in Es; [lia|apply HL; left].
Qed.

Lemma kahn_total N dependents fuel indeg queue placed :
  (forall d x, x ∈ default [] (dependents !! d) -> x ∈ N) ->
  length queue + waiting N indeg <= fuel -> is_Some (kahn dependents fuel indeg queue placed).
Proof.
  intros HN. revert indeg queue placed. induction fuel as [|fuel IH]; intros indeg [|name queue] placed Hf; simpl; eauto.
  - simpl in Hf. lia.
  - destruct (foldl _ _ _) as [indeg' queue'] eqn:Ef. apply IH.
    apply (waiting_fold N) in Ef; [simpl in Hf; lia|]. intros x Hx. by eapply HN.
Qed.

(** ** Order *)
Section order.
Context `{GoText}.
Variables (rel : BoriRelease) (comps : gmap string BoriComponent).

Abbreviation E := (release_edges rel comps).
Abbreviation N := (names (rl_Components rel)).

Lemma edges_in_names e : e ∈ E -> e.2 ∈ N.
Proof. destruct e as [d n]. intros [? _]%elem_of_release_edges. done. Qed.

Lemma degrees_dependents d : default [] (dg_dependents (build_degrees rel comps) !! d) = snd <$> filter (fun e => e.1 = d) E.
Proof. apply built_degrees. Qed.

Lemma degrees_start n : degree (dg_in (build_degrees rel comps)) n = Z.of_nat (open_deps E [] n).
Proof. apply built_degrees. Qed.

Definition first_queue : list string :=
  List.filter (fun n => Z.eqb (degree (dg_in (build_degrees rel comps)) n) 0) N.

Lemma elem_of_first_queue n : n ∈ first_queue <-> n ∈ N /\ open_deps E [] n = 0.
Proof.
  unfold first_queue. rewrite list_elem_of_In, List.filter_In, <- list_elem_of_In, degrees_start, Z.eqb_eq. split; intros [? ?]; split; (done || lia).
Qed.

Lemma NoDup_first_queue : NoDup N -> NoDup first_queue.
Proof. intros Hnd. apply NoDup_ListNoDup, List.NoDup_filter. by apply NoDup_ListNoDup. Qed.

Lemma kahn_inv_start : NoDup N -> kahn_inv E N (dg_in (build_degrees rel comps)) first_queue [].
Proof.
  intros Hnd. split; [apply degrees_start|by apply NoDup_first_queue|apply elem_of_first_queue|by intros i n d Hi].
Qed.

Lemma first_queue_fuel : length first_queue + waiting N (dg_in (build_degrees rel comps)) <= length (rl_Components rel).
Proof.
  unfold first_queue, waiting. rewrite <- (length_fmap cf_Name (rl_Components rel)). fold N.
  induction N as [|n l IH]; simpl; [lia|]. rewrite filter_cons.
  destruct (Z.eqb_spec (degree (dg_in (build_degrees rel comps)) n) 0) as [E0|E0]; case_decide; simpl; lia.
Qed.

Lemma Order_kahn :
  exists ordered, kahn (dg_dependents (build_degrees rel comps)) (length (rl_Components rel))
      (dg_in (build_degrees rel comps)) first_queue [] = Some ordered /\
    Order rel comps = Some (if negb (length ordered =? length (rl_Components rel))
      then inl ("dependency cycle detected in release " +:+ quote (rl_Name rel))
      else inr ((fun n => default zero_ComponentRef (refByName rel !! n)) <$> ordered)).
Proof.
  destruct (kahn_total N (dg_dependents (build_degrees rel comps)) (length (rl_Components rel))
    (dg_in (build_degrees rel comps)) first_queue []) as [ordered Hk].
  - intros d x. rewrite degrees_dependents. intros (e & -> & [_ He]%list_elem_of_filter)%list_elem_of_fmap.
    by apply edges_in_names.
  - apply first_queue_fuel.
  - exists ordered. split; [done|]. unfold Order. cbn zeta. fold first_queue. by rewrite Hk.
Qed.

(** The order covers the release exactly where nothing depends on itself. *)
Lemma topological_acyclic (R : string -> string -> Prop) l :
  NoDup l -> topological R l -> (forall n d, R n d -> n ∈ l) -> forall n, ~ tc R n n.
Proof.
  intros Hnd Ht Hl.
  assert (forall n d, tc R n d -> forall i, l !! i = Some n -> exists j, l !! j = Some d /\ j < i) as Hlt.
  { induction 1 as [n d HR|n m d HR Hmd IH]; intros i Hi; apply (Ht _ _ _ Hi), elem_of_take in HR; [done|].
    destruct HR as (j & Hj & ?). destruct (IH j Hj) as (k & Hk & ?). exists k. split; [done|lia]. }
  intros n Hn. assert (n ∈ l) as Hin.
  { destruct (tc_step_inv _ _ _ Hn) as [?|(? & ? & _)]; by eapply Hl. }
  apply list_elem_of_lookup in Hin as [i Hi]. destruct (Hlt n n Hn i Hi) as (j & Hj & ?).
  pose proof (NoDup_lookup _ _ _ _ Hnd Hi Hj). lia.
Qed.

Lemma stuck_cycle indeg ordered :
  NoDup N -> kahn_inv E N indeg [] ordered -> length ordered <> length N -> exists n, tc (depends rel comps) n n.
Proof.
  intros Hnd [_ Hd Hready _] Hlen. rewrite app_nil_r in Hd. setoid_rewrite app_nil_r in Hready.
  assert (exists n, n ∈ N /\ n ∉ ordered) as (n & Hn & Hno).
  { destruct (decide (Forall (fun n => n ∈ ordered) N)) as [Hall|Hex].
    - rewrite Forall_forall in Hall. destruct Hlen. apply Permutation_length.
      apply NoDup_Permutation; [done|done|]. intros n. split; [by intros [? _]%Hready|by apply Hall].
    - apply not_Forall_Exists in Hex; [|intros; apply _]. by apply Exists_exists in Hex. }
  apply (finite_cycle _ (list_to_set N ∖ list_to_set ordered) n).
  - intros m [Hm Hmo]%elem_of_difference. rewrite elem_of_list_to_set in Hm. rewrite elem_of_list_to_set in Hmo.
    destruct (decide (Forall (fun e => e.2 = m -> e.1 ∈ ordered) E)) as [Hall|Hex].
    + destruct Hmo. apply Hready. split; [done|]. apply (open_deps_zero E). intros d Hd'.
      rewrite Forall_forall in Hall. by apply (Hall _ Hd').
    + apply not_Forall_Exists in Hex; [|intros; apply _].
      apply Exists_exists in Hex as ([d m'] & He & Hx). cbn [fst snd] in Hx.
      destruct (decide (m' = m)) as [->|]; [|by destruct Hx]. exists d. apply elem_of_release_edges in He as He'.
      split; [done|]. destruct He' as (_ & Hdn & _). apply elem_of_difference. rewrite !elem_of_list_to_set.
      split; [done|]. intros Hdo. by destruct Hx.
  - apply elem_of_difference. by rewrite !elem_of_list_to_set.
Qed.

Lemma order_total : is_Some (Order rel comps).
Proof. destruct Order_kahn as (ordered & _ & ->). done. Qed.

Lemma kahn_members (L : list string) dependents fuel indeg queue placed ordered :
  (forall d x, x ∈ default [] (dependents !! d) -> x ∈ L) -> (forall x, x ∈ queue \/ x ∈ placed -> x ∈ L) ->
  kahn dependents fuel indeg queue placed = Some ordered -> forall x, x ∈ ordered -> x ∈ L.
Proof.
  intros Hdep. revert indeg queue placed. induction fuel as [|fuel IH]; intros indeg [|name queue] placed Hq Hk x Hx.
  - injection Hk as <-. auto.
  - done.
  - injection Hk as <-. auto.
  - simpl in Hk. destruct (foldl _ _ _) as [indeg' queue'] eqn:Ef. eapply IH; [|exact Hk|exact Hx].
    assert (forall l i q i' q', foldl release_step (i, q) l = (i', q') -> forall y, y ∈ q' -> y ∈ q \/ y ∈ l) as Hpush.
    { induction l as [|z l IHl]; intros i q i' q' Hf y Hy; [injection Hf as _ <-; by left|].
      cbn [foldl] in Hf. destruct (release_step (i, q) z) as [i1 q1] eqn:Es.
      destruct (IHl _ _ _ _ Hf y Hy) as [Hy1|Hy1]; [|right; by right].
      unfold release_step in Es. injection Es as _ <-. destruct (Z.eqb _ _); [|by left].
      apply elem_of_app in Hy1 as [?| ->%list_elem_of_singleton]; [by left|right; left]. }
    intros y [Hy|Hy].
    + destruct (Hpush _ _ _ _ _ Ef y Hy) as [?|?]; [apply Hq; left; by right|by eapply Hdep].
    + apply elem_of_app in Hy as [?| ->%list_elem_of_singleton]; apply Hq; [by right|left; left].
Qed.

(** What [Order] returns is listed in the release, even where it lists a name twice. *)
Lemma order_length refs : Order rel comps = Some (inr refs) -> length refs = length (rl_Components rel).
Proof.
  destruct Order_kahn as (ordered & _ & ->). destruct (Nat.eqb_spec (length ordered) (length (rl_Components rel))); cbn [negb]; [|done].
  intros [= <-]. by rewrite length_fmap.
Qed.

Lemma order_members refs ref : Order rel comps = Some (inr refs) -> ref ∈ refs -> ref ∈ rl_Components rel.
Proof.
  destruct Order_kahn as (ordered & Hk & ->). destruct (negb _); [done|]. intros [= <-].
  intros (n & -> & Hn)%list_elem_of_fmap.
  assert (n ∈ N) as HnN.
  { eapply kahn_members; [| |exact Hk|exact Hn].
    - intros d x. rewrite degrees_dependents. intros (e & -> & [_ He]%list_elem_of_filter)%list_elem_of_fmap.
      by apply edges_in_names.
    - intros x [[? _]%elem_of_first_queue|?%elem_of_nil]; done. }
  change (refByName rel) with (index (rl_Components rel)). clear -HnN.
  assert (forall l, n ∈ names l -> default zero_ComponentRef (index l !! n) ∈ l) as Hl; [|by apply Hl].
  induction l as [|r l IH] using rev_ind; [by intros ?%elem_of_nil|]. rewrite index_app, names_app, elem_of_app, lookup_insert.
  cbn [names fmap list_fmap]. rewrite list_elem_of_singleton. case_decide as Hd; [intros _; apply elem_of_app; right; left|].
  intros [Hn| ->]; [|done]. apply elem_of_app. left. by apply IH.
Qed.

(** [Order] always ends, whatever the release: no name is queued more than
    once per listing, so the loop runs at most once per component. *)
Theorem Order_total : is_Some (Order rel comps).
Proof. exact order_total. Qed.

Lemma order_correct :
  NoDup N ->
  (forall l, Order rel comps = Some (inr l) ->
     l ≡ₚ rl_Components rel /\ topological (depends rel comps) (names l)) /\
  ((exists err, Order rel comps = Some (inl err)) <-> exists n, tc (depends rel comps) n n).
Proof.
  intros Hnd. destruct Order_kahn as (ordered & Hk & ->).
  destruct (kahn_result E N _ _ _ _ _ _ edges_in_names degrees_dependents (kahn_inv_start Hnd) Hk) as [indeg' Hinv].
  pose proof Hinv as [_ Hdist Hready Hord]. rewrite app_nil_r in Hdist. setoid_rewrite app_nil_r in Hready.
  assert (topological (depends rel comps) ordered) as Htop.
  { intros i n d Hi Hnd'. apply (Hord i n d Hi). by apply elem_of_release_edges. }
  destruct (Nat.eqb_spec (length ordered) (length (rl_Components rel))) as [Hlen|Hlen]; cbn [negb].
  - assert (ordered ≡ₚ N) as Hperm.
    { apply submseteq_length_Permutation; [apply NoDup_submseteq; [done|by intros n [? _]%Hready]|].
      unfold names. rewrite length_fmap. lia. }
    assert (names ((fun n => default zero_ComponentRef (refByName rel !! n)) <$> ordered) = ordered) as Hnames.
    { unfold names. rewrite <- list_fmap_compose. rewrite <- (list_fmap_id ordered) at 2. apply list_fmap_ext.
      intros i n Hi. apply list_elem_of_lookup_2 in Hi. rewrite Hperm in Hi.
      apply list_elem_of_fmap in Hi as (r & -> & Hr). simpl.
      change (refByName rel) with (index (rl_Components rel)). by rewrite (lookup_index_unique _ _ Hnd Hr). }
    split.
    + intros l [= <-]. split; [|by rewrite Hnames].
      transitivity ((fun n => default zero_ComponentRef (refByName rel !! n)) <$> N); [by apply fmap_Permutation|].
      assert ((fun n => default zero_ComponentRef (refByName rel !! n)) <$> N = id <$> rl_Components rel) as ->;
        [|by rewrite list_fmap_id].
      unfold names. rewrite <- list_fmap_compose. apply list_fmap_ext.
      intros i r Hi. apply list_elem_of_lookup_2 in Hi. simpl.
      change (refByName rel) with (index (rl_Components rel)). by rewrite (lookup_index_unique _ _ Hnd Hi).
    + split; [by intros [err [=]]|]. intros [n Hn]. exfalso. revert n Hn.
      apply (topological_acyclic _ ordered Hdist Htop). intros n d (HN & _). by rewrite Hperm.
  - split; [intros l [=]|]. split; [intros _|eauto]. apply (stuck_cycle indeg' ordered Hnd Hinv).
    unfold names. by rewrite length_fmap.
Qed.

(** C38. For a release that lists each component once, [Order] returns the
    components of the release in an order in which every component stands after
    all it depends on; and it fails exactly when the dependencies have a
    cycle. *)
Theorem Order_spec :
  NoDup N ->
  (forall l, Order rel comps = Some (inr l) ->
     l ≡ₚ rl_Components rel /\ topological (depends rel comps) (names l)) /\
  ((exists err, Order rel comps = Some (inl err)) <-> exists n, tc (depends rel comps) n n).
Proof. exact order_correct. Qed.
End order.

(** ** AffectedComponents *)
Section affected.
Variables (refs : list ComponentRef) (comps : gmap string BoriComponent).

(** Component [n] of the list depends on [d]. *)
Definition needs (n d : string) : Prop :=
  n ∈ names refs /\ exists c, comps !! n = Some c /\ d ∈ bc_Dependencies c.

Lemma elem_of_group_add d name (m : gmap string (list string)) k n :
  n ∈ default [] (group_add d name m !! k) <-> n ∈ default [] (m !! k) \/ (k = d /\ n = name).
Proof.
  unfold group_add. rewrite lookup_insert. case_decide as Hd; simpl; [|naive_solver].
  subst. rewrite elem_of_app, list_elem_of_singleton. naive_solver.
Qed.

Lemma elem_of_group_deps deps name (m : gmap string (list string)) k n :
  n ∈ default [] (foldl (fun m dep => group_add dep name m) m deps !! k) <->
  n ∈ default [] (m !! k) \/ (k ∈ deps /\ n = name).
Proof.
  induction deps as [|d deps IH] using rev_ind; simpl; [set_solver|].
  rewrite foldl_app. simpl. rewrite elem_of_group_add, IH, elem_of_app, list_elem_of_singleton. naive_solver.
Qed.

Lemma elem_of_reverse_deps d n : n ∈ default [] (reverse_deps refs comps !! d) <-> needs n d.
Proof.
  unfold reverse_deps, needs. induction refs as [|r l IH] using rev_ind.
  - simpl. rewrite lookup_empty. split; [by intros ?%elem_of_nil|by intros [?%elem_of_nil _]].
  - rewrite foldl_app. cbn [foldl]. rewrite names_app, elem_of_app. cbn [names fmap list_fmap].
    rewrite list_elem_of_singleton. destruct (comps !! cf_Name r) as [c|] eqn:Ec.
    + rewrite elem_of_group_deps, IH. naive_solver.
    + rewrite IH. naive_solver.
Qed.

(** What the search still has to expand. *)
Definition unexpanded (rev : gmap string (list string)) (A : gset string) : nat :=
  sum_list_with (fun kv => if decide (kv.1 ∈ A) then 0 else length kv.2) (map_to_list rev).

Lemma unexpanded_expand rev A name :
  name ∉ A -> length (default [] (rev !! name)) + unexpanded rev ({[name]} ∪ A) <= unexpanded rev A.
Proof.
  intros Hn. unfold unexpanded.
  assert (forall l, sum_list_with (fun kv : string * list string => if decide (kv.1 ∈ ({[name]} ∪ A : gset string)) then 0 else length kv.2) l <=
    sum_list_with (fun kv => if decide (kv.1 ∈ A) then 0 else length kv.2) l) as Hmono.
  { induction l as [|kv l IH]; simpl; [done|]. repeat case_decide; try lia. set_solver. }
  destruct (rev !! name) as [l|] eqn:El; simpl; [|apply Hmono].
  rewrite <- (map_to_list_delete rev name l El). simpl. rewrite decide_True by set_solver.
  rewrite (decide_False (P := name ∈ A)) by done. specialize (Hmono (map_to_list (delete name rev))). lia.
Qed.

Record affected_inv (changed queue : list string) (A : gset string) : Prop := {
  ai_sound : forall n, n ∈ A \/ n ∈ queue -> exists c, c ∈ changed /\ rtc needs n c;
  ai_changed : forall c, c ∈ changed -> c ∈ A \/ c ∈ queue;
  ai_closed : forall d n, d ∈ A -> needs n d -> n ∈ A \/ n ∈ queue;
}.

Lemma affected_from_spec changed fuel queue A :
  length queue + unexpanded (reverse_deps refs comps) A <= fuel -> affected_inv changed queue A ->
  exists A', affected_from (reverse_deps refs comps) fuel queue A = Some A' /\ affected_inv changed [] A'.
Proof.
  revert queue A. induction fuel as [|fuel IH]; intros [|name queue] A Hf Hinv; simpl; eauto.
  { simpl in Hf. lia. }
  simpl in Hf. destruct Hinv as [Hs Hc Hcl]. destruct (decide (name ∈ A)) as [Hin|Hout].
  - apply IH; [lia|]. split.
    + intros n Hn. apply Hs. set_solver.
    + intros c [?|[->|?]%elem_of_cons]%Hc; auto.
    + intros d n Hd Hn. destruct (Hcl d n Hd Hn) as [?|[->|?]%elem_of_cons]; auto.
  - apply IH.
    + rewrite length_app. pose proof (unexpanded_expand (reverse_deps refs comps) A name Hout) as Hu.
      pose proof (filter_length_le (fun d => bool_decide (d ∉ ({[name]} ∪ A : gset string)))
        (default [] (reverse_deps refs comps !! name))) as Hfl. lia.
    + assert (forall n, n ∈ List.filter (fun d => bool_decide (d ∉ ({[name]} ∪ A : gset string)))
        (default [] (reverse_deps refs comps !! name)) <-> needs n name /\ n ∉ ({[name]} ∪ A : gset string)) as Hq.
      { intros n. by rewrite list_elem_of_In, List.filter_In, <- list_elem_of_In, elem_of_reverse_deps, bool_decide_eq_true. }
      split.
      * intros n. rewrite elem_of_app, Hq.
        intros [[->%elem_of_singleton|Hn]%elem_of_union|[Hn|[Hn _]]]; [apply Hs; right; left|apply Hs; by left|
          apply Hs; right; by right|].
        destruct (Hs name) as (c & Hcc & Hr); [right; left|]. exists c. split; [done|]. by eapply rtc_l.
      * intros c Hcc. rewrite elem_of_app. destruct (Hc c Hcc) as [?|[->|?]%elem_of_cons]; [left; set_solver|left; set_solver|auto].
      * intros d n Hd Hn. rewrite elem_of_app, Hq.
        destruct (decide (n ∈ ({[name]} ∪ A : gset string))) as [|Hno]; [by left|right].
        apply elem_of_union in Hd as [->%elem_of_singleton|Hd]; [by right|].
        destruct (Hcl d n Hd Hn) as [?|[->|?]%elem_of_cons]; [set_solver|set_solver|by left].
Qed.

(** [AffectedComponents] always ends, and returns, in the order given, the
    components that are changed or depend, directly or not, on a changed one. *)
Theorem AffectedComponents_spec changed :
  exists A : gset string, AffectedComponents changed refs comps = Some (filter (.∈ A) (names refs)) /\
    forall n, n ∈ A <-> exists c, c ∈ changed /\ rtc needs n c.
Proof.
  unfold AffectedComponents. cbn zeta.
  destruct (affected_from_spec changed (bfs_fuel changed (reverse_deps refs comps)) changed ∅) as (A & -> & [Hs Hc Hcl]).
  - unfold bfs_fuel, unexpanded. apply Nat.add_le_mono_l.
    induction (map_to_list (reverse_deps refs comps)) as [|kv l IH]; simpl; [done|]. case_decide; lia.
  - split; [intros n [?|?]; [set_solver|eauto using rtc_refl]|auto|set_solver].
  - exists A. split.
    + simpl. f_equal. induction (names refs) as [|n l IH]; [done|]. simpl. rewrite filter_cons, <- IH.
      by case_bool_decide; case_decide.
    + intros n. split; [intros ?; apply Hs; by left|]. intros (c & Hcc & Hr).
      induction Hr as [n|n m c Hn Hr IH]; [by destruct (Hc n Hcc) as [?|?%elem_of_nil]|].
      by destruct (Hcl m n (IH Hcc) Hn) as [?|?%elem_of_nil].
Qed.
End affected.

(** * Versions and the compatibility matrix (pkg/release/release.go) *)

(** ** Specification *)

(** The text of version x.y.z. *)
Definition version_text (x y z : N) : string := pretty x +:+ "." +:+ pretty y +:+ "." +:+ pretty z.

(** The numbers a version is compared by. *)
Definition version_numbers (s : string) : Z * Z * Z :=
  let parts := split_dot 2 (trim_v s) in
  let part i := from_option atoi 0%Z (parts !! i) in
  (part 0, part 1, part 2).

(** Lexicographic order. *)
Definition version_le (a b : Z * Z * Z) : Prop :=
  (a.1.1 < b.1.1 \/ (a.1.1 = b.1.1 /\ (a.1.2 < b.1.2 \/ (a.1.2 = b.1.2 /\ a.2 <= b.2))))%Z.

(** A release has component [c] at version [v] (the last listed one). *)
Definition released (rel : BoriRelease) (c v : string) : Prop := release_versions rel !! c = Some v.

#[export] Instance released_dec rel c v : Decision (released rel c v).
Proof. unfold released. apply _. Defined.

(** * Lemmas *)

(** ** Decimal digits *)
Fixpoint all_digits (s : string) : Prop :=
  match s with
  | EmptyString => True
  | String c s => (48 <= Z.of_nat (nat_of_ascii c) <= 57)%Z /\ all_digits s
  end.

Lemma digit_char n : (n < 10)%N ->
  Z.of_nat (nat_of_ascii (pretty_N_char n)) = (48 + Z.of_N n)%Z.
Proof.
  intros Hn. destruct n as [|p]; [done|]. do 4 (destruct p as [p|p|]; try reflexivity; try lia).
Qed.

Lemma digits_value_go x s : digits_value 0 (pretty_N_go x s) = digits_value (Z.of_N x) s.
Proof.
  revert s. induction (N.lt_wf_0 x) as [x _ IH]; intros s. destruct (N.eq_dec x 0) as [->|Hx]; [done|].
  rewrite pretty_N_go_step by lia. rewrite IH by (apply N.div_lt; lia). cbn [digits_value].
  pose proof (N.mod_lt x 10 ltac:(done)) as Hm. rewrite digit_char by done.
  pose proof (N.div_mod x 10 ltac:(done)) as Hx10. set (q := (x / 10)%N) in *. set (m := (x mod 10)%N) in *. clearbody q m.
  destruct (Z.leb_spec 48 (48 + Z.of_N m)); [|lia]. destruct (Z.leb_spec (48 + Z.of_N m) 57); [|lia].
  cbn [andb]. f_equal. lia.
Qed.

Lemma all_digits_go x s : all_digits s -> all_digits (pretty_N_go x s).
Proof.
  revert s. induction (N.lt_wf_0 x) as [x _ IH]; intros s Hs. destruct (N.eq_dec x 0) as [->|Hx]; [done|].
  rewrite pretty_N_go_step by lia. apply IH; [apply N.div_lt; lia|]. split; [|done].
  pose proof (N.mod_lt x 10 ltac:(done)) as Hm. rewrite digit_char by done. set (m := (x mod 10)%N) in *. clearbody m. lia.
Qed.

Lemma all_digits_pretty (x : N) : all_digits (pretty x).
Proof. unfold pretty, pretty_N. case_decide; [split; [split; compute; congruence|done]|]. by apply all_digits_go. Qed.

Lemma pretty_nonempty (x : N) : exists c s, pretty x = String c s.
Proof.
  destruct (pretty x) as [|c s] eqn:Ex; [|eauto]. exfalso. revert Ex. unfold pretty, pretty_N. case_decide as Hx; [done|].
  intros E. pose proof (digits_value_go x "") as Hv. rewrite E in Hv. simpl in Hv. injection Hv. lia.
Qed.

Lemma parse_pretty (x : N) : parse_digits (pretty x) = Some (Z.of_N x).
Proof.
  destruct (pretty_nonempty x) as (c & s & E). unfold parse_digits. rewrite E, <- E.
  unfold pretty, pretty_N. case_decide as Hx; [by subst|]. by rewrite digits_value_go.
Qed.

Lemma digits_value_ge acc s n : (0 <= acc)%Z -> digits_value acc s = Some n -> (acc <= n)%Z.
Proof.
  revert acc. induction s as [|c s IH]; intros acc Ha; cbn; [intros [= ->]; lia|].
  destruct (Z.leb_spec 48 (Z.of_nat (nat_of_ascii c))); [|done]. destruct (Z.leb _ 57); [|done]. cbn [andb].
  intros Hn. apply IH in Hn; lia.
Qed.

Lemma uint_value_small acc s n :
  (0 <= acc)%Z -> digits_value acc s = Some n -> (n <= uint64_max)%Z -> uint_value acc s = Some n.
Proof.
  revert acc. induction s as [|c s IH]; intros acc Ha; cbn; [done|].
  destruct (Z.leb_spec 48 (Z.of_nat (nat_of_ascii c))); [|done]. destruct (Z.leb _ 57); [|done]. cbn [andb]. intros Hn Hmax.
  apply digits_value_ge in Hn as Hge; [|lia]. destruct (Z.ltb_spec uint64_max (acc * 10 + (Z.of_nat (nat_of_ascii c) - 48))); [lia|].
  apply IH; [lia|done..].
Qed.

Lemma atoi_pretty (x : N) : (Z.of_N x <= int64_max)%Z -> atoi (pretty x) = Z.of_N x.
Proof.
  intros Hx. pose proof (parse_pretty x) as Hp. destruct (pretty_nonempty x) as (c & s & E).
  pose proof (all_digits_pretty x) as Hd. rewrite E in Hp, Hd |- *. destruct Hd as [Hc _].
  assert (atoi (String c s) = from_option (fun n => Z.max int64_min (Z.min int64_max n)) 0%Z (uint_digits (String c s))) as ->.
  { unfold atoi. destruct c as [[] [] [] [] [] [] [] []]; try done; exfalso; vm_compute in Hc; destruct Hc; congruence. }
  unfold uint_digits. rewrite (uint_value_small 0 _ (Z.of_N x)); [|done|exact Hp|unfold int64_max, uint64_max in *; lia].
  simpl. unfold int64_min, int64_max in *. lia.
Qed.

(** ** Parts of a version *)
Lemma split_dot_cons n c s :
  split_dot (S n) (String c s) =
  if decide (c = "."%char) then "" :: split_dot n s
  else match split_dot (S n) s with p :: ps => String c p :: ps | [] => [String c ""] end.
Proof. reflexivity. Qed.

Lemma split_digits n s rest :
  all_digits s -> split_dot (S n) (s +:+ String "."%char rest) = s :: split_dot n rest.
Proof.
  induction s as [|c s IH]; intros Hs.
  - reflexivity.
  - destruct Hs as [Hc Hs]. change (String c s +:+ ?t) with (String c (s +:+ t)). rewrite split_dot_cons, decide_False.
    + by rewrite IH.
    + intros ->. vm_compute in Hc. by destruct Hc.
Qed.

Lemma split_last n s : all_digits s -> split_dot n s = [s].
Proof.
  revert n. induction s as [|c s IH]; intros n Hs; [done|]. destruct n as [|n]; [done|].
  destruct Hs as [Hc Hs]. rewrite split_dot_cons, decide_False; [by rewrite IH|].
  intros ->. vm_compute in Hc. by destruct Hc.
Qed.

Lemma trim_digits (x : N) s : trim_v (pretty x +:+ s) = pretty x +:+ s.
Proof.
  destruct (pretty_nonempty x) as (c & t & E). pose proof (all_digits_pretty x) as Hd. rewrite E in *.
  destruct Hd as [Hc _]. destruct c as [[] [] [] [] [] [] [] []]; try done. by vm_compute in Hc; destruct Hc.
Qed.

Lemma split_version x y z : split_dot 2 (version_text x y z) = [pretty x; pretty y; pretty z].
Proof.
  unfold version_text. change ("." +:+ ?s) with (String "."%char s).
  change ("." +:+ (pretty y +:+ "." +:+ pretty z)) with (String "."%char (pretty y +:+ "." +:+ pretty z)).
  rewrite split_digits by apply all_digits_pretty.
  change ("." +:+ pretty z) with (String "."%char (pretty z)).
  rewrite split_digits by apply all_digits_pretty. by rewrite split_last by apply all_digits_pretty.
Qed.

(** Comparison is by the three numbers, in order. *)
Lemma versionAtLeast_numbers v m :
  versionAtLeast v m = true <-> version_le (version_numbers m) (version_numbers v).
Proof.
  unfold versionAtLeast, semverCompare, version_numbers, version_le.
  generalize (split_dot 2 (trim_v v)), (split_dot 2 (trim_v m)). intros p q.
  cbn [compare_parts fst snd]. generalize (from_option atoi 0%Z (p !! 0)), (from_option atoi 0%Z (p !! 1)),
    (from_option atoi 0%Z (p !! 2)), (from_option atoi 0%Z (q !! 0)), (from_option atoi 0%Z (q !! 1)),
    (from_option atoi 0%Z (q !! 2)). intros a1 a2 a3 b1 b2 b3. rewrite !Z.gtb_ltb.
  repeat match goal with
  | |- context [Z.eqb ?x ?y] => destruct (Z.eqb_spec x y); cbn [negb]
  | |- context [Z.ltb ?x ?y] => destruct (Z.ltb_spec x y)
  end; simpl; split; intros; (done || lia).
Qed.

(** C40. Versions are read back as written: the text x.y.z, with or without the
    letter v before it, is compared by the numbers x, y and z, in that order, for all
    numbers an int64 holds.  So [versionAtLeast] is the order of version
    numbers. *)
Theorem version_roundtrip x y z :
  (Z.of_N x <= int64_max)%Z -> (Z.of_N y <= int64_max)%Z -> (Z.of_N z <= int64_max)%Z ->
  version_numbers (version_text x y z) = (Z.of_N x, Z.of_N y, Z.of_N z) /\
  version_numbers (String "v"%char (version_text x y z)) = (Z.of_N x, Z.of_N y, Z.of_N z) /\
  forall v, versionAtLeast v (version_text x y z) = true <-> version_le (Z.of_N x, Z.of_N y, Z.of_N z) (version_numbers v).
Proof.
  intros Hx Hy Hz.
  assert (version_numbers (version_text x y z) = (Z.of_N x, Z.of_N y, Z.of_N z)) as Hv.
  { unfold version_numbers. replace (trim_v (version_text x y z)) with (version_text x y z)
      by (symmetry; apply trim_digits).
    rewrite split_version. simpl. by rewrite !atoi_pretty. }
  split; [done|]. split.
  - unfold version_numbers. cbn [trim_v]. rewrite split_version. simpl. by rewrite !atoi_pretty.
  - intros v. by rewrite versionAtLeast_numbers, Hv.
Qed.

(** ** The matrix *)
Lemma bind_nil {A B} (f : A -> list B) l : l ≫= f = [] <-> forall x, x ∈ l -> f x = [].
Proof.
  induction l as [|x l IH]; simpl; [split; [intros _ y Hy; nil_elem|done]|].
  split.
  - intros [Hx Hl]%app_nil y [->|Hy]%elem_of_cons; [done|]. by apply IH.
  - intros Hall. rewrite (Hall x) by left. apply IH. intros y Hy. apply Hall. by right.
Qed.

Lemma check_requirement_nil rel c q :
  check_requirement (release_versions rel) c q = [] <->
  exists v, released rel (vq_Component q) v /\ version_le (version_numbers (vq_MinVersion q)) (version_numbers v).
Proof.
  unfold check_requirement, released. destruct (release_versions rel !! vq_Component q) as [v|].
  - destruct (versionAtLeast v (vq_MinVersion q)) eqn:Ev; simpl.
    + split; [intros _; exists v; by rewrite <- versionAtLeast_numbers|done].
    + split; [done|]. intros (w & [= <-] & Hle). apply versionAtLeast_numbers in Hle. congruence.
  - split; [done|by intros (? & [=] & _)].
Qed.

(** [CheckCompatibility] reports nothing exactly when every constraint of
    the matrix on a component at its released version is met: each component it
    requires is in the release, at least at the required version.  And what it
    reports names a component of such a constraint. *)
Theorem CheckCompatibility_spec rel matrix :
  (CheckCompatibility rel matrix = [] <->
   forall c q, c ∈ Constraints matrix -> released rel (cn_Component c) (cn_Version c) -> q ∈ cn_Requires c ->
     exists v, released rel (vq_Component q) v /\
       version_le (version_numbers (vq_MinVersion q)) (version_numbers v)) /\
  (forall vi, vi ∈ CheckCompatibility rel matrix ->
     exists c, c ∈ Constraints matrix /\ released rel (cn_Component c) (cn_Version c) /\
       vi_Component vi = cn_Component c).
Proof.
  assert (forall c, check_constraint (release_versions rel) c =
    if decide (released rel (cn_Component c) (cn_Version c))
    then cn_Requires c ≫= check_requirement (release_versions rel) c else []) as Hc.
  { intros c. unfold check_constraint. case_decide as Hr; unfold released in Hr.
    - by rewrite Hr, decide_True.
    - destruct (release_versions rel !! cn_Component c); [|done]. case_decide; congruence. }
  unfold CheckCompatibility. split.
  - rewrite bind_nil. split.
    + intros Hall c q Hin Hrel Hq. specialize (Hall c Hin). rewrite Hc, decide_True in Hall by done.
      rewrite bind_nil in Hall. by apply (check_requirement_nil rel c q), Hall.
    + intros Hall c Hin. rewrite Hc. case_decide as Hrel; [|done]. apply bind_nil. intros q Hq.
      apply check_requirement_nil. by apply (Hall c q).
  - intros vi (c & Hvi & Hin)%list_elem_of_bind. exists c. rewrite Hc in Hvi.
    case_decide as Hrel; [|nil_elem]. split; [done|]. split; [done|].
    apply list_elem_of_bind in Hvi as (q & Hvi & _). unfold check_requirement in Hvi.
    repeat case_match; try (nil_elem); apply list_elem_of_singleton in Hvi; by subst.
Qed.
