(* ===== verification/Loading.v ===== *)
(** * Files of the repository (pkg/model, pkg/release)

    Releases, environments, components and compatibility matrices are YAML files
    under the root of the repository.  Reading a file and decoding YAML are
    parameters ([Files]); where a file lies and what becomes of an error is the
    code's. *)

From S2P Require Import Prelude.
From S2P Require Import Text.
From S2P Require Import Release.

Record BoriEnvironment := { ev_Name : string; ev_Allowed : list string }.

(** os.ReadFile and yaml.Unmarshal: an error, or the text and its value. *)
Class Files := {
  read_file : string -> string + string;
  decode_release : string -> string + BoriRelease;
  decode_environment : string -> string + BoriEnvironment;
  decode_component : string -> string + BoriComponent;
  decode_matrix : string -> string + CompatibilityMatrix;
}.

Section loading.
Context `{Files}.

(** What every loader does with its file. *)
Definition load {A} (decode : string -> string + A) (path : string) : string + A :=
  match read_file path with
  | inl err => inl ("read " +:+ path +:+ ": " +:+ err)
  | inr data => match decode data with inl err => inl ("parse " +:+ path +:+ ": " +:+ err) | inr x => inr x end
  end.

Definition LoadRelease (path : string) : string + BoriRelease := load decode_release path.
Definition LoadEnvironment (path : string) : string + BoriEnvironment := load decode_environment path.
Definition LoadComponent (path : string) : string + BoriComponent := load decode_component path.
Definition LoadMatrix (path : string) : string + CompatibilityMatrix := load decode_matrix path.

Definition release_file (boriRoot name : string) : string := path_join [boriRoot; "releases"; name; "release.yaml"].
Definition environment_file (boriRoot name : string) : string := path_join [boriRoot; "environments"; name; "environment.yaml"].
Definition component_file (boriRoot name : string) : string := path_join [boriRoot; "components"; name; "component.yaml"].

Definition LoadReleaseByName (boriRoot name : string) : string + BoriRelease := LoadRelease (release_file boriRoot name).
Definition LoadEnvironmentByName (boriRoot name : string) : string + BoriEnvironment := LoadEnvironment (environment_file boriRoot name).
Definition LoadComponentByName (boriRoot name : string) : string + BoriComponent := LoadComponent (component_file boriRoot name).

(** No matrix is named, or the file that is. *)
Definition LoadMatrixForRelease (boriRoot : string) (rel : BoriRelease) : string + CompatibilityMatrix :=
  if bool_decide (rl_Matrix rel = "") then inr (Build_CompatibilityMatrix [])
  else LoadMatrix (path_join [boriRoot; rl_Matrix rel]).
End loading.
