(* ===== verification/Planner.v ===== *)
(** * Deploy plans (pkg/planner/planner.go, pkg/imageref/imageref.go)

    [Plan] reads a release and an environment and decides, component by
    component, what would be deployed where.  The parser of image references of
    go-containerregistry is a parameter ([References]); nothing is assumed of
    it. *)

From S2P Require Import Prelude.
From S2P Require Import Release.
From S2P Require Import ReleaseSpec.
From S2P Require Import Loading.

(** [name.ParseReference(ref, StrictValidation)] followed by
    [ref.Context().Digest(digest).Name()]. *)
Class References := { reference_with_digest : string -> string -> string + string }.

(** ** pkg/artifact/plan.go *)
Record ComponentPlan := {
  cp_Name : string;
  cp_Version : string;
  cp_Adapter : string;
  cp_Namespace : string;
  cp_ImageRef : string;
  cp_ImageDigest : string;
  cp_GitSha : string;
  cp_Action : string;
  cp_Message : string;
}.

Record Plan_ := {
  pl_SchemaVersion : string;
  pl_RunID : string;
  pl_Release : string;
  pl_Environment : string;
  pl_CreatedAt : Time;
  pl_Components : list ComponentPlan;
  pl_Violations : list string;
}.

Section planner.
Context `{GoText} `{Files} `{References}.
Variable boriRoot : string.

(** ** pkg/imageref *)
Definition DigestQualifiedRef (imageRef imageDigest : string) : string + string :=
  if decide (imageDigest = "") then inr imageRef
  else if decide (imageRef = "") then inl "image.ref is required when imageDigest is set"
  else if negb (has_prefix "sha256:" imageDigest)
  then inl ("imageDigest must start with " +:+ quote "sha256:" +:+ ": " +:+ quote imageDigest)
  else match reference_with_digest imageRef imageDigest with
  | inl err => inl ("parse image.ref " +:+ quote imageRef +:+ ": " +:+ err)
  | inr name => inr name
  end.

(** ** Plan *)
Definition defaultNamespace (componentName : string) : string := componentName +:+ "-system".

(** The loop that loads the components. *)
Fixpoint load_components (refs : list ComponentRef) (comps : gmap string BoriComponent) :
    string + gmap string BoriComponent :=
  match refs with
  | [] => inr comps
  | ref :: refs =>
      match LoadComponentByName boriRoot (cf_Name ref) with
      | inl err => inl ("load component " +:+ quote (cf_Name ref) +:+ ": " +:+ err)
      | inr comp => load_components refs (<[cf_Name ref := comp]> comps)
      end
  end.

Definition zero_BoriComponent : BoriComponent := Build_BoriComponent "" "" [] "" None None "" [] 0 "".

Definition target_namespace (comp : BoriComponent) : string :=
  if decide (bc_Namespace comp = "") then defaultNamespace (bc_Name comp) else bc_Namespace comp.

Definition violation_message (ns : string) : string :=
  "namespace " +:+ quote ns +:+ " not in environment allowed list".

(** One component: its plan, or the error of its image reference. *)
Definition plan_component (allowed : gset string) (comps : gmap string BoriComponent) (ref : ComponentRef) :
    string + ComponentPlan :=
  let comp := default zero_BoriComponent (comps !! cf_Name ref) in
  let ns := target_namespace comp in
  let image :=
    if decide (cf_ImageDigest ref <> "") then
      match DigestQualifiedRef (bc_ImageRef comp) (cf_ImageDigest ref) with
      | inl err => inl ("component " +:+ quote (cf_Name ref) +:+ ": " +:+ err)
      | inr name => inr (name, UpdateAdapter comp)
      end
    else inr (bc_ImageRef comp, BootstrapAdapter comp) in
  match image with
  | inl err => inl err
  | inr (imageRef, adapter) =>
      let ok := bool_decide (ns ∈ allowed) in
      inr {| cp_Name := bc_Name comp; cp_Version := cf_Version ref; cp_Adapter := adapter; cp_Namespace := ns;
             cp_ImageRef := imageRef; cp_ImageDigest := cf_ImageDigest ref; cp_GitSha := cf_GitSha ref;
             cp_Action := if ok then "deploy" else "violation";
             cp_Message := if ok then "" else violation_message ns |}
  end.

Fixpoint plan_components (allowed : gset string) (comps : gmap string BoriComponent) (refs : list ComponentRef) :
    string + list ComponentPlan :=
  match refs with
  | [] => inr []
  | ref :: refs =>
      match plan_component allowed comps ref with
      | inl err => inl err
      | inr cp => match plan_components allowed comps refs with inl err => inl err | inr cps => inr (cp :: cps) end
      end
  end.

Definition namespace_violation (cp : ComponentPlan) : list string :=
  if bool_decide (cp_Action cp = "violation") then [cp_Name cp +:+ ": " +:+ cp_Message cp] else [].

(** [p.Release], when set, replaces the release read from disk; [now] is the
    clock.  [None] is never returned (see [Plan_total]). *)
Definition Plan (override : option BoriRelease) (now : Time) (runID releaseName envName : string) :
    option (string + Plan_) :=
  let loaded := match override with Some rel => inr rel | None => LoadReleaseByName boriRoot releaseName end in
  match loaded with
  | inl err => Some (inl ("load release " +:+ quote releaseName +:+ ": " +:+ err))
  | inr rel =>
  match LoadEnvironmentByName boriRoot envName with
  | inl err => Some (inl ("load environment " +:+ quote envName +:+ ": " +:+ err))
  | inr env =>
  match load_components (rl_Components rel) ∅ with
  | inl err => Some (inl err)
  | inr comps =>
      ordered ← Order rel comps;
      match ordered with
      | inl err => Some (inl ("order components: " +:+ err))
      | inr refs =>
          let matrix := match LoadMatrixForRelease boriRoot rel with inl _ => Build_CompatibilityMatrix [] | inr m => m end in
          let violations := (fun v => "compat: " +:+ Violation_String v) <$> CheckCompatibility rel matrix in
          let allowed : gset string := list_to_set (ev_Allowed env) in
          match plan_components allowed comps refs with
          | inl err => Some (inl err)
          | inr cps => Some (inr {|
              pl_SchemaVersion := "bori.plan.v1"; pl_RunID := runID; pl_Release := releaseName;
              pl_Environment := envName; pl_CreatedAt := now; pl_Components := cps;
              pl_Violations := violations ++ (cps ≫= namespace_violation) |})
          end
      end
  end end end.

Definition LoadComps (rel : BoriRelease) : string + gmap string BoriComponent := load_components (rl_Components rel) ∅.

(** ** Specification *)

(** The release and the environment a plan is made of. *)
Record sources (override : option BoriRelease) (releaseName envName : string) (rel : BoriRelease)
    (env : BoriEnvironment) (comps : gmap string BoriComponent) : Prop := {
  sr_release : match override with Some r => r = rel | None => LoadReleaseByName boriRoot releaseName = inr rel end;
  sr_environment : LoadEnvironmentByName boriRoot envName = inr env;
  sr_components : load_components (rl_Components rel) ∅ = inr comps;
}.

(** What a plan for [ref] is when it is one. *)
Record planned (env : BoriEnvironment) (comps : gmap string BoriComponent) (ref : ComponentRef) (cp : ComponentPlan) :
    Prop := {
  pd_component : exists comp, LoadComponentByName boriRoot (cf_Name ref) = inr comp /\ comps !! cf_Name ref = Some comp /\
    cp_Name cp = bc_Name comp /\ cp_Namespace cp = target_namespace comp /\
    (if decide (cf_ImageDigest ref = "")
     then cp_ImageRef cp = bc_ImageRef comp /\ cp_Adapter cp = BootstrapAdapter comp
     else reference_with_digest (bc_ImageRef comp) (cf_ImageDigest ref) = inr (cp_ImageRef cp) /\
          has_prefix "sha256:" (cf_ImageDigest ref) = true /\ bc_ImageRef comp <> "" /\
          cp_Adapter cp = UpdateAdapter comp);
  pd_pinned : cp_Version cp = cf_Version ref /\ cp_ImageDigest cp = cf_ImageDigest ref /\ cp_GitSha cp = cf_GitSha ref;
  pd_action : cp_Action cp = (if decide (cp_Namespace cp ∈ ev_Allowed env) then "deploy" else "violation") /\
    cp_Message cp = (if decide (cp_Namespace cp ∈ ev_Allowed env) then "" else violation_message (cp_Namespace cp));
}.

(** * Lemmas *)
Lemma load_components_lookup refs comps comps' :
  load_components refs comps = inr comps' ->
  (forall n, n ∈ names refs -> exists c, LoadComponentByName boriRoot n = inr c /\ comps' !! n = Some c) /\
  (forall n, n ∉ names refs -> comps' !! n = comps !! n).
Proof.
  revert comps. induction refs as [|r refs IH]; intros comps; simpl.
  - intros [= <-]. split; [by intros n ?%elem_of_nil|done].
  - destruct (LoadComponentByName boriRoot (cf_Name r)) as [err|c] eqn:El; [done|]. intros Hl.
    destruct (IH _ Hl) as [H1' H2']. split.
    + intros n [->|Hn]%elem_of_cons; [|by apply H1']. destruct (decide (cf_Name r ∈ names refs)) as [|Hn]; [by apply H1'|].
      exists c. split; [done|]. by rewrite H2', lookup_insert_eq.
    + intros n [Hn1 Hn2]%not_elem_of_cons. rewrite H2' by done. by rewrite lookup_insert_ne.
Qed.

Lemma plan_components_ok allowed comps refs cps :
  plan_components allowed comps refs = inr cps <-> Forall2 (fun r cp => plan_component allowed comps r = inr cp) refs cps.
Proof.
  revert cps. induction refs as [|r refs IH]; intros cps; simpl.
  - split; [by intros [= <-]|by intros ->%Forall2_nil_inv_l].
  - destruct (plan_component allowed comps r) as [err|cp] eqn:Ep.
    { split; [done|]. intros (? & ? & ? & _)%Forall2_cons_inv_l. congruence. }
    destruct (plan_components allowed comps refs) as [err|l] eqn:El.
    + split; [done|]. intros (? & l & _ & Hl & _)%Forall2_cons_inv_l. by apply IH in Hl.
    + split; [intros [= <-]; constructor; [done|by apply IH]|].
      intros (cp' & l' & Hcp & Hl & ->)%Forall2_cons_inv_l. apply IH in Hl. congruence.
Qed.

Lemma plan_component_planned env comps ref cp :
  (exists c, LoadComponentByName boriRoot (cf_Name ref) = inr c /\ comps !! cf_Name ref = Some c) ->
  plan_component (list_to_set (ev_Allowed env)) comps ref = inr cp -> planned env comps ref cp.
Proof.
  intros (c & Hl & Hc). unfold plan_component. rewrite Hc. cbn [default from_option id]. unfold DigestQualifiedRef.
  assert (forall ns, bool_decide (ns ∈ (list_to_set (ev_Allowed env) : gset string)) =
    if decide (ns ∈ ev_Allowed env) then true else false) as Hb.
  { intros ns. case_decide; [apply bool_decide_true|apply bool_decide_false]; by rewrite elem_of_list_to_set. }
  destruct (decide (cf_ImageDigest ref <> "")) as [Hd|Hd].
  - rewrite (decide_False (P := cf_ImageDigest ref = "")) by done.
    destruct (decide (bc_ImageRef c = "")) as [Hi|Hi]; [discriminate|].
    destruct (has_prefix "sha256:" (cf_ImageDigest ref)) eqn:Ep; cbn [negb]; [|done].
    destruct (reference_with_digest _ _) as [|name] eqn:Er; [done|]. rewrite Hb. intros [= <-].
    split; cbn; [|done|by case_decide]. exists c. rewrite (decide_False (P := cf_ImageDigest ref = "")) by done. done.
  - rewrite Hb. intros [= <-]. split; cbn; [|done|by case_decide]. exists c.
    destruct (decide (cf_ImageDigest ref = "")) as [|Hd']; [done|]. by destruct Hd.
Qed.

(** The violations of the components. *)
Lemma no_namespace_violation env comps refs cps :
  Forall2 (planned env comps) refs cps ->
  cps ≫= namespace_violation = [] <-> Forall (fun cp => cp_Namespace cp ∈ ev_Allowed env) cps.
Proof.
  intros Hp. rewrite bind_nil, Forall_forall. apply forall_proper. intros cp.
  split; intros Hv Hin; specialize (Hv Hin); apply list_elem_of_lookup in Hin as [i Hi];
    destruct (Forall2_lookup_r _ _ _ _ _ Hp Hi) as (ref & _ & [_ _ [Ha _]]);
    unfold namespace_violation in *; rewrite Ha in *; case_decide; done.
Qed.

Lemma Plan_ok override now runID releaseName envName pl :
  Plan override now runID releaseName envName = Some (inr pl) <->
  exists rel env comps refs cps, sources override releaseName envName rel env comps /\
    Order rel comps = Some (inr refs) /\
    Forall2 (fun r cp => plan_component (list_to_set (ev_Allowed env)) comps r = inr cp) refs cps /\
    pl = Build_Plan_ "bori.plan.v1" runID releaseName envName now cps
      (((fun v => "compat: " +:+ Violation_String v) <$> CheckCompatibility rel
          match LoadMatrixForRelease boriRoot rel with inl _ => Build_CompatibilityMatrix [] | inr m => m end) ++
       (cps ≫= namespace_violation)).
Proof.
  unfold Plan. cbn zeta. split.
  - destruct (match override with Some rel => inr rel | None => _ end) as [err|rel] eqn:Er; [done|].
    destruct (LoadEnvironmentByName boriRoot envName) as [err|env] eqn:Ee; [done|].
    destruct (load_components (rl_Components rel) ∅) as [err|comps] eqn:Ec; [done|].
    destruct (Order rel comps) as [[err|refs]|] eqn:Eo; simpl; try done.
    destruct (plan_components _ comps refs) as [err|cps] eqn:Ep; [done|]. intros [= <-].
    exists rel, env, comps, refs, cps. split; [|split; [done|split; [by apply plan_components_ok|done]]].
    split; [|done|done]. destruct override; congruence.
  - intros (rel & env & comps & refs & cps & [Hr He Hc] & Ho & Hp & ->). rewrite He.
    assert (match override with Some rel0 => inr rel0 | None => LoadReleaseByName boriRoot releaseName end = inr rel) as ->
      by (destruct override; congruence).
    rewrite Hc, Ho. simpl. apply plan_components_ok in Hp. by rewrite Hp.
Qed.

(** A pinned image that can be named by its digest. *)
Definition nameable (comps : gmap string BoriComponent) (ref : ComponentRef) : Prop :=
  cf_ImageDigest ref <> "" ->
  has_prefix "sha256:" (cf_ImageDigest ref) = true /\
  exists comp name, comps !! cf_Name ref = Some comp /\ bc_ImageRef comp <> "" /\
    reference_with_digest (bc_ImageRef comp) (cf_ImageDigest ref) = inr name.

Lemma plan_component_succeeds allowed comps ref :
  is_Some (comps !! cf_Name ref) -> (exists cp, plan_component allowed comps ref = inr cp) <-> nameable comps ref.
Proof.
  intros [c Hc]. unfold plan_component, nameable, DigestQualifiedRef. rewrite Hc. cbn [default from_option id].
  destruct (decide (cf_ImageDigest ref <> "")) as [Hd|Hd]; [|split; [by intros _ ?|eauto]].
  rewrite (decide_False (P := cf_ImageDigest ref = "")) by done.
  destruct (decide (bc_ImageRef c = "")) as [Hi|Hi]; [split; [by intros [? ?]|]; intros Hn; destruct (Hn Hd) as (_ & ? & ? & ? & ? & _); simplify_eq|].
  destruct (has_prefix "sha256:" (cf_ImageDigest ref)); cbn [negb]; [|split; [by intros [? ?]|]; intros Hn; by destruct (Hn Hd)].
  destruct (reference_with_digest (bc_ImageRef c) (cf_ImageDigest ref)) as [err|name] eqn:Er.
  - split; [by intros [? ?]|]. intros Hn. destruct (Hn Hd) as (_ & ? & ? & ? & _ & ?). congruence.
  - split; [|eauto]. intros _ _. split; [done|]. by exists c, name.
Qed.

Lemma order_names rel comps refs :
  NoDup (names (rl_Components rel)) -> Order rel comps = Some (inr refs) -> refs ≡ₚ rl_Components rel.
Proof. intros Hnd Ho. by apply (order_correct rel comps Hnd). Qed.

Lemma Order_found rel comps : (exists refs, Order rel comps = Some (inr refs)) <-> ~ exists err, Order rel comps = Some (inl err).
Proof.
  destruct (Order_kahn rel comps) as (ordered & _ & ->). destruct (negb _).
  - split; [by intros [? [=]]|]. intros Hn. destruct Hn. eauto.
  - split; [intros _ [? [=]]|eauto].
Qed.

Lemma plan_correct override now runID releaseName envName pl :
  Plan override now runID releaseName envName = Some (inr pl) ->
  exists rel env comps refs, sources override releaseName envName rel env comps /\
    Order rel comps = Some (inr refs) /\
    (NoDup (names (rl_Components rel)) ->
       refs ≡ₚ rl_Components rel /\ topological (depends rel comps) (names refs)) /\
    Forall2 (planned env comps) refs (pl_Components pl) /\
    (pl_Violations pl = [] <->
     Forall (fun cp => cp_Namespace cp ∈ ev_Allowed env) (pl_Components pl) /\
     forall m, LoadMatrixForRelease boriRoot rel = inr m -> CheckCompatibility rel m = []).
Proof.
  rewrite Plan_ok. intros (rel & env & comps & refs & cps & Hs & Ho & Hp & ->). exists rel, env, comps, refs.
  split; [done|]. split; [done|]. split; [intros Hnd; by apply (order_correct rel comps Hnd)|].
  cbn [pl_Components pl_Violations].
  assert (Forall2 (planned env comps) refs cps) as Hpl.
  { apply Forall2_same_length_lookup. split; [by eapply Forall2_length|]. intros i ref cp Hr Hc.
    apply plan_component_planned; [|exact (Forall2_lookup_lr _ _ _ _ _ _ Hp Hr Hc)].
    destruct (load_components_lookup _ _ _ (sr_components _ _ _ _ _ _ Hs)) as [Hl _]. apply Hl.
    apply list_elem_of_fmap_2, (order_members rel comps refs); [done|]. by eapply list_elem_of_lookup_2. }
  split; [done|]. rewrite <- (no_namespace_violation env comps refs cps Hpl).
  destruct (LoadMatrixForRelease boriRoot rel) as [err|m].
  - simpl. split; [by intros ?|by intros [? _]].
  - split.
    + intros [Hc Hn]%app_nil. apply fmap_nil_inv in Hc. split; [done|]. by intros m' [= <-].
    + intros [Hn Hm]. by rewrite (Hm m eq_refl), Hn.
Qed.

(** C39. A plan deploys what the release pins, where the environment allows it.
    It has as many components as the release lists, each planned for an entry of
    the release: it comes from the entry's own file, with the pinned version, and
    with the pinned image digest where there is one; an action is "deploy"
    exactly in an allowed namespace.  For a release that lists no component
    twice, the components are exactly the release's, each after all it depends
    on; with a component listed twice neither holds in general
    (DemoRelease.v, [listed_twice_misordered]).  And a plan is free of violations
    exactly when every namespace is allowed and the compatibility matrix (if it
    could be read) is met. *)
Theorem Plan_spec override now runID releaseName envName pl :
  Plan override now runID releaseName envName = Some (inr pl) ->
  exists rel env comps refs, sources override releaseName envName rel env comps /\
    Order rel comps = Some (inr refs) /\
    length (pl_Components pl) = length (rl_Components rel) /\ Forall (fun ref => ref ∈ rl_Components rel) refs /\
    (NoDup (names (rl_Components rel)) ->
       refs ≡ₚ rl_Components rel /\ topological (depends rel comps) (names refs)) /\
    Forall2 (planned env comps) refs (pl_Components pl) /\
    (pl_Violations pl = [] <->
     Forall (fun cp => cp_Namespace cp ∈ ev_Allowed env) (pl_Components pl) /\
     forall m, LoadMatrixForRelease boriRoot rel = inr m -> CheckCompatibility rel m = []).
Proof.
  intros (rel & env & comps & refs & Hs & Ho & Htop & Hp & Hv)%plan_correct. exists rel, env, comps, refs. split_and!; try done.
  - rewrite <- (Forall2_length _ _ _ Hp). by apply (order_length rel comps).
  - apply Forall_forall. intros ref. by apply (order_members rel comps refs).
Qed.

Lemma plan_returns override now runID releaseName envName : is_Some (Plan override now runID releaseName envName).
Proof.
  unfold Plan. cbn zeta. destruct (match override with Some rel => inr rel | None => _ end) as [|rel]; [done|].
  destruct (LoadEnvironmentByName boriRoot envName) as [|env]; [done|].
  destruct (load_components (rl_Components rel) ∅) as [|comps]; [done|].
  destruct (order_total rel comps) as [[err|refs] ->]; simpl; [done|]. by destruct (plan_components _ _ _).
Qed.

(** When planning fails.  [Plan] always returns; and once the release, the
    environment and the component files are read, a release that lists each
    component once has a plan exactly when its dependencies have no cycle and
    every pinned digest gives an image name. *)
Theorem Plan_error override now runID releaseName envName :
  is_Some (Plan override now runID releaseName envName) /\
  forall rel env comps, sources override releaseName envName rel env comps -> NoDup (names (rl_Components rel)) ->
    (exists pl, Plan override now runID releaseName envName = Some (inr pl)) <->
    (forall n, ~ tc (depends rel comps) n n) /\ forall ref, ref ∈ rl_Components rel -> nameable comps ref.
Proof.
  split; [apply plan_returns|].
  intros rel env comps Hs Hnd. pose proof (order_correct rel comps Hnd) as [_ Hcyc].
  destruct (load_components_lookup _ _ _ (sr_components _ _ _ _ _ _ Hs)) as [Hl _].
  assert ((exists refs, Order rel comps = Some (inr refs)) <-> forall n, ~ tc (depends rel comps) n n) as Hfound.
  { rewrite Order_found, Hcyc. split; [intros Hn n Ht; apply Hn; eauto|intros Hn [n Ht]; by apply (Hn n)]. }
  assert (forall ref, ref ∈ rl_Components rel -> is_Some (comps !! cf_Name ref)) as Hin.
  { intros ref Hr. destruct (Hl (cf_Name ref)) as (c & _ & Hc); [by apply list_elem_of_fmap_2|eauto]. }
  split.
  + intros [pl Hpl]. apply Plan_ok in Hpl as (rel' & env' & comps' & refs & cps & [Hr He Hc] & Ho & Hp & _).
    destruct Hs as [Hr' He' Hc']. assert (rel' = rel) as -> by (destruct override; congruence).
    assert (comps' = comps) as -> by congruence. split; [apply Hfound; eauto|].
    intros ref Href. apply (plan_component_succeeds (list_to_set (ev_Allowed env'))); [by apply Hin|].
    rewrite <- (order_names rel comps refs Hnd Ho) in Href. apply list_elem_of_lookup in Href as [i Hi].
    destruct (Forall2_lookup_l _ _ _ _ _ Hp Hi) as (cp & _ & Hcp). eauto.
  + intros [Hn Hall]. apply Hfound in Hn as [refs Ho].
    assert (exists cps, Forall2 (fun r cp => plan_component (list_to_set (ev_Allowed env)) comps r = inr cp) refs cps) as [cps Hp].
    { pose proof (order_names rel comps refs Hnd Ho) as Hperm.
      assert (forall r, r ∈ refs -> exists cp, plan_component (list_to_set (ev_Allowed env)) comps r = inr cp) as Hex.
      { intros r Hr. rewrite Hperm in Hr. apply plan_component_succeeds; auto. }
      clear -Hex. induction refs as [|r refs IH]; [by exists []|]. destruct (Hex r) as [cp Hcp]; [left|].
      destruct IH as [cps Hcps]; [intros; apply Hex; by right|]. exists (cp :: cps). by constructor. }
    eexists. apply Plan_ok. exists rel, env, comps, refs, cps. done.
Qed.
End planner.
