(* ===== verification/DemoRelease.v ===== *)
(** * A small release, on which the theorems of pkg/release are evaluated *)

From S2P Require Import Prelude Release ReleaseSpec Loading Planner.

Definition demo_ref (n : string) : ComponentRef := Build_ComponentRef n "v1.2.0" "" "".

Definition demo_component (n : string) (deps : list string) : BoriComponent :=
  Build_BoriComponent n ("registry.local/" +:+ n +:+ ":v1") deps "" None None "v1" ["default"] 8080 "/metrics".

(** web depends on api and db, api on db and on a component outside the release. *)
Definition demo_comps : gmap string BoriComponent :=
  <["web" := demo_component "web" ["api"; "db"]]> (<["api" := demo_component "api" ["db"; "queue"]]>
    (<["db" := demo_component "db" []]> ∅)).

(** A release without matrix, policies or promotion gate. *)
Definition plain_release (name : string) (refs : list ComponentRef) : BoriRelease :=
  Build_BoriRelease name refs "" [] (Build_PromotionPolicy "" "" false).

Definition demo_release : BoriRelease := plain_release "lab" [demo_ref "web"; demo_ref "api"; demo_ref "db"].

Example demo_order : Order demo_release demo_comps = Some (inr [demo_ref "db"; demo_ref "api"; demo_ref "web"]).
Proof. vm_compute. reflexivity. Qed.

Example demo_affected : AffectedComponents ["api"] (rl_Components demo_release) demo_comps = Some ["web"; "api"].
Proof. vm_compute. reflexivity. Qed.

Lemma Order_spec_witness :
  NoDup (names (rl_Components demo_release)) /\
  topological (depends demo_release demo_comps) ["db"; "api"; "web"].
Proof.
  assert (NoDup (names (rl_Components demo_release))) as Hnd by (apply (bool_decide_unpack _); vm_compute; exact I).
  split; [exact Hnd|].
  exact (proj2 (proj1 (Order_spec demo_release demo_comps Hnd) [demo_ref "db"; demo_ref "api"; demo_ref "web"] demo_order)).
Defined.

(** A release that lists a component twice may be ordered wrongly: "db" is taken
    twice, which releases "api" before "c", on which it depends too. *)
Definition twice_comps : gmap string BoriComponent :=
  let comp n deps := Build_BoriComponent n "" deps "" None None "" [] 0 "" in
  <["db" := comp "db" []]> (<["e" := comp "e" []]> (<["c" := comp "c" ["e"]]> {["api" := comp "api" ["db"; "c"]]})).

Example listed_twice_misordered :
  let rel := plain_release "lab" [demo_ref "db"; demo_ref "db"; demo_ref "e"; demo_ref "c"; demo_ref "api"] in
  (fun o => match o with inr refs => names refs | inl _ => [] end) <$> Order rel twice_comps = Some ["db"; "db"; "e"; "api"; "c"].
Proof. vm_compute. reflexivity. Qed.

(** Or it is refused as if it had a cycle, when it has none. *)
Example listed_twice :
  let rel := plain_release "lab" [demo_ref "api"; demo_ref "api"; demo_ref "db"] in
  (forall n d, depends rel demo_comps n d -> n = "api" /\ d = "db") /\
  Order rel demo_comps = Some (inl ("dependency cycle detected in release " +:+ quote "lab")).
Proof.
  split; [|vm_compute; reflexivity]. intros n d (Hn & Hd & c & Hc & Hdc).
  assert (n = "api" \/ n = "db") as [-> | ->] by (unfold names in Hn; simpl in Hn; set_solver).
  - vm_compute in Hc. injection Hc as <-. cbn [bc_Dependencies] in Hdc.
    apply elem_of_cons in Hdc as [->|[->|Hdc%elem_of_nil]%elem_of_cons]; [by split| |done].
    exfalso. revert Hd. apply (bool_decide_unpack _). vm_compute. exact I.
  - vm_compute in Hc. injection Hc as <-. nil_elem.
Qed.

(** Atoi gives what it has read when a number is out of range, and nothing for
    what is no number. *)
Example atoi_out_of_range :
  (atoi "99999999999999999999x", atoi "-99999999999999999999", atoi "12x") = (int64_max, int64_min, 0%Z).
Proof. vm_compute. reflexivity. Qed.

Lemma version_roundtrip_witness :
  version_numbers (version_text 1 20 3) = (1, 20, 3)%Z /\
  (versionAtLeast "v1.20.4" (version_text 1 20 3) = true <-> version_le (1, 20, 3)%Z (version_numbers "v1.20.4")).
Proof.
  destruct (version_roundtrip 1 20 3 ltac:(discriminate) ltac:(discriminate) ltac:(discriminate)) as (H1 & _ & H2).
  exact (conj H1 (H2 "v1.20.4")).
Defined.

(** A third part that is not a number counts as 0. *)
Example version_suffix :
  versionAtLeast "v1.0.3-rc1" "v1.0.1" = false /\ version_numbers "v1.0.3-rc1" = (1, 0, 0)%Z.
Proof. vm_compute. split; reflexivity. Qed.

(** ** A plan *)

(** The files of a repository, each with the name of what it describes as its
    text. *)
Definition repository (root : string) (components : list string) : list (string * string) :=
  [(release_file root "lab", "lab"); (environment_file root "dev", "dev"); (environment_file root "prod", "prod")] ++
  ((fun n => (component_file root n, n)) <$> components).

Definition read_from (files : list (string * string)) (path : string) : string + string :=
  match (list_to_map files : gmap string string) !! path with Some text => inr text | None => inl "no such file" end.

Definition demo_environment (name : string) : BoriEnvironment := Build_BoriEnvironment name ["db-system"; "api-system"].

#[export] Instance demo_files : Files := {|
  read_file := read_from (repository "/repo" ["web"; "api"; "db"]);
  decode_release _ := inr demo_release;
  decode_environment n := inr (demo_environment n);
  decode_component n := match demo_comps !! n with Some c => inr c | None => inl "no such component" end;
  decode_matrix _ := inr (Build_CompatibilityMatrix
    [Build_Constraint "web" "v1.2.0" [Build_VersionRequirement "api" "v1.2.0"]]);
|}.

(** The error of a file that is not there names it. *)
Example missing_component :
  LoadComponentByName "/repo" "queue" = inl "read /repo/components/queue/component.yaml: no such file".
Proof. vm_compute. reflexivity. Qed.

(** A name is not always the directory of its file: the path is cleaned. *)
Example component_beside : LoadComponentByName "/repo" "web/../db" = LoadComponentByName "/repo" "db".
Proof. vm_compute. reflexivity. Qed.

#[export] Instance demo_references : References := {| reference_with_digest ref d := inr (ref +:+ "@" +:+ d) |}.

(** web is in a namespace that is not allowed. *)
Example demo_plan :
  (fun r => match r with inr pl => (cp_Action <$> pl_Components pl, length (pl_Violations pl)) | inl _ => ([], 0) end) <$>
    Plan "/repo" None 1000 "run" "lab" "dev" = Some (["deploy"; "deploy"; "violation"], 1).
Proof. vm_compute. reflexivity. Qed.

Definition demo_loaded : gmap string BoriComponent :=
  match LoadComps "/repo" demo_release with inr comps => comps | inl _ => ∅ end.

Lemma demo_sources :
  sources "/repo" None "lab" "dev" demo_release (demo_environment "dev") demo_loaded.
Proof.
  assert (match LoadComps "/repo" demo_release with inr _ => True | inl _ => False end) as Hl by (vm_compute; exact I).
  split; [vm_compute; reflexivity|vm_compute; reflexivity|]. unfold demo_loaded, LoadComps in *.
  destruct (load_components "/repo" (rl_Components demo_release) ∅); [destruct Hl|reflexivity].
Qed.

Lemma Plan_spec_witness :
  exists pl env, Plan "/repo" None 1000 "run" "lab" "dev" = Some (inr pl) /\
    (pl_Violations pl = [] -> Forall (fun cp => cp_Namespace cp ∈ ev_Allowed env) (pl_Components pl)).
Proof.
  destruct (Plan "/repo" None 1000 "run" "lab" "dev") as [[err|pl]|] eqn:Ep; try (vm_compute in Ep; discriminate).
  destruct (Plan_spec "/repo" None 1000 "run" "lab" "dev" pl Ep) as (rel & env & comps & refs & _ & _ & _ & _ & _ & _ & Hv).
  exists pl, env. split; [reflexivity|]. intros Hn. exact (proj1 (proj1 Hv Hn)).
Defined.

Lemma Plan_error_witness : exists pl, Plan "/repo" None 1000 "run" "lab" "dev" = Some (inr pl).
Proof.
  assert (NoDup (names (rl_Components demo_release))) as Hnd by (apply (bool_decide_unpack _); vm_compute; exact I).
  apply (proj2 (Plan_error "/repo" None 1000 "run" "lab" "dev") _ _ _ demo_sources Hnd). split.
  - intros n Ht. assert (exists err, Order demo_release demo_loaded = Some (inl err)) as [err He]
      by (apply (order_correct demo_release demo_loaded Hnd); exists n; exact Ht).
    assert (match Order demo_release demo_loaded with Some (inr _) => True | _ => False end) as Ho by (vm_compute; exact I).
    rewrite He in Ho. destruct Ho.
  - intros ref Hr Hd. unfold demo_release in Hr. simpl in Hr. destruct Hd.
    repeat (apply elem_of_cons in Hr as [->|Hr]; [reflexivity|]). nil_elem.
Defined.
