(* ===== verification/Candidates.v ===== *)
(** * Evidence queries and hypotheses (pkg/investigate: candidates.go, limits.go,
    requests.go; pkg/providers/provider.go): definitions

    What may be asked of which provider, and which referenced inputs could
    explain why a capability is not AVAILABLE. *)

From S2P Require Import Prelude Identity Predicate Contract Assessment.

(** ** pkg/providers/provider.go *)
Record ProviderSubject := {
  sj_Namespace : string;
  sj_APIVersion : string;
  sj_Kind : string;
  sj_Name : string;
  sj_ResolvedUID : string;
}.

Record Request := { rq_Key : ApplicabilityKey; rq_Subject : ProviderSubject; rq_SlotType : ValueType }.

Record Result := {
  res_Value : Value;
  res_ObservedAt : Time;
  res_ValidUntil : Time;
  res_EvidenceRef : string;
  res_Unavailable : string;
}.

Definition unavailable (why : string) : Result := Build_Result zero_Value 0 0 "" why.

(** The function [providers.Observation]. *)
Definition observation_of (req : Request) (res : Result) (at_ : Time) : Observation :=
  if nonempty (res_Unavailable res) then
    Build_Observation (rq_Key req) OutcomeProviderUnavailable zero_Value at_ 0 ""
  else
    Build_Observation (rq_Key req) OutcomeValue (res_Value res) (res_ObservedAt res) (res_ValidUntil res)
      (res_EvidenceRef res).

(** Registries are maps by identity. *)
#[export] Instance ProviderIdentity_countable : Countable ProviderIdentity.
Proof.
  refine (inj_countable' (fun p => (pi_Name p, pi_ConfigRevision p)) (fun '(a, b) => Build_ProviderIdentity a b) _).
  by intros [].
Defined.

(** ** limits.go *)
Record Limits := {
  MaxCallsPerEpisode : nat;
  MaxStepsPerEpisode : nat;
  EpisodeDeadline : Duration;
  PerCallTimeout : Duration;
  MaxCandidates : nat;
  MaxTraceEntries : nat;
  MaxResidentEpisodes : nat;
  MaxHeldObservations : nat;
  EpisodeCooldown : Duration;
  (** [time.Duration(float64(maxAge) * RefreshFraction)] *)
  RefreshMargin : Duration -> Duration;
  RunSlice : Duration;
}.

(** The product with 0.5 is exact for ages a float64 represents exactly. *)
Definition ReferenceLimits : Limits := {|
  MaxCallsPerEpisode := 6; MaxStepsPerEpisode := 8; EpisodeDeadline := 10 * Second; PerCallTimeout := 2 * Second;
  MaxCandidates := 32; MaxTraceEntries := 64; MaxResidentEpisodes := 256; MaxHeldObservations := 1024;
  EpisodeCooldown := 10 * Second; RefreshMargin := fun m => Z.quot m 2; RunSlice := 20 * Second;
|}.

(** ** requests.go

    A registered provider is known by its identity; [registered] is the lookup
    in the registry. *)
Record Query := { q_Request : Request; q_Provider : ProviderIdentity; q_MaxAge : Duration }.

Abbreviation Queries := (gmap string (gmap string Query)) (only parsing).

Definition slotOf (c : Contract) (name : string) : option AssertionSlot :=
  List.find (fun s => bool_decide (s_Name s = name)) (c_Assertions c).

(** [contracts]: the last contract of an identity wins. *)
Definition contract_index (s : Snapshot) (id : ContractIdentity) : option Contract :=
  List.find (fun c => bool_decide (c_Identity c = id)) (rev (Contracts s)).

Definition request_binding (registered : ProviderIdentity -> bool) (t : Target) (subj : ProviderSubject)
    (c : Contract) (slots : option (gmap string Query)) (b : AssertionBinding) : option (gmap string Query) :=
  match slotOf c (ab_Slot b) with
  | None => slots
  | Some slot =>
      if negb (registered (ab_Provider b)) then slots
      else
        let key := Build_ApplicabilityKey (t_Identity t) (t_ResolvedUID t) (t_ContractRef t) (ab_Slot b) (ab_Provider b) in
        Some (<[ab_Slot b := Build_Query (Build_Request key subj (s_Type slot)) (ab_Provider b) (s_MaxAge slot)]>
                (default ∅ slots))
  end.

Definition request_target (s : Snapshot) (subjects : gmap string ProviderSubject)
    (registered : ProviderIdentity -> bool) (out : Queries) (t : Target) : Queries :=
  let uid := ti_UID (t_Identity t) in
  match subjects !! uid with
  | None => out
  | Some subj =>
      if negb (bool_decide (sj_ResolvedUID subj = t_ResolvedUID t)) then out
      else match contract_index s (t_ContractRef t) with
      | None => out
      | Some c =>
          match foldl (request_binding registered t subj c) (out !! uid) (t_AssertionBindings t) with
          | Some slots => <[uid := slots]> out
          | None => out
          end
      end
  end.

Definition Requests (s : Snapshot) (subjects : gmap string ProviderSubject) (registered : ProviderIdentity -> bool) :
    Queries :=
  foldl (request_target s subjects registered) ∅ (Targets s).

(** ** candidates.go *)
Inductive CandidateStatus := Open_ | Maintained | Refuted.

#[export] Instance CandidateStatus_eq_dec : EqDecision CandidateStatus.
Proof. solve_decision. Defined.

Definition CandidateStatus_string (s : CandidateStatus) : string :=
  match s with Open_ => "Open" | Maintained => "Maintained" | Refuted => "Refuted" end.

Abbreviation CandidateKind := string (only parsing).
Definition KindAssertion : CandidateKind := "assertion".
Definition KindDependency : CandidateKind := "dependency".
Definition KindEnvelope : CandidateKind := "envelope".
Definition KindLocal : CandidateKind := "local-capability".

Record Candidate := { ca_ID : string; ca_Kind : CandidateKind; ca_Ref : string; ca_Status : CandidateStatus }.

Definition unmetCodes (code : ReasonCode) : bool :=
  bool_decide (code = ReasonPredicateUnmet) || bool_decide (code = ReasonDependencyUnmet) ||
  bool_decide (code = ReasonEnvelopeUnmet) || bool_decide (code = ReasonLocalUnmet).

(** Whether a reason is about the input named by [subject]. *)
Definition about (subject : string) (r : Reason) : bool :=
  bool_decide (Subject r = subject) || has_prefix (subject +:+ "->") (Subject r).

Definition status_step (subject : string) (st : CandidateStatus) (r : Reason) : CandidateStatus :=
  if negb (about subject r) then st
  else if unmetCodes (Code r) then match st with Refuted => Maintained | _ => st end
  else Open_.

Definition statusFrom (rs : list Reason) (subject : string) : CandidateStatus :=
  foldl (status_step subject) Refuted rs.

Definition envelopeReasons (ta : TargetAssessment) (name : string) : list Reason :=
  match List.find (fun e => bool_decide (er_Name e = name)) (ta_Envelopes ta) with
  | Some e => er_Reasons e
  | None => []
  end.

Definition requirementRef (r : Requirement) : CandidateKind * string * string :=
  match r_Predicate r, r_Dependency r with
  | Some p, _ => (KindAssertion, p_Assertion p, "assertion:" +:+ p_Assertion p)
  | None, Some d => (KindDependency, dr_Slot d, "dependency:" +:+ dr_Slot d)
  | None, None =>
      if nonempty (r_Envelope r) then (KindEnvelope, r_Envelope r, "envelope:" +:+ r_Envelope r)
      else (KindLocal, r_LocalCapability r, "local:" +:+ r_LocalCapability r)
  end.

Definition capabilityOf (c : Contract) (t : CapabilityType) : option Capability :=
  List.find (fun cp => bool_decide (cp_Type cp = t)) (c_Capabilities c).

Definition envelopeOf (c : Contract) (name : string) : option Envelope :=
  List.find (fun e => bool_decide (env_Name e = name)) (c_Envelopes c).

(** The hypotheses about the predicates of an envelope. *)
Definition envelope_candidates (c : Contract) (prefix : string) (name : string) (reasons : list Reason) :
    list Candidate :=
  (fun p => Build_Candidate (prefix +:+ "/" +:+ KindAssertion +:+ ":" +:+ p_Assertion p) KindAssertion (p_Assertion p)
              (statusFrom reasons ("assertion:" +:+ p_Assertion p))) <$>
    env_Requirements (default zero_Envelope (envelopeOf c name)).

Definition requirement_candidates (ta : TargetAssessment) (c : Contract) (cr : CapabilityResult) (r : Requirement) :
    list Candidate :=
  let '(kind, ref, subject) := requirementRef r in
  let id := CapabilityType_String (cr_Type cr) +:+ "/" +:+ kind +:+ ":" +:+ ref in
  Build_Candidate id kind ref (statusFrom (cr_Reasons cr) subject) ::
  (if decide (kind = KindEnvelope) then envelope_candidates c id ref (envelopeReasons ta ref) else []).

Definition capability_candidates (ta : TargetAssessment) (c : Contract) (cr : CapabilityResult) : list Candidate :=
  if decide (cr_State cr = Available) then []
  else match capabilityOf c (cr_Type cr) with
  | None => []
  | Some cp => cp_Requirements cp ≫= requirement_candidates ta c cr
  end.

Definition selection_candidates (ta : TargetAssessment) (c : Contract) : list Candidate :=
  let sel := ta_EnvelopeSelection ta in
  if negb (nonempty sel) then []
  else ta_Envelopes ta ≫= fun er =>
    if negb (bool_decide (er_Name er = sel)) || bool_decide (er_State er = Satisfied) then []
    else envelope_candidates c ("envelope:" +:+ sel) sel (er_Reasons er).

(** [dedupe]: an element goes when the one before it has its ID. *)
Fixpoint dedupe_after (prev : option string) (cs : list Candidate) : list Candidate :=
  match cs with
  | [] => []
  | c :: cs =>
      if decide (prev = Some (ca_ID c)) then dedupe_after (Some (ca_ID c)) cs
      else c :: dedupe_after (Some (ca_ID c)) cs
  end.

Definition dedupe (cs : list Candidate) : list Candidate := dedupe_after None cs.

Definition by_id (a b : Candidate) : bool := String.ltb (ca_ID a) (ca_ID b).

(** The slot's place in the dispatch history; 0 for a slot never dispatched. *)
Definition seq_of (seq : gmap string N) (slot : string) : N := default 0%N (seq !! slot).

Definition by_recency (seq : gmap string N) (a b : Candidate) : bool :=
  if negb (N.eqb (seq_of seq (ca_Ref a)) (seq_of seq (ca_Ref b)))
  then N.ltb (seq_of seq (ca_Ref a)) (seq_of seq (ca_Ref b))
  else by_id a b.

Definition is_reserved (queryable : gset string) (c : Candidate) : bool :=
  bool_decide (ca_Kind c = KindAssertion) && bool_decide (ca_Status c = Open_) && bool_decide (ca_Ref c ∈ queryable).

Section candidates.
Context `{SortSlice}.

Definition deriveCandidates (ta : TargetAssessment) (c : Contract) : list Candidate :=
  dedupe (sort_slice by_id ((ta_Capabilities ta ≫= capability_candidates ta c) ++ selection_candidates ta c)).

Definition boundCandidates (full : list Candidate) (queryable : gset string) (seq : gmap string N) (max : nat) :
    list Candidate :=
  if length full <=? max then full
  else
    let reserved := slice_stable (by_recency seq) (List.filter (is_reserved queryable) full) in
    let rest := List.filter (fun c => negb (is_reserved queryable c)) full in
    sort_slice by_id (take max (reserved ++ rest)).
End candidates.
