(* ===== verification/Investigator.v ===== *)
(** * The bounded investigation loop (pkg/investigate/investigator.go): definitions

    Its surroundings -- the clock, the two contexts and the providers -- are a
    [World]: what each of them answers at the n-th time the investigator asks
    anything.  [iv_tick] counts the questions asked so far, and [iv_log] the
    episodes started and the calls sent; the program has neither. *)

From S2P Require Import Prelude Identity Predicate Contract Assessment Evaluator Candidates.
From Stdlib Require Import Ascii.

#[export] Instance TargetIdentity_countable : Countable TargetIdentity.
Proof.
  refine (inj_countable' (fun t => (ti_Namespace t, ti_Name t, ti_UID t))
    (fun '(a, b, c) => Build_TargetIdentity a b c) _).
  by intros [].
Defined.

#[export] Instance ApplicabilityKey_countable : Countable ApplicabilityKey.
Proof.
  refine (inj_countable' (fun k => (ak_Target k, ak_ResolvedUID k, ak_Contract k, ak_Slot k, ak_Provider k))
    (fun '(a, b, c, d, e) => Build_ApplicabilityKey a b c d e) _).
  by intros [].
Defined.

(** ** Episodes *)
Inductive EpisodeState :=
  | Active | Resolved | Refreshed | NoAllowedQuery | ExhaustedCalls | ExhaustedSteps | DeadlineHit | Cancelled
  | Superseded | TargetInvalid | CapacityHit.

#[export] Instance EpisodeState_eq_dec : EqDecision EpisodeState.
Proof. solve_decision. Defined.

Definition EpisodeState_string (s : EpisodeState) : string :=
  match s with
  | Active => "Active"
  | Resolved => "Resolved"
  | Refreshed => "Refreshed"
  | NoAllowedQuery => "NoAllowedQuery"
  | ExhaustedCalls => "ExhaustedCalls"
  | ExhaustedSteps => "ExhaustedSteps"
  | DeadlineHit => "Deadline"
  | Cancelled => "Cancelled"
  | Superseded => "Superseded"
  | TargetInvalid => "TargetInvalid"
  | CapacityHit => "Capacity"
  end.

Inductive EpisodeKind := KindInvestigate | KindRefresh.

#[export] Instance EpisodeKind_eq_dec : EqDecision EpisodeKind.
Proof. solve_decision. Defined.

Record TraceEntry := { te_Step : nat; te_Action : string; te_Slot : string; te_Detail : string }.

Record Episode := {
  ep_Key : string;
  ep_TargetUID : string;
  ep_Kind : EpisodeKind;
  ep_Started : Time;
  ep_Deadline : Time;
  ep_Calls : nat;
  ep_Steps : nat;
  ep_State : EpisodeState;
  ep_Candidates : list Candidate;
  ep_Trace : list TraceEntry;
  ep_Truncated : nat;
  ep_dispatched : gset string;
}.

Definition active (e : Episode) : bool := bool_decide (ep_State e = Active).

Definition trace (lim : nat) (action slot detail : string) (e : Episode) : Episode :=
  let full := lim <=? length (ep_Trace e) in
  Build_Episode (ep_Key e) (ep_TargetUID e) (ep_Kind e) (ep_Started e) (ep_Deadline e) (ep_Calls e) (ep_Steps e)
    (ep_State e) (ep_Candidates e)
    (if full then ep_Trace e else ep_Trace e ++ [Build_TraceEntry (ep_Steps e) action slot detail])
    (if full then S (ep_Truncated e) else ep_Truncated e) (ep_dispatched e).

Definition set_State (st : EpisodeState) (e : Episode) : Episode :=
  Build_Episode (ep_Key e) (ep_TargetUID e) (ep_Kind e) (ep_Started e) (ep_Deadline e) (ep_Calls e) (ep_Steps e)
    st (ep_Candidates e) (ep_Trace e) (ep_Truncated e) (ep_dispatched e).

Definition set_Candidates (cs : list Candidate) (e : Episode) : Episode :=
  Build_Episode (ep_Key e) (ep_TargetUID e) (ep_Kind e) (ep_Started e) (ep_Deadline e) (ep_Calls e) (ep_Steps e)
    (ep_State e) cs (ep_Trace e) (ep_Truncated e) (ep_dispatched e).

(** [ep.Steps++; ep.Calls++; ep.dispatched[slot] = true] *)
Definition count_call (slot : string) (e : Episode) : Episode :=
  Build_Episode (ep_Key e) (ep_TargetUID e) (ep_Kind e) (ep_Started e) (ep_Deadline e) (S (ep_Calls e)) (S (ep_Steps e))
    (ep_State e) (ep_Candidates e) (ep_Trace e) (ep_Truncated e) ({[slot]} ∪ ep_dispatched e).

(** strings.TrimSpace, on ASCII white space. *)
Definition is_space (c : ascii) : bool :=
  let n := nat_of_ascii c in (n =? 32) || ((9 <=? n) && (n <=? 13)).

Fixpoint trim_left (s : string) : string :=
  match s with String c t => if is_space c then trim_left t else s | EmptyString => "" end.

Fixpoint trim_right (s : string) : string :=
  match s with
  | EmptyString => ""
  | String c t => match trim_right t with
                  | EmptyString => if is_space c then "" else String c ""
                  | t' => String c t'
                  end
  end.

Definition TrimSpace (s : string) : string := trim_right (trim_left s).

(** [Investigator.end] *)
Definition end_episode (l : Limits) (st : EpisodeState) (detail : string) (e : Episode) : Episode :=
  trace (MaxTraceEntries l) "end" "" (TrimSpace (EpisodeState_string st +:+ " " +:+ detail)) (set_State st e).

(** ** The investigator *)
Record slotProgress := { sp_key : string; sp_next : N; sp_seq : gmap string N }.

Record Stats := {
  Dispatched : nat;
  LateDiscarded : nat;
  AdmissionDenied : nat;
  CapacityDenied : nat;
  EpisodesStarted : nat;
}.

Definition zero_Stats : Stats := Build_Stats 0 0 0 0 0.
Definition inc_Dispatched (s : Stats) : Stats :=
  Build_Stats (S (Dispatched s)) (LateDiscarded s) (AdmissionDenied s) (CapacityDenied s) (EpisodesStarted s).
Definition inc_LateDiscarded (s : Stats) : Stats :=
  Build_Stats (Dispatched s) (S (LateDiscarded s)) (AdmissionDenied s) (CapacityDenied s) (EpisodesStarted s).
Definition inc_AdmissionDenied (s : Stats) : Stats :=
  Build_Stats (Dispatched s) (LateDiscarded s) (S (AdmissionDenied s)) (CapacityDenied s) (EpisodesStarted s).
Definition inc_CapacityDenied (s : Stats) : Stats :=
  Build_Stats (Dispatched s) (LateDiscarded s) (AdmissionDenied s) (S (CapacityDenied s)) (EpisodesStarted s).
Definition inc_EpisodesStarted (s : Stats) : Stats :=
  Build_Stats (Dispatched s) (LateDiscarded s) (AdmissionDenied s) (CapacityDenied s) (S (EpisodesStarted s)).

Inductive Event :=
  | EvStart (uid : string) (at_ : Time)
  | EvCall (uid : string) (q : Query) (at_ : Time).

Record Investigator := {
  iv_held : gmap ApplicabilityKey (list Observation);
  iv_marks : gmap ApplicabilityKey Time;
  iv_episodes : gmap string Episode;
  iv_progress : gmap string slotProgress;
  iv_cursor : string;
  iv_stats : Stats;
  iv_tick : nat;
  iv_log : list Event;
}.

Definition New : Investigator := Build_Investigator ∅ ∅ ∅ ∅ "" zero_Stats 0 [].

Definition set_evidence h m (iv : Investigator) : Investigator :=
  Build_Investigator h m (iv_episodes iv) (iv_progress iv) (iv_cursor iv) (iv_stats iv) (iv_tick iv) (iv_log iv).
Definition set_episodes es (iv : Investigator) : Investigator :=
  Build_Investigator (iv_held iv) (iv_marks iv) es (iv_progress iv) (iv_cursor iv) (iv_stats iv) (iv_tick iv) (iv_log iv).
Definition set_progress ps (iv : Investigator) : Investigator :=
  Build_Investigator (iv_held iv) (iv_marks iv) (iv_episodes iv) ps (iv_cursor iv) (iv_stats iv) (iv_tick iv) (iv_log iv).
Definition set_cursor c (iv : Investigator) : Investigator :=
  Build_Investigator (iv_held iv) (iv_marks iv) (iv_episodes iv) (iv_progress iv) c (iv_stats iv) (iv_tick iv) (iv_log iv).
Definition count (f : Stats -> Stats) (iv : Investigator) : Investigator :=
  Build_Investigator (iv_held iv) (iv_marks iv) (iv_episodes iv) (iv_progress iv) (iv_cursor iv) (f (iv_stats iv))
    (iv_tick iv) (iv_log iv).
Definition tick (iv : Investigator) : Investigator :=
  Build_Investigator (iv_held iv) (iv_marks iv) (iv_episodes iv) (iv_progress iv) (iv_cursor iv) (iv_stats iv)
    (S (iv_tick iv)) (iv_log iv).
Definition log_event (ev : Event) (iv : Investigator) : Investigator :=
  Build_Investigator (iv_held iv) (iv_marks iv) (iv_episodes iv) (iv_progress iv) (iv_cursor iv) (iv_stats iv)
    (iv_tick iv) (iv_log iv ++ [ev]).

Definition put_episode (uid : string) (e : Episode) (iv : Investigator) : Investigator :=
  set_episodes (<[uid := e]> (iv_episodes iv)) iv.

(** ** The surroundings *)
Record World := {
  (** [iv.clock()] *)
  clock : nat -> Time;
  (** [ctx.Err() != nil] and [runCtx.Err() != nil] *)
  cancelled : nat -> bool;
  slice_over : nat -> bool;
  (** [q.Provider.Observe(callCtx, req)] and [callCtx.Err() != nil] after it *)
  observe : nat -> ProviderIdentity -> Request -> Result;
  call_over : nat -> bool;
  (** [runCtx.Deadline()], and the deadline of the call's context *)
  slice_deadline : nat -> option Time;
  call_deadline : nat -> Time;
}.

(** A question to the surroundings. *)
Definition ask {A} (f : nat -> A) (iv : Investigator) : A * Investigator := (f (iv_tick iv), tick iv).

Definition sliceEndedFirst (slice : option Time) (callDeadline : Time) : bool :=
  match slice with Some d => negb (After d callDeadline) | None => false end.

(** ** Selection *)
Inductive queryClass := classInvestigate | classRefresh.

#[export] Instance queryClass_eq_dec : EqDecision queryClass.
Proof. solve_decision. Defined.

(** The open assertion hypotheses about a slot. *)
Definition decides (slot : string) (cd : Candidate) : bool :=
  bool_decide (ca_Kind cd = KindAssertion) && bool_decide (ca_Ref cd = slot) && bool_decide (ca_Status cd = Open_).

Definition openBySlot (cands : list Candidate) (slot : string) : nat := length (List.filter (decides slot) cands).

Definition class_reason (c : queryClass) (cands : list Candidate) (slot : string) : string :=
  match c with
  | classRefresh => "refresh: held evidence due before expiry"
  | classInvestigate =>
      let ids := ca_ID <$> List.filter (decides slot) cands in
      let listed := if 4 <? length ids then take 4 ids ++ ["+" +:+ pretty (length ids - 4) +:+ " more"] else ids in
      "investigate: decides " +:+ pretty (length ids) +:+ " open candidate(s) " +:+ join "," listed
  end.

(** The map [evidence]: the last entry of a slot, [None] for no entry. *)
Definition evidence_of (ta : TargetAssessment) (slot : string) : option EvidenceStatus :=
  sv_Status <$> List.find (fun e => bool_decide (sv_Slot e = slot)) (rev (ta_Evidence ta)).

Definition evidence_current (ta : TargetAssessment) (slot : string) : bool :=
  bool_decide (evidence_of ta slot = Some EvidenceCurrent).

Definition predicate_slots (rs : list Requirement) : list string :=
  rs ≫= fun r => match r_Predicate r with Some p => [p_Assertion p] | None => [] end.

Definition envelope_referenced (c : Contract) (selected : string) (e : Envelope) : bool :=
  bool_decide (env_Name e = selected) ||
  existsb (fun cp => existsb (fun r => bool_decide (r_Envelope r = env_Name e)) (cp_Requirements cp)) (c_Capabilities c).

Definition usedSlots (c : Contract) (selected : string) : list string :=
  (c_Capabilities c ≫= fun cp => predicate_slots (cp_Requirements cp)) ++
  (c_Envelopes c ≫= fun e => if envelope_referenced c selected e then p_Assertion <$> env_Requirements e else []).

Definition slot_before (seq : gmap string N) (a b : string) : bool :=
  if negb (N.eqb (seq_of seq a) (seq_of seq b)) then N.ltb (seq_of seq a) (seq_of seq b) else String.ltb a b.

Definition hasOpen (cs : list Candidate) : bool := existsb (fun c => bool_decide (ca_Status c = Open_)) cs.

Section investigator.
Context `{GoText} `{SortSlice}.
Variables (w : World) (l : Limits).

Definition refreshDue (iv : Investigator) (q : Query) : option Time :=
  match default [] (iv_held iv !! rq_Key (q_Request q)) with
  | [] => None
  | o :: _ =>
      if negb (bool_decide (o_Outcome o = OutcomeValue)) || Z.leb (q_MaxAge q) 0 then None
      else
        let expiry := Add (o_ObservedAt o) (q_MaxAge q) in
        let expiry := if negb (IsZero (o_ValidUntil o)) && Before (o_ValidUntil o) expiry then o_ValidUntil o else expiry in
        Some (Add expiry (- RefreshMargin l (q_MaxAge q)))
  end.

(** The slots, least recently dispatched first, then by name. *)
Definition slot_names (slots : gmap string Query) (seq : gmap string N) : list string :=
  sort_slice (slot_before seq) (elements (dom slots)).

Definition best_step (ta : TargetAssessment) (cands : list Candidate) (dispatched : gset string)
    (best : string * nat) (s : string) : string * nat :=
  if bool_decide (s ∈ dispatched) || evidence_current ta s then best
  else let n := openBySlot cands s in if best.2 <? n then (s, n) else best.

Definition refresh_ready (iv : Investigator) (ta : TargetAssessment) (used : list string)
    (slots : gmap string Query) (dispatched : gset string) (now : Time) (s : string) : bool :=
  if bool_decide (s ∈ dispatched) || negb (evidence_current ta s) then false
  else if negb (bool_decide (s ∈ used)) then false
  else match slots !! s with
  | None => false
  | Some q => match refreshDue iv q with Some due => negb (Before now due) | None => false end
  end.

Definition selectQuery (iv : Investigator) (ta : TargetAssessment) (c : Contract) (cands : list Candidate)
    (slots : gmap string Query) (dispatched : gset string) (seq : gmap string N) (now : Time) :
    option (Query * queryClass) :=
  let names := slot_names slots seq in
  let '(best, _) := foldl (best_step ta cands dispatched) ("", 0) names in
  if nonempty best then (fun q => (q, classInvestigate)) <$> slots !! best
  else
    let used := usedSlots c (ta_EnvelopeSelection ta) in
    match List.find (refresh_ready iv ta used slots dispatched now) names with
    | Some s => (fun q => (q, classRefresh)) <$> slots !! s
    | None => None
    end.

(** ** Evidence: [Investigator.admit] *)
Definition accept (o : Observation) (iv : Investigator) : bool * Investigator :=
  let k := o_Key o in
  let value := bool_decide (o_Outcome o = OutcomeValue) in
  match iv_held iv !! k with
  | None =>
      if MaxHeldObservations l <=? size (iv_held iv) then (false, count inc_CapacityDenied iv)
      else (true, set_evidence (<[k := [o]]> (iv_held iv))
                    (if value then <[k := o_ObservedAt o]> (iv_marks iv) else iv_marks iv) iv)
  | Some list =>
      if negb value then (true, set_evidence (<[k := [o]]> (iv_held iv)) (iv_marks iv) iv)
      else
        let newer := match iv_marks iv !! k with None => true | Some mark => After (o_ObservedAt o) mark end in
        if newer then (true, set_evidence (<[k := [o]]> (iv_held iv)) (<[k := o_ObservedAt o]> (iv_marks iv)) iv)
        else
          let mark := default 0%Z (iv_marks iv !! k) in
          let equal := Z.eqb (o_ObservedAt o) mark &&
            match list with
            | h :: _ => bool_decide (o_Outcome h = OutcomeValue) && Z.eqb (o_ObservedAt h) mark
            | [] => false
            end in
          if equal && negb (existsb (fun h => bool_decide (o_Value h = o_Value o)) list) && (length list <? 4)
          then (true, set_evidence (<[k := list ++ [o]]> (iv_held iv)) (iv_marks iv) iv)
          else (true, iv)
  end.

(** The held evidence, in the order of a map traversal. *)
Definition all_held (iv : Investigator) : list Observation := map_to_list (iv_held iv) ≫= snd.

(** [iv.evaluate(base, now).Target(uid)], its validity included. *)
Definition evaluate (base : Snapshot) (iv : Investigator) (now : Time) : Assessment :=
  match Evaluate (Build_Snapshot now (Contracts base) (Targets base) (all_held iv)) with
  | Some (inr a) => a
  | _ => Build_Assessment []
  end.

Definition valid_target (base : Snapshot) (iv : Investigator) (now : Time) (uid : string) : option TargetAssessment :=
  match assessment_target (evaluate base iv now) uid with
  | Some ta => if ta_Valid ta then Some ta else None
  | None => None
  end.

(** ** Candidates of an episode *)
Definition candidate_change (prev : gmap string CandidateStatus) (e : Episode) (c : Candidate) : Episode :=
  match prev !! ca_ID c with
  | Some p =>
      if decide (p = ca_Status c) then e
      else trace (MaxTraceEntries l) "candidate" (ca_Ref c)
             (ca_ID c +:+ ": " +:+ CandidateStatus_string p +:+ "→" +:+ CandidateStatus_string (ca_Status c)) e
  | None => e
  end.

Definition candidate_gone (prev : gmap string CandidateStatus) (inFull : gset string)
    (acc : Episode * list Candidate) (id : string) : Episode * list Candidate :=
  let '(e, kept) := acc in
  if decide (id ∈ inFull) then acc
  else
    let p := default Refuted (prev !! id) in
    let e := if decide (p = Refuted) then e
             else trace (MaxTraceEntries l) "candidate" ""
                    (id +:+ ": " +:+ CandidateStatus_string p +:+ "→Refuted (capability proven available)") e in
    (e, if length kept <? MaxCandidates l then kept ++ [Build_Candidate id "" "" Refuted] else kept).

Definition updateCandidates (full kept : list Candidate) (e : Episode) : Episode :=
  let prev := foldl (fun m c => <[ca_ID c := ca_Status c]> m) (∅ : gmap string CandidateStatus) (ep_Candidates e) in
  let e := foldl (candidate_change prev) e full in
  let inFull : gset string := list_to_set (ca_ID <$> full) in
  let '(e, kept) := foldl (candidate_gone prev inFull) (e, kept) (sort_strings (elements (dom prev))) in
  set_Candidates (sort_slice by_id kept) e.

(** ** Keys *)
Definition binding_part (q : Query) : string :=
  ak_Slot (rq_Key (q_Request q)) +:+ "=" +:+ ProviderIdentity_String (ak_Provider (rq_Key (q_Request q))).

Definition episodeKey (ta : TargetAssessment) (slots : gmap string Query) : string :=
  let qs := snd <$> map_to_list slots in
  let resolved := match last qs with Some q => ak_ResolvedUID (rq_Key (q_Request q)) | None => "" end in
  join "|" ([resolved; ContractIdentity_String (ta_Contract ta); ti_UID (ta_Target ta)] ++
            sort_strings (binding_part <$> qs)).

Definition contractOf (s : Snapshot) (id : ContractIdentity) : option Contract :=
  List.find (fun c => bool_decide (c_Identity c = id)) (Contracts s).

Definition resultDetail (r : Result) : string :=
  if nonempty (res_Unavailable r) then "unavailable: " +:+ res_Unavailable r else "value " +:+ v_Type (res_Value r).

(** ** Forgetting *)
Definition cooled (now : Time) (e : Episode) : bool := negb (Before now (Add (ep_Started e) (EpisodeCooldown l))).

Definition pruneEpisodes (now : Time) (iv : Investigator) : Investigator :=
  let gone := fun e => negb (active e) && cooled now e in
  let uids : gset string := dom (filter (fun kv => gone kv.2 = true) (iv_episodes iv)) in
  set_episodes (filter (fun kv => gone kv.2 = false) (iv_episodes iv))
    (set_progress (filter (fun kv => kv.1 ∉ uids) (iv_progress iv)) iv).

(** The loop over the episodes of targets that are no longer queryable. *)
Definition supersede (e : Episode) : Episode :=
  if active e then end_episode l Superseded "target no longer queryable" e else e.

Definition purge (qs : Queries) (iv : Investigator) : Investigator :=
  let keys : gset ApplicabilityKey :=
    list_to_set (map_to_list qs ≫= fun kv => (fun sq => rq_Key (q_Request sq.2)) <$> map_to_list kv.2) in
  let iv := set_evidence (filter (fun kv => kv.1 ∈ keys) (iv_held iv))
              (filter (fun kv => kv.1 ∈ keys \/ kv.1 ∉ dom (iv_held iv)) (iv_marks iv)) iv in
  let '(now, iv) := ask (clock w) iv in
  set_progress (filter (fun kv => kv.1 ∈ dom qs \/ kv.1 ∉ dom (iv_episodes iv)) (iv_progress iv))
    (set_episodes (map_imap (fun uid e =>
       if decide (uid ∈ dom qs) then Some e
       else if cooled now e then None else Some (supersede e)) (iv_episodes iv)) iv).

Definition invalidate (out : Queries) (qs : Queries) (iv : Investigator) : Investigator :=
  set_episodes (map_imap (fun uid e =>
    Some (if decide (uid ∈ dom qs /\ uid ∉ dom out) then if active e then end_episode l TargetInvalid "" e else e else e))
    (iv_episodes iv)) iv.

Definition validOnly (base : Snapshot) (qs : Queries) (iv : Investigator) : Queries * Investigator :=
  let '(now, iv) := ask (clock w) iv in
  let out := filter (fun kv => is_Some (valid_target base iv now kv.1)) qs in
  (out, invalidate out qs iv).

(** ** One episode

    The local variables of [investigate] that the loop changes: the state of
    the investigator, the episode and its slot history. *)
Record Frame := { f_iv : Investigator; f_ep : Episode; f_prog : slotProgress }.

Definition ended (st : EpisodeState) (iv : Investigator) (e : Episode) (p : slotProgress) : Frame :=
  Build_Frame iv (end_episode l st "" e) p.

Definition traced (action slot detail : string) (e : Episode) : Episode := trace (MaxTraceEntries l) action slot detail e.

(** The counters and the slot history of a call about to be sent. *)
Definition next_in_seq (slot : string) (p : slotProgress) : slotProgress :=
  Build_slotProgress (sp_key p) (sp_next p + 1)%N (<[slot := (sp_next p + 1)%N]> (sp_seq p)).

Definition call_timeout (e : Episode) (now : Time) : Duration :=
  let rem := Sub (ep_Deadline e) now in
  if Z.ltb rem (PerCallTimeout l) then rem else PerCallTimeout l.

(** What is recorded of an answer that is neither discarded nor cut. *)
Definition accepted (timed_out : bool) (after : Time) (res : Result) : Result :=
  let res := if timed_out then unavailable "timeout" else res in
  if negb (nonempty (res_Unavailable res)) && After (res_ObservedAt res) after
  then unavailable "future-observedAt" else res.

Definition record_result (q : Query) (now : Time) (timeout : Duration) (res : Result) (callErr : bool) (after : Time)
    (f : Frame) : bool * Frame :=
  let '(Build_Frame iv e p) := f in
  let slot := ak_Slot (rq_Key (q_Request q)) in
  let timed_out := callErr || Z.ltb timeout (Sub after now) || negb (Before after (ep_Deadline e)) in
  let late := timed_out && negb (nonempty (res_Unavailable res)) in
  let iv := if late then count inc_LateDiscarded iv else iv in
  let e := if late then traced "late" slot "result after deadline discarded" e else e in
  let res := accepted timed_out after res in
  let '(ok, iv) := accept (observation_of (q_Request q) res after) iv in
  if ok then (true, Build_Frame iv (traced "result" slot (resultDetail res) e) p)
  else (false, ended CapacityHit iv e p).

(** From the select trace entry to the end of the loop's body; [true] goes on. *)
Definition send (uid : string) (q : Query) (reason : string) (now : Time) (f : Frame) : bool * Frame :=
  let '(Build_Frame iv e p) := f in
  let slot := ak_Slot (rq_Key (q_Request q)) in
  let e := traced "select" slot reason (count_call slot e) in
  let p := next_in_seq slot p in
  let iv := log_event (EvCall uid q now) (count inc_Dispatched iv) in
  let timeout := call_timeout e now in
  let '(ownDeadline, iv) := ask (call_deadline w) iv in
  let '(res, iv) := ask (fun n => observe w n (q_Provider q) (q_Request q)) iv in
  let '(callErr, iv) := ask (call_over w) iv in
  let '(after, iv) := ask (clock w) iv in
  let '(stop, iv) := ask (cancelled w) iv in
  if stop then
    (false, ended Cancelled (count inc_LateDiscarded iv) (traced "late" slot "cancelled" e) p)
  else
    let '(over, iv) := ask (slice_over w) iv in
    let '(slice, iv) := ask (slice_deadline w) iv in
    if callErr && over && sliceEndedFirst slice ownDeadline then
      (false, Build_Frame (count inc_LateDiscarded iv) (traced "late" slot "run slice ended" e) p)
    else record_result q now timeout res callErr after (Build_Frame iv e p).

(** The part of the loop's body after the bounds are checked. *)
Definition choose (base : Snapshot) (uid : string) (c : Contract) (slots : gmap string Query) (now : Time) (f : Frame) :
    bool * Frame :=
  let '(Build_Frame iv e p) := f in
  match valid_target base iv now uid with
  | None => (false, ended TargetInvalid iv e p)
  | Some ta =>
      let full := deriveCandidates ta c in
      let e := updateCandidates full (boundCandidates full (dom slots) (sp_seq p) (MaxCandidates l)) e in
      match selectQuery iv ta c full slots (ep_dispatched e) (sp_seq p) now with
      | None =>
          (false, ended (if hasOpen full then NoAllowedQuery
                         else match ep_Kind e with KindRefresh => Refreshed | KindInvestigate => Resolved end) iv e p)
      | Some (q, class) =>
          if MaxCallsPerEpisode l <=? ep_Calls e then (false, ended ExhaustedCalls iv e p)
          else send uid q (class_reason class full (ak_Slot (rq_Key (q_Request q)))) now (Build_Frame iv e p)
      end
  end.

Definition loop_body (base : Snapshot) (uid : string) (c : Contract) (slots : gmap string Query) (f : Frame) :
    bool * Frame :=
  let '(Build_Frame iv e p) := f in
  let '(now, iv) := ask (clock w) iv in
  let '(stop, iv) := ask (cancelled w) iv in
  if stop then (false, ended Cancelled iv e p)
  else
    let '(over, iv) := ask (slice_over w) iv in
    if over then (false, Build_Frame iv e p)
    else if negb (Before now (ep_Deadline e)) then (false, ended DeadlineHit iv e p)
    else if MaxStepsPerEpisode l <=? ep_Steps e then (false, ended ExhaustedSteps iv e p)
    else choose base uid c slots now (Build_Frame iv e p).

(** [for ep.active() { ... }]; [None] when the fuel runs out. *)
Fixpoint loop (fuel : nat) (base : Snapshot) (uid : string) (c : Contract) (slots : gmap string Query) (f : Frame) :
    option Frame :=
  match fuel with
  | 0 => None
  | S fuel =>
      if negb (active (f_ep f)) then Some f
      else let '(again, f) := loop_body base uid c slots f in
           if again then loop fuel base uid c slots f else Some f
  end.

(** Every turn but the last counts a step, and an episode has at most
    [MaxStepsPerEpisode] of them. *)
Definition loop_fuel : nat := S (S (MaxStepsPerEpisode l)).

(** The episode and, where the map holds it, the slot history are shared with
    the maps. *)
Definition run_episode (base : Snapshot) (uid : string) (c : Contract) (slots : gmap string Query) (linked : bool)
    (f : Frame) : option Investigator :=
  f ← loop loop_fuel base uid c slots f;
  let iv := put_episode uid (f_ep f) (f_iv f) in
  Some (if linked then set_progress (<[uid := f_prog f]> (iv_progress iv)) iv else iv).

(** The slot history used for a key, and whether the map holds it. *)
Definition progress_for (uid key : string) (iv : Investigator) : slotProgress * bool :=
  match iv_progress iv !! uid with
  | Some p => if decide (sp_key p = key) then (p, true) else (Build_slotProgress key 0 ∅, false)
  | None => (Build_slotProgress key 0 ∅, false)
  end.

Definition new_episode (key uid : string) (class : queryClass) (now : Time) : Episode := {|
  ep_Key := key; ep_TargetUID := uid;
  ep_Kind := match class with classRefresh => KindRefresh | classInvestigate => KindInvestigate end;
  ep_Started := now; ep_Deadline := Add now (EpisodeDeadline l); ep_Calls := 0; ep_Steps := 0; ep_State := Active;
  ep_Candidates := []; ep_Trace := []; ep_Truncated := 0; ep_dispatched := ∅;
|}.

(** Whether an episode of the target would begin inside the cooldown. *)
Definition denied (now : Time) (ep : option Episode) : bool :=
  match ep with Some e => negb (cooled now e) | None => false end.

(** The admission of a new episode; [None] when none is begun. *)
Definition start (uid key : string) (ta : TargetAssessment) (c : Contract) (slots : gmap string Query)
    (prog : slotProgress) (now : Time) (iv : Investigator) : option Episode * Investigator :=
  let ep := iv_episodes iv !! uid in
  match selectQuery iv ta c (deriveCandidates ta c) slots ∅ (sp_seq prog) now with
  | None => (None, iv)
  | Some (_, class) =>
      if denied now ep then (None, count inc_AdmissionDenied iv)
      else
        let full := fun iv => MaxResidentEpisodes l <=? size (iv_episodes iv) in
        let new := bool_decide (ep = None) in
        let iv := if new && full iv then pruneEpisodes now iv else iv in
        if new && full iv then (None, count inc_CapacityDenied iv)
        else
          let e := new_episode key uid class now in
          (Some e, log_event (EvStart uid now) (count inc_EpisodesStarted
             (set_progress (<[uid := prog]> (iv_progress iv)) (put_episode uid e iv))))
  end.

Definition supersede_changed (uid key : string) (iv : Investigator) : Investigator :=
  match iv_episodes iv !! uid with
  | Some e => if active e && negb (bool_decide (ep_Key e = key))
              then put_episode uid (end_episode l Superseded "identity or bindings changed" e) iv else iv
  | None => iv
  end.

Definition end_invalid (uid : string) (iv : Investigator) : Investigator :=
  match iv_episodes iv !! uid with
  | Some e => if active e then put_episode uid (end_episode l TargetInvalid "" e) iv else iv
  | None => iv
  end.

(** The episode the loop runs on: the active one, or a new one. *)
Definition open_episode (uid key : string) (ta : TargetAssessment) (c : Contract) (slots : gmap string Query)
    (now : Time) (iv : Investigator) : option Episode * slotProgress * bool * Investigator :=
  let '(prog, linked) := progress_for uid key iv in
  let iv := supersede_changed uid key iv in
  let begin := let '(e, iv) := start uid key ta c slots prog now iv in (e, prog, true, iv) in
  match iv_episodes iv !! uid with
  | Some e => if active e then (Some e, prog, linked, iv) else begin
  | None => begin
  end.

Definition investigate (base : Snapshot) (uid : string) (slots : gmap string Query) (iv : Investigator) :
    option Investigator :=
  let '(now, iv) := ask (clock w) iv in
  match valid_target base iv now uid with
  | None => Some (end_invalid uid iv)
  | Some ta =>
      match contractOf base (ta_Contract ta) with
      | None => Some iv
      | Some c =>
          let '(ep, prog, linked, iv) := open_episode uid (episodeKey ta slots) ta c slots now iv in
          match ep with
          | None => Some iv
          | Some e => run_episode base uid c slots linked (Build_Frame iv e prog)
          end
      end
  end.

(** ** Run

    [rest] are the targets of the slice that remain, with the target that
    follows each of them in the rotation. *)
Fixpoint run_targets (base : Snapshot) (qs : Queries) (rest : list (string * string)) (next : string)
    (iv : Investigator) : option (string * Investigator) :=
  match rest with
  | [] => Some (next, iv)
  | (uid, following) :: rest =>
      let '(stop, iv) := ask (cancelled w) iv in
      let '(over, iv) := if stop then (true, iv) else ask (slice_over w) iv in
      if stop || over then Some (uid, iv)
      else
        iv ← investigate base uid (default ∅ (qs !! uid)) iv;
        let '(over, iv) := ask (slice_over w) iv in
        if over then Some (uid, iv) else run_targets base qs rest following iv
  end.

(** sort.SearchStrings *)
Fixpoint SearchStrings (uids : list string) (x : string) : nat :=
  match uids with
  | [] => 0
  | u :: uids => if String.ltb u x then S (SearchStrings uids x) else 0
  end.

Definition start_index (uids : list string) (cursor : string) : nat :=
  if nonempty cursor then SearchStrings uids cursor mod length uids else 0.

Definition rotate_from (n : nat) (uids : list string) : list string := drop n uids ++ take n uids.

(** [uids[(start+i)%len(uids)]] with the one after it, for every [i]. *)
Definition rotation (uids : list string) (n : nat) : list (string * string) :=
  zip (rotate_from n uids) (rotate_from 1 (rotate_from n uids)).

Definition Run (base : Snapshot) (qs : Queries) (iv : Investigator) : option Investigator :=
  let '(qs, iv) := validOnly base qs iv in
  let iv := purge qs iv in
  match sort_strings (elements (dom qs)) with
  | [] => Some (set_cursor "" iv)
  | uids =>
      let order := rotation uids (start_index uids (iv_cursor iv)) in
      '(next, iv) ← run_targets base qs order (default "" (fst <$> head order)) iv;
      Some (set_cursor next iv)
  end.

(** ** What others see *)
Definition keyString (k : ApplicabilityKey) : string :=
  TargetIdentity_String (ak_Target k) +:+ "|" +:+ ak_ResolvedUID k +:+ "|" +:+ ContractIdentity_String (ak_Contract k)
    +:+ "|" +:+ ak_Slot k +:+ "|" +:+ ProviderIdentity_String (ak_Provider k).

Definition Observations_ (iv : Investigator) : list Observation :=
  sort_slice (fun a b => String.ltb (keyString a) (keyString b)) (elements (dom (iv_held iv))) ≫=
    fun k => default [] (iv_held iv !! k).

Definition episode_of (iv : Investigator) (uid : string) : option Episode := iv_episodes iv !! uid.

Definition Current (iv : Investigator) (ta : TargetAssessment) (slots : gmap string Query) : option Episode :=
  match episode_of iv (ti_UID (ta_Target ta)) with
  | Some e => if decide (ep_Key e = episodeKey ta slots) then Some e else None
  | None => None
  end.

(** ** NextWake *)
Definition workLeft (s : EpisodeState) : bool :=
  match s with ExhaustedCalls | ExhaustedSteps | DeadlineHit | Cancelled | CapacityHit => true | _ => false end.

Definition consider (now next t : Time) : Time :=
  if After t now && (IsZero next || Before t next) then t else next.

Definition consider_refresh (iv : Investigator) (uid : string) (now next : Time) (q : Query) : Time :=
  match refreshDue iv q with
  | None => next
  | Some due =>
      let admissible := match iv_episodes iv !! uid with Some e => Add (ep_Started e) (EpisodeCooldown l) | None => 0%Z end in
      consider now next (if After admissible due then admissible else due)
  end.

Fixpoint consider_episodes (qs : Queries) (now : Time) (eps : list (string * Episode)) (next : Time) : Time :=
  match eps with
  | [] => next
  | (uid, e) :: eps =>
      match qs !! uid with
      | None => consider_episodes qs now eps next
      | Some slots =>
          if active e then
            if negb (bool_decide (slots = ∅)) && Before now (ep_Deadline e) then now
            else consider_episodes qs now eps next
          else if workLeft (ep_State e)
               then consider_episodes qs now eps (consider now next (Add (ep_Started e) (EpisodeCooldown l)))
               else consider_episodes qs now eps next
      end
  end.

Definition NextWake (iv : Investigator) (qs : Queries) (now : Time) : Time :=
  let refresh := foldl (fun next kv => foldl (consider_refresh iv kv.1 now) next (snd <$> map_to_list kv.2)) 0%Z
                   (map_to_list qs) in
  consider_episodes qs now (map_to_list (iv_episodes iv)) refresh.
End investigator.
