(* ===== verification/InvestigatorSteps.v ===== *)
(** * The investigator as a transition system (pkg/investigate/investigator.go)

    [step] is what a run may do to the state, one effect at a time, with the
    condition under which it may do it.  [Run_steps]: every [Run] is a
    sequence of such steps; so what every step keeps, every run keeps. *)

From S2P Require Import Prelude Identity Predicate Contract Assessment Evaluator Candidates.
From S2P Require Import Investigator.
From stdpp Require Import relations.

(** The bindings of the queries: each is filed under its own slot. *)
Definition wf_slots (slots : gmap string Query) : Prop := forall s q, slots !! s = Some q -> ak_Slot (rq_Key (q_Request q)) = s.
Definition wf_queries (qs : Queries) : Prop := forall uid slots, qs !! uid = Some slots -> wf_slots slots.

(** The query is one of the target's. *)
Definition authorized (qs : Queries) (uid : string) (q : Query) : Prop :=
  exists slots, qs !! uid = Some slots /\ slots !! ak_Slot (rq_Key (q_Request q)) = Some q.

Section steps.
Context `{GoText} `{SortSlice}.
Variables (w : World) (l : Limits).

(** The clock has shown [now] already; it has just shown [now]. *)
Definition read (iv : Investigator) (now : Time) : Prop := exists n, n < iv_tick iv /\ now = clock w n.
Definition just_read (iv : Investigator) (now : Time) : Prop := exists n, iv_tick iv = S n /\ now = clock w n.

(** What may be rewritten of an episode: its candidates and trace, within their
    bounds, and its state, until it has ended. *)
Record annotated (e e' : Episode) : Prop := {
  an_Key : ep_Key e' = ep_Key e;
  an_UID : ep_TargetUID e' = ep_TargetUID e;
  an_Kind : ep_Kind e' = ep_Kind e;
  an_Started : ep_Started e' = ep_Started e;
  an_Deadline : ep_Deadline e' = ep_Deadline e;
  an_Calls : ep_Calls e' = ep_Calls e;
  an_Steps : ep_Steps e' = ep_Steps e;
  an_dispatched : ep_dispatched e' = ep_dispatched e;
  an_State : ep_State e' = ep_State e \/ ep_State e = Active;
  an_Candidates : length (ep_Candidates e') <= max (length (ep_Candidates e)) (MaxCandidates l);
  an_Trace : length (ep_Trace e') <= max (length (ep_Trace e)) (MaxTraceEntries l);
}.

(** Counters that record no call and no episode. *)
Inductive minor : (Stats -> Stats) -> Prop :=
  | minor_late : minor inc_LateDiscarded
  | minor_denied : minor inc_AdmissionDenied
  | minor_capacity : minor inc_CapacityDenied.

Inductive step (base : Snapshot) (qs : Queries) (iv : Investigator) : Investigator -> Prop :=
  | step_tick : step base qs iv (tick iv)
  | step_count g : minor g -> step base qs iv (count g iv)
  | step_cursor c : step base qs iv (set_cursor c iv)
  | step_evict (K : gset ApplicabilityKey) :
      step base qs iv (set_evidence (filter (fun kv => kv.1 ∈ K) (iv_held iv))
                         (filter (fun kv => kv.1 ∈ K \/ kv.1 ∉ dom (iv_held iv)) (iv_marks iv)) iv)
  | step_admit uid q res after :
      authorized qs uid q -> step base qs iv (accept l (observation_of (q_Request q) res after) iv).2
  | step_episodes es ps :
      (forall uid e', es !! uid = Some e' -> exists e, iv_episodes iv !! uid = Some e /\ annotated e e') ->
      (forall uid e, iv_episodes iv !! uid = Some e -> es !! uid = None ->
        exists now, just_read iv now /\ cooled l now e = true) ->
      (forall uid p, ps !! uid = Some p -> iv_progress iv !! uid = Some p) ->
      (forall uid, is_Some (ps !! uid) -> is_Some (iv_episodes iv !! uid) -> is_Some (es !! uid)) ->
      step base qs iv (set_episodes es (set_progress ps iv))
  | step_history uid p :
      is_Some (iv_episodes iv !! uid) -> step base qs iv (set_progress (<[uid := p]> (iv_progress iv)) iv)
  | step_start uid key class p now :
      is_Some (qs !! uid) -> just_read iv now -> denied l now (iv_episodes iv !! uid) = false ->
      size (<[uid := new_episode l key uid class now]> (iv_episodes iv)) <= max (MaxResidentEpisodes l) (size (iv_episodes iv)) ->
      step base qs iv (log_event (EvStart uid now) (count inc_EpisodesStarted
        (set_progress (<[uid := p]> (iv_progress iv)) (put_episode uid (new_episode l key uid class now) iv))))
  | step_call uid e q now :
      iv_episodes iv !! uid = Some e -> active e = true -> read iv now ->
      authorized qs uid q -> is_Some (valid_target base iv now uid) ->
      ak_Slot (rq_Key (q_Request q)) ∉ ep_dispatched e ->
      ep_Calls e < MaxCallsPerEpisode l -> ep_Steps e < MaxStepsPerEpisode l -> Before now (ep_Deadline e) = true ->
      step base qs iv (log_event (EvCall uid q now) (count inc_Dispatched
        (put_episode uid (count_call (ak_Slot (rq_Key (q_Request q))) e) iv))).

Abbreviation steps base qs := (rtc (step base qs)) (only parsing).

(** ** Annotations *)
#[export] Instance annotated_refl : Reflexive annotated.
Proof. intros e. split; auto; lia. Qed.

#[export] Instance annotated_trans : Transitive annotated.
Proof.
  intros a b c [] []. split; try congruence; try lia.
  destruct an_State0, an_State1; ((by right) || (left; congruence) || (right; congruence)).
Qed.

Lemma annotated_trace action slot detail e : annotated e (trace (MaxTraceEntries l) action slot detail e).
Proof.
  split; cbn; auto; [lia|].
  destruct (Nat.leb_spec (MaxTraceEntries l) (length (ep_Trace e))); [lia|].
  rewrite length_app. cbn. lia.
Qed.

Lemma annotated_traced action slot detail e : annotated e (traced l action slot detail e).
Proof. apply annotated_trace. Qed.

Lemma annotated_end st detail e : active e = true -> annotated e (end_episode l st detail e).
Proof.
  unfold active. intros Ha%bool_decide_eq_true. unfold end_episode.
  transitivity (set_State st e); [|apply annotated_trace]. split; cbn; auto; lia.
Qed.

Lemma annotated_foldl {A} (f : Episode -> A -> Episode) xs e :
  (forall e x, annotated e (f e x)) -> annotated e (foldl f e xs).
Proof.
  intros Hf. revert e. induction xs as [|x xs IH]; intros e; cbn; [reflexivity|].
  transitivity (f e x); [apply Hf|apply IH].
Qed.

Lemma annotated_change prev e c : annotated e (candidate_change l prev e c).
Proof.
  unfold candidate_change. destruct (prev !! ca_ID c); [|reflexivity].
  case_decide; [reflexivity|apply annotated_trace].
Qed.

Lemma candidate_gone_spec prev inFull ids e kept :
  length kept <= MaxCandidates l ->
  let '(e', kept') := foldl (candidate_gone l prev inFull) (e, kept) ids in
  annotated e e' /\ length kept' <= MaxCandidates l.
Proof.
  revert e kept. induction ids as [|id ids IH]; intros e kept Hk; cbn [foldl]; [split; [reflexivity|done]|].
  destruct (candidate_gone l prev inFull (e, kept) id) as [e1 kept1] eqn:Hg.
  assert (annotated e e1 /\ length kept1 <= MaxCandidates l) as [He1 Hk1].
  { unfold candidate_gone in Hg. case_decide; [by simplify_eq|].
    injection Hg as <- <-. split; [case_decide; [reflexivity|apply annotated_trace]|].
    destruct (Nat.ltb_spec (length kept) (MaxCandidates l)); [rewrite length_app; cbn; lia|done]. }
  specialize (IH e1 kept1 Hk1). destruct (foldl _ _ ids) as [e2 kept2].
  destruct IH. split; [by transitivity e1|done].
Qed.

Lemma annotated_update full kept e :
  length kept <= MaxCandidates l -> annotated e (updateCandidates l full kept e).
Proof.
  intros Hk. unfold updateCandidates.
  set (prev := foldl _ ∅ (ep_Candidates e)). set (e1 := foldl (candidate_change l prev) e full).
  assert (annotated e e1) as He1 by (apply annotated_foldl; intros; apply annotated_change).
  pose proof (candidate_gone_spec prev (list_to_set (ca_ID <$> full)) (sort_strings (elements (dom prev))) e1 kept Hk) as Hg.
  destruct (foldl _ (e1, kept) _) as [e2 kept2]. destruct Hg as [He2 Hk2].
  transitivity e1; [done|]. transitivity e2; [done|].
  split; cbn; auto; rewrite ?length_sort_slice; lia.
Qed.

Lemma updateCandidates_State full kept e : ep_State (updateCandidates l full kept e) = ep_State e.
Proof.
  unfold updateCandidates. set (prev := foldl _ ∅ (ep_Candidates e)). set (e1 := foldl (candidate_change l prev) e full).
  assert (ep_State e1 = ep_State e) as <-.
  { unfold e1. clearbody prev. clear. revert e. induction full as [|c full IH]; intros e; cbn; [done|]. rewrite IH.
    unfold candidate_change. repeat case_match; done. }
  generalize (sort_strings (elements (dom prev))). generalize (list_to_set (ca_ID <$> full) : gset string).
  intros inFull ids. clearbody e1. revert e1 kept. induction ids as [|id ids IH]; intros e1 kept; [done|].
  cbn [foldl]. destruct (candidate_gone _ _ _ _ _) as [e2 kept2] eqn:Hg. rewrite IH.
  unfold candidate_gone in Hg. repeat case_match; simplify_eq; done.
Qed.

Lemma length_boundCandidates full queryable seq max :
  length (boundCandidates full queryable seq max) <= max.
Proof.
  unfold boundCandidates. destruct (Nat.leb_spec (length full) max); [done|].
  rewrite length_sort_slice, length_take. lia.
Qed.

(** ** Selection *)
Lemma slot_names_spec slots seq s : s ∈ slot_names slots seq <-> is_Some (slots !! s).
Proof. unfold slot_names. rewrite elem_of_sort_slice, elem_of_elements, elem_of_dom. done. Qed.

Lemma best_fold ta cands dispatched names best n :
  let '(b, _) := foldl (best_step ta cands dispatched) (best, n) names in
  b = best \/ (b ∈ names /\ b ∉ dispatched).
Proof.
  revert best n. induction names as [|s names IH]; intros best n; cbn [foldl]; [by left|].
  destruct (best_step ta cands dispatched (best, n) s) as [b1 n1] eqn:Hb.
  specialize (IH b1 n1). destruct (foldl _ _ names) as [b2 n2].
  assert (b1 = best \/ (b1 = s /\ s ∉ dispatched)) as Hb1.
  { unfold best_step in Hb. destruct (bool_decide (s ∈ dispatched)) eqn:Hd; cbn [orb] in Hb; [left; congruence|].
    apply bool_decide_eq_false in Hd.
    destruct (evidence_current ta s); cbn [orb] in Hb; [left; congruence|].
    destruct ((best, n).2 <? openBySlot cands s).
    all: simplify_eq; auto. }
  destruct IH as [->|[? ?]]; [|right; split; [set_solver|done]].
  destruct Hb1 as [->|[-> ?]]; [by left|right; split; [set_solver|done]].
Qed.

Lemma selectQuery_Some iv ta c cands slots dispatched seq now q class :
  wf_slots slots -> selectQuery l iv ta c cands slots dispatched seq now = Some (q, class) ->
  slots !! ak_Slot (rq_Key (q_Request q)) = Some q /\ ak_Slot (rq_Key (q_Request q)) ∉ dispatched.
Proof.
  intros Hwf. unfold selectQuery.
  pose proof (best_fold ta cands dispatched (slot_names slots seq) "" 0) as Hb.
  destruct (foldl _ _ _) as [b n]. destruct (nonempty b) eqn:Hne.
  - destruct Hb as [->|[_ Hd]]; [done|]. intros (q' & Hq & Hqq)%fmap_Some. simplify_eq.
    rewrite (Hwf _ _ Hq). done.
  - destruct (List.find _ _) as [s|] eqn:Hf; [|done].
    intros (q' & Hq & Hqq)%fmap_Some. simplify_eq. rewrite (Hwf _ _ Hq). split; [done|].
    apply find_Some_elem in Hf as [_ Hf]. unfold refresh_ready in Hf.
    destruct (bool_decide (s ∈ dispatched)) eqn:Hd; [done|]. by apply bool_decide_eq_false in Hd.
Qed.

(** ** The loop *)
Section loop.
Variables (base : Snapshot) (qs : Queries) (uid : string) (slots : gmap string Query).
Hypothesis Hslots : qs !! uid = Some slots.
Hypothesis Hwf : wf_slots slots.

(** The state with the episode where the map shares it. *)
Definition shared (f : Frame) : Investigator := put_episode uid (f_ep f) (f_iv f).

Abbreviation runs_to := (fun f f' => rtc (step base qs) (shared f) (shared f')).

Lemma put_put e e' iv : put_episode uid e' (put_episode uid e iv) = put_episode uid e' iv.
Proof. unfold put_episode, set_episodes. cbn. by rewrite insert_insert_eq. Qed.

Lemma run_annotate iv e e' p p' : annotated e e' -> runs_to (Build_Frame iv e p) (Build_Frame iv e' p').
Proof.
  intros Ha. apply rtc_once. unfold shared; cbn.
  replace (put_episode uid e' iv) with
    (set_episodes (<[uid := e']> (iv_episodes iv)) (set_progress (iv_progress iv) (put_episode uid e iv)))
    by by destruct iv.
  apply (step_episodes base qs (put_episode uid e iv) (<[uid := e']> (iv_episodes iv)) (iv_progress iv)); cbn.
  - intros u e1. destruct (decide (u = uid)) as [->|Hu].
    + rewrite !lookup_insert_eq. intros [= <-]. eauto.
    + rewrite !lookup_insert_ne by done. intros He. exists e1. split; [done|reflexivity].
  - intros u e1. destruct (decide (u = uid)) as [->|Hu]; [by rewrite !lookup_insert_eq|].
    rewrite !lookup_insert_ne by done. congruence.
  - done.
  - intros u _. destruct (decide (u = uid)) as [->|Hu]; [by rewrite !lookup_insert_eq|].
    by rewrite !lookup_insert_ne.
Qed.

Lemma run_tick iv e p p' : runs_to (Build_Frame iv e p) (Build_Frame (tick iv) e p').
Proof. apply rtc_once. exact (step_tick base qs (put_episode uid e iv)). Qed.

Lemma run_count g iv e p p' : minor g -> runs_to (Build_Frame iv e p) (Build_Frame (count g iv) e p').
Proof. intros Hg. apply rtc_once. exact (step_count base qs (put_episode uid e iv) g Hg). Qed.

Lemma admit_put o e iv : (accept l o (put_episode uid e iv)).2 = put_episode uid e (accept l o iv).2.
Proof. unfold accept, put_episode. cbn. repeat case_match; done. Qed.

Lemma run_admit q res after iv e p p' :
  authorized qs uid q ->
  runs_to (Build_Frame iv e p) (Build_Frame (accept l (observation_of (q_Request q) res after) iv).2 e p').
Proof.
  intros Hq. apply rtc_once. unfold shared; cbn. rewrite <- admit_put. by apply (step_admit base qs _ uid).
Qed.

Lemma run_ended st iv e p p' : active e = true -> runs_to (Build_Frame iv e p) (ended l st iv e p').
Proof. intros Ha. apply run_annotate. by apply annotated_end. Qed.

Lemma annotated_active e e' : annotated e e' -> ep_State e' = ep_State e -> active e' = active e.
Proof. intros _ Hs. unfold active. by rewrite Hs. Qed.

Lemma record_result_runs q now timeout res callErr after f again f' :
  authorized qs uid q -> active (f_ep f) = true ->
  record_result l q now timeout res callErr after f = (again, f') -> runs_to f f'.
Proof.
  destruct f as [iv e p]. cbn [f_ep]. intros Hq Ha. unfold record_result.
  set (slot := ak_Slot _). set (late := (_ && _)%bool).
  set (iv1 := if late then _ else iv). set (e1 := if late then _ else e). set (res1 := accepted _ _ _).
  assert (runs_to (Build_Frame iv e p) (Build_Frame iv1 e1 p)) as H1.
  { unfold iv1, e1. destruct late; [|reflexivity].
    etrans; [apply (run_count inc_LateDiscarded _ _ _ p), minor_late|]. apply run_annotate, annotated_traced. }
  assert (active e1 = true) as Ha1 by (unfold e1; destruct late; done).
  pose proof (run_admit q res1 after iv1 e1 p p Hq) as H2.
  destruct (accept _ _ iv1) as [ok iv2]. cbn in H2. intros Heq.
  destruct ok; simplify_eq; (etrans; [exact H1|]; etrans; [exact H2|]).
  - apply run_annotate, annotated_traced.
  - by apply run_ended.
Qed.

Lemma run_call iv e q now p p' :
  active e = true -> read iv now -> authorized qs uid q -> is_Some (valid_target base iv now uid) ->
  ak_Slot (rq_Key (q_Request q)) ∉ ep_dispatched e ->
  ep_Calls e < MaxCallsPerEpisode l -> ep_Steps e < MaxStepsPerEpisode l -> Before now (ep_Deadline e) = true ->
  runs_to (Build_Frame iv e p)
    (Build_Frame (log_event (EvCall uid q now) (count inc_Dispatched iv))
       (count_call (ak_Slot (rq_Key (q_Request q))) e) p').
Proof.
  intros. apply rtc_once. unfold shared; cbn [f_iv f_ep].
  rewrite <- (put_put e (count_call _ e)).
  apply (step_call base qs (put_episode uid e iv) uid e q now); try done.
  unfold put_episode; cbn. by rewrite lookup_insert_eq.
Qed.

Lemma send_runs q reason now iv e p again f' :
  active e = true -> read iv now -> authorized qs uid q -> is_Some (valid_target base iv now uid) ->
  ak_Slot (rq_Key (q_Request q)) ∉ ep_dispatched e ->
  ep_Calls e < MaxCallsPerEpisode l -> ep_Steps e < MaxStepsPerEpisode l -> Before now (ep_Deadline e) = true ->
  send w l uid q reason now (Build_Frame iv e p) = (again, f') -> runs_to (Build_Frame iv e p) f'.
Proof.
  intros Ha Hr Hq Hv Hd Hc Hs Hb. unfold send, ask. cbv beta zeta.
  set (slot := ak_Slot _). set (e1 := traced l _ slot reason _). set (p1 := next_in_seq slot p).
  set (iv1 := log_event _ _).
  assert (runs_to (Build_Frame iv e p) (Build_Frame (tick (tick (tick (tick (tick iv1))))) e1 p1)) as H1.
  { etrans; [by apply (run_call iv e q now p p1)|]. etrans; [apply (run_annotate _ _ e1 p1 p1), annotated_traced|].
    do 4 (etrans; [apply (run_tick _ _ p1 p1)|]). apply (run_tick _ _ p1 p1). }
  assert (active e1 = true) as Ha1 by done. clearbody iv1 e1.
  intros Hres. etrans; [exact H1|]. clear H1.
  destruct (cancelled w _).
  { simplify_eq. etrans; [apply (run_count inc_LateDiscarded _ _ _ p1), minor_late|].
    etrans; [apply (run_annotate _ _ (traced l "late" slot "cancelled" e1) p1 p1), annotated_traced|].
    by apply run_ended. }
  etrans; [apply (run_tick _ _ p1 p1)|]. etrans; [apply (run_tick _ _ p1 p1)|].
  destruct (_ && _ && _)%bool.
  { simplify_eq. etrans; [apply (run_count inc_LateDiscarded _ _ _ p1), minor_late|]. apply run_annotate, annotated_traced. }
  by eapply record_result_runs.
Qed.

Lemma choose_runs c now iv e p again f' :
  active e = true -> read iv now -> ep_Steps e < MaxStepsPerEpisode l -> Before now (ep_Deadline e) = true ->
  choose w l base uid c slots now (Build_Frame iv e p) = (again, f') -> runs_to (Build_Frame iv e p) f'.
Proof.
  intros Ha Hr Hs Hb. unfold choose.
  destruct (valid_target base iv now uid) as [ta|] eqn:Hv; [|intros; simplify_eq; by apply run_ended].
  set (full := deriveCandidates ta c). set (e1 := updateCandidates l full _ e).
  assert (annotated e e1) as He1 by apply annotated_update, length_boundCandidates.
  assert (ep_State e1 = ep_State e) as HS by apply updateCandidates_State.
  assert (active e1 = true) as Ha1 by (unfold active; rewrite HS; done).
  pose proof (run_annotate iv e e1 p p He1) as H1. intros Hres. etrans; [exact H1|]. clear H1.
  destruct (selectQuery _ _ _ _ _ _ _ _ _) as [[q class]|] eqn:Hsel; [|simplify_eq; by apply run_ended].
  destruct (Nat.leb_spec (MaxCallsPerEpisode l) (ep_Calls e1)) as [|Hc]; [simplify_eq; by apply run_ended|].
  apply (selectQuery_Some _ _ _ _ _ _ _ _ _ _ Hwf) in Hsel as [Hq Hd].
  destruct He1. eapply send_runs; try done; [by exists slots|congruence..].
Qed.

Lemma loop_body_runs c f again f' :
  active (f_ep f) = true -> loop_body w l base uid c slots f = (again, f') -> runs_to f f'.
Proof.
  destruct f as [iv e p]. cbn [f_ep]. intros Ha. unfold loop_body, ask. cbv beta zeta. intros Hres.
  etrans; [apply (run_tick _ _ p p)|]. etrans; [apply (run_tick _ _ p p)|].
  destruct (cancelled w _); [simplify_eq; by apply run_ended|].
  etrans; [apply (run_tick _ _ p p)|].
  destruct (slice_over w _); [by simplify_eq|].
  destruct (Before _ (ep_Deadline e)) eqn:Hb; cbn [negb] in Hres; [|simplify_eq; by apply run_ended].
  destruct (Nat.leb_spec (MaxStepsPerEpisode l) (ep_Steps e)) as [|Hs]; [simplify_eq; by apply run_ended|].
  eapply choose_runs; [done| |done|exact Hb|exact Hres]. exists (iv_tick iv). cbn. split; [lia|done].
Qed.

Lemma loop_runs fuel c f f' : loop w l fuel base uid c slots f = Some f' -> runs_to f f'.
Proof.
  revert f. induction fuel as [|fuel IH]; intros f; cbn; [done|].
  destruct (active (f_ep f)) eqn:Ha; cbn [negb]; [|by intros [= <-]].
  destruct (loop_body _ _ _ _ _ _ f) as [again f1] eqn:Hb. apply loop_body_runs in Hb; [|done].
  intros Hf. etrans; [exact Hb|]. destruct again; [by apply IH|by simplify_eq].
Qed.

(** ** One target *)
Lemma put_id e iv : iv_episodes iv !! uid = Some e -> put_episode uid e iv = iv.
Proof. intros He. unfold put_episode, set_episodes. rewrite insert_id by done. by destruct iv. Qed.

Lemma put_ended_steps e st detail iv :
  iv_episodes iv !! uid = Some e -> active e = true ->
  rtc (step base qs) iv (put_episode uid (end_episode l st detail e) iv).
Proof.
  intros He Ha. rewrite <- (put_id e iv He) at 1. set (p := Build_slotProgress "" 0 ∅).
  apply (run_annotate iv e (end_episode l st detail e) p p). by apply annotated_end.
Qed.

Lemma end_invalid_steps iv : rtc (step base qs) iv (end_invalid l uid iv).
Proof.
  unfold end_invalid. destruct (iv_episodes iv !! uid) as [e|] eqn:He; [|done].
  destruct (active e) eqn:Ha; [by apply put_ended_steps|done].
Qed.

Lemma supersede_changed_steps key iv : rtc (step base qs) iv (supersede_changed l uid key iv).
Proof.
  unfold supersede_changed. destruct (iv_episodes iv !! uid) as [e|] eqn:He; [|done].
  destruct (active e) eqn:Ha; cbn [andb]; [|done]. case_match; [by apply put_ended_steps|done].
Qed.

Lemma prune_steps now iv : just_read iv now -> rtc (step base qs) iv (pruneEpisodes l now iv).
Proof.
  intros Hr. apply rtc_once. unfold pruneEpisodes. apply step_episodes.
  - intros u e' [He' _]%map_lookup_filter_Some. exists e'. split; [done|reflexivity].
  - intros u e He Hn. exists now. split; [done|].
    rewrite map_lookup_filter_None in Hn. destruct Hn as [|Hn]; [congruence|]. specialize (Hn e He). cbn in Hn.
    by apply not_false_iff_true, andb_true_iff in Hn as [_ ?].
  - intros u p' [Hp _]%map_lookup_filter_Some. done.
  - intros u [p' [_ Hp]%map_lookup_filter_Some] [e He]. cbn in Hp.
    exists e. apply map_lookup_filter_Some. split; [done|]. cbn.
    apply not_true_iff_false. intros Hg. apply Hp. apply elem_of_dom. exists e. by apply map_lookup_filter_Some.
Qed.

Lemma start_steps key ta c prog now iv :
  just_read iv now ->
  let '(e, iv') := start l uid key ta c slots prog now iv in
  rtc (step base qs) iv iv' /\ (forall e', e = Some e' -> iv_episodes iv' !! uid = Some e').
Proof.
  intros Hr. unfold start. destruct (selectQuery _ _ _ _ _ _ _ _ _) as [[q class]|]; [|done].
  destruct (denied l now _) eqn:Hden; [split; [|done]; apply rtc_once, step_count; constructor|].
  cbv beta zeta. set (new := bool_decide (iv_episodes iv !! uid = None)).
  set (full := MaxResidentEpisodes l <=? size (iv_episodes iv)).
  set (iv1 := if (new && full)%bool then pruneEpisodes l now iv else iv).
  assert (rtc (step base qs) iv iv1 /\ just_read iv1 now /\ denied l now (iv_episodes iv1 !! uid) = false /\
    (new = true -> iv_episodes iv1 !! uid = None) /\
    (new = false -> iv1 = iv)) as (H1 & Hr1 & Hd1 & Hnew & Hold).
  { unfold iv1. destruct (new && full)%bool eqn:Hnf.
    - apply andb_true_iff in Hnf as [Hn _]. pose proof Hn as Hn'. apply bool_decide_eq_true in Hn'.
      assert (iv_episodes (pruneEpisodes l now iv) !! uid = None) as Hnone.
      { cbn. apply map_lookup_filter_None. by left. }
      split_and!; [by apply prune_steps|done|by rewrite Hnone|done|congruence].
    - split_and!; try done. intros Hn. by apply bool_decide_eq_true in Hn. }
  destruct (new && (MaxResidentEpisodes l <=? size (iv_episodes iv1)))%bool eqn:Hfull.
  { split; [|done]. etrans; [exact H1|]. apply rtc_once, step_count; constructor. }
  split.
  - etrans; [exact H1|]. apply rtc_once. apply step_start; [by exists slots|done|done|].
    destruct new eqn:Hn.
    + cbn in Hfull. apply Nat.leb_gt in Hfull. rewrite map_size_insert_None by auto. lia.
    + rewrite (Hold eq_refl). unfold new in Hn. apply bool_decide_eq_false in Hn.
      destruct (iv_episodes iv !! uid) as [e|] eqn:He; [|done].
      rewrite map_size_insert_Some by eauto. lia.
  - intros e' [= <-]. cbn. by rewrite lookup_insert_eq.
Qed.

Lemma open_episode_steps key ta c now iv :
  just_read iv now ->
  let '(ep, _, _, iv') := open_episode l uid key ta c slots now iv in
  rtc (step base qs) iv iv' /\ (forall e, ep = Some e -> iv_episodes iv' !! uid = Some e).
Proof.
  intros Hr. unfold open_episode. destruct (progress_for uid key iv) as [prog linked].
  set (iv1 := supersede_changed l uid key iv). assert (rtc (step base qs) iv iv1) as H1 by apply supersede_changed_steps.
  assert (just_read iv1 now) as Hr1 by (unfold iv1, supersede_changed; repeat case_match; done).
  pose proof (start_steps key ta c prog now iv1 Hr1) as Hs. cbv zeta.
  destruct (iv_episodes iv1 !! uid) as [e|] eqn:He; [destruct (active e)|].
  1: cbn; split; [done|by intros ? [= <-]].
  all: destruct (start _ _ _ _ _ _ _ _ _) as [e1 iv2]; destruct Hs as [Hs He2]; split; [by etrans|done].
Qed.

Lemma run_episode_steps c linked iv e p iv' :
  iv_episodes iv !! uid = Some e ->
  run_episode w l base uid c slots linked (Build_Frame iv e p) = Some iv' -> rtc (step base qs) iv iv'.
Proof.
  intros He. unfold run_episode. intros (f & Hf & Hiv)%bind_Some. apply loop_runs in Hf.
  unfold shared in Hf at 1; cbn in Hf. rewrite put_id in Hf by done.
  etrans; [exact Hf|]. destruct linked; simplify_eq; [|done].
  apply rtc_once. apply (step_history base qs (shared f)). cbn. by rewrite lookup_insert_eq.
Qed.

Lemma investigate_steps iv iv' :
  investigate w l base uid slots iv = Some iv' -> rtc (step base qs) iv iv'.
Proof.
  unfold investigate, ask. cbv beta zeta. intros Hi.
  etrans; [apply rtc_once, step_tick|]. set (now := clock w (iv_tick iv)) in Hi.
  assert (just_read (tick iv) now) as Hr by by exists (iv_tick iv).
  destruct (valid_target _ _ _ _) as [ta|]; [|simplify_eq; apply end_invalid_steps].
  destruct (contractOf _ _) as [c|]; [|by simplify_eq].
  pose proof (open_episode_steps (episodeKey ta slots) ta c now (tick iv) Hr) as Ho.
  destruct (open_episode _ _ _ _ _ _ _ _) as [[[ep prog] linked] iv1]. destruct Ho as [H1 He].
  etrans; [exact H1|]. destruct ep as [e|]; [|by simplify_eq]. eapply run_episode_steps; [by apply He|exact Hi].
Qed.
End loop.

(** ** A run *)
Lemma authorized_mono (qs qs' : Queries) uid q : qs ⊆ qs' -> authorized qs uid q -> authorized qs' uid q.
Proof. intros Hsub (slots & Hs & Hq). exists slots. split; [by eapply lookup_weaken|done]. Qed.

Lemma step_mono base (qs qs' : Queries) iv iv' : qs ⊆ qs' -> step base qs iv iv' -> step base qs' iv iv'.
Proof.
  intros Hsub Hs. destruct Hs; [constructor; done..| | | | |].
  - eapply step_admit, authorized_mono; eauto.
  - by apply step_episodes.
  - by apply step_history.
  - apply step_start; try done. destruct H1 as [slots ?]. exists slots. by eapply lookup_weaken.
  - eapply step_call; eauto using authorized_mono.
Qed.

Lemma purge_steps base qs out iv : rtc (step base qs) iv (purge w l out iv).
Proof.
  unfold purge, ask. cbv beta zeta.
  set (K := list_to_set _ : gset ApplicabilityKey).
  etrans; [apply rtc_once, (step_evict base qs iv K)|]. etrans; [apply rtc_once, step_tick|].
  set (iv1 := tick _). assert (iv_tick iv1 = S (iv_tick iv)) as Ht by done.
  assert (just_read iv1 (clock w (iv_tick iv))) as Hr by by exists (iv_tick iv).
  set (now := clock w _). change (clock w (iv_tick iv)) with now in Hr.
  set (es := map_imap _ (iv_episodes iv1)).
  set (ps := filter _ (iv_progress _)). apply rtc_once.
  assert (forall u, es !! u = iv_episodes iv1 !! u ≫= fun e =>
    if decide (u ∈ dom out) then Some e else if cooled l now e then None else Some (supersede l e)) as Hes.
  { intros u. unfold es. by rewrite map_lookup_imap. }
  clearbody es. apply (step_episodes base qs iv1 es ps).
  - intros u e'. rewrite Hes. intros (e & He & Hu)%bind_Some. exists e. split; [done|].
    case_decide; [simplify_eq; reflexivity|]. destruct (cooled l now e); simplify_eq.
    unfold supersede. destruct (active e) eqn:Ha; [by apply annotated_end|reflexivity].
  - intros u e He Hn. exists now. split; [done|]. rewrite Hes, He in Hn. cbn in Hn.
    case_decide; [done|]. by destruct (cooled l now e).
  - intros u p Hp. by apply map_lookup_filter_Some in Hp as [Hp _].
  - intros u [p [_ Hp]%map_lookup_filter_Some] [e He]. rewrite Hes, He. cbn in *.
    destruct Hp as [Hp|Hp]; [by rewrite decide_True|]. exfalso. apply Hp, elem_of_dom. by exists e.
Qed.


Lemma validOnly_steps base qs iv :
  let '(out, iv') := validOnly w l base qs iv in
  rtc (step base qs) iv iv' /\ out ⊆ qs /\
  (forall uid, is_Some (out !! uid) -> is_Some (valid_target base (tick iv) (clock w (iv_tick iv)) uid)).
Proof.
  unfold validOnly, ask. set (now := clock w (iv_tick iv)). set (out := filter _ qs). split_and!.
  - etrans; [apply rtc_once, step_tick|]. apply rtc_once. unfold invalidate. set (es := map_imap _ _).
    assert (forall u, es !! u = iv_episodes iv !! u ≫= fun e =>
      Some (if decide (u ∈ dom qs /\ u ∉ dom out) then if active e then end_episode l TargetInvalid "" e else e else e)) as Hes.
    { intros u. unfold es. by rewrite map_lookup_imap. }
    clearbody es. apply (step_episodes base qs (tick iv) es (iv_progress iv)); cbn.
    + intros u e'. rewrite Hes. intros (e & He & [= <-])%bind_Some. exists e. split; [done|].
      case_decide; [|reflexivity]. destruct (active e) eqn:Ha; [by apply annotated_end|reflexivity].
    + intros u e He. by rewrite Hes, He.
    + done.
    + intros u _ [e He]. rewrite Hes, He. by eexists.
  - apply map_filter_subseteq.
  - intros uid [slots [_ Hv]%map_lookup_filter_Some]. done.
Qed.

Lemma run_targets_steps base qs rest next iv r :
  wf_queries qs -> (forall uid, uid ∈ rest.*1 -> is_Some (qs !! uid)) ->
  run_targets w l base qs rest next iv = Some r -> rtc (step base qs) iv r.2.
Proof.
  intros Hwf. revert next iv. induction rest as [|[uid following] rest IH]; intros next iv Hin; cbn [run_targets].
  { by intros [= <-]. }
  unfold ask. cbv beta zeta. intros Hr.
  apply rtc_l with (tick iv); [apply step_tick|].
  destruct (cancelled w (iv_tick iv)); cbn [orb] in Hr; [by simplify_eq|].
  apply rtc_l with (tick (tick iv)); [apply step_tick|].
  destruct (slice_over w _); [by simplify_eq|].
  apply bind_Some in Hr as (iv1 & Hi & Hr).
  destruct (Hin uid) as [slots Hs]; [set_solver|]. rewrite Hs in Hi.
  transitivity iv1; [by eapply investigate_steps; eauto|].
  apply rtc_l with (tick iv1); [apply step_tick|].
  destruct (slice_over w _); [by simplify_eq|]. eapply IH, Hr. set_solver.
Qed.

Lemma rotate_from_perm n xs : rotate_from n xs ≡ₚ xs.
Proof. unfold rotate_from. rewrite Permutation_app_comm. by rewrite take_drop. Qed.

Lemma rotation_perm uids n : (rotation uids n).*1 ≡ₚ uids.
Proof.
  unfold rotation. rewrite fst_zip; [apply rotate_from_perm|]. by rewrite (rotate_from_perm 1).
Qed.

Lemma Run_split base qs iv iv' :
  wf_queries qs -> Run w l base qs iv = Some iv' ->
  exists out iv1, validOnly w l base qs iv = (out, iv1) /\ rtc (step base out) (purge w l out iv1) iv'.
Proof.
  intros Hwf. unfold Run. destruct (validOnly w l base qs iv) as [out iv1] eqn:Hv. intros Hr.
  exists out, iv1. split; [done|].
  pose proof (validOnly_steps base qs iv) as Hvo. rewrite Hv in Hvo. destruct Hvo as (_ & Hsub & _).
  assert (wf_queries out) as Hwo. { intros u slots Hu. eapply Hwf, lookup_weaken; eauto. }
  set (iv2 := purge w l out iv1) in *.
  assert (sort_strings (elements (dom out)) ≡ₚ elements (dom out)) as Hp by apply sort_slice_perm.
  destruct (sort_strings (elements (dom out))) as [|u uids]; [simplify_eq; apply rtc_once, step_cursor|].
  apply bind_Some in Hr as ([next iv3] & Ht & [= <-]).
  etrans; [|apply rtc_once, step_cursor].
  eapply (run_targets_steps base out _ _ iv2 (next, iv3)); [done| |exact Ht].
  intros x. rewrite rotation_perm, Hp, elem_of_elements, elem_of_dom. done.
Qed.

(** Every [Run] is a sequence of steps. *)
Lemma Run_rtc base qs iv iv' :
  wf_queries qs -> Run w l base qs iv = Some iv' -> rtc (step base qs) iv iv'.
Proof.
  intros Hwf Hr. destruct (Run_split base qs iv iv' Hwf Hr) as (out & iv1 & Hv & Hs).
  pose proof (validOnly_steps base qs iv) as Hvo. rewrite Hv in Hvo. destruct Hvo as (H1 & Hsub & _).
  etrans; [exact H1|]. etrans; [apply purge_steps|].
  eapply rtc_subrel; [|exact Hs]. intros. by eapply step_mono.
Qed.

(** ** Termination *)
Lemma record_result_Steps q now timeout res callErr after f again f' :
  record_result l q now timeout res callErr after f = (again, f') -> ep_Steps (f_ep f') = ep_Steps (f_ep f).
Proof. destruct f as [iv e p]. unfold record_result. repeat case_match; intros; simplify_eq; done. Qed.

Lemma loop_body_Steps base uid c slots f again f' :
  loop_body w l base uid c slots f = (again, f') -> again = true ->
  ep_Steps (f_ep f') = S (ep_Steps (f_ep f)) /\ ep_Steps (f_ep f) < MaxStepsPerEpisode l.
Proof.
  destruct f as [iv e p]. unfold loop_body, ask. cbv beta zeta. intros Hb ->.
  destruct (cancelled w _); [done|]. destruct (slice_over w _); [done|].
  destruct (negb _); [done|]. destruct (Nat.leb_spec (MaxStepsPerEpisode l) (ep_Steps e)) as [|Hs]; [done|].
  split; [|done]. unfold choose in Hb. destruct (valid_target _ _ _ _) as [ta|]; [|done].
  set (e1 := updateCandidates _ _ _ e) in Hb. assert (ep_Steps e1 = ep_Steps e) as He1.
  { apply (annotated_update _ _ e), length_boundCandidates. }
  destruct (selectQuery _ _ _ _ _ _ _ _ _) as [[q class]|]; [|done]. destruct (_ <=? ep_Calls e1); [done|].
  clearbody e1. unfold send, ask in Hb. cbv beta zeta in Hb.
  destruct (cancelled w _); [done|]. destruct (_ && _ && _)%bool; [done|].
  apply record_result_Steps in Hb. cbn in Hb. cbn. rewrite Hb. congruence.
Qed.

Lemma loop_total fuel base uid c slots f :
  MaxStepsPerEpisode l < fuel + ep_Steps (f_ep f) -> 0 < fuel -> is_Some (loop w l fuel base uid c slots f).
Proof.
  revert f. induction fuel as [|fuel IH]; intros f Hf Hpos; [lia|]. cbn.
  destruct (negb _); [by eexists|]. destruct (loop_body _ _ _ _ _ _ f) as [[] f'] eqn:Hb; [|by eexists].
  apply loop_body_Steps in Hb as [Hs Hlt]; [|done]. apply IH; lia.
Qed.

Lemma investigate_total base uid slots iv : is_Some (investigate w l base uid slots iv).
Proof.
  unfold investigate, ask. cbv beta zeta. destruct (valid_target _ _ _ _); [|by eexists].
  destruct (contractOf _ _) as [c|]; [|by eexists].
  destruct (open_episode _ _ _ _ _ _ _ _) as [[[ep prog] linked] iv1]. destruct ep as [e|]; [|by eexists].
  unfold run_episode. destruct (loop_total (loop_fuel l) base uid c slots (Build_Frame iv1 e prog)) as [f Hf].
  1,2: unfold loop_fuel; lia.
  rewrite Hf. by eexists.
Qed.

Lemma run_targets_total base qs rest next iv : is_Some (run_targets w l base qs rest next iv).
Proof.
  revert next iv. induction rest as [|[uid following] rest IH]; intros next iv; cbn [run_targets]; [by eexists|].
  unfold ask. cbv beta zeta. destruct (cancelled w _); cbn [orb]; [by eexists|]. destruct (slice_over w _); [by eexists|].
  match goal with |- context [investigate w l base uid ?s ?iv] => destruct (investigate_total base uid s iv) as [iv1 ->] end.
  cbn [mbind option_bind].
  destruct (slice_over w _); [by eexists|]. apply IH.
Qed.

Lemma Run_is_Some base qs iv : is_Some (Run w l base qs iv).
Proof.
  unfold Run. destruct (validOnly _ _ _ _ _) as [out iv1]. set (iv2 := purge _ _ _ _).
  destruct (sort_strings _) as [|u uids]; [by eexists|].
  match goal with |- context [run_targets w l base out ?r ?n iv2] =>
    destruct (run_targets_total base out r n iv2) as [[next iv3] ->] end.
  by eexists.
Qed.
End steps.
