(* ===== verification/InvestigatorSpec.v ===== *)
(** * What the investigator guarantees (pkg/investigate/investigator.go)

    [wf] is the type of its state: every budget and capacity of [Limits]
    respected, every held statement filed under its own key with the watermark
    of its values.  The guarantees on calls and episodes are read off the
    ghost log; they hold of every state reached by any number of runs. *)

From stdpp Require Import relations.
From S2P Require Import Prelude Identity Predicate Contract Assessment Evaluator Candidates.
From S2P Require Import Investigator.
From S2P Require Import InvestigatorSteps.

Section spec.
Context `{GoText} `{SortSlice}.
Variables (w : World) (l : Limits).

(** ** The type of the state *)
Record episode_ok (e : Episode) : Prop := {
  eo_Calls : ep_Calls e <= MaxCallsPerEpisode l;
  eo_Steps : ep_Steps e <= MaxStepsPerEpisode l;
  eo_dispatched : size (ep_dispatched e) = ep_Calls e;
  eo_Deadline : ep_Deadline e = Add (ep_Started e) (EpisodeDeadline l);
  eo_Candidates : length (ep_Candidates e) <= MaxCandidates l;
  eo_Trace : length (ep_Trace e) <= MaxTraceEntries l;
}.

(** The statements held for a key are one provider-unavailable statement, or
    values of the same stamp, the watermark, no two of which are equal. *)
Record held_ok (marks : gmap ApplicabilityKey Time) (k : ApplicabilityKey) (hs : list Observation) : Prop := {
  ho_key : Forall (fun o => o_Key o = k) hs;
  ho_length : 1 <= length hs <= 4;
  ho_values :
    (exists o, hs = [o] /\ o_Outcome o <> OutcomeValue) \/
    (Forall (fun o => o_Outcome o = OutcomeValue /\ marks !! k = Some (o_ObservedAt o)) hs /\ NoDup (o_Value <$> hs));
}.

Record wf (iv : Investigator) : Prop := {
  wf_held_size : size (iv_held iv) <= MaxHeldObservations l;
  wf_held : forall k hs, iv_held iv !! k = Some hs -> held_ok (iv_marks iv) k hs;
  wf_marks : dom (iv_marks iv) ⊆ dom (iv_held iv);
  wf_episodes_size : size (iv_episodes iv) <= MaxResidentEpisodes l;
  wf_episodes : forall uid e, iv_episodes iv !! uid = Some e -> episode_ok e;
  wf_progress : dom (iv_progress iv) ⊆ dom (iv_episodes iv);
}.

Lemma wf_New : wf New.
Proof. split; cbn; rewrite ?map_size_empty; try lia; try done; try set_solver. Qed.

(** ** Admission of a statement *)
Lemma held_ok_one marks k o :
  o_Key o = k -> (o_Outcome o = OutcomeValue -> marks !! k = Some (o_ObservedAt o)) -> held_ok marks k [o].
Proof.
  intros Hk Hm. split; [by repeat constructor|cbn; lia|].
  destruct (decide (o_Outcome o = OutcomeValue)); [right|left; by exists o].
  split; [constructor; auto|apply NoDup_singleton].
Qed.

Lemma held_ok_marks marks k k' t hs : k <> k' -> held_ok marks k hs -> held_ok (<[k' := t]> marks) k hs.
Proof. intros Hne [? ? Hv]. split; [done..|]. by rewrite lookup_insert_ne. Qed.

Lemma wf_set_held iv k o m :
  wf iv -> o_Key o = k -> (is_Some (iv_held iv !! k) \/ size (iv_held iv) < MaxHeldObservations l) ->
  (m = iv_marks iv \/ m = <[k := o_ObservedAt o]> (iv_marks iv)) ->
  (o_Outcome o = OutcomeValue -> m !! k = Some (o_ObservedAt o)) ->
  wf (set_evidence (<[k := [o]]> (iv_held iv)) m iv).
Proof.
  intros [Hsz Hh Hm ? ? ?] Hk Hroom Hmm Hov. split; try done; cbn.
  - destruct Hroom as [Hr|Hr]; [by rewrite map_size_insert_Some|].
    destruct (iv_held iv !! k) eqn:E; [by rewrite map_size_insert_Some|]. rewrite map_size_insert_None by done. lia.
  - intros k' hs'. destruct (decide (k' = k)) as [->|Hne].
    + rewrite lookup_insert_eq. intros [= <-]. by apply held_ok_one.
    + rewrite lookup_insert_ne by done. intros Hl%Hh.
      destruct Hmm as [->| ->]; [done|by apply held_ok_marks].
  - destruct Hmm as [->| ->]; set_solver.
Qed.

Lemma admit_wf o iv : wf iv -> wf (accept l o iv).2.
Proof.
  intros Hwf. unfold accept. set (k := o_Key o). cbv zeta.
  destruct (iv_held iv !! k) as [hs|] eqn:Hk.
  - destruct (bool_decide (o_Outcome o = OutcomeValue)) eqn:Hv; cbn [negb].
    2: { apply bool_decide_eq_false in Hv. apply wf_set_held; eauto; done. }
    apply bool_decide_eq_true in Hv.
    destruct (match iv_marks iv !! k with None => true | _ => _ end) eqn:Hnew.
    { apply wf_set_held; eauto. intros _. by rewrite lookup_insert_eq. }
    destruct (_ && _ && _)%bool eqn:Hadd; [|done].
    apply andb_true_iff in Hadd as [[Heq Hfresh]%andb_true_iff Hlen%Nat.ltb_lt].
    apply andb_true_iff in Heq as [Hat Hhd].
    destruct (iv_marks iv !! k) as [mark|] eqn:Hmark; [|done]. cbn in Hat, Hhd.
    apply Z.eqb_eq in Hat. destruct hs as [|h hs]; [done|]. apply andb_true_iff in Hhd as [Hho%bool_decide_eq_true _].
    destruct Hwf as [Hsz Hh ? ? ? ?]. pose proof (Hh _ _ Hk) as [Hkeys Hle Hvals].
    split; cbn; try done; [by rewrite map_size_insert_Some| |set_solver].
    intros k' hs'. destruct (decide (k' = k)) as [->|Hne]; [|rewrite lookup_insert_ne by done; apply Hh].
    rewrite lookup_insert_eq. intros [= <-]. destruct Hvals as [(o' & [= -> ->] & ?)|[Hvals Hnd]]; [done|].
    split; [by apply (Forall_app_2 _ (h :: hs)); [|by repeat constructor]|cbn in *; rewrite length_app; cbn; lia|right].
    split.
    + apply (Forall_app_2 _ (h :: hs)); [done|]. repeat constructor; [done|]. by rewrite Hmark, Hat.
    + change (h :: hs ++ [o]) with ((h :: hs) ++ [o]). rewrite fmap_app. apply NoDup_app. split_and!; [done| |apply NoDup_singleton].
      intros v Hv' Hv''. apply list_elem_of_singleton in Hv''. subst v.
      apply negb_true_iff, not_true_iff_false in Hfresh. apply Hfresh, existsb_exists.
      apply list_elem_of_fmap in Hv' as (h' & Hvh & Hin). exists h'. split; [by apply list_elem_of_In|].
      by apply bool_decide_eq_true.
  - destruct (Nat.leb_spec (MaxHeldObservations l) (size (iv_held iv))); [by destruct Hwf|].
    destruct (bool_decide (o_Outcome o = OutcomeValue)) eqn:Hv.
    + apply wf_set_held; auto. intros _. by rewrite lookup_insert_eq.
    + apply bool_decide_eq_false in Hv. apply wf_set_held; auto; done.
Qed.

(** ** Every step keeps the type *)
Lemma annotated_ok e e' : annotated l e e' -> episode_ok e -> episode_ok e'.
Proof. intros [] []. split; try congruence; lia. Qed.

Lemma episodes_put_wf iv uid e :
  wf iv -> episode_ok e -> size (<[uid := e]> (iv_episodes iv)) <= MaxResidentEpisodes l ->
  wf (put_episode uid e iv).
Proof.
  intros [] He Hsz. split; cbn; try done; [|set_solver].
  intros u e'. destruct (decide (u = uid)) as [->|]; [rewrite lookup_insert_eq; by intros [= <-]|].
  rewrite lookup_insert_ne by done. eauto.
Qed.

Lemma episodes_size_le (es es' : gmap string Episode) :
  (forall uid e', es' !! uid = Some e' -> exists e, es !! uid = Some e /\ annotated l e e') -> size es' <= size es.
Proof.
  intros Hs. rewrite <- !size_dom. apply subseteq_size. intros u [e' He']%elem_of_dom.
  destruct (Hs _ _ He') as (e & He & _). apply elem_of_dom. by exists e.
Qed.

Lemma step_wf base qs iv iv' : wf iv -> step w l base qs iv iv' -> wf iv'.
Proof.
  intros Hwf Hs. pose proof Hwf as [Hsz Hh Hm Hes He Hp].
  destruct Hs as [|g _|c|K|uid q res after _|es ps Hann _ Hps Hlink|uid p Hu|uid key class p now _ _ _ Hroom
    |uid e q now Hu Ha _ _ _ Hd Hc Hst _].
  - by destruct Hwf.
  - by destruct Hwf.
  - by destruct Hwf.
  - split; cbn; try done.
    + etrans; [|exact Hsz]. apply map_subseteq_size, map_filter_subseteq.
    + intros k hs [Hk HK]%map_lookup_filter_Some. destruct (Hh _ _ Hk) as [? ? Hv]. split; [done..|].
      destruct Hv as [|[Hv Hnd]]; [by left|right; split; [|done]].
      eapply Forall_impl; [exact Hv|]. intros o [? Ho]. split; [done|]. apply map_lookup_filter_Some. auto.
    + intros k [t [Ht HK]%map_lookup_filter_Some]%elem_of_dom. cbn in HK.
      assert (k ∈ dom (iv_held iv)) as [hs Hhs]%elem_of_dom by (apply Hm, elem_of_dom; by exists t).
      destruct HK as [HK|HK]; [|exfalso; apply HK, elem_of_dom; by exists hs].
      apply elem_of_dom. exists hs. by apply map_lookup_filter_Some.
  - by apply admit_wf.
  - split; cbn; try done.
    + etrans; [|exact Hes]. by apply episodes_size_le.
    + intros uid e' (e & Hu & Han)%Hann. by eapply annotated_ok, He.
    + intros uid [p Hu]%elem_of_dom. apply elem_of_dom, Hlink; [by exists p|].
      apply elem_of_dom, Hp, elem_of_dom. exists p. by apply Hps.
  - split; cbn; try done. apply elem_of_dom in Hu. set_solver.
  - destruct (episodes_put_wf iv uid (new_episode l key uid class now) Hwf); [split; cbn; try done; lia|lia|].
    split; cbn; try done. set_solver.
  - destruct (He _ _ Hu). destruct (episodes_put_wf iv uid (count_call (ak_Slot (rq_Key (q_Request q))) e) Hwf).
    + split; cbn; try done; try lia. rewrite size_union by set_solver. rewrite size_singleton. lia.
    + rewrite map_size_insert_Some by eauto. done.
    + by split.
Qed.

Lemma steps_wf base qs iv iv' : rtc (step w l base qs) iv iv' -> wf iv -> wf iv'.
Proof. induction 1; eauto using step_wf. Qed.

(** C8. [Run] returns, whatever the surroundings answer, and from a state
    of the type leaves a state of the type: no episode exceeds its calls,
    steps, candidates or trace entries nor sends twice for a slot, the
    resident episodes and the held keys stay within capacity, and what is held
    for a key is one provider-unavailable statement or at most four different
    values, all stamped with the key's watermark. *)
Theorem Run_ok base qs iv : wf_queries qs -> wf iv -> exists iv', Run w l base qs iv = Some iv' /\ wf iv'.
Proof.
  intros Hq Hwf. destruct (Run_is_Some w l base qs iv) as [iv' Hr]. exists iv'. split; [done|].
  eapply steps_wf; [by eapply Run_rtc|done].
Qed.

(** ** Calls and episodes over any number of runs *)
Definition reached : Investigator -> Prop :=
  rtc (fun iv iv' => exists base qs, wf_queries qs /\ Run w l base qs iv = Some iv') New.

Definition start_of (uid : string) (ev : Event) : option Time :=
  match ev with EvStart u t => if decide (u = uid) then Some t else None | EvCall _ _ _ => None end.
Definition call_of (uid : string) (ev : Event) : option Time :=
  match ev with EvCall u _ t => if decide (u = uid) then Some t else None | EvStart _ _ => None end.

(** When the target's episodes began, and when its calls were sent. *)
Definition starts (iv : Investigator) (uid : string) : list Time := omap (start_of uid) (iv_log iv).
Definition calls (iv : Investigator) (uid : string) : list Time := omap (call_of uid) (iv_log iv).

Lemma starts_log ev iv uid : starts (log_event ev iv) uid = starts iv uid ++ omap (start_of uid) [ev].
Proof. apply omap_app. Qed.
Lemma calls_log ev iv uid : calls (log_event ev iv) uid = calls iv uid ++ omap (call_of uid) [ev].
Proof. apply omap_app. Qed.

(** An invariant of the steps holds in every state reached. *)
Lemma reached_ind (P : Investigator -> Prop) :
  P New -> (forall base qs iv iv', P iv -> step w l base qs iv iv' -> P iv') -> forall iv, reached iv -> P iv.
Proof.
  intros H0' Hs iv Hr. unfold reached in Hr. remember New as iv0 eqn:E. assert (P iv0) as Hp by by subst.
  clear E H0'. induction Hr as [|iv0 iv1 iv2 (base & qs & Hq & Hrun) _ IH]; [done|]. apply IH.
  apply Run_rtc in Hrun; [|done]. clear IH. induction Hrun; eauto.
Qed.

Definition left_of (ep : option Episode) : nat := match ep with Some e => MaxCallsPerEpisode l - ep_Calls e | None => 0 end.

Record budgeted (iv : Investigator) : Prop := {
  bu_calls : forall uid, length (calls iv uid) + left_of (iv_episodes iv !! uid) <= MaxCallsPerEpisode l * length (starts iv uid);
  bu_started : forall uid e, iv_episodes iv !! uid = Some e ->
    ep_Started e ∈ starts iv uid /\ ep_Deadline e = Add (ep_Started e) (EpisodeDeadline l);
  bu_inside : forall uid t, t ∈ calls iv uid -> exists s, s ∈ starts iv uid /\ Before t (Add s (EpisodeDeadline l)) = true;
}.

Lemma budgeted_start iv uid key class p now :
  budgeted iv ->
  budgeted (log_event (EvStart uid now) (count inc_EpisodesStarted
    (set_progress p (put_episode uid (new_episode l key uid class now) iv)))).
Proof.
  intros [Hc Hs Hi]. split; intros u; rewrite ?starts_log, ?calls_log; cbn.
  - rewrite app_nil_r. specialize (Hc u). destruct (decide (uid = u)) as [->|Hne].
    + rewrite lookup_insert_eq, length_app, Nat.mul_add_distr_l. unfold calls, starts in Hc. cbn. lia.
    + rewrite lookup_insert_ne, app_nil_r by done. done.
  - intros e. destruct (decide (uid = u)) as [->|Hne].
    + rewrite lookup_insert_eq. intros [= <-]. cbn. split; [set_solver|done].
    + rewrite lookup_insert_ne, app_nil_r by done. apply Hs.
  - intros t. rewrite app_nil_r. intros Ht. destruct (Hi u t Ht) as (s & ? & ?). exists s. split; [set_solver|done].
Qed.

Lemma budgeted_call iv uid e q now :
  budgeted iv -> iv_episodes iv !! uid = Some e -> ep_Calls e < MaxCallsPerEpisode l -> Before now (ep_Deadline e) = true ->
  budgeted (log_event (EvCall uid q now) (count inc_Dispatched
    (put_episode uid (count_call (ak_Slot (rq_Key (q_Request q))) e) iv))).
Proof.
  intros [Hc Hs Hi] He Hlt Hb. destruct (Hs _ _ He) as [Hin Hd].
  split; intros u; rewrite ?starts_log, ?calls_log; cbn; rewrite ?app_nil_r.
  - specialize (Hc u). destruct (decide (uid = u)) as [->|Hne].
    + rewrite lookup_insert_eq, length_app. rewrite He in Hc. unfold calls, starts in Hc. cbn in *. lia.
    + rewrite lookup_insert_ne, app_nil_r by done. done.
  - intros e'. destruct (decide (uid = u)) as [->|Hne].
    + rewrite lookup_insert_eq. intros [= <-]. done.
    + rewrite lookup_insert_ne by done. apply Hs.
  - intros t [Ht|Ht]%elem_of_app; [by apply Hi|]. destruct (decide (uid = u)) as [->|]; [|nil_elem].
    apply list_elem_of_singleton in Ht as ->. exists (ep_Started e). by rewrite <- Hd.
Qed.

Lemma admit_frame o iv :
  iv_episodes (accept l o iv).2 = iv_episodes iv /\ iv_log (accept l o iv).2 = iv_log iv /\ iv_tick (accept l o iv).2 = iv_tick iv.
Proof. unfold accept. cbv zeta. repeat case_match; done. Qed.

Lemma step_budgeted base qs iv iv' : budgeted iv -> step w l base qs iv iv' -> budgeted iv'.
Proof.
  intros Hb Hs. destruct Hs; try (by destruct Hb); [| |by apply budgeted_start|by eapply budgeted_call].
  - destruct Hb as [Hc Hst Hi]. destruct (admit_frame (observation_of (q_Request q) res after) iv) as (He & Hl & _).
    split; unfold starts, calls; rewrite ?He, Hl; done.
  - destruct Hb as [Hc Hst Hi]. split; cbn; [|intros uid e' (e & He & [])%H1|done].
    + intros uid. etrans; [|apply (Hc uid)]. apply Nat.add_le_mono_l. cbn.
      destruct (es !! uid) as [e'|] eqn:He'; [|cbn; lia]. destruct (H1 _ _ He') as (e & -> & []).
      cbn. rewrite an_Calls. lia.
    + destruct (Hst _ _ He). rewrite an_Started, an_Deadline. done.
Qed.

(** C9. Over any number of runs, whatever the clock, the contexts and the
    providers answer, the calls made for a target are at most
    [MaxCallsPerEpisode] for each episode begun for it, and each was sent
    before the deadline of an episode begun for it. *)
Theorem calls_budgeted iv uid :
  reached iv ->
  length (calls iv uid) <= MaxCallsPerEpisode l * length (starts iv uid) /\
  (forall t, t ∈ calls iv uid -> exists s, s ∈ starts iv uid /\ Before t (Add s (EpisodeDeadline l)) = true).
Proof.
  intros Hr. assert (budgeted iv) as [Hc _ Hi].
  { revert iv Hr. apply reached_ind; [|intros; by eapply step_budgeted]. split; cbn; try done; [intros; rewrite lookup_empty; cbn; lia|].
    intros uid' t Ht. nil_elem. }
  split; [specialize (Hc uid); lia|apply Hi].
Qed.

Section cadence.
Hypothesis clock_mono : forall n, (clock w n <= clock w (S n))%Z.

Lemma clock_le n m : n <= m -> (clock w n <= clock w m)%Z.
Proof. induction 1 as [|m _ IH]; [done|]. specialize (clock_mono m). lia. Qed.

(** [t] no longer holds back a new episode. *)
Definition over_since (iv : Investigator) (t : Time) : Prop :=
  forall n, iv_tick iv <= S n -> (Add t (EpisodeCooldown l) <= clock w n)%Z.

Record spaced (iv : Investigator) : Prop := {
  sp_gap : forall uid i t t', starts iv uid !! i = Some t -> starts iv uid !! S i = Some t' -> (Add t (EpisodeCooldown l) <= t')%Z;
  sp_last : forall uid, match iv_episodes iv !! uid with
    | Some e => last (starts iv uid) = Some (ep_Started e)
    | None => forall t, last (starts iv uid) = Some t -> over_since iv t
    end;
}.

Lemma spaced_start iv uid key class p now :
  spaced iv -> just_read w iv now -> denied l now (iv_episodes iv !! uid) = false ->
  spaced (log_event (EvStart uid now) (count inc_EpisodesStarted
    (set_progress p (put_episode uid (new_episode l key uid class now) iv)))).
Proof.
  intros [Hg Hl] (n & Hn & ->) Hd. split; intros u; rewrite ?starts_log; unfold starts in *; cbn.
  - destruct (decide (uid = u)) as [->|]; [|rewrite app_nil_r; apply Hg].
    intros i t t' Hi Hi'. destruct (decide (S i < length (omap (start_of u) (iv_log iv)))) as [Hlt|Hge].
    { rewrite lookup_app_l in Hi, Hi' by lia. eauto. }
    apply lookup_lt_Some in Hi' as Hlen. rewrite length_app in Hlen; cbn in Hlen.
    assert (length (omap (start_of u) (iv_log iv)) = S i) as Hlen' by lia.
    rewrite lookup_app_l in Hi by lia. rewrite lookup_app_r, Hlen', Nat.sub_diag in Hi' by lia. injection Hi' as <-.
    assert (last (omap (start_of u) (iv_log iv)) = Some t) as Hlast by by rewrite last_lookup, Hlen'.
    specialize (Hl u). destruct (iv_episodes iv !! u) as [e|]; [|apply Hl; [done|lia]].
    rewrite Hlast in Hl. injection Hl as ->. cbn in Hd. unfold cooled, Before in Hd.
    apply negb_false_iff, negb_true_iff, Z.ltb_ge in Hd. done.
  - destruct (decide (uid = u)) as [->|Hne]; [by rewrite lookup_insert_eq, last_snoc|].
    rewrite lookup_insert_ne, app_nil_r by done. apply Hl.
Qed.

Lemma step_spaced base qs iv iv' : spaced iv -> step w l base qs iv iv' -> spaced iv'.
Proof.
  intros Hb Hs. destruct Hs; try (by destruct Hb); [| | |by eapply spaced_start|].
  - destruct Hb as [Hg Hl]. split; [done|]. intros uid. specialize (Hl uid). cbn. destruct (iv_episodes iv !! uid); [done|].
    intros t Ht n Hn. apply (Hl t Ht). cbn in Hn. lia.
  - destruct Hb as [Hg Hl]. destruct (admit_frame (observation_of (q_Request q) res after) iv) as (He & Hlg & Ht).
    split; unfold starts, over_since; rewrite ?He, Hlg, ?Ht; done.
  - destruct Hb as [Hg Hl]. split; [done|]. intros uid. cbn. specialize (Hl uid).
    destruct (es !! uid) as [e'|] eqn:He'.
    + destruct (H1 _ _ He') as (e & He & []). rewrite He in Hl. by rewrite an_Started.
    + intros t Ht. destruct (iv_episodes iv !! uid) as [e|] eqn:He; [|by apply Hl].
      destruct (H2 _ _ He He') as (now & (m & Hm & ->) & Hc). unfold starts in *. cbn in Ht. rewrite Ht in Hl.
      injection Hl as ->. intros n Hn. cbn in Hn. unfold cooled, Before in Hc. apply negb_true_iff, Z.ltb_ge in Hc.
      etrans; [exact Hc|]. apply clock_le. lia.
  - destruct Hb as [Hg Hl]. split; intros u; rewrite ?starts_log; cbn; rewrite app_nil_r; [apply Hg|].
    specialize (Hl u). destruct (decide (uid = u)) as [->|]; [|by rewrite lookup_insert_ne].
    rewrite lookup_insert_eq. by rewrite H1 in Hl.
Qed.

(** Over any number of runs with a clock that never goes back, two
    episodes of one target begin at least [EpisodeCooldown] apart, whatever
    happened between them: a new identity or binding, the target's absence, the
    record forgotten, any outcome. *)
Theorem starts_spaced iv uid i t t' :
  reached iv -> starts iv uid !! i = Some t -> starts iv uid !! S i = Some t' -> (Add t (EpisodeCooldown l) <= t')%Z.
Proof.
  intros Hr. assert (spaced iv) as [Hg _]; [|apply Hg].
  revert iv Hr. apply reached_ind; [|intros; by eapply step_spaced].
  split; [done|]. intros u. cbn. by rewrite lookup_empty.
Qed.
End cadence.

(** ** Authority *)
Definition authorized_key (qs : Queries) (k : ApplicabilityKey) : Prop :=
  exists uid q, authorized qs uid q /\ rq_Key (q_Request q) = k.

(** What the rest of a run may hold and do. *)
Definition lawful (qs : Queries) (ev : Event) : Prop :=
  match ev with EvStart uid _ => is_Some (qs !! uid) | EvCall uid q _ => authorized qs uid q end.

Record confined (qs : Queries) (log0 : list Event) (iv : Investigator) : Prop := {
  co_held : forall k, is_Some (iv_held iv !! k) -> authorized_key qs k;
  co_log : exists new, iv_log iv = log0 ++ new /\ Forall (lawful qs) new;
}.

Lemma observation_key req res at_ : o_Key (observation_of req res at_) = rq_Key req.
Proof. unfold observation_of. by destruct (nonempty _). Qed.

Lemma admit_keys o iv k : is_Some (iv_held (accept l o iv).2 !! k) -> k = o_Key o \/ is_Some (iv_held iv !! k).
Proof.
  destruct (decide (k = o_Key o)) as [->|Hne]; [by left|right].
  unfold accept in *. cbv zeta in *. repeat case_match; cbn in *; rewrite ?lookup_insert_ne in * by done; done.
Qed.

Lemma log_confined qs log0 ev iv : confined qs log0 iv -> lawful qs ev -> confined qs log0 (log_event ev iv).
Proof.
  intros [Hh (new & Hl & Hf)] He. split; [done|]. exists (new ++ [ev]). cbn. rewrite Hl, app_assoc. split; [done|].
  apply Forall_app_2; [done|by repeat constructor].
Qed.

Lemma step_confined base qs log0 iv iv' : confined qs log0 iv -> step w l base qs iv iv' -> confined qs log0 iv'.
Proof.
  intros Hc Hs. destruct Hs; try (by destruct Hc).
  - destruct Hc as [Hh Hl]. split; [|done]. intros k [hs [Hk _]%map_lookup_filter_Some]. apply Hh. by exists hs.
  - destruct Hc as [Hh Hl]. set (o := observation_of _ _ _). destruct (admit_frame o iv) as (_ & Hlog & _).
    split; [|by rewrite Hlog]. intros k [-> |Hk]%admit_keys; [|by apply Hh].
    exists uid, q. split; [done|]. unfold o. by rewrite observation_key.
  - apply log_confined; [|done]. by destruct Hc.
  - apply log_confined; [|done]. by destruct Hc.
Qed.

Lemma purge_confined qs iv : wf_queries qs -> confined qs (iv_log iv) (purge w l qs iv).
Proof.
  intros Hwf. split; [|exists []; rewrite app_nil_r; done].
  intros k [hs Hk]. cbn in Hk. apply map_lookup_filter_Some in Hk as [_ HK]. cbn in HK.
  apply elem_of_list_to_set, list_elem_of_bind in HK as ([uid slots] & HK & Huid%elem_of_map_to_list).
  apply list_elem_of_fmap in HK as ([slot q] & -> & Hq%elem_of_map_to_list). cbn in *.
  exists uid, q. split; [|done]. exists slots. split; [done|]. by rewrite (Hwf _ _ Huid _ _ Hq).
Qed.

Lemma Run_confined base qs iv iv' :
  wf_queries qs -> Run w l base qs iv = Some iv' ->
  exists valid : Queries,
    (forall uid slots, valid !! uid = Some slots ->
       qs !! uid = Some slots /\ is_Some (valid_target base (tick iv) (clock w (iv_tick iv)) uid)) /\
    (forall k, is_Some (iv_held iv' !! k) -> authorized_key valid k) /\
    exists new, iv_log iv' = iv_log iv ++ new /\ Forall (lawful valid) new.
Proof.
  intros Hwf Hr. destruct (Run_split w l base qs iv iv' Hwf Hr) as (out & iv1 & Hv & Hs).
  pose proof (validOnly_steps w l base qs iv) as Hvo. rewrite Hv in Hvo. destruct Hvo as (_ & Hsub & Hval).
  assert (iv_log iv1 = iv_log iv) as Hlog by (unfold validOnly in Hv; cbn in Hv; by simplify_eq).
  exists out. split.
  { intros uid slots Hu. split; [by eapply lookup_weaken|]. apply Hval. by exists slots. }
  assert (confined out (iv_log iv1) (purge w l out iv1)) as Hc.
  { apply purge_confined. intros u slots Hu. eapply Hwf, lookup_weaken; eauto. }
  rewrite <- Hlog. assert (confined out (iv_log iv1) iv') as [? ?]; [|done].
  clear Hr Hv Hlog Hval. induction Hs; eauto using step_confined.
Qed.

(** C10. After a run, evidence is held only for keys of queries of targets
    that were given to the run and that the assessment found valid at its
    start; and in the run an episode was begun only for such a target, and a
    call sent only for a query of one, to the provider and for the key of that
    query. *)
Theorem Run_authorized base qs iv iv' :
  wf_queries qs -> Run w l base qs iv = Some iv' ->
  exists valid : Queries,
    (forall uid slots, valid !! uid = Some slots ->
       qs !! uid = Some slots /\ is_Some (valid_target base (tick iv) (clock w (iv_tick iv)) uid)) /\
    (forall k, is_Some (iv_held iv' !! k) -> authorized_key valid k) /\
    exists new, iv_log iv' = iv_log iv ++ new /\ Forall (lawful valid) new.
Proof. apply Run_confined. Qed.
End spec.
