(* ===== verification/InvestigatorSelect.v ===== *)
(** * What the investigator asks, keeps and waits for (pkg/investigate)

    The choice of the next query, the hypotheses kept in an episode, the order
    of the statements about one key, and the time of the next wake-up. *)

From S2P Require Import Prelude Identity Predicate Contract Assessment Evaluator Candidates.
From S2P Require Import Investigator.
From S2P Require Import InvestigatorSteps.

(** ** The orders *)
#[export] Instance slot_before_strict_weak seq : StrictWeak (slot_before seq).
Proof. apply (ranked_strict_weak (seq_of seq)), _. Qed.

#[export] Instance by_id_strict_weak : StrictWeak by_id.
Proof.
  apply (key_strict_weak (fun c => [ca_ID c])). intros x y. unfold by_id. cbn.
  case_decide as E; [rewrite E; apply string_ltb_irrefl|done].
Qed.

#[export] Instance by_recency_strict_weak seq : StrictWeak (by_recency seq).
Proof. apply (ranked_strict_weak (fun c => seq_of seq (ca_Ref c))), _. Qed.

(** ** The queries of a snapshot *)
Section requests.
Variables (s : Snapshot) (subjects : gmap string ProviderSubject) (registered : ProviderIdentity -> bool).

(** The query of one binding of a target, and what permits it. *)
Definition granted (t : Target) (slot : string) (q : Query) : Prop :=
  exists subj c b sl, subjects !! ti_UID (t_Identity t) = Some subj /\ sj_ResolvedUID subj = t_ResolvedUID t /\
    contract_index s (t_ContractRef t) = Some c /\ b ∈ t_AssertionBindings t /\ ab_Slot b = slot /\
    slotOf c slot = Some sl /\ registered (ab_Provider b) = true /\
    q = Build_Query
          (Build_Request (Build_ApplicabilityKey (t_Identity t) (t_ResolvedUID t) (t_ContractRef t) slot (ab_Provider b))
             subj (s_Type sl)) (ab_Provider b) (s_MaxAge sl).

Definition granted_slots (uid : string) (slots : gmap string Query) : Prop :=
  forall slot q, slots !! slot = Some q -> exists t, t ∈ Targets s /\ ti_UID (t_Identity t) = uid /\ granted t slot q.

Lemma request_binding_granted t subj c slots b :
  t ∈ Targets s -> subjects !! ti_UID (t_Identity t) = Some subj -> sj_ResolvedUID subj = t_ResolvedUID t ->
  contract_index s (t_ContractRef t) = Some c -> b ∈ t_AssertionBindings t ->
  granted_slots (ti_UID (t_Identity t)) (default ∅ slots) ->
  granted_slots (ti_UID (t_Identity t)) (default ∅ (request_binding registered t subj c slots b)).
Proof.
  intros Ht Hs Hr Hc Hb Hg. unfold request_binding. destruct (slotOf c (ab_Slot b)) as [sl|] eqn:Hsl; [|done].
  destruct (registered (ab_Provider b)) eqn:Hreg; cbn [negb default from_option id]; [|done].
  intros slot q. destruct (decide (slot = ab_Slot b)) as [->|Hne].
  - rewrite lookup_insert_eq. intros [= <-]. exists t. split; [done|]. split; [done|]. by exists subj, c, b, sl.
  - rewrite lookup_insert_ne by done. apply Hg.
Qed.

Lemma request_bindings_granted t subj c bs slots :
  t ∈ Targets s -> subjects !! ti_UID (t_Identity t) = Some subj -> sj_ResolvedUID subj = t_ResolvedUID t ->
  contract_index s (t_ContractRef t) = Some c -> (forall b, b ∈ bs -> b ∈ t_AssertionBindings t) ->
  granted_slots (ti_UID (t_Identity t)) (default ∅ slots) ->
  granted_slots (ti_UID (t_Identity t)) (default ∅ (foldl (request_binding registered t subj c) slots bs)).
Proof.
  intros Ht Hs Hr Hc. revert slots. induction bs as [|b bs IH]; intros slots Hbs Hg; cbn [foldl]; [done|].
  apply IH; [set_solver|]. apply request_binding_granted; try done. set_solver.
Qed.

Lemma request_target_granted out t :
  t ∈ Targets s -> (forall uid slots, out !! uid = Some slots -> granted_slots uid slots) ->
  forall uid slots, request_target s subjects registered out t !! uid = Some slots -> granted_slots uid slots.
Proof.
  intros Ht Hout. unfold request_target. destruct (subjects !! _) as [subj|] eqn:Hs; [|done].
  destruct (bool_decide _) eqn:Hr; cbn [negb]; [|done]. apply bool_decide_eq_true in Hr.
  destruct (contract_index _ _) as [c|] eqn:Hc; [|done].
  destruct (foldl _ _ _) as [slots'|] eqn:Hf; [|done].
  intros uid slots. destruct (decide (uid = ti_UID (t_Identity t))) as [->|Hne].
  - rewrite lookup_insert_eq. intros [= <-].
    pose proof (request_bindings_granted t subj c (t_AssertionBindings t) (out !! ti_UID (t_Identity t)) Ht Hs Hr Hc) as Hg.
    rewrite Hf in Hg. cbn in Hg. apply Hg; [done|].
    destruct (out !! ti_UID (t_Identity t)) eqn:Ho; cbn; [by apply Hout|]. intros slot q Hq. by rewrite lookup_empty in Hq.
  - rewrite lookup_insert_ne by done. apply Hout.
Qed.

Lemma Requests_slots uid slots : Requests s subjects registered !! uid = Some slots -> granted_slots uid slots.
Proof.
  unfold Requests. set (out := ∅ : Queries).
  assert (forall u sl, out !! u = Some sl -> granted_slots u sl) as Hout by (intros u sl; unfold out; by rewrite lookup_empty).
  clearbody out. assert (forall t, t ∈ Targets s -> t ∈ Targets s) as Hin by done.
  revert Hin Hout. generalize (Targets s) at 1 3. intros ts. revert out.
  induction ts as [|t ts IH]; intros out Hin Hout; cbn [foldl]; [apply Hout|].
  apply IH; [set_solver|]. apply request_target_granted; [apply Hin; set_solver|done].
Qed.

Lemma Requests_wf : wf_queries (Requests s subjects registered).
Proof.
  intros uid slots Hu slot q Hq. destruct (Requests_slots _ _ Hu _ _ Hq) as (t & _ & _ & ? & ? & ? & ? & H').
  destruct_and! H'. by subst.
Qed.

(** A query exists only where a target of the snapshot binds a slot of
    its contract to a registered provider and the observed subject is the
    object the target resolved to; the query is for exactly that identity,
    contract, slot and provider. *)
Theorem Requests_granted uid slots slot q :
  Requests s subjects registered !! uid = Some slots -> slots !! slot = Some q ->
  exists t, t ∈ Targets s /\ ti_UID (t_Identity t) = uid /\ granted t slot q.
Proof. intros Hu. by apply Requests_slots. Qed.
End requests.

Section select.
Context `{GoText} `{SortSlice}.
Variables (w : World) (l : Limits).

(** ** Selection *)
Section query.
Variables (iv : Investigator) (ta : TargetAssessment) (c : Contract) (cands : list Candidate)
  (slots : gmap string Query) (dispatched : gset string) (seq : gmap string N) (now : Time).

(** A query that would decide an open hypothesis. *)
Definition undecided (s : string) : Prop :=
  is_Some (slots !! s) /\ (s ∉ dispatched) /\ evidence_current ta s = false /\ 0 < openBySlot cands s.

(** Current evidence that is read and due for refresh. *)
Definition due (s : string) : Prop :=
  exists q t, slots !! s = Some q /\ (s ∉ dispatched) /\ evidence_current ta s = true /\
    s ∈ usedSlots c (ta_EnvelopeSelection ta) /\ refreshDue l iv q = Some t /\ (t <= now)%Z.

Definition score (s : string) : nat :=
  if bool_decide (s ∈ dispatched) || evidence_current ta s then 0 else openBySlot cands s.

Lemma undecided_score s : undecided s <-> is_Some (slots !! s) /\ 0 < score s.
Proof.
  unfold undecided, score. destruct (bool_decide (s ∈ dispatched)) eqn:Hd; cbn [orb].
  - apply bool_decide_eq_true in Hd. split; [by intros (? & ? & _)|intros [_ ?]; lia].
  - apply bool_decide_eq_false in Hd. destruct (evidence_current ta s); [|naive_solver].
    split; [by intros (? & ? & ? & _)|intros [_ ?]; lia].
Qed.

Lemma score_open s : 0 < score s -> score s = openBySlot cands s.
Proof. unfold score. destruct (_ || _); [lia|done]. Qed.

Lemma best_step_score b n s : best_step ta cands dispatched (b, n) s = if n <? score s then (s, score s) else (b, n).
Proof. unfold best_step, score. by destruct (_ || _). Qed.

Lemma best_first names :
  let '(b, n) := foldl (best_step ta cands dispatched) ("", 0) names in
  (b = "" /\ n = 0 /\ forall s, s ∈ names -> score s = 0) \/
  (0 < n /\ score b = n /\ exists pre post, names = pre ++ b :: post /\
     (forall s, s ∈ pre -> score s < n) /\ (forall s, s ∈ post -> score s <= n)).
Proof.
  induction names as [|s names IH] using rev_ind; [left; cbn; split_and!; [done..|]; intros s Hs; nil_elem|].
  rewrite foldl_snoc. destruct (foldl _ _ names) as [b n]. rewrite best_step_score.
  destruct (Nat.ltb_spec n (score s)) as [Hlt|Hge].
  - right. split; [lia|]. split; [done|]. exists names, []. split; [done|]. split; [|intros s' Hs'; nil_elem].
    destruct IH as [(-> & -> & Hz)|(Hn & Hb & pre & post & -> & Hpre & Hpost)]; intros s' Hs'; [by rewrite Hz|].
    apply elem_of_app in Hs' as [?%Hpre|[->|?%Hpost]%elem_of_cons]; lia.
  - destruct IH as [(-> & -> & Hz)|(Hn & Hb & pre & post & -> & Hpre & Hpost)].
    + left. split_and!; [done..|]. intros s' [?|Hs']%elem_of_app; [by apply Hz|]. apply list_elem_of_singleton in Hs' as ->. lia.
    + right. split; [done|]. split; [done|]. exists pre, (post ++ [s]). split; [by rewrite <- app_assoc|].
      split; [done|]. intros s' [?|Hs']%elem_of_app; [by apply Hpost|]. by apply list_elem_of_singleton in Hs' as ->.
Qed.

Lemma refresh_ready_due s :
  refresh_ready l iv ta (usedSlots c (ta_EnvelopeSelection ta)) slots dispatched now s = true <-> due s.
Proof.
  unfold refresh_ready, due. split.
  - destruct (bool_decide (s ∈ dispatched)) eqn:Hd; [done|]. apply bool_decide_eq_false in Hd.
    destruct (evidence_current ta s); [|done]. cbn [orb negb].
    destruct (bool_decide (s ∈ usedSlots _ _)) eqn:Hu; [|done]. apply bool_decide_eq_true in Hu. cbn [negb].
    destruct (slots !! s) as [q|]; [|done]. destruct (refreshDue l iv q) as [t|] eqn:Ht; [|done].
    unfold Before. intros Hb%negb_true_iff%Z.ltb_ge. by exists q, t.
  - intros (q & t & Hq & Hd & Hc & Hu & Ht & Hle). rewrite bool_decide_eq_false_2, Hc, bool_decide_eq_true_2, Hq, Ht by done.
    cbn. unfold Before. by apply negb_true_iff, Z.ltb_ge.
Qed.

(** C12. The next query is one that decides an open hypothesis whenever
    there is one: among those for slots without current evidence, not yet asked
    in the episode, the one that decides the most, then the one asked longest
    ago, then the first by name.  Only otherwise is current evidence refreshed,
    of a slot that is read and is due, the one asked longest ago; and nothing
    is asked exactly when there is neither. *)
Theorem selectQuery_spec :
  slots !! "" = None ->
  match selectQuery l iv ta c cands slots dispatched seq now with
  | Some (q, classInvestigate) =>
      exists s, slots !! s = Some q /\ undecided s /\
        forall s', undecided s' -> openBySlot cands s' <= openBySlot cands s /\
          (openBySlot cands s' = openBySlot cands s -> slot_before seq s' s = false)
  | Some (q, classRefresh) =>
      (forall s', ~ undecided s') /\
      exists s, slots !! s = Some q /\ due s /\ forall s', due s' -> slot_before seq s' s = false
  | None => (forall s', ~ undecided s') /\ (forall s', ~ due s')
  end.
Proof.
  intros Hempty. unfold selectQuery. pose proof (best_first (slot_names slots seq)) as Hb.
  pose proof (sort_slice_sorted _ _ (elements (dom slots)) (slot_before_strict_weak seq)) as Hsort.
  change (sort_slice _ _) with (slot_names slots seq) in Hsort.
  assert (forall s, is_Some (slots !! s) -> s ∈ slot_names slots seq) as Hin by (intros s ?; by apply slot_names_spec).
  destruct (foldl _ _ _) as [b n]. destruct Hb as [(-> & -> & Hz)|(Hn & Hb & pre & post & Heq & Hpre & Hpost)].
  - assert (forall s', ~ undecided s') as Hnone.
    { intros s' [Hs Hsc]%undecided_score. rewrite Hz in Hsc by by apply Hin. lia. }
    cbn [nonempty negb]. destruct (nonempty "") eqn:Hne; [done|].
    destruct (List.find _ _) as [s|] eqn:Hf.
    + apply find_first in Hf as (Hr & pre & post & Heq & Hpre). pose proof Hr as Hdue. apply refresh_ready_due in Hdue.
      destruct Hdue as (q & t & Hq & Hrest). rewrite Hq. cbn. split; [done|]. exists s. split; [done|].
      split; [by exists q, t|]. intros s' Hd. pose proof Hd as (q' & t' & Hq' & _).
      assert (s' ∈ slot_names slots seq) as Hs' by (apply Hin; by exists q').
      rewrite Heq in Hs', Hsort. apply elem_of_app in Hs' as [Hs'|[->|Hs']%elem_of_cons].
      * apply Hpre in Hs'. apply refresh_ready_due in Hd. congruence.
      * apply sw_irrefl.
      * apply (sorted_after _ _ _ _ _ Hsort Hs').
    + split; [done|]. intros s' Hd. pose proof Hd as (q' & t' & Hq' & _). apply refresh_ready_due in Hd.
      eapply find_None_elem in Hf; [|apply Hin; by exists q']. congruence.
  - assert (is_Some (slots !! b)) as [q Hq] by (apply (slot_names_spec slots seq); rewrite Heq; set_solver).
    destruct (nonempty b) eqn:Hne; [|destruct b; [congruence|done]]. rewrite Hq. cbn.
    exists b. split; [done|]. rewrite <- Hb in Hn. split; [apply undecided_score; split; [by exists q|done]|].
    intros s' [Hs Hsc]%undecided_score. rewrite <- !score_open by done.
    apply Hin in Hs. rewrite Heq in Hs, Hsort. apply elem_of_app in Hs as [Hs|[->|Hs]%elem_of_cons].
    + apply Hpre in Hs. lia.
    + split; [done|]. intros _. apply sw_irrefl.
    + split; [rewrite Hb; by apply Hpost|]. intros _. apply (sorted_after _ _ _ _ _ Hsort Hs).
Qed.
End query.

(** ** The hypotheses kept *)
(** An episode keeps as many of the derived hypotheses as fit.  Those
    that a registered query could decide come first: all of them are kept if
    they fit, and otherwise nothing else is, and none left out was asked longer
    ago than one that is kept. *)
Theorem boundCandidates_spec full queryable seq max :
  let kept := boundCandidates full queryable seq max in
  (exists dropped, kept ++ dropped ≡ₚ full /\
     forall d k, d ∈ dropped -> k ∈ kept -> is_reserved queryable d = true ->
       is_reserved queryable k = true /\ by_recency seq d k = false) /\
  length kept = Nat.min max (length full).
Proof.
  unfold boundCandidates. destruct (Nat.leb_spec (length full) max) as [Hle|Hgt].
  { split; [exists []; rewrite app_nil_r; split; [done|]; intros d k Hd; nil_elem|lia]. }
  set (reserved := List.filter _ full). set (rest := List.filter _ full).
  set (order := slice_stable (by_recency seq) reserved ++ rest).
  assert (order ≡ₚ full) as Hperm.
  { unfold order. rewrite slice_stable_perm. apply filter_split_perm. }
  rewrite length_sort_slice, length_take, Hperm. split; [|done].
  exists (drop max order). rewrite sort_slice_perm, take_drop. split; [done|].
  intros d k Hd Hk Hr. rewrite elem_of_sort_slice in Hk.
  assert (forall x, x ∈ rest -> is_reserved queryable x = false) as Hrest.
  { intros x [_ Hx]%elem_of_lfilter. by apply negb_true_iff. }
  assert (forall x, x ∈ slice_stable (by_recency seq) reserved -> is_reserved queryable x = true) as Hres.
  { intros x. rewrite slice_stable_perm. by intros [_ ?]%elem_of_lfilter. }
  unfold order in Hd, Hk. rewrite drop_app in Hd. rewrite take_app in Hk.
  apply elem_of_app in Hd as [Hd|Hd]; [|apply (elem_of_submseteq _ rest) in Hd; [|apply sublist_submseteq, sublist_drop];
    rewrite Hrest in Hr by done; done].
  assert (max < length (slice_stable (by_recency seq) reserved)) as Hmax.
  { destruct (decide (max < length (slice_stable (by_recency seq) reserved))); [done|].
    rewrite drop_ge in Hd by lia. nil_elem. }
  replace (max - length (slice_stable (by_recency seq) reserved)) with 0 in Hk by lia.
  cbn in Hk. rewrite app_nil_r in Hk. split.
  - apply Hres. apply (elem_of_submseteq _ _ _ Hk), sublist_submseteq, sublist_take.
  - pose proof (slice_stable_sorted (by_recency seq) reserved) as Hs.
    rewrite <- (take_drop max (slice_stable (by_recency seq) reserved)) in Hs.
    by eapply StronglySorted_app_1_elem_of in Hs.
Qed.

(** ** The order of the statements about one key *)
Definition admit_all (os : list Observation) (iv : Investigator) : Investigator :=
  foldl (fun iv o => (accept l o iv).2) iv os.

Definition is_value (o : Observation) : Prop := o_Outcome o = OutcomeValue.

(** An outage that no later value has ended: none is newer than every value
    before the outage. *)
Definition outage (os : list Observation) : Prop :=
  exists pre u post, os = pre ++ u :: post /\ ~ is_value u /\
    forall v, v ∈ post -> is_value v -> exists v', v' ∈ pre /\ is_value v' /\ (o_ObservedAt v <= o_ObservedAt v')%Z.

Definition newest (os : list Observation) (t : Time) : Prop :=
  (exists o, o ∈ os /\ is_value o /\ o_ObservedAt o = t) /\ (forall o, o ∈ os -> is_value o -> (o_ObservedAt o <= t)%Z).

Definition mark_of (os : list Observation) (mark : option Time) : Prop :=
  match mark with Some t => newest os t | None => forall o, o ∈ os -> ~ is_value o end.

(** What is held for a key after the statements [os]. *)
Record statements (os : list Observation) (held : list Observation) : Prop := {
  st_outage : outage os <-> exists u, held = [u] /\ ~ is_value u;
  st_held : forall h, h ∈ held -> h ∈ os;
  st_value : ~ outage os -> held <> [] /\ forall h, h ∈ held -> is_value h /\ newest os (o_ObservedAt h);
}.

Lemma outage_snoc_unavailable os o : ~ is_value o -> outage (os ++ [o]).
Proof. intros Ho. exists os, o, []. split; [done|]. split; [done|]. intros v Hv. nil_elem. Qed.

(** A value ends every outage exactly when it is newer than all before it. *)
Lemma outage_snoc os o :
  is_value o ->
  outage (os ++ [o]) <-> outage os /\ exists v', v' ∈ os /\ is_value v' /\ (o_ObservedAt o <= o_ObservedAt v')%Z.
Proof.
  intros Ho. split.
  - intros (pre & u & post & Heq & Hu & Hpost). destruct post as [|x post _] using rev_ind.
    { apply app_inj_tail in Heq as [_ ->]. done. }
    rewrite app_comm_cons, app_assoc in Heq. apply app_inj_tail in Heq as [-> <-].
    destruct (Hpost o) as (v' & Hv & ? & ?); [set_solver|done|]. split; [|exists v'; set_solver].
    exists pre, u, post. split; [done|]. split; [done|]. intros v Hin. apply Hpost. set_solver.
  - intros [(pre & u & post & -> & Hu & Hpost) (v' & Hv' & Hval & Hle)].
    exists pre, u, (post ++ [o]). split; [by rewrite <- app_assoc|]. split; [done|].
    intros v [Hv|Hv]%elem_of_app Hvv; [by apply Hpost|]. apply list_elem_of_singleton in Hv as ->.
    apply elem_of_app in Hv' as [Hv'|[->|Hv']%elem_of_cons]; [by exists v'|done|].
    destruct (Hpost v' Hv' Hval) as (v'' & ? & ? & ?). exists v''. split_and!; [done..|lia].
Qed.

Lemma newest_snoc os o t :
  newest os t -> (is_value o -> (o_ObservedAt o <= t)%Z) -> newest (os ++ [o]) t.
Proof.
  intros [(x & Hx & ?) Hall] Ho. split; [exists x; set_solver|].
  intros y [Hy|Hy]%elem_of_app Hv; [by apply Hall|]. apply list_elem_of_singleton in Hy as ->. auto.
Qed.

Lemma mark_of_snoc os o mark :
  mark_of os mark -> ~ is_value o -> mark_of (os ++ [o]) mark.
Proof.
  intros Hm Ho. destruct mark as [t|]; [by apply newest_snoc|].
  intros x [Hx|Hx]%elem_of_app; [by apply Hm|]. by apply list_elem_of_singleton in Hx as ->.
Qed.

Lemma newest_last os o :
  is_value o -> (forall x, x ∈ os -> is_value x -> (o_ObservedAt x <= o_ObservedAt o)%Z) -> newest (os ++ [o]) (o_ObservedAt o).
Proof.
  intros Ho Hall. split; [exists o; set_solver|].
  intros x [Hx|Hx]%elem_of_app Hv; [by apply Hall|]. by apply list_elem_of_singleton in Hx as ->.
Qed.

(** The three ways a statement changes what is held. *)
Lemma statements_unavailable os o : ~ is_value o -> statements (os ++ [o]) [o].
Proof.
  intros Ho. pose proof (outage_snoc_unavailable os o Ho). split; [|set_solver|done].
  split; [|done]. intros _. by exists o.
Qed.

Lemma statements_newer os o :
  is_value o -> (forall x, x ∈ os -> is_value x -> (o_ObservedAt x < o_ObservedAt o)%Z) -> statements (os ++ [o]) [o].
Proof.
  intros Ho Hnew. split; [|set_solver|].
  - rewrite outage_snoc by done. split; [|by intros (u & [= ->] & ?)].
    intros (_ & v & Hv & Hval & Hle). specialize (Hnew v Hv Hval). lia.
  - intros _. split; [done|]. intros h ->%list_elem_of_singleton. split; [done|]. apply newest_last; [done|].
    intros x Hx Hxv. specialize (Hnew x Hx Hxv). lia.
Qed.

Lemma statements_kept os o t hs hs' :
  is_value o -> newest os t -> (o_ObservedAt o <= t)%Z -> statements os hs ->
  hs' = hs \/ (hs' = hs ++ [o] /\ o_ObservedAt o = t /\ exists h, head hs = Some h /\ is_value h) ->
  statements (os ++ [o]) hs'.
Proof.
  intros Ho Hn Hle [Hout Hheld Hval] Hhs'. pose proof Hn as [(v' & Hv' & Hvv & Ht) _].
  assert (outage (os ++ [o]) <-> outage os) as Hiff.
  { rewrite outage_snoc by done. split; [tauto|]. intros ?. split; [done|]. exists v'. split_and!; [done..|lia]. }
  assert (forall h, newest os (o_ObservedAt h) -> newest (os ++ [o]) (o_ObservedAt h)) as Hup.
  { intros h Hh. apply newest_snoc; [done|]. destruct Hh as [_ Hall]. specialize (Hall v' Hv' Hvv). lia. }
  destruct Hhs' as [->|(-> & Hot & h0 & Hh0 & Hv0)].
  - split; [by rewrite Hiff| |].
    + intros h Hh. apply elem_of_app. left. auto.
    + rewrite Hiff. intros Hno. destruct (Hval Hno) as [? Hall]. split; [done|]. intros h Hh. destruct (Hall h Hh). auto.
  - assert (~ outage os) as Hno.
    { rewrite Hout. intros (u & -> & Hu). cbn in Hh0. by simplify_eq. }
    destruct (Hval Hno) as [_ Hall]. split.
    + rewrite Hiff. split; [done|]. intros (u & Heq & Hu). destruct hs; [done|]. by destruct hs.
    + intros h [Hh|Hh]%elem_of_app; apply elem_of_app; auto.
    + intros _. split; [by destruct hs|]. intros h [Hh|Hh]%elem_of_app.
      * destruct (Hall h Hh). auto.
      * apply list_elem_of_singleton in Hh as ->. split; [done|]. apply newest_snoc; [by rewrite Hot|lia].
Qed.

Lemma admit_new_key o iv k :
  o_Key o = k -> iv_held iv !! k = None -> size (iv_held iv) < MaxHeldObservations l -> iv_marks iv !! k = None ->
  iv_held (accept l o iv).2 !! k = Some [o] /\ statements [o] [o] /\ mark_of [o] (iv_marks (accept l o iv).2 !! k).
Proof.
  intros <- Hk Hroom Hm. unfold accept. cbv zeta. rewrite Hk.
  destruct (Nat.leb_spec (MaxHeldObservations l) (size (iv_held iv))); [lia|]. cbn. rewrite lookup_insert_eq. split; [done|].
  destruct (bool_decide (o_Outcome o = OutcomeValue)) eqn:Hv.
  - apply bool_decide_eq_true in Hv. rewrite lookup_insert_eq.
    split; [apply (statements_newer []); [done|]; intros x Hx; nil_elem|].
    apply (newest_last []); [done|]. intros x Hx; nil_elem.
  - apply bool_decide_eq_false in Hv. rewrite Hm. split; [by apply (statements_unavailable [])|].
    by intros x ->%list_elem_of_singleton.
Qed.

Lemma admit_known_key o iv k os hs :
  o_Key o = k -> iv_held iv !! k = Some hs -> statements os hs -> mark_of os (iv_marks iv !! k) ->
  exists hs', iv_held (accept l o iv).2 !! k = Some hs' /\ statements (os ++ [o]) hs' /\
    mark_of (os ++ [o]) (iv_marks (accept l o iv).2 !! k).
Proof.
  intros <- Hk Hst Hm. unfold accept. cbv zeta. rewrite Hk.
  destruct (bool_decide (o_Outcome o = OutcomeValue)) eqn:Hv; cbn [negb].
  2: { apply bool_decide_eq_false in Hv. cbn. rewrite lookup_insert_eq. exists [o]. split; [done|].
       split; [by apply statements_unavailable|by apply mark_of_snoc]. }
  apply bool_decide_eq_true in Hv.
  assert (forall t, newest os t -> (t < o_ObservedAt o)%Z ->
    forall x, x ∈ os -> is_value x -> (o_ObservedAt x < o_ObservedAt o)%Z) as Hlt.
  { intros t [_ Hall] Ht x Hx Hxv. specialize (Hall x Hx Hxv). lia. }
  destruct (iv_marks iv !! o_Key o) as [t|] eqn:Ht; cbn in Hm.
  2: { cbn. rewrite !lookup_insert_eq. exists [o]. split; [done|].
       split; [apply statements_newer; [done|]; intros x Hx Hxv; by destruct (Hm x Hx)|].
       apply newest_last; [done|]. intros x Hx Hxv. by destruct (Hm x Hx). }
  unfold After. destruct (Z.ltb_spec t (o_ObservedAt o)) as [Hgt|Hle].
  { cbn. rewrite !lookup_insert_eq. exists [o]. split; [done|]. split; [eauto using statements_newer|].
    apply newest_last; [done|]. intros x Hx Hxv. specialize (Hlt t Hm Hgt x Hx Hxv). lia. }
  assert (mark_of (os ++ [o]) (Some t)) as Hm' by by apply newest_snoc.
  destruct (_ && _ && _)%bool eqn:Hadd; cbn; rewrite ?lookup_insert_eq, ?Hk, Ht.
  - apply andb_true_iff in Hadd as [[[Hat%Z.eqb_eq Hhd]%andb_true_iff _]%andb_true_iff _]. cbn in Hat, Hhd.
    exists (hs ++ [o]). split; [done|]. split; [|done]. eapply statements_kept; eauto. right. split; [done|].
    split; [done|]. destruct hs as [|h hs]; [done|]. exists h. split; [done|].
    by apply andb_true_iff in Hhd as [?%bool_decide_eq_true _].
  - exists hs. split; [done|]. split; [|done]. eapply statements_kept; eauto.
Qed.

(** C11. Whatever statements arrive about a key not heard of before, for which
    there is room among the held observations, and in whatever order: an
    outage is held exactly until a value newer than every value before it
    arrives: no older or replayed value is fallen back to.  Otherwise what is
    held are values received, all of the newest stamp of all values received. *)
Theorem admit_order os iv k :
  os <> [] -> Forall (fun o => o_Key o = k) os ->
  iv_held iv !! k = None -> iv_marks iv !! k = None -> size (iv_held iv) < MaxHeldObservations l ->
  exists hs, iv_held (admit_all os iv) !! k = Some hs /\ statements os hs.
Proof.
  intros Hne Hkeys Hk Hm Hroom.
  assert (exists hs, iv_held (admit_all os iv) !! k = Some hs /\ statements os hs /\
    mark_of os (iv_marks (admit_all os iv) !! k)) as (hs & ? & ? & _); [|by exists hs].
  induction os as [|o os IH] using rev_ind; [done|]. clear Hne.
  apply Forall_app in Hkeys as [Hkeys [Ho _]%Forall_cons_1].
  unfold admit_all in *. rewrite foldl_snoc.
  destruct (decide (os = [])) as [->|Hos].
  - exists [o]. by apply admit_new_key.
  - destruct (IH Hos Hkeys) as (hs & Hhs & Hst & Hmk). by eapply admit_known_key.
Qed.

(** ** The next wake-up *)
Section wake.
Variables (iv : Investigator) (qs : Queries) (now : Time).
Hypothesis now_pos : (0 <= now)%Z.

(** An episode that the slice left unfinished and that can still go on. *)
Definition resumable (uid : string) (e : Episode) : Prop :=
  active e = true /\ Before now (ep_Deadline e) = true /\ exists slots, qs !! uid = Some slots /\ slots <> ∅.

Definition cooldown_end (e : Episode) : Time := Add (ep_Started e) (EpisodeCooldown l).

(** When a refresh of held evidence, or a new episode for unfinished work, may
    begin. *)
Definition refresh_at (uid : string) (q : Query) (t : Time) : Prop :=
  exists due, refreshDue l iv q = Some due /\
    t = match iv_episodes iv !! uid with Some e => Z.max due (cooldown_end e) | None => Z.max due 0 end.

Definition retry_at (uid : string) (e : Episode) (t : Time) : Prop :=
  is_Some (qs !! uid) /\ active e = false /\ workLeft (ep_State e) = true /\ t = cooldown_end e.

Definition pending (t : Time) : Prop :=
  (exists uid slots slot q, qs !! uid = Some slots /\ slots !! slot = Some q /\ refresh_at uid q t) \/
  (exists uid e, iv_episodes iv !! uid = Some e /\ retry_at uid e t).

(** [r] is the first future time of [P], or 0. *)
Definition first_of (P : Time -> Prop) (r : Time) : Prop :=
  (r = 0%Z /\ forall t, P t -> (t <= now)%Z) \/ ((now < r)%Z /\ P r /\ forall t, P t -> (now < t)%Z -> (r <= t)%Z).

Lemma first_of_iff P Q r : (forall t, P t <-> Q t) -> first_of P r -> first_of Q r.
Proof. intros Hpq [[-> Hr]|(? & ? & Hr)]; [left|right]; [|split; [done|]]; naive_solver. Qed.

Lemma consider_first P r t : first_of P r -> first_of (fun u => P u \/ u = t) (consider now r t).
Proof.
  intros Hr. unfold consider, After, Before, IsZero.
  destruct (Z.ltb_spec now t); cbn [andb].
  - destruct Hr as [[-> Hr]|(Hlt & Hp & Hr)].
    + rewrite bool_decide_eq_true_2 by done. cbn [orb]. right. split; [lia|]. split; [by right|].
      intros u [Hu| ->] Hu'; [specialize (Hr u Hu); lia|lia].
    + rewrite bool_decide_eq_false_2 by lia. cbn [orb]. right.
      destruct (Z.ltb_spec t r); split; try lia; (split; [auto|]); intros u [Hu| ->] Hu'; try lia; specialize (Hr u Hu Hu'); lia.
  - destruct Hr as [[-> Hr]|(Hlt & Hp & Hr)]; [left|right]; (split; [done|]).
    + intros u [Hu| ->]; [by apply Hr|lia].
    + split; [auto|]. intros u [Hu| ->] Hu'; [by apply Hr|lia].
Qed.

Lemma foldl_first {A} (f : Time -> A -> Time) (Q : A -> Time -> Prop) xs P r :
  (forall P r x, first_of P r -> first_of (fun t => P t \/ Q x t) (f r x)) ->
  first_of P r -> first_of (fun t => P t \/ exists x, x ∈ xs /\ Q x t) (foldl f r xs).
Proof.
  intros Hf. revert P r. induction xs as [|x xs IH]; intros P r Hr; cbn.
  - apply (first_of_iff P); [|done]. intros t. split; [by left|]. intros [?|(x & Hx & _)]; [done|nil_elem].
  - apply (first_of_iff (fun t => (P t \/ Q x t) \/ exists y, y ∈ xs /\ Q y t)); [|auto].
    intros t. setoid_rewrite elem_of_cons. naive_solver.
Qed.

Lemma refresh_first uid P r q :
  first_of P r -> first_of (fun t => P t \/ refresh_at uid q t) (consider_refresh l iv uid now r q).
Proof.
  intros Hr. unfold consider_refresh, refresh_at. destruct (refreshDue l iv q) as [due|].
  - eapply first_of_iff; [|apply consider_first, Hr]. cbn. intros t. unfold After, cooldown_end.
    split; (intros [?|Ht]; [by left|right]).
    + exists due. split; [done|]. rewrite Ht.
      destruct (iv_episodes iv !! uid); match goal with |- context [Z.ltb ?a ?b] => destruct (Z.ltb_spec a b) end; lia.
    + destruct Ht as (d & [= <-] & ->).
      destruct (iv_episodes iv !! uid); match goal with |- context [Z.ltb ?a ?b] => destruct (Z.ltb_spec a b) end; lia.
  - eapply first_of_iff; [|exact Hr]. intros t. split; [by left|]. by intros [?|(? & ? & _)].
Qed.

Lemma episodes_first eps P r :
  first_of P r ->
  (exists uid e, (uid, e) ∈ eps /\ resumable uid e) /\ consider_episodes l qs now eps r = now \/
  (forall uid e, (uid, e) ∈ eps -> ~ resumable uid e) /\
  first_of (fun t => P t \/ exists kv, kv ∈ eps /\ retry_at kv.1 kv.2 t) (consider_episodes l qs now eps r).
Proof.
  revert P r. induction eps as [|[uid e] eps IH]; intros P r Hr; cbn [consider_episodes].
  { right. split; [intros ?? Hin; nil_elem|]. eapply first_of_iff; [|exact Hr].
    intros t. split; [by left|]. intros [?|(x & Hx & _)]; [done|nil_elem]. }
  assert (forall P' r', first_of P' r' -> ~ resumable uid e ->
    (forall t, P' t <-> P t \/ retry_at uid e t) ->
    (exists u x, (u, x) ∈ (uid, e) :: eps /\ resumable u x) /\ consider_episodes l qs now eps r' = now \/
    (forall u x, (u, x) ∈ (uid, e) :: eps -> ~ resumable u x) /\
    first_of (fun t => P t \/ exists kv, kv ∈ (uid, e) :: eps /\ retry_at kv.1 kv.2 t) (consider_episodes l qs now eps r')) as Hgo.
  { intros P' r' Hr' Hno Hiff. destruct (IH P' r' Hr') as [[(u & x & Hin & Hres) Heq]|[Hnone Hf]].
    - left. split; [|done]. exists u, x. split; [by apply elem_of_cons; right|done].
    - right. split; [intros u x [[= -> ->]|Hin]%elem_of_cons; eauto|].
      eapply first_of_iff; [|exact Hf]. intros t. cbn. rewrite Hiff. setoid_rewrite elem_of_cons.
      split; [intros [[?|?]|(kv & ? & ?)]; [by left|right; by exists (uid, e); auto|right; by exists kv; auto]|].
      intros [?|(kv & [->|?] & ?)]; [by left; left|by left; right|right; by exists kv]. }
  assert (forall t, ~ retry_at uid e t -> P t <-> P t \/ retry_at uid e t) as Hsame by (intros; tauto).
  destruct (qs !! uid) as [slots|] eqn:Hq.
  2: { apply (Hgo P r Hr); [by intros (_ & _ & ? & ? & _); simplify_eq|]. intros t. apply Hsame. intros [[? ?] _]; by simplify_eq. }
  destruct (active e) eqn:Ha.
  - assert (forall t, ~ retry_at uid e t) as Hnr by (intros t (_ & ? & _); congruence).
    destruct (bool_decide (slots = ∅)) eqn:He; cbn [negb andb].
    + apply bool_decide_eq_true in He. apply (Hgo P r Hr); [intros (_ & _ & ? & ? & ?); congruence|auto].
    + apply bool_decide_eq_false in He. destruct (Before now (ep_Deadline e)) eqn:Hb.
      * left. split; [|done]. exists uid, e. split; [by apply elem_of_cons; left|]. split_and!; [done..|by exists slots].
      * apply (Hgo P r Hr); [intros (_ & ? & _); congruence|auto].
  - assert (~ resumable uid e) as Hnr by (intros (? & _); congruence).
    destruct (workLeft (ep_State e)) eqn:Hw.
    + apply (Hgo (fun u => P u \/ u = cooldown_end e)); [by apply consider_first|done|].
      intros t. unfold retry_at. rewrite Ha, Hw, Hq. split; [intros [?| ->]; [by left|right; eauto]|intros [?|(_ & _ & _ & ->)]; auto].
    + apply (Hgo P r Hr Hnr). intros t. apply Hsame. intros (_ & _ & ? & _). congruence.
Qed.

(** While an episode that can still go on is unfinished, the next wake-up
    is now.  Otherwise it is the first time after now at which a refresh of
    held evidence or, after an episode that stopped with work left, a new
    episode may begin; and 0 exactly when there is no such time. *)
Theorem NextWake_spec :
  (exists uid e, iv_episodes iv !! uid = Some e /\ resumable uid e) /\ NextWake l iv qs now = now \/
  (forall uid e, iv_episodes iv !! uid = Some e -> ~ resumable uid e) /\
  ((NextWake l iv qs now = 0%Z /\ forall t, pending t -> (t <= now)%Z) \/
   ((now < NextWake l iv qs now)%Z /\ pending (NextWake l iv qs now) /\
    forall t, pending t -> (now < t)%Z -> (NextWake l iv qs now <= t)%Z)).
Proof.
  unfold NextWake. set (r := foldl _ _ _).
  assert (first_of (fun t => False \/ exists kv, kv ∈ map_to_list qs /\
    exists q, q ∈ (map_to_list kv.2).*2 /\ refresh_at kv.1 q t) r) as Hr.
  { apply foldl_first; [|by left]. intros P r' [uid slots] Hr'. cbn. apply foldl_first; [|done].
    intros P' r'' q. apply refresh_first. }
  destruct (episodes_first (map_to_list (iv_episodes iv)) _ _ Hr) as [[(uid & e & Hin & Hres) Heq]|[Hnone Hf]].
  - left. split; [|done]. exists uid, e. split; [by apply elem_of_map_to_list|done].
  - right. split; [intros uid e He; apply Hnone; by apply elem_of_map_to_list|].
    eapply (first_of_iff _ pending) in Hf; [exact Hf|]. intros t. unfold pending. split.
    + intros [[[]|([uid slots] & Hin%elem_of_map_to_list & q & Hq & Ht)]|([uid e] & Hin%elem_of_map_to_list & Ht)].
      * apply list_elem_of_fmap in Hq as ([slot q'] & -> & Hq%elem_of_map_to_list). left. by exists uid, slots, slot, q'.
      * right. by exists uid, e.
    + intros [(uid & slots & slot & q & Hs & Hq & Ht)|(uid & e & He & Ht)].
      * left. right. exists (uid, slots). split; [by apply elem_of_map_to_list|]. exists q. split; [|done].
        apply list_elem_of_fmap. exists (slot, q). split; [done|]. by apply elem_of_map_to_list.
      * right. exists (uid, e). split; [by apply elem_of_map_to_list|done].
Qed.
End wake.
End select.
