(* ===== verification/DemoInvestigator.v ===== *)
(** * An investigation, on which the theorems of pkg/investigate are evaluated

    The targets of Demo.v, one provider that answers every question with true,
    and a clock that moves one nanosecond per question. *)

From S2P Require Import Prelude Identity Predicate Contract Assessment Evaluator Demo Candidates.
From S2P Require Import Investigator.
From S2P Require Import InvestigatorSteps InvestigatorSpec InvestigatorSelect EvalMeaning.

Definition pod : ProviderSubject := Build_ProviderSubject "ns" "v1" "Pod" "pod" "pod".
Definition demo_subjects : gmap string ProviderSubject := {["uid-db" := pod; "uid-web" := pod]}.
Definition demo_queries : Queries := Requests demo demo_subjects (fun _ => true).

Definition demo_world : World := {|
  clock := fun n => (1000 + Z.of_nat n)%Z; cancelled := fun _ => false; slice_over := fun _ => false;
  observe := fun n _ _ => Build_Result (Bool true) (1000 + Z.of_nat n) 0 "ref" "";
  call_over := fun _ => false; slice_deadline := fun _ => None; call_deadline := fun _ => 0%Z;
|}.

Definition demo_limits : Limits := ReferenceLimits.

Definition after_run : Investigator := default New (Run demo_world demo_limits demo demo_queries New).


(** Both targets are asked once, and become AVAILABLE. *)
Example demo_calls :
  (starts after_run "uid-db", calls after_run "uid-db", calls after_run "uid-web") = ([1004%Z], [1005%Z], [1022%Z]).
Proof. vm_compute. reflexivity. Qed.

Example demo_resolved :
  (ep_State <$> iv_episodes after_run !! "uid-db", ep_State <$> iv_episodes after_run !! "uid-web") = (Some Resolved, Some Resolved).
Proof. vm_compute. reflexivity. Qed.

(** A clock that moves one second per question: every answer is stale when it
    is assessed, and the targets are investigated again and again. *)
Definition slow_world : World := {|
  clock := fun n => (1000 + Second * Z.of_nat n)%Z; cancelled := fun _ => false; slice_over := fun _ => false;
  observe := fun n _ _ => Build_Result (Bool true) (1000 + Second * Z.of_nat n) 0 "ref" "";
  call_over := fun _ => false; slice_deadline := fun _ => None; call_deadline := fun _ => 0%Z;
|}.

Definition slow_run (iv : Investigator) : Investigator := default New (Run slow_world demo_limits demo demo_queries iv).


Definition slow_twice : Investigator := slow_run (slow_run New).

(** Each target is begun again after the cooldown, with one call each time. *)
Example slow_starts : starts slow_twice "uid-db" = [4000001000%Z; 40000001000%Z].
Proof. vm_compute. reflexivity. Qed.

Example slow_calls : calls slow_twice "uid-db" = [5000001000%Z; 41000001000%Z].
Proof. vm_compute. reflexivity. Qed.

Lemma demo_queries_wf : wf_queries demo_queries.
Proof. apply Requests_wf. Qed.

Lemma slow_run_reached iv : reached slow_world demo_limits iv -> reached slow_world demo_limits (slow_run iv).
Proof.
  intros Hr. eapply rtc_r; [exact Hr|]. exists demo, demo_queries. split; [apply demo_queries_wf|].
  unfold slow_run. by destruct (Run_is_Some slow_world demo_limits demo demo_queries iv) as [iv' ->].
Qed.

Lemma slow_twice_reached : reached slow_world demo_limits slow_twice.
Proof. apply slow_run_reached, slow_run_reached, rtc_refl. Qed.

Lemma Run_ok_witness :
  wf_queries demo_queries /\ wf demo_limits New /\
  exists iv', Run demo_world demo_limits demo demo_queries New = Some iv' /\ wf demo_limits iv'.
Proof.
  split; [apply demo_queries_wf|]. split; [apply wf_New|].
  apply (Run_ok demo_world demo_limits demo demo_queries New); [apply demo_queries_wf|apply wf_New].
Defined.

Lemma calls_budgeted_witness :
  length (calls slow_twice "uid-db") <= 6 * length (starts slow_twice "uid-db") /\
  exists s, s ∈ starts slow_twice "uid-db" /\ Before 41000001000 (Add s (EpisodeDeadline demo_limits)) = true.
Proof.
  destruct (calls_budgeted slow_world demo_limits slow_twice "uid-db" slow_twice_reached) as [Hb Hi].
  split; [exact Hb|]. apply Hi. rewrite slow_calls. apply (list_elem_of_lookup_2 _ 1). reflexivity.
Defined.

Lemma slow_clock n : (clock slow_world n <= clock slow_world (S n))%Z.
Proof. unfold slow_world, Second. cbn [clock]. lia. Qed.

Lemma starts_spaced_witness : (Add 4000001000 (EpisodeCooldown demo_limits) <= 40000001000)%Z.
Proof.
  apply (starts_spaced slow_world demo_limits slow_clock slow_twice "uid-db" 0 4000001000 40000001000 slow_twice_reached);
    rewrite slow_starts; reflexivity.
Defined.

Lemma Run_authorized_witness :
  exists iv', Run demo_world demo_limits demo demo_queries New = Some iv' /\
  exists valid : Queries, (forall k, is_Some (iv_held iv' !! k) -> authorized_key valid k).
Proof.
  destruct (Run_is_Some demo_world demo_limits demo demo_queries New) as [iv' Hr]. exists iv'. split; [exact Hr|].
  destruct (Run_authorized demo_world demo_limits demo demo_queries New iv' demo_queries_wf Hr) as (valid & _ & Hk & _).
  exists valid. exact Hk.
Defined.

(** One hypothesis is open, and the query that decides it is chosen. *)
Definition demo_slots : gmap string Query := default ∅ (demo_queries !! "uid-db").
Definition demo_cands : list Candidate := [Build_Candidate "app/serve/v1/assertion:ready" KindAssertion "ready" Open_].
Definition demo_ta : TargetAssessment :=
  Build_TargetAssessment (t_Identity db_target) (demo_id "db") true [] SyncNotApplicable "" [] [] [].

Lemma demo_undecided : undecided demo_ta demo_cands demo_slots ∅ "ready".
Proof. split_and!; [by eexists|set_solver|reflexivity|vm_compute; lia]. Qed.

Lemma selectQuery_spec_witness :
  demo_slots !! "" = None /\
  exists q, (fst <$> selectQuery demo_limits New demo_ta db_contract demo_cands demo_slots ∅ ∅ 1000) = Some q /\
    exists s, demo_slots !! s = Some q /\ undecided demo_ta demo_cands demo_slots ∅ s.
Proof.
  split; [reflexivity|].
  pose proof (selectQuery_spec demo_limits New demo_ta db_contract demo_cands demo_slots ∅ ∅ 1000 eq_refl) as Hs.
  destruct (selectQuery demo_limits New demo_ta db_contract demo_cands demo_slots ∅ ∅ 1000) as [[q []]|].
  - destruct Hs as (s & Hq & Hu & _). exists q. split; [reflexivity|]. by exists s.
  - destruct (proj1 Hs "ready" demo_undecided).
  - destruct (proj1 Hs "ready" demo_undecided).
Defined.

(** A value, an outage, and a value older than the first: the outage stands. *)
Definition demo_outage : list Observation :=
  [demo_observation db_target "ready" true 950 "r1";
   Build_Observation (o_Key (demo_observation db_target "ready" true 950 "r1")) OutcomeProviderUnavailable zero_Value 960 0 "";
   demo_observation db_target "ready" true 940 "r2"].

Lemma demo_outage_stands : outage demo_outage.
Proof.
  exists [demo_observation db_target "ready" true 950 "r1"],
    (Build_Observation (o_Key (demo_observation db_target "ready" true 950 "r1")) OutcomeProviderUnavailable zero_Value 960 0 ""),
    [demo_observation db_target "ready" true 940 "r2"].
  split; [reflexivity|]. split; [discriminate|]. intros v ->%list_elem_of_singleton _.
  eexists. split; [by apply list_elem_of_singleton|]. split; [reflexivity|]. cbn. lia.
Qed.

Lemma admit_order_witness :
  exists u, iv_held (admit_all demo_limits demo_outage New)
              !! o_Key (demo_observation db_target "ready" true 950 "r1") = Some [u] /\ ~ is_value u.
Proof.
  destruct (admit_order demo_limits demo_outage New (o_Key (demo_observation db_target "ready" true 950 "r1")))
    as (hs & Hh & Hs).
  - discriminate.
  - repeat constructor.
  - reflexivity.
  - reflexivity.
  - vm_compute. lia.
  - rewrite Hh. destruct (proj1 (st_outage _ _ Hs) demo_outage_stands) as (u & -> & Hu). exists u. split; [reflexivity|exact Hu].
Defined.

Lemma NextWake_spec_witness :
  (0 <= 2000)%Z /\
  ((exists uid e, iv_episodes after_run !! uid = Some e /\ resumable demo_queries 2000 uid e) \/
   NextWake demo_limits after_run demo_queries 2000 = 0%Z \/ (2000 < NextWake demo_limits after_run demo_queries 2000)%Z).
Proof.
  assert (0 <= 2000)%Z as Hpos by lia. split; [exact Hpos|].
  destruct (NextWake_spec demo_limits after_run demo_queries 2000 Hpos) as [[He _]|[_ [[Hz _]|[Hlt _]]]].
  - by left.
  - right. by left.
  - right. by right.
Defined.

Lemma Requests_granted_witness :
  exists t, t ∈ Targets demo /\ ti_UID (t_Identity t) = "uid-db".
Proof.
  destruct (demo_queries !! "uid-db") as [slots|] eqn:Hu; [|vm_compute in Hu; discriminate].
  destruct (slots !! "ready") as [q|] eqn:Hq.
  - destruct (Requests_granted demo demo_subjects (fun _ => true) "uid-db" slots "ready" q Hu Hq) as (t & Ht & Huid & _).
    by exists t.
  - assert ((demo_queries !! "uid-db" ≫= fun slots => slots !! "ready") <> None) as Hne by (vm_compute; discriminate).
    rewrite Hu in Hne. destruct (Hne Hq).
Defined.
