(* ===== verification/OpsSpec.v ===== *)
(** * The API objects of an assessment (apis/ops/v1alpha1): contracts, targets
    and reference grants, with the metadata that is read

    Object metadata is reduced to the namespace, the name, the UID and the
    generation.  A Go pointer field is an option; a Duration wrapper is its
    Duration. *)

From S2P Require Import Prelude Identity Predicate Contract Assessment OpsStatus.

Record ObjectMeta := { om_Namespace : string; om_Name : string; om_UID : string; om_Generation : Z }.

(** ** contract_types.go *)
Record Operand := { od_Boolean : option bool; od_Integer : option Z; od_String : option string }.

Record WirePredicate := { wp_Assertion : string; wp_Operator : string; wp_Operand : option Operand }.

Record WireDependencyRequirement := { wd_Slot : string; wd_Capability : CapabilityType }.

Record WireRequirement := {
  wr_Predicate : option WirePredicate;
  wr_Dependency : option WireDependencyRequirement;
  wr_LocalCapability : string;
  wr_Envelope : string;
  wr_OnUnmet : string;
}.

Record WireCapability := { wc_Type : CapabilityType; wc_Requirements : list WireRequirement }.

Record WireAssertionSlot := { wa_Name : string; wa_Type : string; wa_Enum : list string; wa_MaxAge : Duration }.

Record WireEnvelope := { we_Name : string; we_Class : string; we_Requirements : list WirePredicate }.

Record OperationalContractSpec := {
  cs_Assertions : list WireAssertionSlot;
  cs_DependencySlots : list string;
  cs_Capabilities : list WireCapability;
  cs_Envelopes : list WireEnvelope;
}.

Record OperationalContractStatus := {
  cst_ObservedGeneration : Z;
  cst_SpecDigest : string;
  cst_Valid : bool;
  cst_ValidationErrors : list string;
}.

Record OperationalContract := {
  oc_Meta : ObjectMeta;
  oc_Spec : OperationalContractSpec;
  oc_Status : OperationalContractStatus;
}.

(** ** target_types.go *)
Record TargetReference := { tr_APIVersion : string; tr_Kind : string; tr_Name : string }.

Record ProviderReference := { pr_Name : string; pr_Namespace : string; pr_ConfigRevision : string }.

Record WireAssertionBinding := { wb_Slot : string; wb_Provider : ProviderReference }.

Record DependencyTargetReference := { dt_Namespace : string; dt_Name : string; dt_UID : string }.

Record ContractPin := { pin_Name : string; pin_UID : string; pin_SpecDigest : string }.

Record WireDependencyBinding := { wdb_Slot : string; wdb_Target : DependencyTargetReference; wdb_Contract : ContractPin }.

Record OperationalTargetSpec := {
  ts_TargetRef : TargetReference;
  ts_ContractRef : string;
  ts_AssertionBindings : list WireAssertionBinding;
  ts_DependencyBindings : list WireDependencyBinding;
  ts_EnvelopeSelection : string;
}.

(** metav1.Condition *)
Record Condition := {
  cn_Type : string;
  cn_Status : string;
  cn_ObservedGeneration : Z;
  cn_LastTransitionTime : Time;
  cn_Reason : string;
  cn_Message : string;
}.

(** OperationalTargetStatus: the semantic fields with the rest. *)
Record OperationalTargetStatus := {
  os_ObservedGeneration : Z;
  os_AssessedAt : option Time;
  os_Semantic : TargetStatus;
  os_Interaction : option InteractionStatus;
  os_Conditions : list Condition;
}.

Record OperationalTarget := {
  ot_Meta : ObjectMeta;
  ot_Spec : OperationalTargetSpec;
  ot_Status : OperationalTargetStatus;
}.

(** ** grant_types.go *)
Inductive ReferenceType := ReferenceDependency | ReferenceEvidenceProvider.

Definition ReferenceType_string (t : ReferenceType) : string :=
  match t with ReferenceDependency => "Dependency" | ReferenceEvidenceProvider => "EvidenceProvider" end.

Record ReferenceGrantFrom := { gf_Kind : string; gf_Namespace : string }.

(** The type of a grant entry is free text. *)
Record ReferenceGrantTo := { gt_Type : string; gt_Name : string }.

Record OperationalReferenceGrant := { rg_Namespace : string; rg_From : list ReferenceGrantFrom; rg_To : list ReferenceGrantTo }.

(** ** Decidable equality *)
#[export] Instance ObservedIdentity_eq_dec : EqDecision ObservedIdentity.
Proof. solve_decision. Defined.
#[export] Instance DeniedReference_eq_dec : EqDecision DeniedReference.
Proof. solve_decision. Defined.
#[export] Instance EvidenceEntry_eq_dec : EqDecision EvidenceEntry.
Proof. solve_decision. Defined.
#[export] Instance CapabilityStatus_eq_dec : EqDecision CapabilityStatus.
Proof. solve_decision. Defined.
#[export] Instance EnvelopeStatus_eq_dec : EqDecision EnvelopeStatus.
Proof. solve_decision. Defined.
#[export] Instance TargetStatus_eq_dec : EqDecision TargetStatus.
Proof. solve_decision. Defined.
#[export] Instance InteractionCapability_eq_dec : EqDecision InteractionCapability.
Proof. solve_decision. Defined.
#[export] Instance InteractionCandidate_eq_dec : EqDecision InteractionCandidate.
Proof. solve_decision. Defined.
#[export] Instance InteractionInvestigation_eq_dec : EqDecision InteractionInvestigation.
Proof. solve_decision. Defined.
#[export] Instance InteractionResponse_eq_dec : EqDecision InteractionResponse.
Proof. solve_decision. Defined.
#[export] Instance InteractionAction_eq_dec : EqDecision InteractionAction.
Proof. solve_decision. Defined.
#[export] Instance InteractionStatus_eq_dec : EqDecision InteractionStatus.
Proof. solve_decision. Defined.
#[export] Instance Condition_eq_dec : EqDecision Condition.
Proof. solve_decision. Defined.
#[export] Instance OperationalTargetStatus_eq_dec : EqDecision OperationalTargetStatus.
Proof. solve_decision. Defined.
#[export] Instance OperationalContractStatus_eq_dec : EqDecision OperationalContractStatus.
Proof. solve_decision. Defined.
#[export] Instance ReferenceType_eq_dec : EqDecision ReferenceType.
Proof. solve_decision. Defined.
