(* ===== verification/OpsWire.v ===== *)
(** * Between the API objects and the evaluator (pkg/opswire): definitions

    contract.go, snapshot.go and status.go.  JSON text, the SHA-256 digest and
    two functions of Kubernetes libraries are parameters. *)

From S2P Require Import Prelude Identity Predicate Contract Assessment Profile OpsStatus OpsSpec.
From Stdlib Require Import Ascii.

(** ** Parameters *)

(** encoding/json and crypto/sha256: the texts [sortByJSON] compares, and the
    digest of the JSON text of a contract. *)
Class Encoding := {
  json_requirement : Requirement -> string;
  json_predicate : Predicate -> string;
  digest_contract : Contract -> string;
}.

(** apimachinery, as documented: [equality.Semantic.DeepEqual] is equality of
    values that do not tell a nil list from an empty one, and
    [meta.SetStatusCondition] appends a condition of a new type, and otherwise
    overwrites the one there.  The transition time is that of the old condition
    where the status is the same, else the new one's, or a time of the library's
    choosing where the new one has none. *)
Class Apimachinery := {
  SemanticDeepEqual : OperationalTargetStatus -> OperationalTargetStatus -> bool;
  ContractDeepEqual : OperationalContractStatus -> OperationalContractStatus -> bool;
  SetStatusCondition : list Condition -> Condition -> list Condition;
}.

(** [c] with the transition time [t]. *)
Definition transition_at (t : Time) (c : Condition) : Condition :=
  Build_Condition (cn_Type c) (cn_Status c) (cn_ObservedGeneration c) t (cn_Reason c) (cn_Message c).

Class ApimachineryLaws `{Apimachinery} : Prop := {
  semantic_equal a b : SemanticDeepEqual a b = true <-> a = b;
  contract_equal a b : ContractDeepEqual a b = true <-> a = b;
  set_condition_new cs c : (forall x, x ∈ cs -> cn_Type x <> cn_Type c) ->
    exists t, SetStatusCondition cs c = cs ++ [transition_at t c] /\
      (IsZero (cn_LastTransitionTime c) = false -> t = cn_LastTransitionTime c);
  set_condition_old pre x post c :
    (forall y, y ∈ pre -> cn_Type y <> cn_Type c) -> cn_Type x = cn_Type c ->
    exists t, SetStatusCondition (pre ++ x :: post) c = pre ++ transition_at t c :: post /\
      (cn_Status x = cn_Status c -> t = cn_LastTransitionTime x) /\
      (cn_Status x <> cn_Status c -> IsZero (cn_LastTransitionTime c) = false -> t = cn_LastTransitionTime c);
}.

(** ** Text *)

(** strings.ToValidUTF8(s, ""): the bytes of no valid sequence are dropped. *)
Fixpoint valid_bytes (fuel : nat) (bs : list nat) : list nat :=
  match fuel, bs with
  | S fuel, b :: rest =>
      let w := rune_width bs in
      if (b <? 128) || (1 <? w) then take w bs ++ valid_bytes fuel (drop w bs) else valid_bytes fuel rest
  | _, _ => []
  end.

Definition of_bytes (bs : list nat) : string := String.string_of_list_ascii (ascii_of_nat <$> bs).

Definition truncate (s : string) (n : nat) : string :=
  if String.length s <=? n then s
  else let cut := String.substring 0 n s in of_bytes (valid_bytes n (string_bytes cut)).

Definition maxValidationErrors : nat := 32.
Definition maxDetail : nat := 256.
Definition maxSubject : nat := 512.
Definition maxEvidenceRef : nat := 256.
Definition maxReasons : nat := 40.
Definition maxInvalidReasons : nat := 32.

(** strings.Cut at one character *)
Fixpoint cut_at (sep : ascii) (s : string) : option (string * string) :=
  match s with
  | EmptyString => None
  | String c t => if Ascii.eqb c sep then Some ("", t) else (fun '(a, b) => (String c a, b)) <$> cut_at sep t
  end.

Definition CutPrefix (s p : string) : option string :=
  if has_prefix p s then Some (String.substring (String.length p) (String.length s - String.length p) s) else None.

(** [s[:strings.Index(s, arrow)]] *)
Fixpoint before_arrow (s : string) : option string :=
  if has_prefix "->" s then Some ""
  else match s with EmptyString => None | String c t => String c <$> before_arrow t end.

(** ** contract.go *)
Definition operand (o : option Operand) : Value :=
  match o with
  | None => zero_Value
  | Some o =>
      let v := zero_Value in
      let v := match od_String o with Some s => Build_Value TypeString (v_Bool v) (v_Int v) s | None => v end in
      let v := match od_Integer o with Some i => Build_Value TypeInteger (v_Bool v) i (v_Str v) | None => v end in
      match od_Boolean o with Some b => Build_Value TypeBoolean b (v_Int v) (v_Str v) | None => v end
  end.

Definition predicate (p : WirePredicate) : Predicate :=
  Build_Predicate (wp_Assertion p) (wp_Operator p) (operand (wp_Operand p)).

Definition requirement (r : WireRequirement) : Requirement := {|
  r_Predicate := predicate <$> wr_Predicate r;
  r_Dependency := (fun d => Build_DependencyRequirement (wd_Slot d) (wd_Capability d)) <$> wr_Dependency r;
  r_LocalCapability := wr_LocalCapability r; r_Envelope := wr_Envelope r; r_OnUnmet := wr_OnUnmet r;
|}.

Definition semanticContract (spec : OperationalContractSpec) : Contract := {|
  c_Identity := zero_ContractIdentity;
  c_Assertions := (fun a => Build_AssertionSlot (wa_Name a) (wa_Type a) (wa_Enum a) (wa_MaxAge a)) <$> cs_Assertions spec;
  c_DependencySlots := Build_DependencySlot <$> cs_DependencySlots spec;
  c_Capabilities := (fun cp => Build_Capability (wc_Type cp) (requirement <$> wc_Requirements cp)) <$> cs_Capabilities spec;
  c_Envelopes := (fun e => Build_Envelope (we_Name e) (we_Class e) (predicate <$> we_Requirements e)) <$> cs_Envelopes spec;
|}.

(** [sortByJSON]: the indices are sorted stably by the texts. *)
Definition sortByJSON {A} (json : A -> string) (xs : list A) : list A :=
  slice_stable (fun x y => String.ltb (json x) (json y)) xs.

Section wire.
Context `{GoText} `{SortSlice} `{Encoding} `{Apimachinery}.

Definition sort_enum (a : AssertionSlot) : AssertionSlot :=
  Build_AssertionSlot (s_Name a) (s_Type a) (sort_strings (s_Enum a)) (s_MaxAge a).
Definition sort_requirements (cp : Capability) : Capability :=
  Build_Capability (cp_Type cp) (sortByJSON json_requirement (cp_Requirements cp)).
Definition sort_predicates (e : Envelope) : Envelope :=
  Build_Envelope (env_Name e) (env_Class e) (sortByJSON json_predicate (env_Requirements e)).

Definition normalize (c : Contract) : Contract := {|
  c_Identity := c_Identity c;
  c_Assertions := sort_slice (fun a b => String.ltb (s_Name a) (s_Name b)) (sort_enum <$> c_Assertions c);
  c_DependencySlots := sort_slice (fun a b => String.ltb (ds_Name a) (ds_Name b)) (c_DependencySlots c);
  c_Capabilities := sort_slice (fun a b => String.ltb (CapabilityType_String (cp_Type a)) (CapabilityType_String (cp_Type b)))
                      (sort_requirements <$> c_Capabilities c);
  c_Envelopes := sort_slice (fun a b => String.ltb (env_Name a) (env_Name b)) (sort_predicates <$> c_Envelopes c);
|}.

Definition SpecDigest (spec : OperationalContractSpec) : string := digest_contract (normalize (semanticContract spec)).

Definition contract_identity (c : OperationalContract) : ContractIdentity :=
  Build_ContractIdentity (om_Namespace (oc_Meta c)) (om_Name (oc_Meta c)) (om_UID (oc_Meta c)) (SpecDigest (oc_Spec c)).

Definition set_identity (id : ContractIdentity) (c : Contract) : Contract :=
  Build_Contract id (c_Assertions c) (c_DependencySlots c) (c_Capabilities c) (c_Envelopes c).

Definition ContractFromWire (c : OperationalContract) : Contract :=
  set_identity (contract_identity c) (semanticContract (oc_Spec c)).

Definition ContractStatus (c : OperationalContract) : OperationalContractStatus :=
  let oc := ContractFromWire c in
  let errs := sort_strings (Validate oc) in
  let errs := if maxValidationErrors <? length errs then take maxValidationErrors errs else errs in
  let errs := (fun e => truncate e maxDetail) <$> errs in
  Build_OperationalContractStatus (om_Generation (oc_Meta c)) (ci_SpecDigest (c_Identity oc)) (length errs =? 0) errs.

(** ** snapshot.go *)
Record Resolution := { rs_UID : string; rs_Failure : string }.
Definition zero_Resolution : Resolution := Build_Resolution "" "".

Definition ReasonTargetKindUnsupported : string := "target-kind-unsupported".
Definition ReasonTargetNotFound : string := "target-not-found".

Record Input := {
  in_At : Time;
  in_Contracts : list OperationalContract;
  in_Targets : list OperationalTarget;
  in_Grants : list OperationalReferenceGrant;
  in_Resolutions : gmap (string * string) Resolution;
  in_Observations : list Observation;
}.

Record TargetWire := {
  tw_Failure : string;
  tw_ResolvedUID : string;
  tw_Contract : ContractIdentity;
  tw_Denied : list DeniedReference;
  tw_CrossNamespaceSlots : gset string;
}.

Definition zero_TargetWire : TargetWire := Build_TargetWire "" "" zero_ContractIdentity [] ∅.

Record Built := {
  bt_Snapshot : Snapshot;
  bt_Wire : gmap string TargetWire;
  bt_namespaceOf : gmap string string;
}.

Definition provider_identity (ns name rev : string) : ProviderIdentity :=
  Build_ProviderIdentity (ns +:+ "/" +:+ name) rev.

(** [exact]: not empty, and no wildcard character *)
Fixpoint contains_wildcard (s : string) : bool :=
  match s with
  | EmptyString => false
  | String c t => Ascii.eqb c "*"%char || Ascii.eqb c "?"%char || contains_wildcard t
  end.

Definition exact (s : string) : bool := nonempty s && negb (contains_wildcard s).

(** Namespace granting, namespace granted, type, name. *)
Abbreviation grantKey := (string * string * string * string)%type (only parsing).
Abbreviation grantIndex := (gset grantKey) (only parsing).

Definition known_type (s : string) : bool :=
  bool_decide (s = ReferenceType_string ReferenceDependency) || bool_decide (s = ReferenceType_string ReferenceEvidenceProvider).

Definition grant_from (g : OperationalReferenceGrant) (idx : grantIndex) (from : ReferenceGrantFrom) : grantIndex :=
  if negb (bool_decide (gf_Kind from = "OperationalTarget")) || negb (exact (gf_Namespace from)) then idx
  else foldl (fun idx to =>
         if negb (known_type (gt_Type to)) || negb (exact (gt_Name to)) then idx
         else {[ (rg_Namespace g, gf_Namespace from, gt_Type to, gt_Name to) ]} ∪ idx) idx (rg_To g).

Definition newGrantIndex (grants : list OperationalReferenceGrant) : grantIndex :=
  foldl (fun idx g => foldl (grant_from g) idx (rg_From g)) ∅ grants.

Definition allows (g : grantIndex) (fromNS toNS : string) (ty : ReferenceType) (name : string) : bool :=
  if decide (fromNS = toNS) then true else bool_decide ((toNS, fromNS, ReferenceType_string ty, name) ∈ g).

(** The maps by namespace and name: the last object wins. *)
Definition meta_key (m : ObjectMeta) : string * string := (om_Namespace m, om_Name m).

Definition contract_at (cs : list OperationalContract) (k : string * string) : option OperationalContract :=
  List.find (fun c => bool_decide (meta_key (oc_Meta c) = k)) (rev cs).

Definition target_named (ts : list OperationalTarget) (k : string * string) : option OperationalTarget :=
  List.find (fun t => bool_decide (meta_key (ot_Meta t) = k)) (rev ts).

Definition pinnedUID (ts : list OperationalTarget) (ns : string) (ref : DependencyTargetReference) : string :=
  match target_named ts (ns, dt_Name ref) with
  | Some t => if decide (om_UID (ot_Meta t) = dt_UID ref) then dt_UID ref
              else "unresolved:" +:+ ns +:+ "/" +:+ dt_Name ref +:+ "@" +:+ dt_UID ref
  | None => "unresolved:" +:+ ns +:+ "/" +:+ dt_Name ref +:+ "@" +:+ dt_UID ref
  end.

(** An empty namespace in a reference is the target's own. *)
Definition or_own (t : OperationalTarget) (ns : string) : string := if nonempty ns then ns else om_Namespace (ot_Meta t).

Definition bind_assertion (g : grantIndex) (t : OperationalTarget)
    (acc : list DeniedReference * list AssertionBinding) (ab : WireAssertionBinding) :
    list DeniedReference * list AssertionBinding :=
  let '(denied, bs) := acc in
  let p := wb_Provider ab in
  let ns := or_own t (pr_Namespace p) in
  if negb (allows g (om_Namespace (ot_Meta t)) ns ReferenceEvidenceProvider (pr_Name p)) then
    (denied ++ [Build_DeniedReference (ReferenceType_string ReferenceEvidenceProvider) (wb_Slot ab) ns], bs)
  else (denied, bs ++ [Build_AssertionBinding (wb_Slot ab) (provider_identity ns (pr_Name p) (pr_ConfigRevision p))]).

Definition bind_dependency (g : grantIndex) (ts : list OperationalTarget) (t : OperationalTarget)
    (acc : list DeniedReference * gset string * list DependencyBinding) (db : WireDependencyBinding) :
    list DeniedReference * gset string * list DependencyBinding :=
  let '(denied, cross, bs) := acc in
  let ns := or_own t (dt_Namespace (wdb_Target db)) in
  if negb (allows g (om_Namespace (ot_Meta t)) ns ReferenceDependency (dt_Name (wdb_Target db))) then
    (denied ++ [Build_DeniedReference (ReferenceType_string ReferenceDependency) (wdb_Slot db) ns], cross, bs)
  else
    (denied,
     if decide (ns = om_Namespace (ot_Meta t)) then cross else {[wdb_Slot db]} ∪ cross,
     bs ++ [Build_DependencyBinding (wdb_Slot db) (pinnedUID ts ns (wdb_Target db))
              (Build_ContractIdentity ns (pin_Name (wdb_Contract db)) (pin_UID (wdb_Contract db)) (pin_SpecDigest (wdb_Contract db)))]).

Definition denied_less (a b : DeniedReference) : bool :=
  if negb (bool_decide (dn_Slot a = dn_Slot b)) then String.ltb (dn_Slot a) (dn_Slot b)
  else if negb (bool_decide (dn_Type a = dn_Type b)) then String.ltb (dn_Type a) (dn_Type b)
  else String.ltb (dn_Namespace a) (dn_Namespace b).

Definition wire_contract (inp : Input) (t : OperationalTarget) : ContractIdentity :=
  let k := (om_Namespace (ot_Meta t), ts_ContractRef (ot_Spec t)) in
  match contract_at (in_Contracts inp) k with
  | Some c => contract_identity c
  | None => Build_ContractIdentity k.1 k.2 "" ""
  end.

(** One round of the loop over the targets: the wire facts, and the target
    handed to the evaluator, if any. *)
Definition build_target (inp : Input) (g : grantIndex) (t : OperationalTarget) : TargetWire * option Target :=
  let contract := wire_contract inp t in
  let '(denied, abs) := foldl (bind_assertion g t) ([], []) (ts_AssertionBindings (ot_Spec t)) in
  let '(denied, cross, dbs) :=
    foldl (bind_dependency g (in_Targets inp) t) (denied, ∅, []) (ts_DependencyBindings (ot_Spec t)) in
  let denied := sort_slice denied_less denied in
  let res := default zero_Resolution (in_Resolutions inp !! meta_key (ot_Meta t)) in
  if negb (nonempty (rs_UID res)) then
    (Build_TargetWire (if nonempty (rs_Failure res) then rs_Failure res else ReasonTargetNotFound) "" contract denied cross, None)
  else
    (Build_TargetWire "" (rs_UID res) contract denied cross,
     Some {| t_Identity := Build_TargetIdentity (om_Namespace (ot_Meta t)) (om_Name (ot_Meta t)) (om_UID (ot_Meta t));
             t_ResolvedUID := rs_UID res; t_ContractRef := contract; t_AssertionBindings := abs;
             t_DependencyBindings := dbs; t_EnvelopeSelection := ts_EnvelopeSelection (ot_Spec t) |}).

Definition build_step (inp : Input) (g : grantIndex) (acc : gmap string TargetWire * list Target) (t : OperationalTarget) :
    gmap string TargetWire * list Target :=
  let '(wire, ts) := acc in
  let '(tw, ot) := build_target inp g t in
  (<[om_UID (ot_Meta t) := tw]> wire, match ot with Some o => ts ++ [o] | None => ts end).

Definition Build (inp : Input) : Built :=
  let g := newGrantIndex (in_Grants inp) in
  let '(wire, ts) := foldl (build_step inp g) (∅, []) (in_Targets inp) in
  Build_Built (Build_Snapshot (in_At inp) (ContractFromWire <$> in_Contracts inp) ts (in_Observations inp)) wire
    (foldl (fun m t => <[om_UID (ot_Meta t) := om_Namespace (ot_Meta t)]> m) ∅ (in_Targets inp)).

(** ** status.go *)
Definition ConditionAssessmentReady : string := "AssessmentReady".

Definition EnvelopeState_string (s : EnvelopeState) : string :=
  match s with Satisfied => "SATISFIED" | Unsatisfied => "UNSATISFIED" | EnvUnknown => "UNKNOWN" end.

Definition EvidenceStatus_string (s : EvidenceStatus) : string :=
  match s with
  | EvidenceCurrent => "Current"
  | EvidenceUnbound => "Unbound"
  | EvidenceMissing => "Missing"
  | EvidenceStale => "Stale"
  | EvidenceInapplicable => "Inapplicable"
  | EvidenceProviderUnavailable => "ProviderUnavailable"
  | EvidenceConflicting => "Conflicting"
  | EvidenceTypeMismatch => "TypeMismatch"
  end.

Definition SyncState_string (s : SyncState) : string := match s with SyncNotApplicable => "NotApplicable" end.

Definition member_in (ns : string) (namespaceOf : gmap string string) (m : string) : bool :=
  match cut_at "/"%char m with
  | Some (uid, _) => nonempty uid && bool_decide (namespaceOf !! uid = Some ns)
  | None => false
  end.

Definition cycleWithinNamespace (detail ns : string) (namespaceOf : gmap string string) : bool :=
  match CutPrefix detail "cycle members: " with
  | Some members => nonempty members && forallb (member_in ns namespaceOf) (split_on ","%char members)
  | None => false
  end.

Definition dependencySlot (subject : string) : string :=
  let s := default subject (CutPrefix subject "dependency:") in default s (before_arrow s).

(** The detail of a reason, where it may be shown. *)
Definition shown_detail (tw : TargetWire) (ns : string) (namespaceOf : gmap string string) (r : Reason) : string :=
  if decide (Code r = ReasonDependencyCycle) then
    if cycleWithinNamespace (Detail r) ns namespaceOf then Detail r else ""
  else if has_prefix "dependency-" (Code r) && negb (bool_decide (Code r = ReasonDependencyUnmet)) &&
          bool_decide (dependencySlot (Subject r) ∈ tw_CrossNamespaceSlots tw) then ""
  else Detail r.

Definition wire_reason (tw : TargetWire) (ns : string) (namespaceOf : gmap string string) (r : Reason) : StatusReason :=
  Build_StatusReason (Code r) (truncate (Subject r) maxSubject) (truncate (shown_detail tw ns namespaceOf r) maxDetail).

Definition reasons (rs : list Reason) (tw : TargetWire) (ns : string) (namespaceOf : gmap string string) : list StatusReason :=
  wire_reason tw ns namespaceOf <$> rs.

Definition limit (rs : list StatusReason) (n : nat) : list StatusReason := if n <? length rs then take n rs else rs.

Definition wire_evidence (e : SlotEvidence) : EvidenceEntry :=
  Build_EvidenceEntry (sv_Slot e) (EvidenceStatus_string (sv_Status e)) (pi_Name (sv_Provider e))
    (pi_ConfigRevision (sv_Provider e))
    (if maxEvidenceRef <? String.length (sv_EvidenceRef e) then "" else sv_EvidenceRef e).

Definition observed_identity (t : OperationalTarget) (tw : TargetWire) : ObservedIdentity :=
  Build_ObservedIdentity (om_UID (ot_Meta t)) (tw_ResolvedUID tw) (ci_Name (tw_Contract tw)) (ci_UID (tw_Contract tw))
    (ci_SpecDigest (tw_Contract tw)).

Definition project_invalid (t : OperationalTarget) (tw : TargetWire) (r : StatusReason) : TargetStatus := {|
  st_Identity := observed_identity t tw; st_Valid := false; st_Sync := SyncState_string SyncNotApplicable;
  st_EnvelopeSelection := ts_EnvelopeSelection (ot_Spec t); st_InvalidReasons := [r]; st_DeniedReferences := tw_Denied tw;
  st_Evidence := []; st_Capabilities := []; st_Envelopes := [];
|}.

Definition project_assessed (t : OperationalTarget) (tw : TargetWire) (namespaceOf : gmap string string)
    (ta : TargetAssessment) : TargetStatus :=
  let ns := om_Namespace (ot_Meta t) in
  {| st_Identity := observed_identity t tw; st_Valid := ta_Valid ta; st_Sync := SyncState_string SyncNotApplicable;
     st_EnvelopeSelection := ts_EnvelopeSelection (ot_Spec t);
     st_InvalidReasons := limit (reasons (ta_InvalidReasons ta) tw ns namespaceOf) maxInvalidReasons;
     st_DeniedReferences := tw_Denied tw;
     st_Evidence := wire_evidence <$> ta_Evidence ta;
     st_Capabilities := (fun c => Build_CapabilityStatus (cr_Type c) (CapabilityState_string (cr_State c))
        (limit (reasons (cr_Reasons c) tw ns namespaceOf) maxReasons)) <$> ta_Capabilities ta;
     st_Envelopes := (fun e => Build_EnvelopeStatus (er_Name e) (er_Class e) (EnvelopeState_string (er_State e))
        (limit (reasons (er_Reasons e) tw ns namespaceOf) maxReasons)) <$> ta_Envelopes ta |}.

Definition semantic_status (t : OperationalTarget) (b : Built) (a : Assessment) : TargetStatus :=
  let tw := default zero_TargetWire (bt_Wire b !! om_UID (ot_Meta t)) in
  if nonempty (tw_Failure tw) then
    let ref := ts_TargetRef (ot_Spec t) in
    project_invalid t tw (status_reason (tw_Failure tw) ("targetRef:" +:+ tr_Kind ref +:+ "/" +:+ tr_Name ref))
  else match assessment_target a (om_UID (ot_Meta t)) with
  | None => project_invalid t tw (status_reason "not-assessed" "")
  | Some ta => project_assessed t tw (bt_namespaceOf b) ta
  end.

Definition ProjectStatus (t : OperationalTarget) (b : Built) (a : Assessment) : OperationalTargetStatus :=
  Build_OperationalTargetStatus (om_Generation (ot_Meta t)) None (semantic_status t b a) None [].

Definition strip_condition (c : Condition) : Condition :=
  Build_Condition (cn_Type c) (cn_Status c) (cn_ObservedGeneration c) 0 (cn_Reason c) (cn_Message c).

Definition stripTimes (s : OperationalTargetStatus) : OperationalTargetStatus :=
  Build_OperationalTargetStatus (os_ObservedGeneration s) None (os_Semantic s) (os_Interaction s)
    (strip_condition <$> os_Conditions s).

Definition SemanticEqual (a b : OperationalTargetStatus) : bool := SemanticDeepEqual (stripTimes a) (stripTimes b).

Definition ContractStatusEqual (a b : OperationalContractStatus) : bool := ContractDeepEqual a b.

Definition assessment_condition (desired : OperationalTargetStatus) (now : Time) : Condition :=
  if st_Valid (os_Semantic desired)
  then Build_Condition ConditionAssessmentReady "True" (os_ObservedGeneration desired) now "Assessed" ""
  else Build_Condition ConditionAssessmentReady "False" (os_ObservedGeneration desired) now "InvalidTarget" "".

Definition Apply (current desired : OperationalTargetStatus) (now : Time) : OperationalTargetStatus * bool :=
  let conds := SetStatusCondition (os_Conditions current) (assessment_condition desired now) in
  let next := Build_OperationalTargetStatus (os_ObservedGeneration desired) (os_AssessedAt current) (os_Semantic desired)
                (os_Interaction desired) conds in
  if SemanticEqual current next then (current, false)
  else (Build_OperationalTargetStatus (os_ObservedGeneration next) (Some now) (os_Semantic next) (os_Interaction next)
          (os_Conditions next), true).
End wire.
