(* ===== verification/OpsWireSpec.v ===== *)
(** * What the translation guarantees (pkg/opswire: snapshot.go, contract.go)

    Trust: a binding reaches the evaluator exactly when it stays in its
    namespace or an exact, typed grant of the other namespace covers it, and
    what another namespace did not grant has no influence on what a target is
    told.  The digest of a contract identifies it up to the order of its
    lists. *)

From S2P Require Import Prelude.
From S2P Require Import Identity.
From S2P Require Import Predicate.
From S2P Require Import Contract.
From S2P Require Import Assessment.
From S2P Require Import Profile.
From S2P Require Import OpsStatus.
From S2P Require Import OpsSpec.
From S2P Require Import OpsWire.

(** A grant of [toNS] that names [fromNS], the type and the referent. *)
Definition granted_by (inp : Input) (fromNS toNS : string) (ty : ReferenceType) (name : string) : Prop :=
  exists g from to, g ∈ in_Grants inp /\ rg_Namespace g = toNS /\
    from ∈ rg_From g /\ gf_Kind from = "OperationalTarget" /\ gf_Namespace from = fromNS /\
    to ∈ rg_To g /\ gt_Type to = ReferenceType_string ty /\ gt_Name to = name /\
    exact fromNS = true /\ exact name = true.

Definition trusted (inp : Input) (fromNS toNS : string) (ty : ReferenceType) (name : string) : Prop :=
  fromNS = toNS \/ granted_by inp fromNS toNS ty name.

Section spec.
Context `{GoText} `{SortSlice} `{Encoding}.

(** ** Grants *)
Lemma known_type_spec s : known_type s = true <-> exists ty, s = ReferenceType_string ty.
Proof.
  unfold known_type. rewrite orb_true_iff, !bool_decide_eq_true. split.
  - intros [-> | ->]; eauto.
  - intros ([] & ->); auto.
Qed.

Lemma newGrantIndex_spec inp fromNS toNS ty name :
  (toNS, fromNS, ReferenceType_string ty, name) ∈ newGrantIndex (in_Grants inp) <-> granted_by inp fromNS toNS ty name.
Proof.
  unfold newGrantIndex.
  rewrite (foldl_union _ (fun g k => exists from to, from ∈ rg_From g /\ to ∈ rg_To g /\
    gf_Kind from = "OperationalTarget" /\ exact (gf_Namespace from) = true /\
    known_type (gt_Type to) = true /\ exact (gt_Name to) = true /\
    k = (rg_Namespace g, gf_Namespace from, gt_Type to, gt_Name to))).
  - split.
    + intros [Hk|(g & Hg & from & to & ? & ? & ? & ? & _ & ? & [= -> -> Hty ->])]; [set_solver|].
      exists g, from, to. by split_and!.
    + intros (g & from & to & Hg & <- & Hf & Hk & <- & Ht & Hty & <- & Hef & Het). right.
      exists g. split; [done|]. exists from, to. split_and!; try done; [apply known_type_spec; eauto|by rewrite Hty].
  - clear. intros m g k.
    rewrite (foldl_union _ (fun from k => exists to, to ∈ rg_To g /\
      gf_Kind from = "OperationalTarget" /\ exact (gf_Namespace from) = true /\
      known_type (gt_Type to) = true /\ exact (gt_Name to) = true /\
      k = (rg_Namespace g, gf_Namespace from, gt_Type to, gt_Name to))); [naive_solver|].
    clear. intros m from k. unfold grant_from.
    destruct (bool_decide (gf_Kind from = "OperationalTarget")) eqn:Hk; [apply bool_decide_eq_true in Hk|apply bool_decide_eq_false in Hk];
      cbn [negb orb]; [|naive_solver].
    destruct (exact (gf_Namespace from)) eqn:He; cbn [negb]; [|naive_solver].
    rewrite (foldl_union _ (fun to k => known_type (gt_Type to) = true /\ exact (gt_Name to) = true /\
      k = (rg_Namespace g, gf_Namespace from, gt_Type to, gt_Name to))); [naive_solver|].
    clear. intros m to k. destruct (known_type (gt_Type to)), (exact (gt_Name to)); cbn; set_solver.
Qed.

Lemma allows_spec inp fromNS toNS ty name :
  allows (newGrantIndex (in_Grants inp)) fromNS toNS ty name = true <-> trusted inp fromNS toNS ty name.
Proof.
  unfold allows, trusted. rewrite <- newGrantIndex_spec. case_decide as E; [tauto|].
  rewrite bool_decide_eq_true. tauto.
Qed.

(** ** One target *)
Definition own_ns (t : OperationalTarget) : string := om_Namespace (ot_Meta t).
Definition provider_ns (t : OperationalTarget) (ab : WireAssertionBinding) : string := or_own t (pr_Namespace (wb_Provider ab)).
Definition dependency_ns (t : OperationalTarget) (db : WireDependencyBinding) : string := or_own t (dt_Namespace (wdb_Target db)).

Definition assertion_trusted (inp : Input) (t : OperationalTarget) (ab : WireAssertionBinding) : Prop :=
  trusted inp (own_ns t) (provider_ns t ab) ReferenceEvidenceProvider (pr_Name (wb_Provider ab)).
Definition dependency_trusted (inp : Input) (t : OperationalTarget) (db : WireDependencyBinding) : Prop :=
  trusted inp (own_ns t) (dependency_ns t db) ReferenceDependency (dt_Name (wdb_Target db)).

Definition assertion_denial (t : OperationalTarget) (ab : WireAssertionBinding) : DeniedReference :=
  Build_DeniedReference (ReferenceType_string ReferenceEvidenceProvider) (wb_Slot ab) (provider_ns t ab).
Definition dependency_denial (t : OperationalTarget) (db : WireDependencyBinding) : DeniedReference :=
  Build_DeniedReference (ReferenceType_string ReferenceDependency) (wdb_Slot db) (dependency_ns t db).

Definition assertion_binding (t : OperationalTarget) (ab : WireAssertionBinding) : AssertionBinding :=
  Build_AssertionBinding (wb_Slot ab)
    (provider_identity (provider_ns t ab) (pr_Name (wb_Provider ab)) (pr_ConfigRevision (wb_Provider ab))).
Definition dependency_binding (inp : Input) (t : OperationalTarget) (db : WireDependencyBinding) : DependencyBinding :=
  Build_DependencyBinding (wdb_Slot db) (pinnedUID (in_Targets inp) (dependency_ns t db) (wdb_Target db))
    (Build_ContractIdentity (dependency_ns t db) (pin_Name (wdb_Contract db)) (pin_UID (wdb_Contract db))
       (pin_SpecDigest (wdb_Contract db))).

Lemma bind_assertions_spec inp t abs d0 b0 :
  let '(d, b) := foldl (bind_assertion (newGrantIndex (in_Grants inp)) t) (d0, b0) abs in
  (forall x, x ∈ d <-> x ∈ d0 \/ exists ab, ab ∈ abs /\ ~ assertion_trusted inp t ab /\ x = assertion_denial t ab) /\
  (forall x, x ∈ b <-> x ∈ b0 \/ exists ab, ab ∈ abs /\ assertion_trusted inp t ab /\ x = assertion_binding t ab).
Proof.
  revert d0 b0. induction abs as [|ab abs IH]; intros d0 b0; cbn [foldl].
  { split; intros x; (split; [by left|]); intros [?|(ab & Hab & _)]; [done|nil_elem|done|nil_elem]. }
  unfold bind_assertion at 2. change (om_Namespace (ot_Meta t)) with (own_ns t).
  change (or_own t (pr_Namespace (wb_Provider ab))) with (provider_ns t ab).
  pose proof (allows_spec inp (own_ns t) (provider_ns t ab) ReferenceEvidenceProvider (pr_Name (wb_Provider ab))) as Ha.
  change (trusted _ _ _ _ _) with (assertion_trusted inp t ab) in Ha.
  destruct (allows _ _ _ _ _); cbn [negb].
  - assert (assertion_trusted inp t ab) as Ht by by apply Ha.
    match goal with |- context [foldl _ (?d1, ?b1) abs] => specialize (IH d1 b1) end.
    destruct (foldl _ _ _) as [d b]. destruct IH as [Hd Hb]. split; intros x; rewrite ?Hd, ?Hb; setoid_rewrite elem_of_cons.
    + naive_solver.
    + rewrite elem_of_app, list_elem_of_singleton. unfold assertion_binding. naive_solver.
  - assert (~ assertion_trusted inp t ab) as Ht by (intros Ht; apply Ha in Ht; done).
    match goal with |- context [foldl _ (?d1, ?b1) abs] => specialize (IH d1 b1) end.
    destruct (foldl _ _ _) as [d b]. destruct IH as [Hd Hb]. split; intros x; rewrite ?Hd, ?Hb; setoid_rewrite elem_of_cons.
    + rewrite elem_of_app, list_elem_of_singleton. unfold assertion_denial. naive_solver.
    + naive_solver.
Qed.

Lemma bind_dependencies_spec inp t dbs d0 c0 b0 :
  let '(d, c, b) := foldl (bind_dependency (newGrantIndex (in_Grants inp)) (in_Targets inp) t) (d0, c0, b0) dbs in
  (forall x, x ∈ d <-> x ∈ d0 \/ exists db, db ∈ dbs /\ ~ dependency_trusted inp t db /\ x = dependency_denial t db) /\
  (forall x, x ∈ c <-> x ∈ c0 \/ exists db, db ∈ dbs /\ dependency_trusted inp t db /\ dependency_ns t db <> own_ns t /\ x = wdb_Slot db) /\
  (forall x, x ∈ b <-> x ∈ b0 \/ exists db, db ∈ dbs /\ dependency_trusted inp t db /\ x = dependency_binding inp t db).
Proof.
  revert d0 c0 b0. induction dbs as [|db dbs IH]; intros d0 c0 b0; cbn [foldl].
  { split_and!; intros x; (split; [by left|]); (intros [?|(db & Hdb & _)]; [done|nil_elem]). }
  unfold bind_dependency at 2. change (om_Namespace (ot_Meta t)) with (own_ns t).
  change (or_own t (dt_Namespace (wdb_Target db))) with (dependency_ns t db).
  pose proof (allows_spec inp (own_ns t) (dependency_ns t db) ReferenceDependency (dt_Name (wdb_Target db))) as Ha.
  change (trusted _ _ _ _ _) with (dependency_trusted inp t db) in Ha.
  destruct (allows _ _ _ _ _); cbn [negb].
  - assert (dependency_trusted inp t db) as Ht by by apply Ha.
    match goal with |- context [foldl _ (?d1, ?c1, ?b1) dbs] => specialize (IH d1 c1 b1) end.
    destruct (foldl _ _ _) as [[d c] b]. destruct IH as (Hd & Hc & Hb).
    split_and!; intros x; rewrite ?Hd, ?Hc, ?Hb; setoid_rewrite elem_of_cons.
    + naive_solver.
    + case_decide; rewrite ?elem_of_union, ?elem_of_singleton; naive_solver.
    + rewrite elem_of_app, list_elem_of_singleton. unfold dependency_binding. naive_solver.
  - assert (~ dependency_trusted inp t db) as Ht by (intros Ht; apply Ha in Ht; done).
    match goal with |- context [foldl _ (?d1, ?c1, ?b1) dbs] => specialize (IH d1 c1 b1) end.
    destruct (foldl _ _ _) as [[d c] b]. destruct IH as (Hd & Hc & Hb).
    split_and!; intros x; rewrite ?Hd, ?Hc, ?Hb; setoid_rewrite elem_of_cons.
    + rewrite elem_of_app, list_elem_of_singleton. unfold dependency_denial. naive_solver.
    + naive_solver.
    + naive_solver.
Qed.

(** What a target is told of its references. *)
Record reported (inp : Input) (t : OperationalTarget) (tw : TargetWire) : Prop := {
  rp_denied : forall x, x ∈ tw_Denied tw <->
    (exists ab, ab ∈ ts_AssertionBindings (ot_Spec t) /\ ~ assertion_trusted inp t ab /\ x = assertion_denial t ab) \/
    (exists db, db ∈ ts_DependencyBindings (ot_Spec t) /\ ~ dependency_trusted inp t db /\ x = dependency_denial t db);
  rp_cross : forall x, x ∈ tw_CrossNamespaceSlots tw <->
    exists db, db ∈ ts_DependencyBindings (ot_Spec t) /\ dependency_trusted inp t db /\
      dependency_ns t db <> own_ns t /\ x = wdb_Slot db;
}.

(** What of it reaches the evaluator. *)
Record handed_over (inp : Input) (t : OperationalTarget) (o : Target) : Prop := {
  ho_identity : t_Identity o = Build_TargetIdentity (own_ns t) (om_Name (ot_Meta t)) (om_UID (ot_Meta t));
  ho_resolved : exists r, in_Resolutions inp !! meta_key (ot_Meta t) = Some r /\ t_ResolvedUID o = rs_UID r /\ rs_UID r <> "";
  ho_contract : t_ContractRef o = wire_contract inp t;
  ho_assertions : forall x, x ∈ t_AssertionBindings o <->
    exists ab, ab ∈ ts_AssertionBindings (ot_Spec t) /\ assertion_trusted inp t ab /\ x = assertion_binding t ab;
  ho_dependencies : forall x, x ∈ t_DependencyBindings o <->
    exists db, db ∈ ts_DependencyBindings (ot_Spec t) /\ dependency_trusted inp t db /\ x = dependency_binding inp t db;
}.

Lemma build_target_spec inp t :
  let '(tw, ot) := build_target inp (newGrantIndex (in_Grants inp)) t in
  reported inp t tw /\ match ot with Some o => handed_over inp t o | None => tw_Failure tw <> "" end.
Proof.
  unfold build_target.
  pose proof (bind_assertions_spec inp t (ts_AssertionBindings (ot_Spec t)) [] []) as Ha.
  destruct (foldl (bind_assertion _ t) _ _) as [d abs]. destruct Ha as [Hd Habs].
  pose proof (bind_dependencies_spec inp t (ts_DependencyBindings (ot_Spec t)) d ∅ []) as Hb.
  destruct (foldl (bind_dependency _ _ t) _ _) as [[d' cross] dbs]. destruct Hb as (Hd' & Hc & Hdbs).
  assert (forall A (x : A), x ∈ [] <-> False) as Hnil by (intros A x; split; [apply not_elem_of_nil|done]).
  assert (forall x, x ∈ sort_slice denied_less d' <->
    (exists ab, ab ∈ ts_AssertionBindings (ot_Spec t) /\ ~ assertion_trusted inp t ab /\ x = assertion_denial t ab) \/
    (exists db, db ∈ ts_DependencyBindings (ot_Spec t) /\ ~ dependency_trusted inp t db /\ x = dependency_denial t db)) as Hden.
  { intros x. rewrite elem_of_sort_slice, Hd', Hd, Hnil. tauto. }
  assert (forall x, x ∈ cross <-> exists db, db ∈ ts_DependencyBindings (ot_Spec t) /\ dependency_trusted inp t db /\
      dependency_ns t db <> own_ns t /\ x = wdb_Slot db) as Hcross.
  { intros x. rewrite Hc. assert (x ∈ (∅ : gset string) <-> False) as -> by set_solver. tauto. }
  destruct (nonempty (rs_UID _)) eqn:Hne; cbn [negb].
  - split; [by split|]. apply nonempty_true in Hne.
    destruct (in_Resolutions inp !! meta_key (ot_Meta t)) as [r|] eqn:Hr; [|done].
    split; cbn; try done; [by exists r| |].
    + intros x. rewrite Habs, Hnil. tauto.
    + intros x. rewrite Hdbs, Hnil. tauto.
  - split; [by split|]. cbn. destruct (nonempty (rs_Failure _)) eqn:Hf; [by apply nonempty_true|done].
Qed.

Lemma build_targets inp g ts wire os o :
  o ∈ (foldl (build_step inp g) (wire, os) ts).2 -> o ∈ os \/ exists t, t ∈ ts /\ (build_target inp g t).2 = Some o.
Proof.
  revert wire os. induction ts as [|t ts IH]; intros wire os; cbn; [by left|].
  destruct (build_target inp g t) as [tw [o'|]] eqn:Hb; intros Ho%IH.
  - destruct Ho as [[Ho| ->%list_elem_of_singleton]%elem_of_app|(t' & ? & ?)]; [by left| |].
    + right. exists t. split; [by apply elem_of_cons; left|by rewrite Hb].
    + right. exists t'. split; [by apply elem_of_cons; right|done].
  - destruct Ho as [Ho|(t' & ? & ?)]; [by left|right]. exists t'. split; [by apply elem_of_cons; right|done].
Qed.

Lemma Build_Targets inp o :
  o ∈ Targets (bt_Snapshot (Build inp)) -> exists t, t ∈ in_Targets inp /\ handed_over inp t o.
Proof.
  unfold Build. pose proof (build_targets inp (newGrantIndex (in_Grants inp)) (in_Targets inp) ∅ [] o) as Hb.
  destruct (foldl _ _ _) as [wire os]. cbn in *. intros [Ho|(t & Ht & Ho)]%Hb; [nil_elem|].
  exists t. split; [done|]. pose proof (build_target_spec inp t) as Hs.
  destruct (build_target _ _ _) as [tw ot]. cbn in Ho. subst ot. apply Hs.
Qed.

Lemma build_wire inp g ts wire os t :
  t ∈ ts -> NoDup ((fun t => om_UID (ot_Meta t)) <$> ts) ->
  (foldl (build_step inp g) (wire, os) ts).1 !! om_UID (ot_Meta t) = Some (build_target inp g t).1.
Proof.
  assert (forall ts wire os uid, uid ∉ ((fun t => om_UID (ot_Meta t)) <$> ts) ->
    (foldl (build_step inp g) (wire, os) ts).1 !! uid = wire !! uid) as Hother.
  { clear. induction ts as [|t ts IH]; intros wire os uid Hn; cbn; [done|].
    apply not_elem_of_cons in Hn as [Hne Hn]. destruct (build_target inp g t) as [tw ot]. cbn.
    rewrite IH by done. by rewrite lookup_insert_ne. }
  revert wire os. induction ts as [|t' ts IH]; intros wire os Ht Hnd; [nil_elem|].
  apply NoDup_cons in Hnd as [Hn Hnd]. cbn.
  destruct (build_target inp g t') as [tw ot] eqn:Hb. cbn.
  apply elem_of_cons in Ht as [->|Ht]; [|by apply IH].
  rewrite Hother by done. by rewrite lookup_insert_eq, Hb.
Qed.

Lemma Build_Wire inp t :
  t ∈ in_Targets inp -> NoDup ((fun t => om_UID (ot_Meta t)) <$> in_Targets inp) ->
  bt_Wire (Build inp) !! om_UID (ot_Meta t) = Some (build_target inp (newGrantIndex (in_Grants inp)) t).1.
Proof.
  intros Ht Hnd. unfold Build. pose proof (build_wire inp (newGrantIndex (in_Grants inp)) (in_Targets inp) ∅ [] t Ht Hnd) as Hw.
  by destruct (foldl _ _ _).
Qed.

Lemma target_named_spec ts k t : target_named ts k = Some t -> t ∈ ts /\ meta_key (ot_Meta t) = k.
Proof. unfold target_named. intros [Ht Hk%bool_decide_eq_true]%find_Some_elem. rewrite list_elem_of_In, <- in_rev, <- list_elem_of_In in Ht. done. Qed.

(** A dependency is pinned to a target of the namespace and name it gives, or
    to nothing. *)
Lemma pinnedUID_spec ts ns ref :
  (pinnedUID ts ns ref = dt_UID ref /\
   exists t, t ∈ ts /\ meta_key (ot_Meta t) = (ns, dt_Name ref) /\ om_UID (ot_Meta t) = dt_UID ref) \/
  pinnedUID ts ns ref = "unresolved:" +:+ ns +:+ "/" +:+ dt_Name ref +:+ "@" +:+ dt_UID ref.
Proof.
  unfold pinnedUID. destruct (target_named ts (ns, dt_Name ref)) as [t|] eqn:Ht; [|by right].
  apply target_named_spec in Ht as [Ht Hk]. case_decide; [left|by right]. split; [done|]. by exists t.
Qed.

(** ** Trust *)

(** C14. A target reaches the evaluator only when its workload resolved, with
    exactly those of its bindings that stay in its namespace or that an exact,
    typed grant of the other namespace covers; and a dependency is pinned to a
    target of the namespace and name that was granted, or to none. *)
Theorem Build_trusted inp o :
  o ∈ Targets (bt_Snapshot (Build inp)) ->
  exists t, t ∈ in_Targets inp /\ handed_over inp t o /\
    forall b, b ∈ t_DependencyBindings o -> exists db, db ∈ ts_DependencyBindings (ot_Spec t) /\ dependency_trusted inp t db /\
      db_Slot b = wdb_Slot db /\
      ((exists t', t' ∈ in_Targets inp /\ own_ns t' = dependency_ns t db /\ om_Name (ot_Meta t') = dt_Name (wdb_Target db) /\
          om_UID (ot_Meta t') = db_TargetUID b) \/
       exists rest, db_TargetUID b = "unresolved:" +:+ rest).
Proof.
  intros (t & Ht & Hh)%Build_Targets. exists t. split; [done|]. split; [done|].
  intros b (db & Hdb & Htr & ->)%(ho_dependencies _ _ _ Hh). exists db. split; [done|]. split; [done|]. split; [done|].
  cbn. destruct (pinnedUID_spec (in_Targets inp) (dependency_ns t db) (wdb_Target db)) as [(-> & t' & Ht' & Hk & Hu)| ->].
  - left. exists t'. unfold meta_key in Hk. injection Hk as Hns Hn. by split_and!.
  - right. by eexists.
Qed.

(** ** What a target is told *)

(** Two inputs that agree on all that target [t] may see: its grants, the
    contracts of its namespace, its own resolution, and the targets its
    namespace may depend on. *)
Record same_view (inp inp' : Input) (t : OperationalTarget) : Prop := {
  sv_trust : forall toNS ty name, trusted inp (own_ns t) toNS ty name <-> trusted inp' (own_ns t) toNS ty name;
  sv_contracts : forall name, contract_at (in_Contracts inp) (own_ns t, name) = contract_at (in_Contracts inp') (own_ns t, name);
  sv_targets : forall ns name, trusted inp (own_ns t) ns ReferenceDependency name ->
    (fun t => om_UID (ot_Meta t)) <$> target_named (in_Targets inp) (ns, name) =
    (fun t => om_UID (ot_Meta t)) <$> target_named (in_Targets inp') (ns, name);
  sv_resolution : in_Resolutions inp !! meta_key (ot_Meta t) = in_Resolutions inp' !! meta_key (ot_Meta t);
}.

Lemma pinnedUID_same ts ts' ns ref :
  (fun t => om_UID (ot_Meta t)) <$> target_named ts (ns, dt_Name ref) = (fun t => om_UID (ot_Meta t)) <$> target_named ts' (ns, dt_Name ref) ->
  pinnedUID ts ns ref = pinnedUID ts' ns ref.
Proof.
  unfold pinnedUID. destruct (target_named ts _), (target_named ts' _); cbn; intros Hu; try done. by injection Hu as ->.
Qed.

Lemma build_target_same inp inp' t :
  same_view inp inp' t ->
  build_target inp (newGrantIndex (in_Grants inp)) t = build_target inp' (newGrantIndex (in_Grants inp')) t.
Proof.
  intros [Htr Hc Ht Hr].
  assert (forall toNS ty name, allows (newGrantIndex (in_Grants inp)) (own_ns t) toNS ty name =
    allows (newGrantIndex (in_Grants inp')) (own_ns t) toNS ty name) as Hall.
  { intros. apply eq_true_iff_eq. rewrite !allows_spec. apply Htr. }
  unfold build_target, wire_contract. cbn. change (om_Namespace (ot_Meta t)) with (own_ns t). rewrite Hc, Hr.
  rewrite (foldl_same (bind_assertion (newGrantIndex (in_Grants inp)) t) (bind_assertion (newGrantIndex (in_Grants inp')) t)).
  2: { intros [d b] ab _. unfold bind_assertion. change (om_Namespace (ot_Meta t)) with (own_ns t). by rewrite Hall. }
  destruct (foldl _ _ (ts_AssertionBindings _)) as [d abs].
  rewrite (foldl_same (bind_dependency (newGrantIndex (in_Grants inp)) (in_Targets inp) t)
    (bind_dependency (newGrantIndex (in_Grants inp')) (in_Targets inp') t)); [done|].
  intros [[d' c] b] db _. unfold bind_dependency. change (om_Namespace (ot_Meta t)) with (own_ns t).
  change (or_own t (dt_Namespace (wdb_Target db))) with (dependency_ns t db). rewrite <- Hall.
  destruct (allows _ _ _ _ _) eqn:Ha; cbn [negb]; [|done].
  rewrite (pinnedUID_same (in_Targets inp) (in_Targets inp')); [done|]. apply Ht. by apply allows_spec.
Qed.

(** C15. What a target is told of its references -- denials, resolution,
    contract -- depends on nothing that another namespace did not grant it: it
    is the same whatever else exists, so a denied reference never reveals
    whether its referent exists.  (The UID to which a granted dependency is
    pinned goes to the evaluator, not into this view.) *)
Theorem Build_reveals_nothing inp inp' t :
  t ∈ in_Targets inp -> NoDup ((fun t => om_UID (ot_Meta t)) <$> in_Targets inp) ->
  t ∈ in_Targets inp' -> NoDup ((fun t => om_UID (ot_Meta t)) <$> in_Targets inp') ->
  same_view inp inp' t ->
  exists tw, bt_Wire (Build inp) !! om_UID (ot_Meta t) = Some tw /\ bt_Wire (Build inp') !! om_UID (ot_Meta t) = Some tw /\
    reported inp t tw.
Proof.
  intros Ht Hnd Ht' Hnd' Hsame. rewrite (Build_Wire _ _ Ht Hnd), (Build_Wire _ _ Ht' Hnd').
  exists (build_target inp (newGrantIndex (in_Grants inp)) t).1. rewrite <- (build_target_same inp inp' t Hsame).
  split; [done|]. split; [done|]. pose proof (build_target_spec inp t) as Hs.
  destruct (build_target _ _ t) as [tw ot]. apply Hs.
Qed.
End spec.

(** * The digest of a contract (pkg/opswire/contract.go)

    [SpecDigest] is the same for two specs exactly when they differ in nothing
    but the order of lists whose order means nothing. *)

(** [ys] is a reordering of [xs], element by element related by [R]. *)
Definition reordered {A} (R : A -> A -> Prop) (xs ys : list A) : Prop := exists zs, xs ≡ₚ zs /\ Forall2 R zs ys.

Definition same_assertion (a b : AssertionSlot) : Prop :=
  s_Name a = s_Name b /\ s_Type a = s_Type b /\ s_MaxAge a = s_MaxAge b /\ s_Enum a ≡ₚ s_Enum b.
Definition same_capability (a b : Capability) : Prop := cp_Type a = cp_Type b /\ cp_Requirements a ≡ₚ cp_Requirements b.
Definition same_envelope (a b : Envelope) : Prop :=
  env_Name a = env_Name b /\ env_Class a = env_Class b /\ env_Requirements a ≡ₚ env_Requirements b.

Record same_semantics (c d : Contract) : Prop := {
  ss_identity : c_Identity c = c_Identity d;
  ss_assertions : reordered same_assertion (c_Assertions c) (c_Assertions d);
  ss_slots : c_DependencySlots c ≡ₚ c_DependencySlots d;
  ss_capabilities : reordered same_capability (c_Capabilities c) (c_Capabilities d);
  ss_envelopes : reordered same_envelope (c_Envelopes c) (c_Envelopes d);
}.

(** The names of a contract's parts are distinct. *)
Record distinct_names (c : Contract) : Prop := {
  dn_assertions : NoDup (s_Name <$> c_Assertions c);
  dn_slots : NoDup (ds_Name <$> c_DependencySlots c);
  dn_capabilities : NoDup ((fun cp => CapabilityType_String (cp_Type cp)) <$> c_Capabilities c);
  dn_envelopes : NoDup (env_Name <$> c_Envelopes c);
}.

Lemma ltb_lex a b : String.ltb a b = lex_ltb [a] [b].
Proof. cbn. case_decide; subst; [apply string_ltb_irrefl|done]. Qed.

(** Equal images up to order are equal up to order and [f]. *)
Lemma reordered_fmap {A B} (f : A -> B) (R : A -> A -> Prop) xs ys :
  (forall a b, f a = f b <-> R a b) -> reordered R xs ys <-> f <$> xs ≡ₚ f <$> ys.
Proof.
  intros HR. split.
  - intros (zs & Hp & Hf). rewrite Hp. clear Hp xs.
    induction Hf as [|z y zs ys Hz _ IH]; cbn; [done|]. apply HR in Hz. by rewrite Hz, IH.
  - intros Hp. symmetry in Hp. destruct (Permutation_map_inv f xs Hp) as (zs & Heq & Hzs). exists zs. split; [done|].
    clear Hp Hzs. revert ys Heq. induction zs as [|z zs IH]; intros [|y ys]; cbn; intros Heq; try done.
    injection Heq as Hz Heq. constructor; [by apply HR|by apply IH].
Qed.

(** Sorting by distinct names forgets the order, and nothing else. *)
Lemma sort_named `{SortSlice} {A B} (f : A -> B) (name : B -> string) xs ys :
  NoDup ((name ∘ f) <$> xs) ->
  sort_slice (fun a b => String.ltb (name a) (name b)) (f <$> xs) =
  sort_slice (fun a b => String.ltb (name a) (name b)) (f <$> ys) <-> f <$> xs ≡ₚ f <$> ys.
Proof.
  intros Hnd. split.
  - intros Heq. rewrite <- (sort_slice_perm _ (fun a b => String.ltb (name a) (name b)) (f <$> xs)), Heq. apply sort_slice_perm.
  - apply (sort_slice_key_unique (fun x => [name x])); [intros; apply ltb_lex|].
    intros x y Hx Hy [= Hxy]. rewrite list_fmap_compose in Hnd. by eapply (NoDup_fmap_inj name).
Qed.

Lemma sort_enum_same `{SortSlice} a b : sort_enum a = sort_enum b <-> same_assertion a b.
Proof.
  unfold sort_enum, same_assertion. split.
  - intros [= -> -> He ->]. split_and!; try done. rewrite <- (sort_slice_perm _ String.ltb (s_Enum a)).
    unfold sort_strings in He. rewrite He. apply sort_slice_perm.
  - intros (-> & -> & -> & Hp). by rewrite (sort_strings_unique _ _ Hp).
Qed.

Lemma sortByJSON_same {A} (json : A -> string) xs ys :
  Inj (=) (=) json -> sortByJSON json xs = sortByJSON json ys <-> xs ≡ₚ ys.
Proof.
  intros Hinj. split.
  - intros Heq. unfold sortByJSON in Heq.
    rewrite <- (slice_stable_perm (fun x y => String.ltb (json x) (json y)) xs), Heq. apply slice_stable_perm.
  - apply (sort_slice_key_unique (H := insertion_sort) (fun x => [json x])); [intros; apply ltb_lex|].
    intros x y _ _ [= Hxy]. by apply Hinj.
Qed.

Section digest.
Context `{SortSlice} `{Encoding}.

(** JSON texts and digests tell different values apart. *)
Hypothesis json_requirement_inj : Inj (=) (=) json_requirement.
Hypothesis json_predicate_inj : Inj (=) (=) json_predicate.
Hypothesis digest_inj : Inj (=) (=) digest_contract.

Lemma normalize_same c d :
  distinct_names c -> normalize c = normalize d <-> same_semantics c d.
Proof.
  intros [Ha Hs Hc He].
  pose proof (sort_named sort_enum s_Name (c_Assertions c) (c_Assertions d) Ha) as Ea.
  pose proof (sort_named id ds_Name (c_DependencySlots c) (c_DependencySlots d) Hs) as Es. rewrite !list_fmap_id in Es.
  pose proof (sort_named sort_requirements (fun cp => CapabilityType_String (cp_Type cp)) (c_Capabilities c) (c_Capabilities d) Hc) as Ec.
  pose proof (sort_named sort_predicates env_Name (c_Envelopes c) (c_Envelopes d) He) as Ee.
  rewrite <- (reordered_fmap sort_enum same_assertion) in Ea by apply sort_enum_same.
  rewrite <- (reordered_fmap sort_requirements same_capability) in Ec.
  2: { intros a b. unfold sort_requirements, same_capability. rewrite <- (sortByJSON_same json_requirement) by done.
       split; [by intros [= -> ->]|by intros (-> & ->)]. }
  rewrite <- (reordered_fmap sort_predicates same_envelope) in Ee.
  2: { intros a b. unfold sort_predicates, same_envelope. rewrite <- (sortByJSON_same json_predicate) by done.
       split; [by intros [= -> -> ->]|by intros (-> & -> & ->)]. }
  unfold normalize. split.
  - intros [= Hid H1 H2 H3 H4]. split; [done|by apply Ea|by apply Es|by apply Ec|by apply Ee].
  - intros [Hid H1 H2 H3 H4]. apply Ea in H1. apply Es in H2. apply Ec in H3. apply Ee in H4. congruence.
Qed.

(** Two specs have the same digest exactly when they mean the same
    contract: the same slots, capabilities, requirements and envelopes, in any
    order. *)
Theorem SpecDigest_spec spec spec' :
  distinct_names (semanticContract spec) ->
  SpecDigest spec = SpecDigest spec' <-> same_semantics (semanticContract spec) (semanticContract spec').
Proof.
  intros Hd. rewrite <- normalize_same by done. unfold SpecDigest. split; [by intros ?%digest_inj|by intros ->].
Qed.
End digest.
