(* ===== verification/OpsPublish.v ===== *)
(** * What is published about a target (pkg/opswire/status.go)

    What a status discloses, how large it is, and that writing it settles. *)

From S2P Require Import Prelude Identity Predicate Contract Assessment Profile OpsStatus OpsSpec.
From S2P Require Import OpsWire.
From Stdlib Require Import Ascii.

#[local] Arguments Ascii.eqb : simpl never.
#[local] Arguments String.append : simpl nomatch.

(** ** Text *)
Lemma cut_at_app sep u s : has_char sep u = false -> cut_at sep (u +:+ String sep s) = Some (u, s).
Proof.
  induction u as [|c u IH]; cbn; [by rewrite Ascii.eqb_refl|].
  intros [-> Hu]%orb_false_iff. by rewrite IH.
Qed.

Lemma substring_app p s : String.substring (String.length p) (String.length (p +:+ s) - String.length p) (p +:+ s) = s.
Proof.
  assert (forall s, String.substring 0 (String.length s) s = s) as Hall by (clear; induction s as [|c s IH]; cbn; [done|by rewrite IH]).
  induction p as [|c p IH]; cbn; [rewrite Nat.sub_0_r; apply Hall|exact IH].
Qed.

Lemma has_prefix_app p s : has_prefix p (p +:+ s) = true.
Proof. induction p as [|c p IH]; cbn; [done|]. by rewrite bool_decide_eq_true_2. Qed.

Lemma CutPrefix_app p s : CutPrefix (p +:+ s) p = Some s.
Proof. unfold CutPrefix. by rewrite has_prefix_app, substring_app. Qed.

Lemma before_arrow_app u s : has_char ">"%char u = false -> before_arrow (u +:+ "->" +:+ s) = Some u.
Proof.
  induction u as [|c u IH]; [done|]. intros [Hc Hu]%orb_false_iff.
  change (String c u +:+ "->" +:+ s) with (String c (u +:+ "->" +:+ s)). cbn [before_arrow].
  rewrite (IH Hu). destruct (has_prefix "->" _) eqn:Hp; [|done]. exfalso.
  cbn in Hp. apply andb_true_iff in Hp as [_ Hp]. destruct u as [|d u]; cbn in Hp; [done|].
  apply andb_true_iff in Hp as [Hd _]. apply bool_decide_eq_true in Hd. subst d. cbn in Hu. done.
Qed.

(** The subject of a dependency reason names its slot. *)
Lemma dependencySlot_of slot rest :
  has_char ">"%char slot = false -> dependencySlot ("dependency:" +:+ slot +:+ "->" +:+ rest) = slot.
Proof. intros Hs. unfold dependencySlot. rewrite CutPrefix_app. cbn [default from_option id]. by rewrite before_arrow_app. Qed.

(** ** Disclosure *)

(** The detail the evaluator gives for a cycle through [members]. *)
Definition cycle_detail (members : list (string * string)) : string :=
  "cycle members: " +:+ join "," ((fun n => n.1 +:+ "/" +:+ n.2) <$> members).

Definition plain_uid (uid : string) : Prop := has_char ","%char uid = false /\ has_char "/"%char uid = false.

Lemma cycle_members_own members ns namespaceOf :
  Forall (fun n => plain_uid n.1) members -> cycleWithinNamespace (cycle_detail members) ns namespaceOf = true ->
  Forall (fun n => namespaceOf !! n.1 = Some ns) members.
Proof.
  intros Hplain. unfold cycleWithinNamespace, cycle_detail. rewrite CutPrefix_app.
  intros [_ Hall]%andb_true_iff. rewrite forallb_forall in Hall.
  apply Forall_forall. intros [uid cap] Hin. destruct (proj1 (Forall_forall _ _) Hplain _ Hin) as [Hc Hs]. cbn in *.
  assert (has_char ","%char (uid +:+ "/") = false) as Hc' by by rewrite has_char_app, Hc.
  destruct (split_on_head ","%char (uid +:+ "/") cap Hc') as (x & xs & Hx).
  rewrite <- !string_app_assoc in Hx.
  assert (uid +:+ "/" +:+ x ∈ split_on ","%char (join "," ((fun n => n.1 +:+ "/" +:+ n.2) <$> members))) as Hm.
  { apply (split_on_join ","%char _ (uid +:+ "/" +:+ cap)); [apply list_elem_of_fmap; by exists (uid, cap)|].
    rewrite Hx. apply elem_of_cons. by left. }
  apply list_elem_of_In, Hall in Hm. unfold member_in in Hm.
  change ("/" +:+ x) with (String "/" x) in Hm. rewrite cut_at_app in Hm by done.
  by apply andb_true_iff in Hm as [_ ?%bool_decide_eq_true].
Qed.

(** Every reason a status shows. *)
Definition shown_reasons (st : TargetStatus) : list StatusReason :=
  st_InvalidReasons st ++ (st_Capabilities st ≫= cs_Reasons) ++ (st_Envelopes st ≫= es_Reasons).

(** A reason tells nothing of other namespaces beyond its code and subject:
    its detail is shown for a cycle only when all members are targets of [ns],
    and for a dependency only when it stays in the namespace. *)
Definition discloses_own (tw : TargetWire) (ns : string) (namespaceOf : gmap string string) (r : Reason) : Prop :=
  (forall members, Code r = ReasonDependencyCycle -> Detail r = cycle_detail members ->
     Forall (fun n => plain_uid n.1) members -> Forall (fun n => namespaceOf !! n.1 = Some ns) members) /\
  (has_prefix "dependency-" (Code r) = true -> Code r <> ReasonDependencyUnmet -> Code r <> ReasonDependencyCycle ->
     dependencySlot (Subject r) ∉ tw_CrossNamespaceSlots tw).

Lemma truncate_nil n : truncate "" n = "".
Proof. done. Qed.

Lemma wire_reason_own tw ns namespaceOf r :
  sr_Detail (wire_reason tw ns namespaceOf r) <> "" -> discloses_own tw ns namespaceOf r.
Proof.
  unfold wire_reason, discloses_own. cbn [sr_Detail]. intros Hd.
  assert (shown_detail tw ns namespaceOf r <> "") as Hs by (intros E; apply Hd; by rewrite E).
  clear Hd. unfold shown_detail in Hs. split.
  - intros members Hc Hdet Hp. rewrite decide_True in Hs by done.
    destruct (cycleWithinNamespace (Detail r) ns namespaceOf) eqn:Hcyc; [|done]. rewrite Hdet in Hcyc.
    by eapply cycle_members_own.
  - intros Hp Hu Hc Hin. rewrite decide_False, Hp in Hs by done. rewrite bool_decide_eq_false_2 in Hs by done.
    rewrite bool_decide_eq_true_2 in Hs by done. done.
Qed.

Lemma elem_of_limit x rs n : x ∈ limit rs n -> x ∈ rs.
Proof.
  unfold limit. destruct (n <? length rs); [|done].
  intros (i & Hi)%list_elem_of_lookup. apply lookup_take_Some in Hi as [Hi _]. by eapply list_elem_of_lookup_2.
Qed.

Lemma length_limit_reasons rs n : length (limit rs n) <= n.
Proof. unfold limit. destruct (Nat.ltb_spec n (length rs)); [rewrite length_take|]; lia. Qed.

(** C27. What a status shows in detail is the target's own: the detail of a
    cycle only when every member is a target of its namespace, and the detail
    of an unproven dependency only when the dependency stays in its
    namespace. *)
Theorem status_discloses_own t b a sr :
  sr ∈ shown_reasons (semantic_status t b a) -> sr_Detail sr <> "" ->
  let tw := default zero_TargetWire (bt_Wire b !! om_UID (ot_Meta t)) in
  exists r, sr = wire_reason tw (om_Namespace (ot_Meta t)) (bt_namespaceOf b) r /\
    discloses_own tw (om_Namespace (ot_Meta t)) (bt_namespaceOf b) r.
Proof.
  unfold semantic_status. cbv zeta. set (tw := default zero_TargetWire _).
  intros Hin Hd.
  assert (sr_Detail sr <> "" -> forall rs n, sr ∈ limit (reasons rs tw (om_Namespace (ot_Meta t)) (bt_namespaceOf b)) n ->
    exists r, sr = wire_reason tw (om_Namespace (ot_Meta t)) (bt_namespaceOf b) r /\
      discloses_own tw (om_Namespace (ot_Meta t)) (bt_namespaceOf b) r) as Hgo.
  { intros Hne rs n Hrs%elem_of_limit. apply list_elem_of_fmap in Hrs as (r & -> & _).
    exists r. split; [done|]. by apply wire_reason_own. }
  destruct (nonempty (tw_Failure tw)); [|destruct (assessment_target _ _) as [ta|]].
  - unfold shown_reasons in Hin. cbn in Hin. by apply list_elem_of_singleton in Hin as ->.
  - unfold shown_reasons in Hin. cbn in Hin. rewrite !elem_of_app in Hin. destruct Hin as [Hin|[Hin|Hin]].
    + by eapply Hgo.
    + apply list_elem_of_bind in Hin as (c & Hin & Hc). apply list_elem_of_fmap in Hc as (c' & -> & _). by eapply Hgo.
    + apply list_elem_of_bind in Hin as (c & Hin & Hc). apply list_elem_of_fmap in Hc as (c' & -> & _). by eapply Hgo.
  - unfold shown_reasons in Hin. cbn in Hin. by apply list_elem_of_singleton in Hin as ->.
Qed.

(** ** Size *)
Lemma length_of_bytes bs : String.length (of_bytes bs) = length bs.
Proof. unfold of_bytes. induction bs as [|b bs IH]; cbn; [done|by rewrite IH]. Qed.

Lemma length_valid_bytes fuel bs : length (valid_bytes fuel bs) <= length bs.
Proof.
  revert bs. induction fuel as [|fuel IH]; intros bs; cbn [valid_bytes]; [cbn; lia|].
  destruct bs as [|b bs]; [done|]. destruct (_ || _).
  - rewrite length_app, length_take. specialize (IH (drop (rune_width (b :: bs)) (b :: bs))).
    rewrite length_drop in IH. lia.
  - specialize (IH bs). cbn [length]. lia.
Qed.

Lemma length_substring_cut n s : n <= String.length s -> String.length (String.substring 0 n s) = n.
Proof.
  revert s. induction n as [|n IH]; intros [|c s]; cbn; intros Hn; try lia. rewrite IH; lia.
Qed.

Lemma length_string_bytes s : length (string_bytes s) = String.length s.
Proof. unfold string_bytes. rewrite length_fmap. induction s as [|c s IH]; cbn; [done|by rewrite IH]. Qed.

Lemma length_truncate s n : String.length (truncate s n) <= n.
Proof.
  unfold truncate. destruct (Nat.leb_spec (String.length s) n); [done|].
  rewrite length_of_bytes. etrans; [apply length_valid_bytes|].
  rewrite length_string_bytes, length_substring_cut by lia. done.
Qed.

(** A published status stays within its bounds: at most 32 invalid
    reasons and 40 reasons per capability and envelope, subjects of 512 and
    details of 256 bytes, evidence references of 256, one entry per assessed
    slot, capability and envelope. *)
Theorem status_bounded t b ta :
  let tw := default zero_TargetWire (bt_Wire b !! om_UID (ot_Meta t)) in
  let st := project_assessed t tw (bt_namespaceOf b) ta in
  length (st_InvalidReasons st) <= maxInvalidReasons /\
  Forall (fun c => length (cs_Reasons c) <= maxReasons) (st_Capabilities st) /\
  Forall (fun e => length (es_Reasons e) <= maxReasons) (st_Envelopes st) /\
  Forall (fun r => String.length (sr_Subject r) <= maxSubject /\ String.length (sr_Detail r) <= maxDetail) (shown_reasons st) /\
  Forall (fun e => String.length (ee_EvidenceRef e) <= maxEvidenceRef) (st_Evidence st) /\
  length (st_Evidence st) = length (ta_Evidence ta) /\ length (st_Capabilities st) = length (ta_Capabilities ta) /\
  length (st_Envelopes st) = length (ta_Envelopes ta).
Proof.
  cbv zeta. set (tw := default zero_TargetWire _). split_and!; cbn; rewrite ?length_fmap; try done.
  - apply length_limit_reasons.
  - apply Forall_fmap, Forall_forall. intros c _. cbn. apply length_limit_reasons.
  - apply Forall_fmap, Forall_forall. intros c _. cbn. apply length_limit_reasons.
  - assert (forall rs n, Forall (fun r => String.length (sr_Subject r) <= maxSubject /\ String.length (sr_Detail r) <= maxDetail)
      (limit (reasons rs tw (om_Namespace (ot_Meta t)) (bt_namespaceOf b)) n)) as Hr.
    { intros rs n. apply Forall_forall. intros sr Hsr%elem_of_limit. apply list_elem_of_fmap in Hsr as (r & -> & _).
      split; apply length_truncate. }
    apply Forall_app_2; [apply Hr|]. apply Forall_app_2; apply Forall_bind, Forall_fmap, Forall_forall; intros c _; apply Hr.
  - apply Forall_fmap, Forall_forall. intros e _. unfold compose, wire_evidence. cbn [ee_EvidenceRef].
    destruct (Nat.ltb_spec maxEvidenceRef (String.length (sv_EvidenceRef e))); cbn; lia.
Qed.

(** ** Writing settles *)
Section apply.
Context `{ApimachineryLaws}.

Lemma split_type (cs : list Condition) ty :
  (forall x, x ∈ cs -> cn_Type x <> ty) \/
  exists pre x post, cs = pre ++ x :: post /\ (forall y, y ∈ pre -> cn_Type y <> ty) /\ cn_Type x = ty.
Proof.
  induction cs as [|c cs IH]; [left; intros x Hx; nil_elem|].
  destruct (decide (cn_Type c = ty)) as [Hc|Hc].
  - right. exists [], c, cs. split; [done|]. split; [|done]. intros y Hy. nil_elem.
  - destruct IH as [Hn|(pre & x & post & -> & Hpre & Hx)].
    + left. intros x [->|Hx]%elem_of_cons; auto.
    + right. exists (c :: pre), x, post. split; [done|]. split; [|done]. intros y [->|Hy]%elem_of_cons; auto.
Qed.

Lemma strip_transition t c : strip_condition (transition_at t c) = strip_condition c.
Proof. done. Qed.

(** But for times, what the library makes of a condition. *)
Lemma set_condition_stripped cs c :
  (forall x, x ∈ cs -> cn_Type x <> cn_Type c) /\ strip_condition <$> SetStatusCondition cs c = strip_condition <$> cs ++ [c] \/
  exists pre x post, cs = pre ++ x :: post /\ (forall y, y ∈ pre -> cn_Type y <> cn_Type c) /\ cn_Type x = cn_Type c /\
    strip_condition <$> SetStatusCondition cs c = strip_condition <$> pre ++ c :: post.
Proof.
  destruct (split_type cs (cn_Type c)) as [Hn|(pre & x & post & -> & Hpre & Hx)]; [left|right].
  - split; [done|]. destruct (set_condition_new cs c Hn) as (t & -> & _). by rewrite !fmap_app.
  - exists pre, x, post. split_and!; try done. destruct (set_condition_old pre x post c Hpre Hx) as (t & -> & _). by rewrite !fmap_app.
Qed.

Lemma strip_type x y : strip_condition x = strip_condition y -> cn_Type x = cn_Type y.
Proof. by destruct x, y; intros [=]. Qed.

(** The types of a list of conditions, from the stripped list. *)
Lemma strip_types (cs cs' : list Condition) : strip_condition <$> cs = strip_condition <$> cs' -> cn_Type <$> cs = cn_Type <$> cs'.
Proof.
  revert cs'. induction cs as [|c cs IH]; intros [|c' cs']; try done. rewrite !fmap_cons. intros E.
  pose proof (f_equal head E) as Hh. pose proof (f_equal tail E) as Ht. cbn [head tail] in Hh, Ht. apply (inj Some) in Hh.
  f_equal; [by apply strip_type|by apply IH].
Qed.

Lemma absent_type (cs : list Condition) ty : (forall x, x ∈ cs -> cn_Type x <> ty) <-> ty ∉ cn_Type <$> cs.
Proof.
  rewrite list_elem_of_fmap. split; [intros Hn (x & -> & Hx); by apply (Hn x)|]. intros Hn x Hx <-. apply Hn. eauto.
Qed.

(** But for times, setting a condition sets it once. *)
Lemma set_condition_strip cs cs' c c' :
  strip_condition <$> cs = strip_condition <$> cs' -> strip_condition c = strip_condition c' ->
  strip_condition <$> SetStatusCondition cs c = strip_condition <$> SetStatusCondition cs' c'.
Proof.
  intros Hcs Hc. pose proof (strip_type _ _ Hc) as Ht. pose proof (strip_types _ _ Hcs) as Hts.
  destruct (set_condition_stripped cs c) as [[Hn ->]|(pre & x & post & -> & Hpre & Hx & ->)];
    destruct (set_condition_stripped cs' c') as [[Hn' ->]|(pre' & x' & post' & -> & Hpre' & Hx' & ->)].
  - by rewrite !fmap_app, Hcs, !list_fmap_singleton, Hc.
  - exfalso. apply absent_type in Hn. rewrite Hts, Ht in Hn. apply Hn. rewrite fmap_app, fmap_cons, Hx'. set_solver.
  - exfalso. apply absent_type in Hn'. rewrite <- Hts, <- Ht in Hn'. apply Hn'. rewrite fmap_app, fmap_cons, Hx. set_solver.
  - rewrite !fmap_app, !fmap_cons in *. rewrite Hx, Hx', Ht in Hts. rewrite Ht, absent_type in Hpre. rewrite absent_type in Hpre'.
    assert (length pre = length pre') as Hlen.
    { rewrite <- (length_fmap cn_Type pre), <- (length_fmap cn_Type pre').
      revert Hts Hpre Hpre'. generalize (cn_Type <$> pre), (cn_Type <$> pre'). clear. intros l. induction l as [|y l IH]; intros [|y' l']; cbn.
      - done.
      - intros [= -> _] _ Hp. set_solver.
      - intros [= <- _] Hp. set_solver.
      - intros [= <- E] Hp Hp'. f_equal. apply IH; [done|set_solver..]. }
    apply app_inj_1 in Hcs as [Hp Hq]; [|by rewrite !length_fmap].
    pose proof (f_equal tail Hq) as Hpost. cbn [tail] in Hpost. by rewrite Hp, Hc, Hpost.
Qed.

Lemma set_condition_twice cs c c' :
  strip_condition c = strip_condition c' ->
  strip_condition <$> SetStatusCondition (SetStatusCondition cs c) c' = strip_condition <$> SetStatusCondition cs c.
Proof.
  intros Hc. pose proof (strip_type _ _ Hc) as Ht.
  assert (exists pre post, SetStatusCondition cs c = pre ++ post /\ (forall y, y ∈ pre -> cn_Type y <> cn_Type c') /\
    exists x post', post = x :: post' /\ strip_condition x = strip_condition c') as (pre & ? & -> & Hpre & x & post & -> & Hx).
  { destruct (split_type cs (cn_Type c)) as [Hn|(pre & x & post & -> & Hpre & Hx)].
    - destruct (set_condition_new cs c Hn) as (t & -> & _). exists cs, [transition_at t c]. rewrite <- Ht. split_and!; try done. by eexists _, _.
    - destruct (set_condition_old pre x post c Hpre Hx) as (t & -> & _). exists pre, (transition_at t c :: post).
      rewrite <- Ht. split_and!; try done. by eexists _, _. }
  destruct (set_condition_old pre x post c' Hpre (strip_type _ _ Hx)) as (t & -> & _).
  by rewrite !fmap_app, !fmap_cons, strip_transition, Hx.
Qed.

(** [Apply] without the test for a change. *)
Definition next_status (current desired : OperationalTargetStatus) (now : Time) : OperationalTargetStatus :=
  Build_OperationalTargetStatus (os_ObservedGeneration desired) (os_AssessedAt current) (os_Semantic desired)
    (os_Interaction desired) (SetStatusCondition (os_Conditions current) (assessment_condition desired now)).

Lemma SemanticEqual_spec a b : SemanticEqual a b = true <-> stripTimes a = stripTimes b.
Proof. apply semantic_equal. Qed.

Lemma Apply_false current desired now :
  (Apply current desired now).2 = false <-> stripTimes current = stripTimes (next_status current desired now).
Proof.
  rewrite <- SemanticEqual_spec. unfold Apply, next_status. by destruct (SemanticEqual _ _).
Qed.

Lemma strip_assessment_condition desired now now' :
  strip_condition (assessment_condition desired now) = strip_condition (assessment_condition desired now').
Proof. unfold assessment_condition. by destruct (st_Valid _). Qed.

Lemma strip_next current desired now now' :
  stripTimes (next_status current desired now) = stripTimes (next_status current desired now').
Proof.
  unfold stripTimes, next_status. cbn. f_equal. apply set_condition_strip; [done|apply strip_assessment_condition].
Qed.

Lemma Apply_again current desired now now' :
  Apply (Apply current desired now).1 desired now' = ((Apply current desired now).1, false).
Proof.
  assert (forall s, (Apply s desired now').2 = false -> Apply s desired now' = (s, false)) as Hfix.
  { intros s. unfold Apply. by destruct (SemanticEqual _ _). }
  unfold Apply at 2 3. destruct (SemanticEqual _ _) eqn:He; cbn [fst]; apply Hfix, Apply_false.
  - apply SemanticEqual_spec in He. etrans; [exact He|]. apply strip_next.
  - unfold stripTimes, next_status. cbn. f_equal. symmetry. apply set_condition_twice, strip_assessment_condition.
Qed.

Lemma Apply_unchanged current desired now : (Apply current desired now).2 = false -> (Apply current desired now).1 = current.
Proof. unfold Apply. by destruct (SemanticEqual _ _). Qed.

(** Publishing settles: once a status has been applied, applying the
    same result again changes nothing, whatever the time; and a write happens
    exactly when something other than a time differs, and then the result is
    the desired status, assessed now, with its one condition set. *)
Theorem Apply_settles current desired now now' :
  let '(s, changed) := Apply current desired now in
  Apply s desired now' = (s, false) /\
  (changed = false <-> stripTimes current = stripTimes (next_status current desired now)) /\
  (changed = false -> s = current) /\
  (changed = true -> os_Semantic s = os_Semantic desired /\ os_Interaction s = os_Interaction desired /\
     os_ObservedGeneration s = os_ObservedGeneration desired /\ os_AssessedAt s = Some now /\
     os_Conditions s = SetStatusCondition (os_Conditions current) (assessment_condition desired now)).
Proof.
  pose proof (Apply_again current desired now now') as Hagain. pose proof (Apply_false current desired now) as Hfalse.
  pose proof (Apply_unchanged current desired now) as Hsame.
  destruct (Apply current desired now) as [s changed] eqn:Ha. cbn in *. split; [done|]. split; [done|]. split; [done|].
  intros ->. unfold Apply in Ha. destruct (SemanticEqual _ _); [done|]. by injection Ha as <-.
Qed.
End apply.

(** A contract is reported valid exactly when it is well formed, under
    the digest of its spec, with at most 32 sorted errors of 256 bytes. *)
Theorem ContractStatus_spec `{GoText} `{SortSlice} `{Encoding} c :
  let st := ContractStatus c in
  (cst_Valid st = true <-> wf_contract (ContractFromWire c)) /\
  cst_SpecDigest st = SpecDigest (oc_Spec c) /\
  length (cst_ValidationErrors st) <= maxValidationErrors /\
  Forall (fun e => String.length e <= maxDetail) (cst_ValidationErrors st).
Proof.
  unfold ContractStatus. cbv zeta. cbn [cst_Valid cst_SpecDigest cst_ValidationErrors].
  rewrite <- Validate_ok. set (errs := sort_strings _). set (cut := if _ <? _ then _ else _).
  assert (length cut = Nat.min maxValidationErrors (length errs)) as Hcut.
  { unfold cut. destruct (Nat.ltb_spec maxValidationErrors (length errs)); [rewrite length_take|]; lia. }
  split_and!; [|done|rewrite length_fmap, Hcut; lia|].
  - rewrite length_fmap, Hcut, Nat.eqb_eq. unfold errs, sort_strings. rewrite length_sort_slice.
    destruct (Validate (ContractFromWire c)); cbn; unfold maxValidationErrors; [done|]. split; [lia|done].
  - apply Forall_fmap, Forall_forall. intros e _. cbn. apply length_truncate.
Qed.
