(* ===== verification/Operational.v ===== *)
(** * One reconcile of the operational controller
    (controllers/operational_reconciler.go): definitions

    [Reconcile] composes the other components: it lists the objects, resolves
    the targets' workloads, translates (OpsWire), investigates
    (Investigator), evaluates (Evaluator), runs the action engine (Engine),
    and publishes (OpsWire, Interaction).  The API server is a [Cluster]: what
    it answers to each request of this reconcile. *)

From S2P Require Import Prelude.
From S2P Require Import EvalSpec.
From S2P Require Import OpsWireSpec.
From S2P Require Import OpsPublish.
From S2P Require Import InvestigatorSteps.
From S2P Require Import InvestigatorSpec.
From S2P Require Import InvestigatorSelect.
From S2P Require Import Identity.
From S2P Require Import Predicate.
From S2P Require Import Contract.
From S2P Require Import Assessment.
From S2P Require Import Evaluator.
From S2P Require Import Profile.
From S2P Require Import ActionTypes.
From S2P Require Import Journal.
From S2P Require Import Proposal.
From S2P Require Import Recovery.
From S2P Require Import Engine.
From S2P Require Import OpsStatus.
From S2P Require Import OpsSpec.
From S2P Require Import OpsWire.
From S2P Require Import Interaction.
From S2P Require Import ActionStatus.
From S2P Require Import Candidates.
From S2P Require Import Investigator.

(** ** The API server *)
Record GroupVersionKind := { gvk_Group : string; gvk_Version : string; gvk_Kind : string }.

#[export] Instance GroupVersionKind_eq_dec : EqDecision GroupVersionKind.
Proof. solve_decision. Defined.

Inductive GetAnswer := Found (uid : string) | NotFound | GetFailed.

Record Cluster := {
  (** [Client.List], [None] for an error *)
  cl_contracts : option (list OperationalContract);
  cl_targets : option (list OperationalTarget);
  cl_grants : option (list OperationalReferenceGrant);
  (** [Client.Get] of a targetRef's metadata *)
  cl_get : GroupVersionKind -> string * string -> GetAnswer;
  (** whether [Client.Status().Update] of an object succeeds *)
  cl_update_contract : OperationalContract -> bool;
  cl_update_target : OperationalTarget -> bool;
  (** schema.ParseGroupVersion, and [r.now()] after the evidence I/O *)
  parse_gv : string -> option (string * string);
  cl_now : Time;
}.

(** ** The reconciler *)
Record Reconciler := {
  TargetKinds : list GroupVersionKind;
  RequeueInterval : Duration;
  (** [Observations]: the answer of the source, [None] for an error; without a
      source there are no observations *)
  ObservationSource : option (list Observation);
  (** [Investigator] with [Providers]: its limits and the registry *)
  InvestigatorLimits : option Limits;
  ProviderLookup : option (ProviderIdentity -> bool);
  InteractionEnabled : bool;
  InteractionProfile : option Profile;
  ActionConfig : option Config;
}.

Definition minRequeue : Duration := Second.

Inductive ReconcileError :=
  | ListContracts | ListTargets | ListGrants | ResolveFailed (k : string * string) | EvaluateFailed (e : evaluate_error)
  | UpdateFailed.

Inductive Write :=
  | WriteContract (c : OperationalContract) (ok : bool)
  | WriteTarget (t : OperationalTarget) (ok : bool).

Definition write_ok (wr : Write) : bool := match wr with WriteContract _ ok | WriteTarget _ ok => ok end.

Definition set_contract_status (st : OperationalContractStatus) (c : OperationalContract) : OperationalContract :=
  Build_OperationalContract (oc_Meta c) (oc_Spec c) st.
Definition set_target_status (st : OperationalTargetStatus) (t : OperationalTarget) : OperationalTarget :=
  Build_OperationalTarget (ot_Meta t) (ot_Spec t) st.

(** ** Resolution *)
Definition supported (r : Reconciler) (gvk : GroupVersionKind) : bool := existsb (fun k => bool_decide (k = gvk)) (TargetKinds r).

(** [None] for an error of the API server. *)
Definition resolve (r : Reconciler) (cl : Cluster) (t : OperationalTarget) : option Resolution :=
  let ref := ts_TargetRef (ot_Spec t) in
  match parse_gv cl (tr_APIVersion ref) with
  | None => Some (Build_Resolution "" ReasonTargetKindUnsupported)
  | Some (g, v) =>
      let gvk := Build_GroupVersionKind g v (tr_Kind ref) in
      if negb (supported r gvk) then Some (Build_Resolution "" ReasonTargetKindUnsupported)
      else match cl_get cl gvk (om_Namespace (ot_Meta t), tr_Name ref) with
      | NotFound => Some (Build_Resolution "" ReasonTargetNotFound)
      | GetFailed => None
      | Found uid => Some (Build_Resolution uid "")
      end
  end.

Fixpoint resolve_all (r : Reconciler) (cl : Cluster) (ts : list OperationalTarget) (m : gmap (string * string) Resolution) :
    ReconcileError + gmap (string * string) Resolution :=
  match ts with
  | [] => inr m
  | t :: ts =>
      match resolve r cl t with
      | None => inl (ResolveFailed (meta_key (ot_Meta t)))
      | Some res => resolve_all r cl ts (<[meta_key (ot_Meta t) := res]> m)
      end
  end.

(** ** The subjects of the queries *)
Definition subject_of (resolved : gmap string string) (out : gmap string ProviderSubject) (t : OperationalTarget) :
    gmap string ProviderSubject :=
  match resolved !! om_UID (ot_Meta t) with
  | None => out
  | Some uid =>
      let ref := ts_TargetRef (ot_Spec t) in
      <[om_UID (ot_Meta t) :=
        Build_ProviderSubject (om_Namespace (ot_Meta t)) (tr_APIVersion ref) (tr_Kind ref) (tr_Name ref) uid]> out
  end.

Definition subjects (ts : list OperationalTarget) (b : Built) : gmap string ProviderSubject :=
  let resolved := foldl (fun m t => <[ti_UID (t_Identity t) := t_ResolvedUID t]> m) ∅ (Targets (bt_Snapshot b)) in
  foldl (subject_of resolved) ∅ ts.

Definition with_evidence (b : Built) (now : Time) (obs : list Observation) : Built :=
  Build_Built (Build_Snapshot now (Contracts (bt_Snapshot b)) (Targets (bt_Snapshot b)) obs) (bt_Wire b) (bt_namespaceOf b).

Section reconcile.
Context `{GoText} `{SortSlice} `{Encoding} `{Apimachinery} `{Summaries}.
Context `{Digests} `{Providers} {J : Type} `{Journal J}.
Variable w : World.

(** ** Evidence *)

(** The queries and the observations of this reconcile; the second component
    of the state is the investigator. *)
Definition gather (r : Reconciler) (b : Built) (ts : list OperationalTarget) (iv : Investigator) :
    option (Queries * list Observation * Investigator) :=
  match InvestigatorLimits r, ProviderLookup r with
  | Some l, Some lookup =>
      let qs := Requests (bt_Snapshot b) (subjects ts b) lookup in
      iv ← Run w l (bt_Snapshot b) qs iv;
      Some (qs, Observations_ iv, iv)
  | _, _ => Some (∅, default [] (ObservationSource r), iv)
  end.

(** ** Publication *)
Definition investigation (r : Reconciler) (uid : string) (a : Assessment) (qs : Queries) (iv : Investigator) :
    option Interaction.Investigation :=
  match InvestigatorLimits r with
  | None => None
  | Some _ =>
      match assessment_target a uid with
      | None => None
      | Some ta =>
          if negb (ta_Valid ta) then None
          else match Current iv ta (default ∅ (qs !! uid)) with
          | None => None
          | Some e =>
              Some (Interaction.Build_Investigation
                (match ep_Kind e with KindInvestigate => "investigate" | KindRefresh => "refresh" end)
                (EpisodeState_string (ep_State e))
                ((fun c => Interaction.Build_Candidate (Candidates.ca_ID c) (Candidates.ca_Kind c) (Candidates.ca_Ref c)
                             (CandidateStatus_string (Candidates.ca_Status c))) <$> ep_Candidates e))
          end
      end
  end.

Definition set_interaction (i : option InteractionStatus) (s : OperationalTargetStatus) : OperationalTargetStatus :=
  Build_OperationalTargetStatus (os_ObservedGeneration s) (os_AssessedAt s) (os_Semantic s) i (os_Conditions s).

(** The status one target should have. *)
Definition desired_status (r : Reconciler) (b : Built) (a : Assessment) (inv : option Interaction.Investigation)
    (views : list View) (t : OperationalTarget) : OperationalTargetStatus :=
  let desired := ProjectStatus t b a in
  if InteractionEnabled r then
    set_interaction (Some (Interaction.Project {|
      ip_Namespace := om_Namespace (ot_Meta t); ip_Name := om_Name (ot_Meta t); ip_UID := om_UID (ot_Meta t);
      ip_Status := os_Semantic desired; ip_Investigation := inv; ip_Profile := InteractionProfile r;
      ip_Actions := Status views |} (os_Interaction (ot_Status t)))) desired
  else desired.

Definition publish_contract (cl : Cluster) (c : OperationalContract) : list Write :=
  let desired := ContractStatus c in
  if ContractStatusEqual (oc_Status c) desired then []
  else let c := set_contract_status desired c in [WriteContract c (cl_update_contract cl c)].

Definition publish_target (r : Reconciler) (cl : Cluster) (b : Built) (a : Assessment) (qs : Queries) (iv : Investigator)
    (views : gmap string (list View)) (now : Time) (t : OperationalTarget) : list Write :=
  let uid := om_UID (ot_Meta t) in
  let desired := desired_status r b a (investigation r uid a qs iv) (default [] (views !! uid)) t in
  let '(next, changed) := Apply (ot_Status t) desired now in
  if changed then let t := set_target_status next t in [WriteTarget t (cl_update_target cl t)] else [].

(** ** Requeue *)
Definition requeueAfter (r : Reconciler) (qs : Queries) (iv : Investigator) (now : Time) : Duration :=
  let d := RequeueInterval r in
  match InvestigatorLimits r with
  | None => d
  | Some l =>
      let wake := NextWake l iv qs now in
      let d := if negb (IsZero wake) then
                 let wait := Sub wake now in if Z.ltb wait d || Z.leb d 0 then wait else d
               else d in
      if Z.ltb d minRequeue then minRequeue else d
  end.

(** The wake-up of the action engine, after [requeueAfter]. *)
Definition wake_actions (wake now : Time) (d : Duration) : Duration :=
  if negb (IsZero wake) && (Z.leb d 0 || Z.ltb (Sub wake now) d) then Z.max (Sub wake now) minRequeue else d.

(** ** Reconcile *)
Record Memory := { m_iv : Investigator; m_engine : Engine; m_journal : J }.

Definition no_output : Output := Build_Output ∅ 0.

Definition run_actions (r : Reconciler) (snap : Snapshot) (a : Assessment) (now : Time) (en : Engine) (j : J) :
    Output * Engine * J * list Engine.Event :=
  match InteractionEnabled r, ActionConfig r with
  | true, Some cfg =>
      let '(res, en, j, log) := Step cfg (Engine.Build_Input snap a (InteractionProfile r) now) en j in
      (match res with inr out => out | inl _ => no_output end, en, j, log)
  | _, _ => (no_output, en, j, [])
  end.

Record Reconciled := {
  rc_result : ReconcileError + Duration;
  rc_writes : list Write;
  rc_handoffs : list Engine.Event;
  rc_memory : Memory;
}.

Definition failed (e : ReconcileError) (m : Memory) : Reconciled := Build_Reconciled (inl e) [] [] m.

(** From the evaluation instant on. *)
Definition conclude (r : Reconciler) (cl : Cluster) (cs : list OperationalContract) (ts : list OperationalTarget)
    (b : Built) (qs : Queries) (obs : list Observation) (m : Memory) : option Reconciled :=
  let now := cl_now cl in
  let b := with_evidence b now obs in
  match Evaluate (bt_Snapshot b) with
  | None => None
  | Some (inl e) => Some (failed (EvaluateFailed e) m)
  | Some (inr a) =>
      let '(acts, en, j, log) := run_actions r (bt_Snapshot b) a now (m_engine m) (m_journal m) in
      let m := Build_Memory (m_iv m) en j in
      let writes := (cs ≫= publish_contract cl) ++
                    (ts ≫= publish_target r cl b a qs (m_iv m) (out_Views acts) now) in
      let result := if forallb write_ok writes
                    then inr (wake_actions (out_NextWake acts) now (requeueAfter r qs (m_iv m) now))
                    else inl UpdateFailed in
      Some (Build_Reconciled result writes log m)
  end.

(** [None] never happens: [Run] and [Evaluate] have enough fuel. *)
Definition Reconcile (r : Reconciler) (cl : Cluster) (m : Memory) : option Reconciled :=
  match cl_contracts cl with
  | None => Some (failed ListContracts m)
  | Some cs =>
  match cl_targets cl with
  | None => Some (failed ListTargets m)
  | Some ts =>
  match cl_grants cl with
  | None => Some (failed ListGrants m)
  | Some gs =>
  match resolve_all r cl ts ∅ with
  | inl e => Some (failed e m)
  | inr resolutions =>
      let b := Build (Build_Input 0 cs ts gs resolutions []) in
      '(qs, obs, iv) ← gather r b ts (m_iv m);
      conclude r cl cs ts b qs obs (Build_Memory iv (m_engine m) (m_journal m))
  end end end end.
End reconcile.

(** * What one reconcile guarantees (controllers/operational_reconciler.go)

    The theorems that need the components together: whom a reconcile asks,
    that publishing settles, when the next reconcile comes, and what an error
    leaves behind. *)

Section spec.
Context `{GoText} `{SortSlice} `{Encoding} `{Apimachinery} `{Summaries}.
Context `{Digests} `{Providers} {J : Type} `{Journal J}.
Variable w : World.

(** ** Totality *)
Lemma Evaluate_is_Some s : is_Some (Evaluate s).
Proof.
  destruct (decide (At s = 0%Z)) as [Hz|Hz].
  - unfold Evaluate, IsZero. rewrite bool_decide_eq_true_2 by done. by eexists.
  - destruct (Evaluate_value s Hz) as (e & R & _ & _ & _ & _ & _ & Hev). by eexists.
Qed.

Lemma conclude_is_Some r cl cs ts b qs obs m : is_Some (conclude r cl cs ts b qs obs m).
Proof.
  unfold conclude. destruct (Evaluate_is_Some (bt_Snapshot (with_evidence b (cl_now cl) obs))) as [[e|a] ->]; [by eexists|].
  destruct (run_actions _ _ _ _ _ _) as [[[acts en] j] log]. by eexists.
Qed.

Lemma gather_is_Some r b ts iv : is_Some (gather w r b ts iv).
Proof.
  unfold gather. destruct (InvestigatorLimits r) as [l|], (ProviderLookup r) as [lookup|]; try by eexists.
  destruct (Run_is_Some w l (bt_Snapshot b) (Requests (bt_Snapshot b) (subjects ts b) lookup) iv) as [iv' ->]. by eexists.
Qed.

(** ** Whom a reconcile asks *)

(** The input of [Build] in a reconcile. *)
Definition wire_input (cs : list OperationalContract) (ts : list OperationalTarget) (gs : list OperationalReferenceGrant)
    (res : gmap (string * string) Resolution) : OpsWire.Input := OpsWire.Build_Input 0 cs ts gs res [].

(** The query is for a binding of a listed target, to the provider the binding
    names, in the target's namespace or granted by the provider's. *)
Definition rightful (inp : OpsWire.Input) (uid : string) (q : Query) : Prop :=
  exists t ab, t ∈ OpsWire.in_Targets inp /\ om_UID (ot_Meta t) = uid /\
    ab ∈ ts_AssertionBindings (ot_Spec t) /\ assertion_trusted inp t ab /\
    q_Provider q = ab_Provider (assertion_binding t ab) /\ ak_Slot (rq_Key (q_Request q)) = wb_Slot ab /\
    ak_Target (rq_Key (q_Request q)) = Build_TargetIdentity (own_ns t) (om_Name (ot_Meta t)) (om_UID (ot_Meta t)) /\
    exists res, OpsWire.in_Resolutions inp !! meta_key (ot_Meta t) = Some res /\
      ak_ResolvedUID (rq_Key (q_Request q)) = rs_UID res.

Lemma requests_rightful inp subj lookup uid q :
  authorized (Requests (bt_Snapshot (Build inp)) subj lookup) uid q -> rightful inp uid q /\ lookup (q_Provider q) = true.
Proof.
  intros (slots & Hs & Hq). destruct (Requests_slots _ _ _ _ _ Hs _ _ Hq) as (o & Ho & Huid & Hg).
  destruct Hg as (sj & c & b & sl & _ & _ & _ & Hb & Hslot & _ & Hreg & ->). cbn in *.
  apply Build_Targets in Ho as (t & Ht & Hh). destruct Hh as [Hid (res & Hres & Hru & _) _ Has _].
  apply Has in Hb as (ab & Hab & Htr & ->). split; [|done].
  exists t, ab. split_and!; try done.
  - by rewrite <- Huid, Hid.
  - cbn. by exists res.
Qed.

Lemma authorized_sub (qs qs' : Queries) uid q :
  (forall u slots, qs !! u = Some slots -> qs' !! u = Some slots) -> authorized qs uid q -> authorized qs' uid q.
Proof. intros Hsub (slots & Hs & Hq). exists slots. split; [by apply Hsub|done]. Qed.

Lemma gather_rightful r inp ts iv qs obs iv' :
  gather w r (Build inp) ts iv = Some (qs, obs, iv') ->
  exists new, iv_log iv' = iv_log iv ++ new /\
    forall uid q at_, EvCall uid q at_ ∈ new ->
      rightful inp uid q /\ forall lookup, ProviderLookup r = Some lookup -> lookup (q_Provider q) = true.
Proof.
  unfold gather. assert (iv_log iv = iv_log iv ++ []) as Hnil by by rewrite app_nil_r.
  destruct (InvestigatorLimits r) as [l|], (ProviderLookup r) as [lookup|].
  2-4: intros [= <- <- <-]; exists []; split; [done|]; intros ? ? ? Hin; nil_elem.
  intros (iv1 & Hr & [= <- <- <-])%stdpp.option.bind_Some.
  destruct (Run_confined w l _ _ _ _ (Requests_wf _ _ _) Hr) as (valid & Hval & _ & new & Hlog & Hlaw).
  exists new. split; [done|]. intros uid q at_ Hin. apply (proj1 (Forall_forall _ _) Hlaw) in Hin. cbn in Hin.
  eapply authorized_sub in Hin; [|intros u slots Hu; by apply Hval].
  destruct (requests_rightful _ _ _ _ _ Hin) as [Hrf Hl]. split; [done|]. by intros ? [= <-].
Qed.

Lemma conclude_log r cl cs ts b qs obs m rc :
  conclude r cl cs ts b qs obs m = Some rc -> m_iv (rc_memory rc) = m_iv m.
Proof.
  unfold conclude. destruct (Evaluate _) as [[e|a]|]; [by intros [= <-]| |done].
  destruct (run_actions _ _ _ _ _ _) as [[[acts en] j] log]. by intros [= <-].
Qed.

(** A call of this reconcile: what was listed, and what permits the call. *)
Definition call_permitted (r : Reconciler) (cl : Cluster) (uid : string) (q : Query) : Prop :=
  exists cs ts gs res, cl_contracts cl = Some cs /\ cl_targets cl = Some ts /\ cl_grants cl = Some gs /\
    resolve_all r cl ts ∅ = inr res /\ rightful (wire_input cs ts gs res) uid q /\
    forall lookup, ProviderLookup r = Some lookup -> lookup (q_Provider q) = true.

(** C13. Every evidence call a reconcile sends is for a binding of a listed
    target whose workload resolved, to the registered provider that the binding
    names, and that provider is in the target's namespace or granted to it, by
    name and type, by the namespace that owns it. *)
Theorem Reconcile_calls_trusted r cl m rc :
  Reconcile w r cl m = Some rc ->
  exists new, iv_log (m_iv (rc_memory rc)) = iv_log (m_iv m) ++ new /\
    forall uid q at_, EvCall uid q at_ ∈ new -> call_permitted r cl uid q.
Proof.
  assert (forall e, Some (failed e m) = Some rc -> exists new, iv_log (m_iv (rc_memory rc)) = iv_log (m_iv m) ++ new /\
    forall uid q at_, EvCall uid q at_ ∈ new -> call_permitted r cl uid q) as Hfail.
  { intros e [= <-]. exists []. rewrite app_nil_r. split; [done|]. intros ? ? ? Hin. nil_elem. }
  unfold Reconcile. intros Hr.
  destruct (cl_contracts cl) as [cs|] eqn:Hcs; [|eauto]. destruct (cl_targets cl) as [ts|] eqn:Hts; [|eauto].
  destruct (cl_grants cl) as [gs|] eqn:Hgs; [|eauto]. destruct (resolve_all r cl ts ∅) as [e|res] eqn:Hres; [eauto|].
  clear Hfail. change (OpsWire.Build_Input 0 cs ts gs res []) with (wire_input cs ts gs res) in Hr.
  apply stdpp.option.bind_Some in Hr as ([[qs obs] iv] & Hg & Hc).
  apply conclude_log in Hc. cbn in Hc. rewrite Hc.
  destruct (gather_rightful _ _ _ _ _ _ _ Hg) as (new & Hl & Hn). exists new. split; [done|].
  intros uid q at_ Hin. destruct (Hn _ _ _ Hin) as [Hrf Hlk]. exists cs, ts, gs, res. by split_and!.
Qed.

(** A reconcile always ends; and one that fails before the evaluation
    has written nothing, handed nothing off and kept its memory, but for the
    evidence it gathered. *)
Theorem Reconcile_total r cl m :
  exists rc, Reconcile w r cl m = Some rc /\
    forall e, rc_result rc = inl e -> e <> UpdateFailed ->
      rc_writes rc = [] /\ rc_handoffs rc = [] /\ m_engine (rc_memory rc) = m_engine m /\ m_journal (rc_memory rc) = m_journal m.
Proof.
  assert (forall e, exists rc, Some (failed e m) = Some rc /\ forall e, rc_result rc = inl e -> e <> UpdateFailed ->
    rc_writes rc = [] /\ rc_handoffs rc = [] /\ m_engine (rc_memory rc) = m_engine m /\ m_journal (rc_memory rc) = m_journal m) as Hfail.
  { intros e. eexists. split; [done|]. by intros. }
  unfold Reconcile.
  destruct (cl_contracts cl) as [cs|]; [|apply Hfail]. destruct (cl_targets cl) as [ts|]; [|apply Hfail].
  destruct (cl_grants cl) as [gs|]; [|apply Hfail]. destruct (resolve_all r cl ts ∅) as [e|res]; [apply Hfail|].
  set (b := Build _). destruct (gather_is_Some r b ts (m_iv m)) as [[[qs obs] iv] ->]. cbn [mbind option_bind].
  set (m' := Build_Memory iv (m_engine m) (m_journal m)).
  destruct (conclude_is_Some r cl cs ts b qs obs m') as [rc Hc]. exists rc. split; [done|].
  intros e He Hne. unfold conclude in Hc.
  destruct (Evaluate _) as [[e'|a]|]; [injection Hc as <-; done| |done].
  destruct (run_actions _ _ _ _ _ _) as [[[acts en] j] log]. injection Hc as <-. cbn in He.
  destruct (forallb _ _); [done|]. by injection He as <-.
Qed.

(** ** Publishing settles *)
Lemma finish_fixed o d prev : finish o d (Some (finish o d prev)) = finish o d prev.
Proof.
  unfold finish at 1 3. destruct (history (fingerprint o d) (dr_IdentityDigest o) prev) as [[recent recurring] n] eqn:Hh.
  unfold finish. rewrite Hh. unfold history. cbn. rewrite bool_decide_eq_true_2 by done. cbn. by rewrite decide_True.
Qed.

(** The summary of a target is a fixed point: projected again on its own
    result, it does not change. *)
Lemma Project_fixed inp prev : Project inp (Some (Project inp prev)) = Project inp prev.
Proof.
  unfold Project. destruct (st_Valid (ip_Status inp)).
  - unfold project_valid. destruct (actionsOf _ _ _) as [actions d]. apply finish_fixed.
  - unfold project_invalid. destruct (actionsOf _ _ _) as [actions d]. apply finish_fixed.
Qed.

(** A target after it was published. *)
Definition published (writes : list Write) (t : OperationalTarget) : OperationalTarget :=
  match writes with [WriteTarget t' _] => t' | _ => t end.

Lemma desired_status_again r b a inv views t :
  let desired := desired_status r b a inv views t in
  forall t', ot_Meta t' = ot_Meta t -> ot_Spec t' = ot_Spec t -> os_Interaction (ot_Status t') = os_Interaction desired ->
  desired_status r b a inv views t' = desired.
Proof.
  intros desired t' Hm Hs Hi. unfold desired in *. clear desired. unfold desired_status in *.
  assert (ProjectStatus t' b a = ProjectStatus t b a) as ->.
  { unfold ProjectStatus, semantic_status, project_assessed, OpsWire.project_invalid, observed_identity. by rewrite Hm, Hs. }
  destruct (InteractionEnabled r); [|done]. rewrite Hm, Hi. cbn [set_interaction os_Interaction]. by rewrite Project_fixed.
Qed.

(** C28. Publishing a target settles: with the same evaluation, investigation
    record and action views, the next reconcile does not write the target again,
    whatever the time; the summary's own history included. *)
Theorem publish_target_settles `{!ApimachineryLaws} r cl cl' b a qs iv views now now' t :
  publish_target r cl' b a qs iv views now' (published (publish_target r cl b a qs iv views now t) t) = [].
Proof.
  unfold publish_target.
  set (inv := investigation r _ a qs iv). set (vs := default [] (views !! om_UID (ot_Meta t))).
  set (desired := desired_status r b a inv vs t).
  pose proof (Apply_again (ot_Status t) desired now now') as Hagain.
  pose proof (Apply_unchanged (ot_Status t) desired now) as Hsame.
  destruct (Apply (ot_Status t) desired now) as [next changed] eqn:Ha. cbn in Hagain, Hsame.
  destruct changed; cbn [published].
  - set (t' := set_target_status next t).
    assert (os_Interaction next = os_Interaction desired) as Hi.
    { unfold Apply in Ha. destruct (SemanticEqual _ _); [done|]. by injection Ha as <-. }
    change (om_UID (ot_Meta t')) with (om_UID (ot_Meta t)). fold inv. fold vs.
    rewrite (desired_status_again r b a inv vs t t') by done. fold desired.
    change (ot_Status t') with next. by rewrite Hagain.
  - fold inv. fold vs. fold desired. rewrite (Hsame eq_refl) in Hagain. by rewrite Hagain.
Qed.

(** ** Requeueing *)
Lemma requeueAfter_bounds r l qs iv now :
  InvestigatorLimits r = Some l ->
  let d := requeueAfter r qs iv now in
  (minRequeue <= d)%Z /\
  (NextWake l iv qs now <> 0 -> d <= Z.max (Sub (NextWake l iv qs now) now) minRequeue)%Z /\
  (0 < RequeueInterval r -> d <= Z.max (RequeueInterval r) minRequeue)%Z.
Proof.
  intros Hl. unfold requeueAfter. rewrite Hl. cbv zeta. unfold IsZero.
  set (wake := NextWake l iv qs now). set (wait := Sub wake now).
  assert (forall d, let e := if Z.ltb d minRequeue then minRequeue else d in e = Z.max d minRequeue) as Hmax.
  { intros d. cbn. destruct (Z.ltb_spec d minRequeue); lia. }
  cbn in Hmax. rewrite Hmax.
  destruct (bool_decide (wake = 0%Z)) eqn:Hz; [apply bool_decide_eq_true in Hz|apply bool_decide_eq_false in Hz]; cbn [negb].
  - split_and!; [lia|done|lia].
  - destruct (Z.ltb_spec wait (RequeueInterval r)), (Z.leb_spec (RequeueInterval r) 0); cbn [orb]; split_and!; intros; lia.
Qed.

(** With an investigator the next reconcile comes no sooner than after
    [minRequeue], no later than the poll interval, and no later than pending
    evidence work or the action engine asks for, but for that floor. *)
Theorem requeue_bounds r l qs iv wake now :
  InvestigatorLimits r = Some l ->
  let d := wake_actions wake now (requeueAfter r qs iv now) in
  (minRequeue <= d)%Z /\
  (0 < RequeueInterval r -> d <= Z.max (RequeueInterval r) minRequeue)%Z /\
  (NextWake l iv qs now <> 0 -> d <= Z.max (Sub (NextWake l iv qs now) now) minRequeue)%Z /\
  (wake <> 0 -> d <= Z.max (Sub wake now) minRequeue)%Z.
Proof.
  intros Hl. destruct (requeueAfter_bounds r l qs iv now Hl) as (H1' & H2' & H3'). cbv zeta in *.
  set (e := requeueAfter r qs iv now) in *. unfold wake_actions, IsZero.
  assert (0 < minRequeue)%Z as Hpos by (unfold minRequeue, Second; lia).
  destruct (bool_decide (wake = 0%Z)) eqn:Hz; [apply bool_decide_eq_true in Hz|apply bool_decide_eq_false in Hz]; cbn [negb andb].
  - split_and!; try done.
  - destruct (Z.leb_spec e 0), (Z.ltb_spec (Sub wake now) e); cbn [orb]; split_and!; intros; try lia;
      try (specialize (H2' ltac:(done))); try (specialize (H3' ltac:(done))); lia.
Qed.
End spec.
