(* ===== verification/DemoOps.v ===== *)
(** * A reconcile, on which the theorems of pkg/opswire and of the operational
    controller are evaluated

    A web target in namespace "a" bound to a provider of namespace "b", which
    grants it, and to a database of namespace "c", which does not. *)

From S2P Require Import Prelude Identity Predicate Contract Assessment Evaluator Profile.
From S2P Require Import ActionTypes Journal Proposal.
From S2P Require Import Recovery Engine DemoEngine OpsStatus OpsSpec OpsWire OpsWireSpec.
From S2P Require Import OpsPublish.
From S2P Require Import Interaction ActionStatus DemoInteraction Candidates Investigator.
From S2P Require Import InvestigatorSteps InvestigatorSpec.
From S2P Require Import DemoInvestigator Operational.

(** ** Parameters *)
Definition overwrite (old c : Condition) : Condition :=
  if decide (cn_Status old = cn_Status c) then transition_at (cn_LastTransitionTime old) c else c.

Fixpoint demo_set_condition (cs : list Condition) (c : Condition) : list Condition :=
  match cs with
  | [] => [c]
  | x :: cs => if decide (cn_Type x = cn_Type c) then overwrite x c :: cs else x :: demo_set_condition cs c
  end.

#[export] Instance demo_machinery : Apimachinery := {|
  SemanticDeepEqual a b := bool_decide (a = b); ContractDeepEqual a b := bool_decide (a = b);
  SetStatusCondition := demo_set_condition;
|}.

#[export] Instance demo_machinery_laws : ApimachineryLaws.
Proof.
  split.
  - intros a b. apply bool_decide_eq_true.
  - intros a b. apply bool_decide_eq_true.
  - intros cs c Hn. exists (cn_LastTransitionTime c). split; [|done]. assert (transition_at (cn_LastTransitionTime c) c = c) as -> by by destruct c.
    revert Hn. induction cs as [|x cs IH]; cbn; intros Hn; [done|].
    rewrite decide_False by (apply Hn, elem_of_cons; by left). f_equal. apply IH. intros y Hy. apply Hn, elem_of_cons. by right.
  - intros pre x post c Hn Hx. exists (if decide (cn_Status x = cn_Status c) then cn_LastTransitionTime x else cn_LastTransitionTime c).
    split; [|split; [intros E; by rewrite decide_True|intros E _; by rewrite decide_False]].
    assert (overwrite x c = transition_at (if decide (cn_Status x = cn_Status c) then cn_LastTransitionTime x else cn_LastTransitionTime c) c) as <-.
    { unfold overwrite. case_decide; [done|by destruct c]. }
    induction pre as [|y pre IH]; cbn; [by rewrite decide_True|].
    rewrite decide_False by (apply Hn, elem_of_cons; by left). f_equal. apply IH. intros z Hz. apply Hn, elem_of_cons. by right.
Qed.

#[export] Instance demo_encoding : Encoding := {|
  json_requirement r := join "," [r_LocalCapability r; r_Envelope r; r_OnUnmet r];
  json_predicate p := join "," [p_Assertion p; p_Op p; v_Str (p_Operand p)];
  digest_contract c := join "," (s_Name <$> c_Assertions c);
|}.

(** An encoding that tells different values apart. *)
#[export] Instance Value_countable : Countable Value.
Proof.
  refine (inj_countable' (fun v => (v_Type v, v_Bool v, v_Int v, v_Str v)) (fun '(a, b, c, d) => Build_Value a b c d) _).
  by intros [].
Defined.
#[export] Instance Predicate_countable : Countable Predicate.
Proof.
  refine (inj_countable' (fun p => (p_Assertion p, p_Op p, p_Operand p)) (fun '(a, b, c) => Build_Predicate a b c) _).
  by intros [].
Defined.
#[export] Instance DependencyRequirement_eq_dec : EqDecision DependencyRequirement.
Proof. solve_decision. Defined.
#[export] Instance DependencyRequirement_countable : Countable DependencyRequirement.
Proof.
  refine (inj_countable' (fun d => (dr_Slot d, dr_Capability d)) (fun '(a, b) => Build_DependencyRequirement a b) _).
  by intros [].
Defined.
#[export] Instance Requirement_eq_dec : EqDecision Requirement.
Proof. solve_decision. Defined.
#[export] Instance Requirement_countable : Countable Requirement.
Proof.
  refine (inj_countable' (fun r => (r_Predicate r, r_Dependency r, r_LocalCapability r, r_Envelope r, r_OnUnmet r))
    (fun '(a, b, c, d, e) => Build_Requirement a b c d e) _).
  by intros [].
Defined.
#[export] Instance AssertionSlot_countable : Countable AssertionSlot.
Proof.
  refine (inj_countable' (fun s => (s_Name s, s_Type s, s_Enum s, s_MaxAge s)) (fun '(a, b, c, d) => Build_AssertionSlot a b c d) _).
  by intros [].
Defined.
#[export] Instance DependencySlot_eq_dec : EqDecision DependencySlot.
Proof. solve_decision. Defined.
#[export] Instance DependencySlot_countable : Countable DependencySlot.
Proof. refine (inj_countable' ds_Name Build_DependencySlot _). by intros []. Defined.
#[export] Instance Capability_eq_dec : EqDecision Capability.
Proof. solve_decision. Defined.
#[export] Instance Capability_countable : Countable Capability.
Proof.
  refine (inj_countable' (fun c => (cp_Type c, cp_Requirements c)) (fun '(a, b) => Build_Capability a b) _). by intros [].
Defined.
#[export] Instance Envelope_eq_dec : EqDecision Envelope.
Proof. solve_decision. Defined.
#[export] Instance Envelope_countable : Countable Envelope.
Proof.
  refine (inj_countable' (fun e => (env_Name e, env_Class e, env_Requirements e)) (fun '(a, b, c) => Build_Envelope a b c) _).
  by intros [].
Defined.
#[export] Instance Contract_eq_dec : EqDecision Contract.
Proof. solve_decision. Defined.
#[export] Instance Contract_countable : Countable Contract.
Proof.
  refine (inj_countable' (fun c => (c_Identity c, c_Assertions c, c_DependencySlots c, c_Capabilities c, c_Envelopes c))
    (fun '(a, b, c, d, e) => Build_Contract a b c d e) _).
  by intros [].
Defined.

Definition number {A} `{Countable A} (x : A) : string := pretty (N.pos (encode x)).

Lemma number_inj {A} `{Countable A} : Inj (=) (=) (number (A := A)).
Proof. intros x y Hxy. unfold number in Hxy. apply (inj pretty) in Hxy. injection Hxy as Hxy. by apply (inj encode). Qed.

Definition faithful_encoding : Encoding := {|
  json_requirement := number; json_predicate := number; digest_contract := number;
|}.

(** ** Objects *)
Definition demo_meta (ns name uid : string) : ObjectMeta := Build_ObjectMeta ns name uid 1.

Definition wire_slot (n : string) : WireAssertionSlot := Build_WireAssertionSlot n TypeBoolean [] 1000000000000.

Definition wire_spec (slots : list string) : OperationalContractSpec := {|
  cs_Assertions := wire_slot <$> slots; cs_DependencySlots := ["db"];
  cs_Capabilities := [Build_WireCapability (Build_CapabilityType "app" "page" "v1")
    [Build_WireRequirement (Some (Build_WirePredicate "up" OpIsTrue None)) None "" "" ImpactUnavailable]];
  cs_Envelopes := [];
|}.

Definition no_status : OperationalTargetStatus := {|
  os_ObservedGeneration := 0; os_AssessedAt := None;
  os_Semantic := Build_TargetStatus (Build_ObservedIdentity "" "" "" "" "") false "" "" [] [] [] [] [];
  os_Interaction := None; os_Conditions := [];
|}.

Definition wire_contract_object : OperationalContract := {|
  oc_Meta := demo_meta "a" "web" "uid-contract"; oc_Spec := wire_spec ["up"; "ready"];
  oc_Status := Build_OperationalContractStatus 0 "" false [];
|}.

Definition wire_target : OperationalTarget := {|
  ot_Meta := demo_meta "a" "web" "uid-web";
  ot_Spec := {|
    ts_TargetRef := Build_TargetReference "apps/v1" "Deployment" "web"; ts_ContractRef := "web";
    ts_AssertionBindings := [Build_WireAssertionBinding "up" (Build_ProviderReference "probe" "b" "1")];
    ts_DependencyBindings := [Build_WireDependencyBinding "db" (Build_DependencyTargetReference "c" "db" "uid-db")
                                (Build_ContractPin "db" "uid-c" "sha")];
    ts_EnvelopeSelection := "" |};
  ot_Status := no_status;
|}.

Definition wire_grant : OperationalReferenceGrant := {|
  rg_Namespace := "b"; rg_From := [Build_ReferenceGrantFrom "OperationalTarget" "a"];
  rg_To := [Build_ReferenceGrantTo "EvidenceProvider" "probe"];
|}.

Definition demo_input : OpsWire.Input :=
  wire_input [wire_contract_object] [wire_target] [wire_grant] {[("a", "web") := Build_Resolution "pod" ""]}.

(** The granted provider is bound, and the database is denied. *)
Example demo_built :
  (t_AssertionBindings <$> Targets (bt_Snapshot (Build demo_input)),
   tw_Denied <$> bt_Wire (Build demo_input) !! "uid-web")
  = ([[Build_AssertionBinding "up" (Build_ProviderIdentity "b/probe" "1")]],
     Some [Build_DeniedReference "Dependency" "db" "c"]).
Proof. vm_compute. reflexivity. Qed.

(** ** The reconcile *)
Definition demo_cluster : Cluster := {|
  cl_contracts := Some [wire_contract_object]; cl_targets := Some [wire_target]; cl_grants := Some [wire_grant];
  cl_get := fun _ _ => Found "pod"; cl_update_contract := fun _ => true; cl_update_target := fun _ => true;
  parse_gv := fun _ => Some ("apps", "v1"); cl_now := 2000;
|}.

Definition demo_reconciler : Reconciler := {|
  TargetKinds := [Build_GroupVersionKind "apps" "v1" "Deployment"]; RequeueInterval := 30 * Second;
  ObservationSource := None; InvestigatorLimits := Some demo_limits; ProviderLookup := Some (fun _ => true);
  InteractionEnabled := true; InteractionProfile := None; ActionConfig := None;
|}.

Definition demo_memory : Memory (J := MemJournal) := Build_Memory New demo_engine demo_journal.

Definition demo_reconcile : option (Reconciled (J := MemJournal)) :=
  Reconcile demo_world demo_reconciler demo_cluster demo_memory.

(** Two writes: the contract's status, and the target's, AVAILABLE on the
    evidence just gathered from the granted provider. *)
Example demo_reconciled :
  match demo_reconcile with
  | Some rc => (rc_result rc, length (iv_log (m_iv (rc_memory rc))),
      (fun wr => match wr with WriteTarget t _ => cs_State <$> st_Capabilities (os_Semantic (ot_Status t)) | _ => [] end) <$> rc_writes rc)
  | None => (inl ListGrants, 0, [])
  end = (inr (30 * Second)%Z, 2, [[]; ["AVAILABLE"]]).
Proof. vm_compute. reflexivity. Qed.

(** ** The theorems there *)
Lemma demo_handed_over : exists o, o ∈ Targets (bt_Snapshot (Build demo_input)).
Proof. apply list_exists_elem. vm_compute. discriminate. Qed.

Lemma Build_trusted_witness :
  exists o t, o ∈ Targets (bt_Snapshot (Build demo_input)) /\ t ∈ OpsWire.in_Targets demo_input /\ handed_over demo_input t o.
Proof.
  destruct demo_handed_over as [o Ho]. exists o.
  destruct (Build_trusted demo_input o Ho) as (t & Ht & Hh & _). by exists t.
Defined.

(** The same with the database in place: the target is told no more. *)
Definition db_object : OperationalTarget := {|
  ot_Meta := demo_meta "c" "db" "uid-db"; ot_Spec := ot_Spec wire_target; ot_Status := no_status;
|}.
Definition demo_input' : OpsWire.Input :=
  wire_input [wire_contract_object] [wire_target; db_object] [wire_grant] {[("a", "web") := Build_Resolution "pod" ""]}.

Lemma trusted_b toNS ty name : trusted demo_input "a" toNS ty name -> toNS = "a" \/ toNS = "b".
Proof.
  intros [->|(g & from & to & Hg & <- & _)]; [by left|right]. by apply list_elem_of_singleton in Hg as ->.
Qed.

Lemma demo_same_view : same_view demo_input demo_input' wire_target.
Proof.
  split.
  - done.
  - done.
  - intros ns name Ht. unfold target_named, demo_input', demo_input. cbn.
    rewrite (bool_decide_eq_false_2 (meta_key (ot_Meta db_object) = (ns, name))); [done|].
    intros [= <- <-]. apply trusted_b in Ht. by destruct Ht.
  - done.
Qed.

Lemma Build_reveals_nothing_witness :
  exists tw, bt_Wire (Build demo_input) !! "uid-web" = Some tw /\ bt_Wire (Build demo_input') !! "uid-web" = Some tw.
Proof.
  destruct (Build_reveals_nothing demo_input demo_input' wire_target) as (tw & Hw & Hw' & _).
  - by apply elem_of_cons; left.
  - by apply NoDup_singleton.
  - by apply elem_of_cons; left.
  - apply NoDup_cons. split; [|by apply NoDup_singleton]. intros Hin. apply list_elem_of_singleton in Hin. discriminate.
  - exact demo_same_view.
  - exists tw. split; [exact Hw|exact Hw'].
Defined.

(** The order of the slots does not change the digest. *)
Lemma SpecDigest_spec_witness :
  distinct_names (semanticContract (wire_spec ["up"; "ready"])) /\
  @SpecDigest insertion_sort faithful_encoding (wire_spec ["up"; "ready"]) =
  @SpecDigest insertion_sort faithful_encoding (wire_spec ["ready"; "up"]).
Proof.
  assert (distinct_names (semanticContract (wire_spec ["up"; "ready"]))) as Hd.
  { split; vm_compute; repeat (apply NoDup_cons; split; [set_solver|]); apply NoDup_nil_2. }
  split; [exact Hd|].
  apply (@SpecDigest_spec insertion_sort faithful_encoding number_inj number_inj number_inj _ _ Hd).
  split; cbn.
  - done.
  - eexists [_; _]. split; [apply Permutation_swap|]. by repeat constructor.
  - done.
  - eexists [_]. split; [done|]. by repeat constructor.
  - by exists [].
Defined.

Definition demo_assessment : Assessment := Build_Assessment
  [Build_TargetAssessment (Build_TargetIdentity "a" "web" "uid-web") zero_ContractIdentity true [] SyncNotApplicable "" []
    [Build_CapabilityResult (Build_CapabilityType "app" "page" "v1") Unknown
      [Build_Reason ReasonEvidenceMissing "assertion:up" "no evidence"]] []].

Lemma status_discloses_own_witness :
  let sr := Build_StatusReason ReasonEvidenceMissing "assertion:up" "no evidence" in
  sr ∈ shown_reasons (semantic_status wire_target (Build demo_input) demo_assessment) /\
  exists r, discloses_own (default zero_TargetWire (bt_Wire (Build demo_input) !! "uid-web")) "a"
              (bt_namespaceOf (Build demo_input)) r.
Proof.
  assert (Build_StatusReason ReasonEvidenceMissing "assertion:up" "no evidence" ∈
    shown_reasons (semantic_status wire_target (Build demo_input) demo_assessment)) as Hin.
  { apply (list_elem_of_lookup_2 _ 0). vm_compute. reflexivity. }
  split; [exact Hin|].
  destruct (status_discloses_own wire_target (Build demo_input) demo_assessment _ Hin) as (r & _ & Hr); [discriminate|].
  exists r. exact Hr.
Defined.

Lemma Apply_settles_witness :
  let desired := ProjectStatus wire_target (Build demo_input) demo_assessment in
  Apply (Apply no_status desired 2000).1 desired 3000 = ((Apply no_status desired 2000).1, false).
Proof.
  intros desired. pose proof (Apply_settles no_status desired 2000 3000) as Hs.
  destruct (Apply no_status desired 2000) as [s changed]. exact (proj1 Hs).
Defined.

Lemma publish_target_settles_witness :
  let a := demo_assessment in let b := Build demo_input in
  publish_target demo_reconciler demo_cluster b a ∅ New ∅ 3000
    (published (publish_target demo_reconciler demo_cluster b a ∅ New ∅ 2000 wire_target) wire_target) = [].
Proof. intros a b. apply (publish_target_settles demo_reconciler demo_cluster demo_cluster b a ∅ New ∅ 2000 3000 wire_target). Defined.

Lemma Reconcile_calls_trusted_witness :
  exists rc, Reconcile demo_world demo_reconciler demo_cluster demo_memory = Some rc /\
  exists uid q at_, EvCall uid q at_ ∈ iv_log (m_iv (rc_memory rc)) /\ call_permitted demo_reconciler demo_cluster uid q.
Proof.
  assert (match demo_reconcile with Some rc => match iv_log (m_iv (rc_memory rc)) with [_; EvCall _ _ _] => True | _ => False end
          | None => False end) as Hev by (vm_compute; exact I).
  unfold demo_reconcile in Hev.
  destruct (Reconcile demo_world demo_reconciler demo_cluster demo_memory) as [rc|] eqn:Hr; [|destruct Hev].
  exists rc. split; [reflexivity|].
  destruct (Reconcile_calls_trusted demo_world demo_reconciler demo_cluster demo_memory rc Hr) as (new & Hl & Hn).
  cbn [m_iv demo_memory New iv_log app] in Hl.
  destruct (iv_log (m_iv (rc_memory rc))) as [|e1 [|[|uid q at_] [|]]]; try destruct Hev.
  exists uid, q, at_. assert (EvCall uid q at_ ∈ [e1; EvCall uid q at_]) as Hin by (apply (list_elem_of_lookup_2 _ 1); reflexivity).
  split; [exact Hin|]. apply (Hn uid q at_). rewrite <- Hl. exact Hin.
Defined.

Lemma requeue_bounds_witness :
  InvestigatorLimits demo_reconciler = Some demo_limits /\
  (minRequeue <= wake_actions 2100 2000 (requeueAfter demo_reconciler demo_queries after_run 2000))%Z.
Proof.
  split; [reflexivity|].
  exact (proj1 (requeue_bounds demo_reconciler demo_limits demo_queries after_run 2100 2000 eq_refl)).
Defined.
