(* ===== verification/Revision.v ===== *)
(** * Revisions and rollouts on disk (pkg/revision, pkg/rollout): definitions

    A revision file is the JSON text of a revision; the model keeps the value.
    What formats times and hashes is a parameter; so is whether a write
    succeeds, an argument of [write_revision]. *)

From S2P Require Import Prelude Text Release Loading Planner.
From Stdlib Require Import Ascii.

(** [Time.Format("20060102-150405")]; the hex text of SHA-256; and whether
    os.Stat says that a file does not exist. *)
Class DeployFiles := {
  format_second : Time -> string;
  sha256_hex : string -> string;
  file_absent : string -> bool;
}.

(** ** Data *)
Record CompRevision := {
  cv_Name : string;
  cv_Version : string;
  cv_ImageRef : string;
  cv_ImageDigest : string;
  cv_GitSha : string;
  cv_ComponentSpecDigest : string;
  cv_EnvironmentDigest : string;
  cv_VerificationPolicyDigest : string;
  cv_BaselineRef : string;
}.

(** BoriRevision; NetworkVerification, which nothing sets, is left out. *)
Record BoriRevision := {
  rv_SchemaVersion : string;
  rv_RevisionID : string;
  rv_Release : string;
  rv_Environment : string;
  rv_ParentRevisionID : string;
  rv_CreatedAt : Time;
  rv_Components : list CompRevision;
  rv_ContentHash : string;
  rv_VerificationRunID : string;
  rv_PromotionStatus : string;
  rv_PromotedAt : option Time;
  rv_BaselineRef : string;
  rv_FailReason : string;
}.

Record RolloutStep := {
  ls_Component : string;
  ls_Action : string;
  ls_Adapter : string;
  ls_Namespace : string;
  ls_ToVersion : string;
  ls_Status : string;
}.

Record BoriRollout := {
  ro_SchemaVersion : string;
  ro_RolloutID : string;
  ro_Release : string;
  ro_Environment : string;
  ro_RevisionID : string;
  ro_CreatedAt : Time;
  ro_Steps : list RolloutStep;
  ro_Status : string;
}.

(** strings.NewReplacer("/", "-", " ", "-") *)
Fixpoint safe_name (s : string) : string :=
  match s with
  | EmptyString => EmptyString
  | String c s =>
      String (if bool_decide (c = "/"%char) || bool_decide (c = " "%char) then "-"%char else c) (safe_name s)
  end.

Definition newline : string := String (ascii_of_nat 10) EmptyString.

(** The directory of revisions: by file name without ".json"; [None] is a file
    that does not parse. *)
Abbreviation Revisions := (gmap string (option BoriRevision)) (only parsing).

Section revision.
Context `{SortSlice} `{Files} `{DeployFiles}.

Definition NewRevisionID (release environment : string) (at_ : Time) : string :=
  let ts := format_second at_ in
  safe_name release +:+ "-" +:+ ts +:+ "-" +:+
  String.substring 0 6 (sha256_hex (release +:+ "|" +:+ environment +:+ "|" +:+ ts)).

Definition hash_line (c : CompRevision) : string :=
  join "|" [cv_Name c; cv_ImageRef c; cv_ImageDigest c; cv_ComponentSpecDigest c; cv_EnvironmentDigest c;
            cv_VerificationPolicyDigest c; cv_BaselineRef c] +:+ newline.

Definition ComputeContentHash (comps : list CompRevision) : string :=
  let sorted := sort_slice (fun a b => String.ltb (cv_Name a) (cv_Name b)) comps in
  String.substring 0 16 (sha256_hex (join "" (hash_line <$> sorted))).

(** ** A revision of a plan *)

(** fileDigest; where its error is ignored, "" stands for no digest. *)
Definition fileDigest (path : string) : string + string :=
  match read_file path with inl err => inl err | inr data => inr (sha256_hex data) end.

Definition digest_or_empty (path : string) : string := match fileDigest path with inl _ => "" | inr d => d end.

Definition comp_revision (boriRoot envDigest : string) (cp : ComponentPlan) : CompRevision := {|
  cv_Name := cp_Name cp; cv_Version := cp_Version cp; cv_ImageRef := cp_ImageRef cp; cv_ImageDigest := cp_ImageDigest cp;
  cv_GitSha := cp_GitSha cp; cv_ComponentSpecDigest := digest_or_empty (component_file boriRoot (cp_Name cp)); cv_EnvironmentDigest := envDigest;
  cv_VerificationPolicyDigest := ""; cv_BaselineRef := "";
|}.

Definition planned_to_deploy (cp : ComponentPlan) : bool := negb (bool_decide (cp_Action cp = "violation")).

Definition revision_of_plan (boriRoot : string) (plan : Plan_) (now : Time) : BoriRevision :=
  let envDigest := digest_or_empty (environment_file boriRoot (pl_Environment plan)) in
  let comps := comp_revision boriRoot envDigest <$> List.filter planned_to_deploy (pl_Components plan) in
  {| rv_SchemaVersion := "bori.revision.v1"; rv_RevisionID := NewRevisionID (pl_Release plan) (pl_Environment plan) now;
     rv_Release := pl_Release plan; rv_Environment := pl_Environment plan; rv_ParentRevisionID := ""; rv_CreatedAt := now;
     rv_Components := comps; rv_ContentHash := ComputeContentHash comps; rv_VerificationRunID := "";
     rv_PromotionStatus := "pending"; rv_PromotedAt := None; rv_BaselineRef := ""; rv_FailReason := "" |}.

Definition set_policy_digest (d : string) (c : CompRevision) : CompRevision :=
  Build_CompRevision (cv_Name c) (cv_Version c) (cv_ImageRef c) (cv_ImageDigest c) (cv_GitSha c)
    (cv_ComponentSpecDigest c) (cv_EnvironmentDigest c) d (cv_BaselineRef c).

(** A policy of the registry, or the component's own. *)
Definition policy_path (boriRoot appsDir profile policy name : string) : string :=
  let polPath := path_join [boriRoot; "verification"; "policies"; policy +:+ ".yaml"] in
  if file_absent polPath then path_join [appsDir; name; ".bori"; "policy." +:+ profile +:+ ".yaml"] else polPath.

Definition add_policy_digest (boriRoot appsDir profile : string) (comps : gmap string BoriComponent) (c : CompRevision) : CompRevision :=
  match comps !! cv_Name c with
  | None => c
  | Some comp =>
      match bc_VerificationPolicies comp with
      | [] => c
      | p :: _ =>
          set_policy_digest (digest_or_empty (policy_path boriRoot appsDir profile p (cv_Name c))) c
      end
  end.

Definition set_components (cs : list CompRevision) (rev : BoriRevision) : BoriRevision :=
  Build_BoriRevision (rv_SchemaVersion rev) (rv_RevisionID rev) (rv_Release rev) (rv_Environment rev)
    (rv_ParentRevisionID rev) (rv_CreatedAt rev) cs (ComputeContentHash cs) (rv_VerificationRunID rev)
    (rv_PromotionStatus rev) (rv_PromotedAt rev) (rv_BaselineRef rev) (rv_FailReason rev).

Definition AddVerificationPolicyDigests (rev : BoriRevision) (boriRoot appsDir profile : string)
    (comps : gmap string BoriComponent) : BoriRevision :=
  set_components (add_policy_digest boriRoot appsDir profile comps <$> rv_Components rev) rev.

Definition fail_revision (rev : BoriRevision) (reason : string) : BoriRevision :=
  Build_BoriRevision (rv_SchemaVersion rev) (rv_RevisionID rev) (rv_Release rev) (rv_Environment rev)
    (rv_ParentRevisionID rev) (rv_CreatedAt rev) (rv_Components rev) (rv_ContentHash rev) (rv_VerificationRunID rev)
    "failed" (rv_PromotedAt rev) (rv_BaselineRef rev) reason.

Definition Promote (rev : BoriRevision) (baselineRef : string) (now : Time) : BoriRevision :=
  Build_BoriRevision (rv_SchemaVersion rev) (rv_RevisionID rev) (rv_Release rev) (rv_Environment rev)
    (rv_ParentRevisionID rev) (rv_CreatedAt rev) (rv_Components rev) (ComputeContentHash (rv_Components rev))
    (rv_VerificationRunID rev) "promoted" (Some now) baselineRef (rv_FailReason rev).

(** ** The directory *)

(** What one write does: it succeeds; the directory or the file cannot be made;
    encoding fails and the file is removed; closing fails, which leaves the text
    complete or not. *)
Inductive WriteAnswer := Written | NotCreated | NotEncoded | NotClosed (complete : bool).

Definition write_revision (rev : BoriRevision) (answer : WriteAnswer) (dir : Revisions) : Revisions * bool :=
  match answer with
  | Written => (<[rv_RevisionID rev := Some rev]> dir, true)
  | NotCreated => (dir, false)
  | NotEncoded => (delete (rv_RevisionID rev) dir, false)
  | NotClosed complete => (<[rv_RevisionID rev := if complete then Some rev else None]> dir, false)
  end.

Definition read_revision (dir : Revisions) (revisionID : string) : option BoriRevision := mjoin (dir !! revisionID).

(** os.ReadDir sorts by file name. *)
Definition file_before (a b : string) : bool := String.ltb (a +:+ ".json") (b +:+ ".json").

Definition newer (a b : BoriRevision) : bool := After (rv_CreatedAt a) (rv_CreatedAt b).

Definition list_revisions (dir : Revisions) : list BoriRevision :=
  let entries := sort_slice file_before (elements (dom dir)) in
  sort_slice newer (omap (read_revision dir) entries).

(** ** Rollouts *)
Definition newRolloutID (release environment : string) (at_ : Time) : string :=
  "rollout-" +:+ safe_name release +:+ "-" +:+ environment +:+ "-" +:+ format_second at_.

Definition rollout_steps (cp : ComponentPlan) : list RolloutStep :=
  let action := if planned_to_deploy cp then "deploy" else "skip" in
  let status := if planned_to_deploy cp then "pending" else "skipped" in
  Build_RolloutStep (cp_Name cp) action (cp_Adapter cp) (cp_Namespace cp) (cp_Version cp) status ::
  (if bool_decide (action = "deploy") then [Build_RolloutStep (cp_Name cp) "verify" "" "" (cp_Version cp) "pending"] else []).

Definition rollout_of_plan (plan : Plan_) (revisionID : string) (now : Time) : BoriRollout := {|
  ro_SchemaVersion := "bori.rollout.v1"; ro_RolloutID := newRolloutID (pl_Release plan) (pl_Environment plan) now;
  ro_Release := pl_Release plan; ro_Environment := pl_Environment plan; ro_RevisionID := revisionID; ro_CreatedAt := now;
  ro_Steps := pl_Components plan ≫= rollout_steps; ro_Status := "planned";
|}.
End revision.
