(* ===== verification/Shadow.v ===== *)
(** * Desired and actual state (pkg/shadow)

    The desired state is a release, the actual state the newest promoted
    revision of that release. *)

From S2P Require Import Prelude.
From S2P Require Import ReleaseSpec.
From S2P Require Import Planner.
From S2P Require Import OpsSpec.
From S2P Require Import Release.
From S2P Require Import Revision.
From Stdlib Require Import Ascii.

(** ** Data *)
Record DriftItem := {
  di_Component : string;
  di_DesiredVersion : string;
  di_ActualVersion : string;
  di_DesiredImageDigest : string;
  di_ActualImageDigest : string;
  di_SyncStatus : string;
}.

(** v1alpha1.ComponentStatus; its conditions are never set. *)
Record ComponentStatus := {
  ck_Name : string;
  ck_DesiredVersion : string;
  ck_DeployedVersion : string;
  ck_SyncStatus : string;
  ck_ImageDigest : string;
  ck_DeployedImage : string;
}.

Record ShadowState := {
  sh_SchemaVersion : string;
  sh_Release : string;
  sh_Environment : string;
  sh_ComputedAt : Time;
  sh_DesiredRevision : string;
  sh_ActualRevision : string;
  sh_Drift : list DriftItem;
  sh_Conditions : list Condition;
  sh_Components : list ComponentStatus;
}.

Definition ConditionInstalled : string := "Installed".
Definition ConditionVerified : string := "Verified".
Definition ConditionPromoted : string := "Promoted".
Definition ConditionDegraded : string := "Degraded".
Definition ConditionViolation : string := "Violation".

(** ** Comparison *)
Definition componentIdentityInSync (desired : ComponentRef) (actual : CompRevision) : bool :=
  if negb (bool_decide (cf_ImageDigest desired = "")) then bool_decide (cv_ImageDigest actual = cf_ImageDigest desired)
  else bool_decide (cv_Version actual = cf_Version desired).

Definition zero_CompRevision : CompRevision := Build_CompRevision "" "" "" "" "" "" "" "" "".

Definition promoted_of (release : string) (r : BoriRevision) : bool :=
  bool_decide (rv_Release r = release) && bool_decide (rv_PromotionStatus r = "promoted").

Definition actual_components (latest : option BoriRevision) : gmap string CompRevision :=
  match latest with
  | Some r => foldl (fun m cr => <[cv_Name cr := cr]> m) ∅ (rv_Components r)
  | None => ∅
  end.

Definition sync_status (actual : gmap string CompRevision) (ref : ComponentRef) : string :=
  match actual !! cf_Name ref with
  | Some a => if componentIdentityInSync ref a then "in-sync" else "out-of-sync"
  | None => "unknown"
  end.

Definition drift_item (actual : gmap string CompRevision) (ref : ComponentRef) : DriftItem :=
  let a := default zero_CompRevision (actual !! cf_Name ref) in
  Build_DriftItem (cf_Name ref) (cf_Version ref) (cv_Version a) (cf_ImageDigest ref) (cv_ImageDigest a) (sync_status actual ref).

Definition component_status (actual : gmap string CompRevision) (ref : ComponentRef) : ComponentStatus :=
  let a := default zero_CompRevision (actual !! cf_Name ref) in
  Build_ComponentStatus (cf_Name ref) (cf_Version ref) (cv_Version a) (sync_status actual ref) (cf_ImageDigest ref)
    (cv_ImageRef a).

(** [allInSync] *)
Definition all_in_sync (actual : gmap string CompRevision) (refs : list ComponentRef) : bool :=
  forallb (fun ref => bool_decide (sync_status actual ref = "in-sync")) refs.

Section shadow.
Context `{GoText} `{SortSlice} `{DeployFiles}.

(** ** Conditions *)
Definition condition (now : Time) (ty status reason message : string) : Condition :=
  Build_Condition ty status 0 now reason message.

Definition computeConditions (latest : option BoriRevision) (allInstalled allInSync : bool) (now : Time) : list Condition :=
  let id := match latest with Some r => rv_RevisionID r | None => "" end in
  [ (if allInstalled then condition now ConditionInstalled "True" "RevisionFound" ("promoted revision " +:+ id +:+ " found")
     else condition now ConditionInstalled "False" "NoPromotedRevision"
            "no promoted revision found — run `bori deploy` first");
    (match latest with
     | Some r =>
         if negb (bool_decide (rv_VerificationRunID r = ""))
         then condition now ConditionVerified "True" "VerificationRunFound"
                ("verification run " +:+ rv_VerificationRunID r +:+ " passed")
         else condition now ConditionVerified "Unknown" "NotConfigured"
                "no verification gate has run; deploy success alone does not set Verified=True"
     | None => condition now ConditionVerified "Unknown" "NotConfigured"
                 "no verification gate has run; deploy success alone does not set Verified=True"
     end);
    (match latest with
     | Some r =>
         if bool_decide (rv_PromotionStatus r = "promoted")
         then condition now ConditionPromoted "True" "Promoted"
                ("revision " +:+ id +:+ " promoted at " +:+ from_option rfc3339 "unknown" (rv_PromotedAt r))
         else condition now ConditionPromoted "False" "NotPromoted" "no promoted revision"
     | None => condition now ConditionPromoted "False" "NotPromoted" "no promoted revision"
     end) ] ++
  (if negb allInSync then
     [condition now ConditionDegraded "True" "DriftDetected"
        "one or more components are out-of-sync with the release definition"]
   else if allInstalled then
     [condition now ConditionDegraded "False" "InSync" "all components match the release definition"]
   else []).

(** ** Reconcile *)
Definition latest_promoted (release : string) (dir : Revisions) : option BoriRevision :=
  List.find (promoted_of release) (list_revisions dir).

(** [readable] is whether the directory can be listed. *)
Definition shadow_reconcile (rel : BoriRelease) (readable : bool) (dir : Revisions) (now : Time) : option ShadowState :=
  if negb readable then None
  else
    let latest := latest_promoted (rl_Name rel) dir in
    let actual := actual_components latest in
    Some {| sh_SchemaVersion := "bori.shadowState.v1"; sh_Release := rl_Name rel; sh_Environment := "";
            sh_ComputedAt := now; sh_DesiredRevision := "";
            sh_ActualRevision := match latest with Some r => rv_RevisionID r | None => "" end;
            sh_Drift := drift_item actual <$> rl_Components rel;
            sh_Conditions := computeConditions latest (bool_decide (is_Some latest))
                               (all_in_sync actual (rl_Components rel)) now;
            sh_Components := component_status actual <$> rl_Components rel |}.
End shadow.

(** ** writer.go: the files of shadow states, by name *)
Fixpoint replace_byte (b : ascii) (s : string) : string :=
  match s with
  | EmptyString => EmptyString
  | String c s => String (if bool_decide (c = b) then "-"%char else c) (replace_byte b s)
  end.

Definition state_file (release : string) : string :=
  "shadow-" +:+ replace_byte ":"%char (replace_byte " "%char (replace_byte "/"%char release)) +:+ ".json".

Definition WriteState (release : string) (st : ShadowState) (files : gmap string ShadowState) : gmap string ShadowState :=
  <[state_file release := st]> files.

(** [ReadState] does not replace anything in the name. *)
Definition ReadState (release : string) (files : gmap string ShadowState) : option ShadowState :=
  files !! ("shadow-" +:+ release +:+ ".json").

(** * What drift is (pkg/revision, pkg/shadow)

    The actual state of a release is its newest promoted revision, and there is
    drift exactly when that revision is missing or differs from the release in
    the identity of a component. *)

(** ** Specification *)

(** [r] is on disk as a promoted revision of [release]. *)
Definition promoted_file (release : string) (dir : Revisions) (r : BoriRevision) : Prop :=
  (exists name, dir !! name = Some (Some r)) /\ rv_Release r = release /\ rv_PromotionStatus r = "promoted".

(** None is newer. *)
Definition newest (release : string) (dir : Revisions) (r : BoriRevision) : Prop :=
  promoted_file release dir r /\ forall r', promoted_file release dir r' -> (rv_CreatedAt r' <= rv_CreatedAt r)%Z.

(** The same image where the release pins one, and else the same version. *)
Definition same_identity (ref : ComponentRef) (c : CompRevision) : Prop :=
  if decide (cf_ImageDigest ref = "") then cv_Version c = cf_Version ref else cv_ImageDigest c = cf_ImageDigest ref.

(** Every component of the release is in the revision, with its identity. *)
Definition matches (rel : BoriRelease) (r : BoriRevision) : Prop :=
  forall ref, ref ∈ rl_Components rel ->
    exists c, actual_components (Some r) !! cf_Name ref = Some c /\ same_identity ref c.

(** ** The newest promoted revision *)
#[export] Instance newer_strict_weak : StrictWeak newer.
Proof. split; unfold newer, After; intros *; rewrite ?Z.ltb_lt, ?Z.ltb_ge; lia. Qed.

Section spec.
Context `{GoText} `{SortSlice} `{DeployFiles}.

Lemma elem_of_list_revisions dir r : r ∈ list_revisions dir <-> exists name, dir !! name = Some (Some r).
Proof.
  unfold list_revisions. rewrite elem_of_sort_slice, list_elem_of_omap. apply exist_proper. intros name.
  rewrite elem_of_sort_slice, elem_of_elements. unfold read_revision. split.
  - intros [_ Hr]. by destruct (dir !! name) as [[r'|]|]; simplify_eq/=.
  - intros Hr. rewrite Hr. split; [by apply elem_of_dom_2 in Hr|done].
Qed.

Lemma promoted_of_spec release r : promoted_of release r = true <-> rv_Release r = release /\ rv_PromotionStatus r = "promoted".
Proof. unfold promoted_of. by rewrite andb_true_iff, !bool_decide_eq_true. Qed.

Lemma promoted_listed release dir r :
  promoted_file release dir r <-> r ∈ list_revisions dir /\ promoted_of release r = true.
Proof. by rewrite elem_of_list_revisions, promoted_of_spec. Qed.

Lemma latest_promoted_newest release dir r : latest_promoted release dir = Some r -> newest release dir r.
Proof.
  intros (Hr & pre & post & Hl & Hpre)%find_first.
  assert (r ∈ list_revisions dir) as Hin by (rewrite Hl; apply elem_of_app; right; left).
  split; [by apply promoted_listed|]. intros r' [Hin' Hr']%promoted_listed. rewrite Hl in Hin'.
  apply elem_of_app in Hin' as [Hin'|[->|Hin']%elem_of_cons]; [|done|].
  - by rewrite (Hpre _ Hin') in Hr'.
  - pose proof (sort_slice_sorted _ newer (omap (read_revision dir) (sort_slice file_before (elements (dom dir)))) _) as Hs.
    change (sort_slice newer _) with (list_revisions dir) in Hs. rewrite Hl in Hs.
    pose proof (sorted_after _ _ _ _ _ Hs Hin') as Hle. unfold le_of, newer, After in Hle. apply Z.ltb_ge in Hle. done.
Qed.

Lemma latest_promoted_none release dir : latest_promoted release dir = None <-> forall r, ~ promoted_file release dir r.
Proof.
  unfold latest_promoted. split.
  - intros Hn r [Hin Hr]%promoted_listed. by rewrite (find_None_elem _ _ _ Hn Hin) in Hr.
  - intros Hn. destruct (List.find _ _) as [r|] eqn:Hr; [|done]. apply find_Some_elem in Hr as Hr'.
    destruct (Hn r). by apply promoted_listed.
Qed.

(** A revision that is newer than all the others is the one found. *)
Lemma latest_promoted_strict release dir r :
  promoted_file release dir r ->
  (forall r', promoted_file release dir r' -> r' = r \/ (rv_CreatedAt r' < rv_CreatedAt r)%Z) ->
  latest_promoted release dir = Some r.
Proof.
  intros Hr Hlt. destruct (latest_promoted release dir) as [r'|] eqn:Hl.
  - apply latest_promoted_newest in Hl as [Hr' Hmax]. destruct (Hlt _ Hr') as [->|Hc]; [done|].
    specialize (Hmax _ Hr). lia.
  - by destruct (proj1 (latest_promoted_none release dir) Hl r).
Qed.

(** ** Drift *)
Lemma in_sync_identity ref c : componentIdentityInSync ref c = true <-> same_identity ref c.
Proof.
  unfold componentIdentityInSync, same_identity. rewrite bool_decide_decide. case_decide; cbn; apply bool_decide_eq_true.
Qed.

Lemma sync_status_spec actual ref :
  sync_status actual ref = "in-sync" <-> exists c, actual !! cf_Name ref = Some c /\ same_identity ref c.
Proof.
  unfold sync_status. destruct (actual !! cf_Name ref) as [c|]; [|split; [done|by intros (? & ? & _)]].
  destruct (componentIdentityInSync ref c) eqn:Hc.
  - apply in_sync_identity in Hc. split; [by exists c|done].
  - split; [done|]. intros (? & [= <-] & Hs). apply in_sync_identity in Hs. congruence.
Qed.

Lemma all_in_sync_spec rel r :
  all_in_sync (actual_components (Some r)) (rl_Components rel) = true <-> matches rel r.
Proof.
  unfold all_in_sync, matches. rewrite forallb_forall. apply forall_proper. intros ref.
  by rewrite <- list_elem_of_In, bool_decide_eq_true, sync_status_spec.
Qed.

Lemma all_in_sync_none rel :
  all_in_sync (actual_components None) (rl_Components rel) = true <-> rl_Components rel = [].
Proof.
  unfold all_in_sync. split; [|by intros ->]. intros Hf. destruct (rl_Components rel) as [|ref refs]; [done|].
  cbn in Hf. apply andb_true_iff in Hf as [Hf _]. apply bool_decide_eq_true, sync_status_spec in Hf as (c & Hc & _).
  by rewrite lookup_empty in Hc.
Qed.

Lemma drift_list actual refs :
  existsb (fun d => negb (bool_decide (di_SyncStatus d = "in-sync"))) (drift_item actual <$> refs) = negb (all_in_sync actual refs).
Proof.
  unfold all_in_sync. induction refs as [|ref refs IH]; cbn; [done|]. rewrite IH. by rewrite negb_andb.
Qed.
End spec.
