(* ===== verification/Deploy.v ===== *)
(** * One reconciliation pass (pkg/reconcile/reconciler.go): definitions

    [Run] compares, plans, deploys and records.  What surrounds a pass -- the
    clock, the disk's answers, the adapters -- is the record [Site]; what the
    pass changes on disk is the record [Disk]; and its calls of adapters are
    part of its outcome. *)

From S2P Require Import Prelude OpsSpec Release ReleaseSpec Loading Planner Revision Shadow.

(** ** Adapters (pkg/adapter/deploy.go) *)

(** A call of [Deploy]: the adapter asked, the component and the environment. *)
Record Call := { dc_Adapter : string; dc_Component : BoriComponent; dc_Environment : BoriEnvironment }.

(** The result (success and message), if any, and the error, if any. *)
Record DeployAnswer := { da_Result : option (bool * string); da_Error : option string }.

(** [err != nil || (deployResult != nil && !deployResult.Success)] *)
Definition deploy_failed (a : DeployAnswer) : bool :=
  bool_decide (is_Some (da_Error a)) || from_option (fun r => negb r.1) false (da_Result a).

(** ** What surrounds a pass *)
Record Site := {
  (** the absolute path of the root of the repository, or why there is none,
      and the directory of the apps *)
  si_abs : string + string;
  si_apps_dir : string;
  (** the readings of the clock, in order *)
  si_clock : nat -> Time;
  (** whether the n-th listing of the revisions succeeds *)
  si_readable : nat -> bool;
  si_write : BoriRevision -> WriteAnswer;
  (** whether the shadow state can be written *)
  si_state : bool;
  (** the adapters, given the calls made before *)
  si_deploy : list Call -> Call -> DeployAnswer;
}.

Definition bori_root (si : Site) : string := match si_abs si with inr abs => abs | inl _ => "" end.

Record Disk := { dk_revisions : Revisions; dk_states : gmap string ShadowState }.

(** ** Requests and results *)
Record Request := {
  rq_ReleaseName : string;
  rq_EnvName : string;
  rq_DryRun : bool;
  rq_DeployDryRun : bool;
  rq_SkipIfInSync : bool;
  rq_Release : option BoriRelease;
}.

Record Result := {
  re_RunID : string;
  re_Release : string;
  re_Environment : string;
  re_RevisionID : string;
  re_DriftDetected : bool;
  re_DeployStatus : string;
  re_VerifyResult : string;
  re_Promoted : bool;
  re_ShadowState : option ShadowState;
}.

Inductive RunError :=
  | AbsFailed (err : string)
  | LoadReleaseFailed (err : string)
  | PlanFailed (err : string)
  | Violations (vs : list string)
  | LoadEnvironmentFailed (err : string).

Record CompDeploy := {
  cd_Name : string;
  cd_Version : string;
  cd_Adapter : string;
  cd_Success : bool;
  cd_Message : string;
}.

Record Outcome := { oc_result : RunError + Result; oc_disk : Disk; oc_calls : list Call; oc_components : list CompDeploy }.

Definition refused (e : RunError) (dk : Disk) : Outcome := Build_Outcome (inl e) dk [] [].

(** ** Drift *)
Definition drift_detected (st : option ShadowState) : bool :=
  match st with
  | None => true
  | Some st =>
      existsb (fun d => negb (bool_decide (di_SyncStatus d = "in-sync"))) (sh_Drift st) ||
      bool_decide (sh_ActualRevision st = "")
  end.

(** ** Deploying *)
Record deploying := {
  dp_ok : bool;
  dp_reasons : list string;
  dp_calls : list Call;
  dp_done : list CompDeploy;
}.

Definition not_deploying : deploying := Build_deploying true [] [] [].

(** A component with the plan's version and image. *)
Definition overridden (cp : ComponentPlan) (comp : BoriComponent) : BoriComponent :=
  Build_BoriComponent (bc_Name comp)
    (if bool_decide (cp_ImageRef cp = "") then bc_ImageRef comp else cp_ImageRef cp) (bc_Dependencies comp)
    (bc_Namespace comp) (bc_Bootstrap comp) (bc_Update comp)
    (if bool_decide (cp_Version cp = "") then bc_Version comp else cp_Version cp) (bc_VerificationPolicies comp)
    (bc_MetricsPort comp) (bc_MetricsPath comp).

Section run.
Context `{GoText} `{SortSlice} `{Files} `{References} `{DeployFiles}.

(** The adapters that are registered, by name. *)
Variable AdapterRegistry : gset string.

(** The body of the loop over the components of the plan. *)
Definition deploy_one (si : Site) (env : BoriEnvironment) (d : deploying) (cp : ComponentPlan) : deploying :=
  let broken why := Build_deploying false (dp_reasons d ++ [cp_Name cp +:+ ": " +:+ why]) (dp_calls d) (dp_done d) in
  if bool_decide (cp_Action cp = "violation") then d
  else if negb (bool_decide (cp_Adapter cp ∈ AdapterRegistry)) then broken ("unknown adapter " +:+ quote (cp_Adapter cp))
  else match LoadComponentByName (bori_root si) (cp_Name cp) with
  | inl err => broken ("load component: " +:+ err)
  | inr comp =>
      let call := Build_Call (cp_Adapter cp) (overridden cp comp) env in
      let answer := si_deploy si (dp_calls d) call in
      let cd := Build_CompDeploy (cp_Name cp) (cp_Version cp) (cp_Adapter cp) in
      if deploy_failed answer then
        let msg := match da_Result answer with Some (_, m) => m | None => default "<nil>" (da_Error answer) end in
        Build_deploying false (dp_reasons d ++ [cp_Name cp +:+ ": " +:+ msg]) (dp_calls d ++ [call])
          (dp_done d ++ [cd false msg])
      else Build_deploying (dp_ok d) (dp_reasons d) (dp_calls d ++ [call])
             (dp_done d ++ [cd true (from_option snd "" (da_Result answer))])
  end.

Definition deploy_all (si : Site) (env : BoriEnvironment) (cps : list ComponentPlan) : deploying :=
  foldl (deploy_one si env) not_deploying cps.

(** ** Recording *)

(** The shadow state after the pass, and its file. *)
Definition update_shadow (si : Site) (rq : Request) (rel : BoriRelease) (dk : Disk) (result : Result) : Result * Disk :=
  match shadow_reconcile rel (si_readable si 1) (dk_revisions dk) (si_clock si 5) with
  | None => (result, dk)
  | Some st =>
      (Build_Result (re_RunID result) (re_Release result) (re_Environment result) (re_RevisionID result)
         (re_DriftDetected result) (re_DeployStatus result) (re_VerifyResult result) (re_Promoted result) (Some st),
       Build_Disk (dk_revisions dk)
         (if si_state si then WriteState (rq_ReleaseName rq) st (dk_states dk) else dk_states dk))
  end.

Definition store (si : Site) (rev : BoriRevision) (dk : Disk) : Disk * bool :=
  let '(revs, ok) := write_revision rev (si_write si rev) (dk_revisions dk) in
  (Build_Disk revs (dk_states dk), ok).

(** The baseline of a promoted revision: a path under the run's directory. *)
Definition baseline_ref (runID : string) : string := "runs/" +:+ runID +:+ "/evidence".

Definition set_outcome (status verify : string) (promoted : bool) (r : Result) : Result :=
  Build_Result (re_RunID r) (re_Release r) (re_Environment r) (re_RevisionID r) (re_DriftDetected r) status verify promoted
    (re_ShadowState r).

(** [DeployDryRun]: promote without calling adapters. *)
Definition dry_deploy (si : Site) (rq : Request) (rel : BoriRelease) (rev : BoriRevision) (stored : bool) (result : Result)
    (dk : Disk) : Outcome :=
  let '(dk, promoted) :=
    if stored then store si (Promote rev (baseline_ref (re_RunID result)) (si_clock si 4)) dk else (dk, false) in
  let '(result, dk) :=
    update_shadow si rq rel dk (set_outcome "skipped (deploy-dry-run)" "skipped (deploy-dry-run)" promoted result) in
  Build_Outcome (inr result) dk [] [].

(** Steps 3 to 5: deploy, record the outcome, update the shadow state. *)
Definition deploy_and_record (si : Site) (rq : Request) (rel : BoriRelease) (plan : Plan_) (rev : BoriRevision) (stored : bool)
    (result : Result) (dk : Disk) : Outcome :=
  match LoadEnvironmentByName (bori_root si) (rq_EnvName rq) with
  | inl err => refused (LoadEnvironmentFailed err) dk
  | inr env =>
      let d := deploy_all si env (pl_Components plan) in
      let '(dk, promoted) :=
        if stored then
          if dp_ok d then store si (Promote rev (baseline_ref (re_RunID result)) (si_clock si 4)) dk
          else ((store si (fail_revision rev ("deploy failed: " +:+ join "; " (dp_reasons d))) dk).1, false)
        else (dk, false) in
      let '(result, dk) :=
        update_shadow si rq rel dk
          (set_outcome (if dp_ok d then "success" else "failed") (re_VerifyResult result) promoted result) in
      Build_Outcome (inr result) dk (dp_calls d) (dp_done d)
  end.

(** Step 2: the revision of the plan, and its first write. *)
Definition new_revision (si : Site) (rel : BoriRelease) (plan : Plan_) : BoriRevision :=
  AddVerificationPolicyDigests (revision_of_plan (bori_root si) plan (si_clock si 3)) (bori_root si) (si_apps_dir si) "kind"
    (match LoadComps (bori_root si) rel with inl _ => ∅ | inr comps => comps end).

Definition execute (si : Site) (rq : Request) (rel : BoriRelease) (plan : Plan_) (result : Result) (dk : Disk) : Outcome :=
  let rev := new_revision si rel plan in
  let '(dk, stored) := store si rev dk in
  let result :=
    Build_Result (re_RunID result) (re_Release result) (re_Environment result) (if stored then rv_RevisionID rev else "")
      (re_DriftDetected result) "" "" false (re_ShadowState result) in
  if rq_DryRun rq then Build_Outcome (inr (set_outcome "skipped (dry-run)" "skipped (dry-run)" false result)) dk [] []
  else if rq_DeployDryRun rq then dry_deploy si rq rel rev stored result dk
  else deploy_and_record si rq rel plan rev stored result dk.

Definition load_release (si : Site) (rq : Request) : string + BoriRelease :=
  match rq_Release rq with Some rel => inr rel | None => LoadReleaseByName (bori_root si) (rq_ReleaseName rq) end.

(** [None] never happens: planning has enough fuel. *)
Definition Run (si : Site) (rq : Request) (dk : Disk) : option Outcome :=
  let runID := format_second (si_clock si 0) in
  match si_abs si with inl err => Some (refused (AbsFailed err) dk) | inr _ =>
  match load_release si rq with
  | inl err => Some (refused (LoadReleaseFailed err) dk)
  | inr rel =>
      let shadow := shadow_reconcile rel (si_readable si 0) (dk_revisions dk) (si_clock si 1) in
      let drift := drift_detected shadow in
      let result := Build_Result runID (rq_ReleaseName rq) (rq_EnvName rq) "" drift "" "" false shadow in
      if negb drift && rq_SkipIfInSync rq then
        Some (Build_Outcome (inr (set_outcome "skipped" "skipped" false result)) dk [] [])
      else
        planned ← Plan (bori_root si) (rq_Release rq) (si_clock si 2) runID (rq_ReleaseName rq) (rq_EnvName rq);
        match planned with
        | inl err => Some (refused (PlanFailed err) dk)
        | inr plan =>
            if 0 <? length (pl_Violations plan) then Some (refused (Violations (pl_Violations plan)) dk)
            else Some (execute si rq rel plan result dk)
        end
  end end.

(** The text of the error of a pass. *)
Definition run_error (rq : Request) (e : RunError) : string :=
  match e with
  | AbsFailed err => "abs bori-root: " +:+ err
  | LoadReleaseFailed err => "load release: " +:+ err
  | PlanFailed err => "plan: " +:+ err
  | Violations vs => "namespace violations: " +:+ join ", " vs
  | LoadEnvironmentFailed err => "load environment " +:+ quote (rq_EnvName rq) +:+ ": " +:+ err
  end.

(** ** RollbackPlan *)
Definition rollback_component (boriRoot : string) (allowed : gset string) (cr : CompRevision) : option ComponentPlan :=
  match LoadComponentByName boriRoot (cv_Name cr) with
  | inl _ => None
  | inr comp =>
      let ns := if decide (bc_Namespace comp = "") then cv_Name cr +:+ "-system" else bc_Namespace comp in
      let ok := bool_decide (ns ∈ allowed) in
      Some {| cp_Name := cv_Name cr; cp_Version := cv_Version cr;
              cp_Adapter := if negb (bool_decide (cv_ImageDigest cr = "")) then UpdateAdapter comp else BootstrapAdapter comp;
              cp_Namespace := ns; cp_ImageRef := cv_ImageRef cr; cp_ImageDigest := cv_ImageDigest cr;
              cp_GitSha := cv_GitSha cr; cp_Action := if ok then "deploy" else "violation";
              cp_Message := if ok then "" else "namespace " +:+ quote ns +:+ " not allowed" |}
  end.

(** The compatibility check only prints warnings. *)
Definition RollbackPlan (abs : string + string) (now : Time) (dir : Revisions) (releaseName envName targetRevisionID : string) :
    string + (Plan_ * BoriRevision) :=
  match abs with inl err => inl ("abs: " +:+ err) | inr abs =>
  match read_revision dir targetRevisionID with
  | None => inl ("read revision " +:+ quote targetRevisionID)
  | Some rev =>
  match LoadReleaseByName abs releaseName with
  | inl err => inl ("load release: " +:+ err)
  | inr _ =>
  match LoadEnvironmentByName abs envName with
  | inl err => inl ("load environment: " +:+ err)
  | inr env =>
      let cps := omap (rollback_component abs (list_to_set (ev_Allowed env))) (rv_Components rev) in
      inr ({| pl_SchemaVersion := "bori.plan.v1"; pl_RunID := format_second now; pl_Release := releaseName;
              pl_Environment := envName; pl_CreatedAt := now; pl_Components := cps;
              pl_Violations := cps ≫= namespace_violation |}, rev)
  end end end end.
End run.
