(* ===== verification/DeploySpec.v ===== *)
(** * What a reconciliation pass guarantees (pkg/reconcile)

    When a pass does nothing, what its adapter calls are, what a promotion
    means, that a promoted release settles, and that a failed deployment leaves
    the actual state as it was. *)

From S2P Require Import Prelude OpsSpec Release ReleaseSpec Loading Planner Revision Shadow.
From S2P Require Import Deploy.

Section spec.
Context `{GoText} `{SortSlice} `{Files} `{References} `{DeployFiles}.
Variable AdapterRegistry : gset string.

(** ** The shape of a pass *)

(** What a pass starts from: the release, the shadow state and the result so
    far. *)
Definition first_shadow (si : Site) (rel : BoriRelease) (dk : Disk) : option ShadowState :=
  shadow_reconcile rel (si_readable si 0) (dk_revisions dk) (si_clock si 1).

Definition first_result (si : Site) (rq : Request) (rel : BoriRelease) (dk : Disk) : Result :=
  Build_Result (format_second (si_clock si 0)) (rq_ReleaseName rq) (rq_EnvName rq) ""
    (drift_detected (first_shadow si rel dk)) "" "" false (first_shadow si rel dk).

Definition plan_of (si : Site) (rq : Request) : option (string + Plan_) :=
  Plan (bori_root si) (rq_Release rq) (si_clock si 2) (format_second (si_clock si 0)) (rq_ReleaseName rq) (rq_EnvName rq).

Definition in_sync_skip (si : Site) (rq : Request) (rel : BoriRelease) (dk : Disk) : Outcome :=
  Build_Outcome (inr (set_outcome "skipped" "skipped" false (first_result si rq rel dk))) dk [] [].

Inductive run_case (si : Site) (rq : Request) (dk : Disk) : Outcome -> Prop :=
  | run_refused e : run_case si rq dk (refused e dk)
  | run_skipped rel : si_abs si = inr (bori_root si) -> load_release si rq = inr rel ->
      drift_detected (first_shadow si rel dk) = false -> rq_SkipIfInSync rq = true ->
      run_case si rq dk (in_sync_skip si rq rel dk)
  | run_executed rel plan : load_release si rq = inr rel ->
      (drift_detected (first_shadow si rel dk) = true \/ rq_SkipIfInSync rq = false) ->
      plan_of si rq = Some (inr plan) -> pl_Violations plan = [] ->
      run_case si rq dk (execute AdapterRegistry si rq rel plan (first_result si rq rel dk) dk).

Lemma Run_cases si rq dk oc : Run AdapterRegistry si rq dk = Some oc -> run_case si rq dk oc.
Proof.
  unfold Run. destruct (si_abs si) as [err|abs] eqn:Ha; [intros [= <-]; constructor|].
  destruct (load_release si rq) as [err|rel] eqn:Hl; [intros [= <-]; constructor|].
  fold (first_shadow si rel dk). cbv zeta. fold (first_result si rq rel dk).
  destruct (drift_detected (first_shadow si rel dk)) eqn:Hd; cbn [negb andb].
  2: destruct (rq_SkipIfInSync rq) eqn:Hs; [intros [= <-]; apply run_skipped; [unfold bori_root; by rewrite Ha|done..]|].
  all: intros ([err|plan] & Hp & Ho)%stdpp.option.bind_Some; [injection Ho as <-; constructor|].
  all: destruct (Nat.ltb_spec 0 (length (pl_Violations plan))) as [Hv|Hv]; injection Ho as <-; [constructor|].
  all: apply run_executed; auto; by apply nil_length_inv, Nat.le_0_r.
Qed.

Lemma Run_total si rq dk : is_Some (Run AdapterRegistry si rq dk).
Proof.
  unfold Run. destruct (si_abs si); [by eexists|]. destruct (load_release si rq) as [err|rel]; [by eexists|].
  cbv zeta. destruct (_ && _); [by eexists|].
  destruct (plan_returns (bori_root si) (rq_Release rq) (si_clock si 2) (format_second (si_clock si 0)) (rq_ReleaseName rq) (rq_EnvName rq)) as [p ->].
  cbn. destruct p as [err|plan]; [by eexists|]. by case_match; eexists.
Qed.

(** ** When nothing is done *)

(** The directory is readable, and its newest promoted revision matches. *)
Definition settled (si : Site) (rel : BoriRelease) (dk : Disk) : Prop :=
  si_readable si 0 = true /\
  exists r, latest_promoted (rl_Name rel) (dk_revisions dk) = Some r /\ rv_RevisionID r <> "" /\ matches rel r.

Lemma no_drift si rel dk : drift_detected (first_shadow si rel dk) = false <-> settled si rel dk.
Proof.
  unfold first_shadow, shadow_reconcile, settled. destruct (si_readable si 0); cbn [negb]; [|split; [done|by intros [? _]]].
  cbn [drift_detected sh_Drift sh_ActualRevision]. rewrite drift_list, orb_false_iff, negb_false_iff, bool_decide_eq_false.
  destruct (latest_promoted _ _) as [r|] eqn:Hl.
  - rewrite all_in_sync_spec. split.
    + intros [Hm Hid]. split; [done|]. by exists r.
    + intros (_ & r' & [= <-] & Hid & Hm). done.
  - split; [by intros [_ ?]|by intros (_ & r & ? & _)].
Qed.

Lemma settled_skips si rq rel dk :
  si_abs si = inr (bori_root si) -> load_release si rq = inr rel -> rq_SkipIfInSync rq = true -> settled si rel dk ->
  exists oc r, Run AdapterRegistry si rq dk = Some oc /\ oc_result oc = inr r /\ re_DeployStatus r = "skipped" /\
    oc_disk oc = dk /\ oc_calls oc = [].
Proof.
  intros Ha Hl Hs Hd%no_drift. exists (in_sync_skip si rq rel dk). eexists. unfold Run. rewrite Ha, Hl. cbn [negb]. cbv zeta.
  fold (first_shadow si rel dk). rewrite Hd, Hs. cbn [negb andb]. unfold in_sync_skip, first_result. by rewrite Hd.
Qed.

(** A pass that may skip does nothing exactly when there is nothing to do:
    when the directory of revisions is readable and its newest promoted revision
    of the release has every component of the release, with the pinned image, or
    the version where no image is pinned. *)
Theorem Run_skips si rq rel dk :
  si_abs si = inr (bori_root si) -> load_release si rq = inr rel -> rq_SkipIfInSync rq = true ->
  settled si rel dk <->
  exists oc r, Run AdapterRegistry si rq dk = Some oc /\ oc_result oc = inr r /\ re_DeployStatus r = "skipped" /\
    oc_disk oc = dk /\ oc_calls oc = [].
Proof.
  intros Ha Hl Hs. split; [by apply settled_skips|]. rewrite <- no_drift.
  intros (oc & r & Hr & Hre & Hst & _). apply Run_cases in Hr. destruct Hr as [e|rel' _ Hl' Hd _|rel' plan Hl' _ _ _].
    + discriminate Hre.
    + rewrite Hl in Hl'. injection Hl' as <-. done.
    + exfalso. revert Hre Hst. unfold execute. destruct (store _ _ _) as [dk1 stored].
      destruct (rq_DryRun rq); [by intros [= <-]|]. destruct (rq_DeployDryRun rq).
      * unfold dry_deploy. destruct (if stored then _ else _) as [dk2 pr]. unfold update_shadow.
        destruct (shadow_reconcile _ _ _ _); by intros [= <-].
      * unfold deploy_and_record. destruct (LoadEnvironmentByName _) as [err|env]; [done|].
        destruct (if stored then _ else _) as [dk2 pr]. unfold update_shadow.
        destruct (shadow_reconcile _ _ _ _); intros [= <-]; cbn; by destruct (dp_ok _).
Qed.

(** ** Deploying *)

(** The call for a planned component: its adapter, its file, its version and
    its image. *)
Definition called (boriRoot : string) (env : BoriEnvironment) (cp : ComponentPlan) (call : Call) : Prop :=
  dc_Adapter call = cp_Adapter cp /\ cp_Adapter cp ∈ AdapterRegistry /\ dc_Environment call = env /\
  exists comp, LoadComponentByName boriRoot (cp_Name cp) = inr comp /\ dc_Component call = overridden cp comp.

(** Every call succeeded. *)
Definition all_succeeded (si : Site) (calls : list Call) : Prop :=
  forall i call, calls !! i = Some call -> deploy_failed (si_deploy si (take i calls) call) = false.

Record deployed (si : Site) (env : BoriEnvironment) (cps : list ComponentPlan) (d : deploying) : Prop := {
  dy_calls : exists sub, sub `sublist_of` cps /\ Forall2 (called (bori_root si) env) sub (dp_calls d);
  dy_ok : dp_ok d = true -> Forall2 (called (bori_root si) env) (List.filter planned_to_deploy cps) (dp_calls d) /\
    all_succeeded si (dp_calls d);
  dy_reasons : dp_ok d = true <-> dp_reasons d = [];
}.

Lemma all_succeeded_snoc si calls call :
  all_succeeded si calls -> deploy_failed (si_deploy si calls call) = false -> all_succeeded si (calls ++ [call]).
Proof.
  intros Ha Hc i c Hi. apply lookup_app_Some in Hi as [Hi|[Hle Hi]].
  - rewrite take_app_le by (apply lookup_lt_Some in Hi; lia). by apply Ha.
  - apply list_lookup_singleton_Some in Hi as [Hz <-]. by rewrite take_app_length' by lia.
Qed.

Lemma sublist_snoc_r {A} (sub xs : list A) x : sub `sublist_of` xs -> sub `sublist_of` xs ++ [x].
Proof. intros Hs. by apply sublist_inserts_r. Qed.

Lemma deployed_skip si env cps cp d :
  planned_to_deploy cp = false -> deployed si env cps d -> deployed si env (cps ++ [cp]) d.
Proof.
  intros Hp [(sub & Hs & Hc) Hok Hr]. split; [|intros Ht|done].
  - exists sub. split; [by apply sublist_snoc_r|done].
  - destruct (Hok Ht) as [Hf Ha]. rewrite List.filter_app. cbn. by rewrite Hp, app_nil_r.
Qed.

(** A component that fails without a call. *)
Lemma deployed_broken si env cps cp d why :
  deployed si env cps d ->
  deployed si env (cps ++ [cp]) (Build_deploying false (dp_reasons d ++ [why]) (dp_calls d) (dp_done d)).
Proof.
  intros [(sub & Hs & Hc) _ _]. split; cbn; [|done|].
  - exists sub. split; [by apply sublist_snoc_r|done].
  - split; [done|]. intros Hn. by apply app_nil in Hn as [_ ?].
Qed.

Lemma deployed_call si env cps cp d call ok reasons done_ :
  deployed si env cps d -> called (bori_root si) env cp call -> planned_to_deploy cp = true ->
  (ok = true -> dp_ok d = true /\ deploy_failed (si_deploy si (dp_calls d) call) = false) -> (ok = true <-> reasons = []) ->
  deployed si env (cps ++ [cp]) (Build_deploying ok reasons (dp_calls d ++ [call]) done_).
Proof.
  intros [(sub & Hs & Hc) Hd _] Hcall Hp Hok Hr. split; cbn; [|intros Ht|done].
  - exists (sub ++ [cp]). split; [by apply sublist_app|]. apply Forall2_app; [done|by constructor].
  - destruct (Hok Ht) as [Ho Hf]. destruct (Hd Ho) as [Hcs Ha]. split; [|by apply all_succeeded_snoc].
    rewrite List.filter_app. apply Forall2_app; [done|]. cbn. rewrite Hp. by constructor.
Qed.

Lemma deploy_one_deployed si env cps cp d :
  deployed si env cps d -> deployed si env (cps ++ [cp]) (deploy_one AdapterRegistry si env d cp).
Proof.
  intros Hd. unfold deploy_one. cbv zeta. destruct (bool_decide (cp_Action cp = "violation")) eqn:Hv.
  { apply deployed_skip; [|done]. unfold planned_to_deploy. by rewrite Hv. }
  assert (planned_to_deploy cp = true) as Hp by (unfold planned_to_deploy; by rewrite Hv).
  destruct (bool_decide (cp_Adapter cp ∈ AdapterRegistry)) eqn:Ha; cbn [negb]; [|by apply deployed_broken].
  apply bool_decide_eq_true in Ha. destruct (LoadComponentByName (bori_root si) (cp_Name cp)) as [err|comp] eqn:Hl; [by apply deployed_broken|].
  set (call := Build_Call _ _ _). assert (called (bori_root si) env cp call) as Hc by (split_and!; try done; by exists comp).
  destruct (deploy_failed _) eqn:Hf; apply deployed_call with (cp := cp); try done.
  - split; [done|]. intros Hn. by apply app_nil in Hn as [_ ?].
  - apply (dy_reasons _ _ _ _ Hd).
Qed.

Lemma deploy_all_deployed si env cps : deployed si env cps (deploy_all AdapterRegistry si env cps).
Proof.
  unfold deploy_all. induction cps as [|cp cps IH] using rev_ind.
  - split; cbn; [by exists []|split; [done|]|done]. intros i call Hi. by rewrite lookup_nil in Hi.
  - rewrite foldl_app. by apply deploy_one_deployed.
Qed.

(** ** The plan of a pass *)
Lemma plan_deploys si rq plan :
  plan_of si rq = Some (inr plan) -> pl_Violations plan = [] ->
  List.filter planned_to_deploy (pl_Components plan) = pl_Components plan.
Proof.
  intros (rel & env & comps & refs & _ & _ & _ & Hp & Hv)%plan_correct Hnil. apply Hv in Hnil as [Hall _].
  assert (forall cp, cp ∈ pl_Components plan -> planned_to_deploy cp = true) as Hd.
  { intros cp Hin. apply (proj1 (Forall_forall _ _) Hall) in Hin as Hns. apply list_elem_of_lookup in Hin as [i Hi].
    destruct (Forall2_lookup_r _ _ _ _ _ Hp Hi) as (ref & _ & [_ _ [Ha _]]).
    unfold planned_to_deploy. rewrite Ha, decide_True by done. done. }
  clear Hp Hv Hall. induction (pl_Components plan) as [|cp cps IH]; cbn; [done|].
  rewrite Hd by (apply elem_of_cons; by left). f_equal. apply IH. intros cp' Hin. apply Hd. apply elem_of_cons. by right.
Qed.

(** What a revision keeps of a planned component. *)
Definition records (cp : ComponentPlan) (c : CompRevision) : Prop :=
  cv_Name c = cp_Name cp /\ cv_Version c = cp_Version cp /\ cv_ImageRef c = cp_ImageRef cp /\
  cv_ImageDigest c = cp_ImageDigest cp /\ cv_GitSha c = cp_GitSha cp.

Lemma add_policy_records root apps profile comps cp c : records cp c -> records cp (add_policy_digest root apps profile comps c).
Proof.
  unfold add_policy_digest. destruct (comps !! cv_Name c) as [comp|]; [|done]. by destruct (bc_VerificationPolicies comp).
Qed.

Lemma new_revision_records si rq rel plan :
  plan_of si rq = Some (inr plan) -> pl_Violations plan = [] ->
  Forall2 records (pl_Components plan) (rv_Components (new_revision si rel plan)).
Proof.
  intros Hp Hv. unfold new_revision. set (comps := match LoadComps (bori_root si) rel with inl _ => ∅ | inr comps => comps end).
  cbn [AddVerificationPolicyDigests set_components rv_Components revision_of_plan]. rewrite (plan_deploys _ _ _ Hp Hv).
  apply Forall2_fmap_r, Forall2_fmap_r, Forall_Forall2_diag, Forall_forall. intros cp _.
  by apply add_policy_records.
Qed.

(** ** Writing *)
Lemma store_written si rev dk dk' :
  store si rev dk = (dk', true) ->
  si_write si rev = Written /\ dk_revisions dk' = <[rv_RevisionID rev := Some rev]> (dk_revisions dk).
Proof. unfold store, write_revision. destruct (si_write si rev); intros [= <-]; done. Qed.

Lemma update_shadow_keeps si rq rel dk r r' dk' :
  update_shadow si rq rel dk r = (r', dk') ->
  dk_revisions dk' = dk_revisions dk /\ re_RevisionID r' = re_RevisionID r /\ re_Promoted r' = re_Promoted r /\
  re_DeployStatus r' = re_DeployStatus r.
Proof. unfold update_shadow. destruct (shadow_reconcile _ _ _ _); by intros [= <- <-]. Qed.

(** The promoted revision of a pass. *)
Definition promoted_revision (si : Site) (rel : BoriRelease) (plan : Plan_) : BoriRevision :=
  Promote (new_revision si rel plan) (baseline_ref (format_second (si_clock si 0))) (si_clock si 4).

Record promotion (si : Site) (rq : Request) (rel : BoriRelease) (plan : Plan_) (dk : Disk) (oc : Outcome) (r : Result) :
    Prop := {
  pm_id : re_RevisionID r = rv_RevisionID (new_revision si rel plan);
  pm_disk : dk_revisions (oc_disk oc) =
    <[re_RevisionID r := Some (promoted_revision si rel plan)]> (dk_revisions dk);
  pm_calls : if rq_DeployDryRun rq then oc_calls oc = [] /\ re_DeployStatus r = "skipped (deploy-dry-run)"
    else re_DeployStatus r = "success" /\ exists env, LoadEnvironmentByName (bori_root si) (rq_EnvName rq) = inr env /\
      let d := deploy_all AdapterRegistry si env (pl_Components plan) in dp_ok d = true /\ oc_calls oc = dp_calls d;
}.

(** The end of a pass: the shadow state is updated, whatever was written. *)
Lemma finish_pass si rq rel (written : Disk * bool) status verify res calls cds oc r :
  (let '(dk, promoted) := written in
   let '(result, dk) := update_shadow si rq rel dk (set_outcome status verify promoted res) in
   Build_Outcome (inr result) dk calls cds) = oc ->
  oc_result oc = inr r ->
  re_Promoted r = written.2 /\ dk_revisions (oc_disk oc) = dk_revisions written.1 /\ re_RevisionID r = re_RevisionID res /\
  oc_calls oc = calls /\ re_DeployStatus r = status.
Proof.
  destruct written as [dk promoted]. destruct (update_shadow _ _ _ _ _) as [r' dk'] eqn:Hu.
  apply update_shadow_keeps in Hu as (Hk & Hid & Hpr & Hst). intros <- [= <-]. done.
Qed.

(** A promotion is two successful writes. *)
Lemma promoted_disk si rel plan dk dk1 stored runID :
  store si (new_revision si rel plan) dk = (dk1, stored) -> runID = format_second (si_clock si 0) ->
  let written := if stored then store si (Promote (new_revision si rel plan) (baseline_ref runID) (si_clock si 4)) dk1
                 else (dk1, false) in
  written.2 = true ->
  stored = true /\ dk_revisions written.1 =
    <[rv_RevisionID (new_revision si rel plan) := Some (promoted_revision si rel plan)]> (dk_revisions dk).
Proof.
  intros Hs -> written. unfold written. destruct stored; [|done]. fold (promoted_revision si rel plan).
  destruct (store si (promoted_revision si rel plan) dk1) as [dk2 pr] eqn:Hp. cbn. intros ->.
  apply store_written in Hs as [_ Hs]. apply store_written in Hp as [_ ->]. rewrite Hs. split; [done|]. apply insert_insert_eq.
Qed.

Lemma execute_promotes si rq rel plan dk oc r :
  execute AdapterRegistry si rq rel plan (first_result si rq rel dk) dk = oc ->
  oc_result oc = inr r -> re_Promoted r = true -> promotion si rq rel plan dk oc r.
Proof.
  unfold execute. destruct (store si (new_revision si rel plan) dk) as [dk1 stored] eqn:Hs.
  destruct (rq_DryRun rq); [by intros <- [= <-]|]. destruct (rq_DeployDryRun rq) eqn:Hdd; intros Ho Hre Hp.
  - unfold dry_deploy in Ho. destruct (finish_pass _ _ _ _ _ _ _ _ _ _ _ Ho Hre) as (Hw & Hk & Hid & Hc & Hst).
    rewrite Hp in Hw. symmetry in Hw. destruct (promoted_disk _ _ _ _ _ _ _ Hs eq_refl Hw) as [-> Hd].
    split; [done| |by rewrite Hdd]. rewrite Hid. exact (eq_trans Hk Hd).
  - unfold deploy_and_record in Ho. destruct (LoadEnvironmentByName (bori_root si) (rq_EnvName rq)) as [err|env] eqn:He; [by subst oc|].
    destruct (finish_pass _ _ _ _ _ _ _ _ _ _ _ Ho Hre) as (Hw & Hk & Hid & Hc & Hst). rewrite Hp in Hw.
    destruct (dp_ok (deploy_all _ _ _ _)) eqn:Hok; [|by destruct stored].
    symmetry in Hw. destruct (promoted_disk _ _ _ _ _ _ _ Hs eq_refl Hw) as [-> Hd].
    split; [done| |rewrite Hdd; split; [done|by exists env]]. rewrite Hid. exact (eq_trans Hk Hd).
Qed.

(** C16. What a promotion means.  The plan had no violations, and the promoted
    revision, the only change to the revisions, records exactly its components.
    Outside a deploy dry run every component was deployed: each was handed, in
    the plan's order, to its registered adapter, with the plan's version and
    image, and every call succeeded.  In a deploy dry run, whose purpose is to
    promote without deploying, no adapter was called at all. *)
Theorem Run_promotes si rq dk oc r :
  Run AdapterRegistry si rq dk = Some oc -> oc_result oc = inr r -> re_Promoted r = true ->
  exists plan rev, plan_of si rq = Some (inr plan) /\ pl_Violations plan = [] /\
    dk_revisions (oc_disk oc) = <[re_RevisionID r := Some rev]> (dk_revisions dk) /\
    rv_PromotionStatus rev = "promoted" /\ Forall2 records (pl_Components plan) (rv_Components rev) /\
    if rq_DeployDryRun rq then oc_calls oc = [] /\ re_DeployStatus r = "skipped (deploy-dry-run)"
    else re_DeployStatus r = "success" /\
      exists env, LoadEnvironmentByName (bori_root si) (rq_EnvName rq) = inr env /\
        Forall2 (called (bori_root si) env) (pl_Components plan) (oc_calls oc) /\ all_succeeded si (oc_calls oc).
Proof.
  intros Hr Hre Hp. apply Run_cases in Hr. destruct Hr as [e|rel _ _ _ _|rel plan _ _ Hpl Hv]; [done| |].
  - injection Hre as <-. discriminate Hp.
  - destruct (execute_promotes _ _ _ _ _ _ _ eq_refl Hre Hp) as [_ Hd Hc].
    exists plan, (promoted_revision si rel plan). rewrite Hd. split_and!; try done; [by apply (new_revision_records si rq)|].
    destruct (rq_DeployDryRun rq); [done|]. destruct Hc as (Hst & env & He & Hok & Hc). split; [done|].
    destruct (dy_ok _ _ _ _ (deploy_all_deployed si env (pl_Components plan)) Hok) as [Hcs Ha].
    rewrite (plan_deploys _ _ _ Hpl Hv) in Hcs. exists env. by rewrite Hc.
Qed.

(** ** Which calls are made *)

(** Every component file is in the directory of its name. *)
Definition well_named (boriRoot : string) (refs : list ComponentRef) : Prop :=
  forall ref c, ref ∈ refs -> LoadComponentByName boriRoot (cf_Name ref) = inr c -> bc_Name c = cf_Name ref.

Lemma execute_calls si rq rel plan res dk oc :
  execute AdapterRegistry si rq rel plan res dk = oc -> oc_calls oc <> [] ->
  exists env, LoadEnvironmentByName (bori_root si) (rq_EnvName rq) = inr env /\
    exists sub, sub `sublist_of` pl_Components plan /\ Forall2 (called (bori_root si) env) sub (oc_calls oc).
Proof.
  unfold execute. destruct (store si (new_revision si rel plan) dk) as [dk1 stored].
  destruct (rq_DryRun rq); [by intros <-|]. destruct (rq_DeployDryRun rq).
  - unfold dry_deploy. destruct (if stored then _ else _) as [dk2 pr]. destruct (update_shadow _ _ _ _ _) as [r2 dk3]. by intros <-.
  - unfold deploy_and_record. destruct (LoadEnvironmentByName (bori_root si) (rq_EnvName rq)) as [err|env]; [by intros <-|].
    destruct (if stored then _ else _) as [dk2 pr]. destruct (update_shadow _ _ _ _ _) as [r2 dk3]. intros <- _. cbn.
    exists env. split; [done|]. apply (dy_calls _ _ _ _ (deploy_all_deployed si env (pl_Components plan))).
Qed.

(** A call for the entry [ref] of the release.  Its namespace was checked in the
    entry's own file; the component deployed is that of the file which the
    entry's file names, with the pinned version and image.  Where the entry's
    file bears the entry's name the two are the same. *)
Record permitted (boriRoot : string) (env : BoriEnvironment) (ref : ComponentRef) (call : Call) : Prop := {
  pt_environment : dc_Environment call = env;
  pt_adapter : dc_Adapter call ∈ AdapterRegistry;
  pt_files : exists file comp, LoadComponentByName boriRoot (cf_Name ref) = inr file /\
    LoadComponentByName boriRoot (bc_Name file) = inr comp /\
    target_namespace file ∈ ev_Allowed env /\
    bc_Name (dc_Component call) = bc_Name comp /\
    target_namespace (dc_Component call) = target_namespace comp /\
    bc_Version (dc_Component call) = (if bool_decide (cf_Version ref = "") then bc_Version comp else cf_Version ref) /\
    if decide (cf_ImageDigest ref = "") then dc_Adapter call = BootstrapAdapter file
    else exists name, reference_with_digest (bc_ImageRef file) (cf_ImageDigest ref) = inr name /\
      dc_Adapter call = UpdateAdapter file /\ (name <> "" -> bc_ImageRef (dc_Component call) = name);
  pt_namespace : (forall file, LoadComponentByName boriRoot (cf_Name ref) = inr file -> bc_Name file = cf_Name ref) ->
    bc_Name (dc_Component call) = cf_Name ref /\ target_namespace (dc_Component call) ∈ ev_Allowed env;
}.

Lemma sources_release si rq rel rel' env comps :
  load_release si rq = inr rel -> sources (bori_root si) (rq_Release rq) (rq_ReleaseName rq) (rq_EnvName rq) rel' env comps -> rel' = rel.
Proof. unfold load_release. intros Hl [Hr _ _]. destruct (rq_Release rq); congruence. Qed.

(** A planned component is named as its entry, and so is its file. *)
Lemma planned_named root env comps refs ref cp :
  well_named root refs -> ref ∈ refs -> planned root env comps ref cp ->
  cp_Name cp = cf_Name ref /\ forall c, LoadComponentByName root (cp_Name cp) = inr c -> bc_Name c = cp_Name cp.
Proof.
  intros Hn Href [(c & Hl & _ & Hname & _) _ _]. assert (cp_Name cp = cf_Name ref) as E by (rewrite Hname; by apply Hn).
  split; [done|]. rewrite E. intros c'. by apply Hn.
Qed.

Lemma called_permitted root env comps ref cp call :
  planned root env comps ref cp -> cp_Namespace cp ∈ ev_Allowed env -> called root env cp call -> permitted root env ref call.
Proof.
  intros [(c & Hl & _ & Hname & Hns & Himg) (Hver & _) _] Hall (Ha & Hreg & He & comp & Hlc & Hc). rewrite Hname in Hlc.
  split; [done|by rewrite Ha| |].
  - exists c, comp. rewrite <- Hns, Hc, <- Hver. split_and!; try done. case_decide; [by rewrite Ha; destruct Himg|].
    destruct Himg as (Hr & _ & _ & Hu). exists (cp_ImageRef cp). split; [done|]. split; [congruence|]. intros Hne.
    cbn. by rewrite bool_decide_eq_false_2.
  - intros Hn. pose proof (Hn c Hl) as Hcn. rewrite Hcn, Hl in Hlc. injection Hlc as <-. rewrite Hc. split; [done|].
    unfold target_namespace in *. cbn. by rewrite <- Hns.
Qed.

Lemma planned_names root env comps refs cps :
  well_named root refs -> Forall2 (planned root env comps) refs cps ->
  cp_Name <$> cps = names refs /\
  Forall (fun cp => forall c, LoadComponentByName root (cp_Name cp) = inr c -> bc_Name c = cp_Name cp) cps.
Proof.
  intros Hn Hp. assert (Forall2 (fun ref cp => cp_Name cp = cf_Name ref /\
    forall c, LoadComponentByName root (cp_Name cp) = inr c -> bc_Name c = cp_Name cp) refs cps) as Hall.
  { apply Forall2_same_length_lookup. split; [by eapply Forall2_length|]. intros i ref cp Hr Hc.
    apply (planned_named root env comps refs); [done|by eapply list_elem_of_lookup_2|by eapply Forall2_lookup_lr]. }
  clear Hn Hp. induction Hall as [|ref cp refs cps [E Hc] _ [IH1 IH2]]; [done|]. unfold names in *. cbn. rewrite E, IH1. split; [done|].
  by constructor.
Qed.

Lemma Forall2_sublist_r {A B} (P : A -> B -> Prop) xs ys ys' :
  ys' `sublist_of` ys -> Forall2 P xs ys -> exists xs', xs' `sublist_of` xs /\ Forall2 P xs' ys'.
Proof.
  intros Hs. revert xs. induction Hs as [|y ys' ys Hs IH|y ys' ys Hs IH]; intros xs Hp.
  - exists []. split; [apply sublist_nil_l|constructor].
  - apply Forall2_cons_inv_r in Hp as (x & xs0 & Hx & Hp & ->). destruct (IH _ Hp) as (xs' & ? & ?).
    exists (x :: xs'). split; by constructor.
  - apply Forall2_cons_inv_r in Hp as (x & xs0 & Hx & Hp & ->). destruct (IH _ Hp) as (xs' & ? & ?).
    exists xs'. split; [by constructor|done].
Qed.

(** C17. Which calls a pass makes: each for an entry of the release, in the
    order of the plan, through a registered adapter, of the component with the
    pinned version and image, and only if the namespace that the entry's file
    declares (or its default) is one the environment allows.  Where that file
    bears the name of its entry, this is the namespace of the component that is
    deployed; where it bears another name, the component of that name is
    deployed, whose namespace was not checked.  The order puts each component
    after all it depends on for a release that lists none twice.  What an
    adapter then makes of the namespace is the adapter's ([adapter_deploy_spec]
    of Deployers.v; the one of ko does not use it). *)
Theorem Run_calls_allowed si rq dk oc :
  Run AdapterRegistry si rq dk = Some oc -> oc_calls oc <> [] ->
  exists rel env comps refs, sources (bori_root si) (rq_Release rq) (rq_ReleaseName rq) (rq_EnvName rq) rel env comps /\
    Order rel comps = Some (inr refs) /\ Forall (fun ref => ref ∈ rl_Components rel) refs /\
    (NoDup (names (rl_Components rel)) -> topological (depends rel comps) (names refs)) /\
    exists sub, sub `sublist_of` refs /\ Forall2 (permitted (bori_root si) env) sub (oc_calls oc).
Proof.
  intros Hr Hne. apply Run_cases in Hr. destruct Hr as [e|rel' _ _ _ _|rel' plan _ _ Hpl Hv]; [done|done|].
  destruct (execute_calls _ _ _ _ _ _ _ eq_refl Hne) as (env' & He & subc & Hsub & Hc).
  destruct (plan_correct _ _ _ _ _ _ _ Hpl) as (rel & env & comps & refs & Hs & Ho & Htop & Hp & Hvs).
  assert (env' = env) as -> by (destruct Hs as [_ He' _]; congruence). apply Hvs in Hv as [Hall _].
  assert (Forall2 (fun ref cp => planned (bori_root si) env comps ref cp /\ cp_Namespace cp ∈ ev_Allowed env) refs (pl_Components plan)) as Hp'.
  { apply Forall2_same_length_lookup. split; [by eapply Forall2_length|]. intros i ref cp Hi Hj.
    split; [by eapply Forall2_lookup_lr|]. apply (proj1 (Forall_forall _ _) Hall). by eapply list_elem_of_lookup_2. }
  exists rel, env, comps, refs. split; [done|]. split; [done|]. split.
  { apply Forall_forall. intros ref. by apply (order_members rel comps refs). }
  split; [intros Hnd; by apply Htop|].
  destruct (Forall2_sublist_r _ _ _ _ Hsub Hp') as (sub & Hsubr & Hsp). exists sub. split; [done|].
  eapply Forall2_trans; [|exact Hsp|exact Hc]. intros ref cp call [Hpd Hns] Hca. by eapply called_permitted.
Qed.

(** ** A promoted release settles *)
Lemma actual_components_lookup r c :
  NoDup (cv_Name <$> rv_Components r) -> c ∈ rv_Components r -> actual_components (Some r) !! cv_Name c = Some c.
Proof.
  cbn. induction (rv_Components r) as [|c' cs IH] using rev_ind; [by intros _ ?%elem_of_nil|].
  rewrite fmap_app, foldl_app. cbn. intros (Hnd & Hdis & _)%NoDup_app Hin.
  apply elem_of_app in Hin as [Hin|Hin%list_elem_of_singleton]; [|subst; apply lookup_insert_eq].
  rewrite lookup_insert_ne; [by apply IH|]. intros Heq. apply (Hdis (cv_Name c)); [by apply list_elem_of_fmap_2|].
  rewrite <- Heq. left.
Qed.

Lemma plan_release si rq plan : plan_of si rq = Some (inr plan) -> pl_Release plan = rq_ReleaseName rq /\ pl_Environment plan = rq_EnvName rq.
Proof. by intros (? & ? & ? & ? & ? & _ & _ & _ & ->)%Plan_ok. Qed.

(** What is planned for a release matches it once it is recorded. *)
Lemma recorded_matches si rq rel plan rev :
  well_named (bori_root si) (rl_Components rel) -> load_release si rq = inr rel -> NoDup (names (rl_Components rel)) -> plan_of si rq = Some (inr plan) ->
  Forall2 records (pl_Components plan) (rv_Components rev) -> matches rel rev.
Proof.
  intros Hn Hl Hnd (rel' & env & comps & refs & Hs & Ho & Htop & Hp & _)%plan_correct Hrec.
  rewrite (sources_release _ _ _ _ _ _ Hl Hs) in *. clear Hs rel'. destruct (Htop Hnd) as [Hperm _].
  assert (well_named (bori_root si) refs) as Hn' by (intros ref c Hin; apply Hn; by rewrite <- Hperm).
  assert (cv_Name <$> rv_Components rev = names refs) as Hnames.
  { rewrite <- (proj1 (planned_names _ _ _ _ _ Hn' Hp)). clear Hp. induction Hrec as [|cp c cps cs (Hc & _) _ IH]; cbn; [done|]. by rewrite Hc, IH. }
  intros ref Hin. rewrite <- Hperm in Hin. apply list_elem_of_lookup in Hin as [i Hi].
  destruct (Forall2_lookup_l _ _ _ _ _ Hp Hi) as (cp & Hcp & Hpd). destruct Hpd as [(c0 & Hl0 & _ & Hcn0 & _) (Hver & Hdig & _) _].
  destruct (Forall2_lookup_l _ _ _ _ _ Hrec Hcp) as (c & Hc & (Hcn & Hcv & _ & Hcd & _)).
  assert (cv_Name c = cf_Name ref) as Hcr by (rewrite Hcn, Hcn0; apply (Hn ref); [rewrite <- Hperm; by eapply list_elem_of_lookup_2|done]).
  exists c. split.
  - rewrite <- Hcr. apply actual_components_lookup; [|by eapply list_elem_of_lookup_2]. rewrite Hnames. unfold names. by rewrite Hperm.
  - unfold same_identity. case_decide; congruence.
Qed.

(** What a promotion leaves: the promoted revision is the newest, and matches. *)
Lemma promoted_newest si rq rel dk oc r :
  well_named (bori_root si) (rl_Components rel) -> load_release si rq = inr rel -> rl_Name rel = rq_ReleaseName rq -> NoDup (names (rl_Components rel)) ->
  (forall r', promoted_file (rl_Name rel) (dk_revisions dk) r' -> rv_CreatedAt r' < si_clock si 3)%Z ->
  Run AdapterRegistry si rq dk = Some oc -> oc_result oc = inr r -> re_Promoted r = true ->
  exists rev, latest_promoted (rl_Name rel) (dk_revisions (oc_disk oc)) = Some rev /\ rv_RevisionID rev = re_RevisionID r /\
    rv_RevisionID rev <> "" /\ matches rel rev.
Proof.
  intros Hn Hl Hname Hnd Hclock Hr Hre Hp.
  apply Run_cases in Hr. destruct Hr as [e|rel' _ _ _ _|rel' plan Hlr _ Hpl Hv]; [done|injection Hre as <-; discriminate Hp|].
  rewrite Hl in Hlr. injection Hlr as <-.
  destruct (execute_promotes _ _ _ _ _ _ _ eq_refl Hre Hp) as [Hid Hd _]. set (rev := promoted_revision si rel plan) in *.
  assert (rv_Release rev = rl_Name rel) as Hrel by (rewrite Hname; apply (plan_release _ _ _ Hpl)).
  exists rev. split_and!.
  - rewrite Hd. apply latest_promoted_strict.
    + split; [|done]. exists (re_RevisionID r). apply lookup_insert_eq.
    + intros r' ((n & Hr') & Hrr & Hst). destruct (decide (n = re_RevisionID r)) as [->|Hne].
      * rewrite lookup_insert_eq in Hr'. left. congruence.
      * rewrite lookup_insert_ne in Hr' by done. right. apply Hclock. split; [by exists n|done].
  - by rewrite Hid.
  - cbn. unfold NewRevisionID. by destruct (safe_name _).
  - apply (recorded_matches si rq rel plan); try done. by apply (new_revision_records si rq).
Qed.

(** A promoted release settles: the next pass for it that may skip deploys
    nothing and writes nothing, provided that the clock moves, that the release
    bears the name it was asked by and lists no component twice, and that every
    component file bears the name it is loaded by.  The next pass may be for
    any environment: revisions are not told apart by theirs. *)
Theorem Run_settles si rq rel dk oc r si' rq' :
  well_named (bori_root si) (rl_Components rel) -> load_release si rq = inr rel -> rl_Name rel = rq_ReleaseName rq -> NoDup (names (rl_Components rel)) ->
  (forall r', promoted_file (rl_Name rel) (dk_revisions dk) r' -> rv_CreatedAt r' < si_clock si 3)%Z ->
  Run AdapterRegistry si rq dk = Some oc -> oc_result oc = inr r -> re_Promoted r = true ->
  si_abs si' = inr (bori_root si') -> si_readable si' 0 = true -> load_release si' rq' = inr rel -> rq_SkipIfInSync rq' = true ->
  exists oc' r', Run AdapterRegistry si' rq' (oc_disk oc) = Some oc' /\ oc_result oc' = inr r' /\
    re_DeployStatus r' = "skipped" /\ oc_disk oc' = oc_disk oc /\ oc_calls oc' = [].
Proof.
  intros Hn Hl Hname Hnd Hclock Hr Hre Hp Ha' Hread Hl' Hs'. apply (settled_skips _ _ rel); try done.
  destruct (promoted_newest si rq rel dk oc r) as (rev & Hlat & _ & Hid & Hm); try done. split; [done|]. by exists rev.
Qed.

(** ** A failed deployment *)

(** The file of [id], if any, is no promoted revision. *)
Definition not_promoted_at (dir : Revisions) (id : string) : Prop :=
  forall r, dir !! id = Some (Some r) -> rv_PromotionStatus r <> "promoted".

(** Writing over such a file what is not promoted changes no promoted file. *)
Lemma write_unpromoted rev answer dir :
  rv_PromotionStatus rev <> "promoted" -> not_promoted_at dir (rv_RevisionID rev) ->
  not_promoted_at (write_revision rev answer dir).1 (rv_RevisionID rev) /\
  forall release r, promoted_file release (write_revision rev answer dir).1 r <-> promoted_file release dir r.
Proof.
  intros Hst Hnp. set (id := rv_RevisionID rev) in *. set (dir' := (write_revision rev answer dir).1).
  assert (not_promoted_at dir' id /\ forall n, n <> id -> dir' !! n = dir !! n) as [Hnp' Hsame].
  { unfold dir', write_revision. fold id. destruct answer as [| | |[|]]; cbn.
    - split; [|intros n Hn; by apply lookup_insert_ne]. intros r Hr. rewrite lookup_insert_eq in Hr. congruence.
    - done.
    - split; [|intros n Hn; by apply lookup_delete_ne]. intros r Hr. by rewrite lookup_delete_eq in Hr.
    - split; [|intros n Hn; by apply lookup_insert_ne]. intros r Hr. rewrite lookup_insert_eq in Hr. congruence.
    - split; [|intros n Hn; by apply lookup_insert_ne]. intros r Hr. rewrite lookup_insert_eq in Hr. congruence. }
  split; [done|]. intros release r. unfold promoted_file.
  split; intros ((n & Hn) & Hrel & Hp); (split; [|done]); exists n; (destruct (decide (n = id)) as [->|Hne]).
  - by destruct (Hnp' _ Hn).
  - by rewrite <- Hsame.
  - by destruct (Hnp _ Hn).
  - by rewrite Hsame.
Qed.

Lemma store_unpromoted si rev dk :
  rv_PromotionStatus rev <> "promoted" -> not_promoted_at (dk_revisions dk) (rv_RevisionID rev) ->
  not_promoted_at (dk_revisions (store si rev dk).1) (rv_RevisionID rev) /\
  forall release r, promoted_file release (dk_revisions (store si rev dk).1) r <-> promoted_file release (dk_revisions dk) r.
Proof.
  intros Hst Hnp. pose proof (write_unpromoted rev (si_write si rev) (dk_revisions dk) Hst Hnp) as Hw.
  unfold store. destruct (write_revision rev (si_write si rev) (dk_revisions dk)) as [revs ok]. done.
Qed.

(** The revision of a pass that failed. *)
Definition failed_revision (si : Site) (rel : BoriRelease) (plan : Plan_) (reasons : list string) : BoriRevision :=
  fail_revision (new_revision si rel plan) ("deploy failed: " +:+ join "; " reasons).

Record failure (si : Site) (rq : Request) (rel : BoriRelease) (plan : Plan_) (dk : Disk) (oc : Outcome) (r : Result) :
    Prop := {
  fl_promoted : re_Promoted r = false;
  fl_components : pl_Components plan <> [];
  fl_disk : exists reasons, reasons <> [] /\
    let '(dk1, stored) := store si (new_revision si rel plan) dk in
    dk_revisions (oc_disk oc) =
      dk_revisions (if stored then (store si (failed_revision si rel plan reasons) dk1).1 else dk1);
}.

Lemma execute_fails si rq rel plan dk oc r :
  execute AdapterRegistry si rq rel plan (first_result si rq rel dk) dk = oc ->
  oc_result oc = inr r -> re_DeployStatus r = "failed" -> failure si rq rel plan dk oc r.
Proof.
  unfold execute. intros Ho Hre Hst. destruct (store si (new_revision si rel plan) dk) as [dk1 stored] eqn:Hs.
  destruct (rq_DryRun rq); [subst oc; injection Hre as <-; discriminate Hst|]. destruct (rq_DeployDryRun rq).
  - unfold dry_deploy in Ho. destruct (finish_pass _ _ _ _ _ _ _ _ _ _ _ Ho Hre) as (_ & _ & _ & _ & Hs').
    rewrite Hst in Hs'. discriminate Hs'.
  - unfold deploy_and_record in Ho. destruct (LoadEnvironmentByName (bori_root si) (rq_EnvName rq)) as [err|env] eqn:He; [by subst oc|].
    destruct (finish_pass _ _ _ _ _ _ _ _ _ _ _ Ho Hre) as (Hw & Hk & _ & _ & Hs').
    set (d := deploy_all _ _ _ _) in *. pose proof (dy_reasons _ _ _ _ (deploy_all_deployed si env (pl_Components plan))) as Hd.
    fold d in Hd. destruct (dp_ok d); [rewrite Hst in Hs'; discriminate Hs'|].
    split; [by destruct stored| |].
    + intros Hnil. destruct Hd as [_ Hd]. by specialize (Hd ltac:(unfold d; by rewrite Hnil)).
    + exists (dp_reasons d). split; [by intros ?%Hd|]. rewrite Hs. by destruct stored.
Qed.

Lemma new_revision_id si rq rel plan :
  plan_of si rq = Some (inr plan) ->
  rv_RevisionID (new_revision si rel plan) = NewRevisionID (rq_ReleaseName rq) (rq_EnvName rq) (si_clock si 3).
Proof. intros Hp. cbn. by destruct (plan_release _ _ _ Hp) as [-> ->]. Qed.

(** Its writes touch no promoted revision. *)
Lemma failure_keeps si rq rel plan dk oc r :
  plan_of si rq = Some (inr plan) -> failure si rq rel plan dk oc r ->
  not_promoted_at (dk_revisions dk) (NewRevisionID (rq_ReleaseName rq) (rq_EnvName rq) (si_clock si 3)) ->
  forall release r', promoted_file release (dk_revisions (oc_disk oc)) r' <-> promoted_file release (dk_revisions dk) r'.
Proof.
  intros Hpl [_ _ (reasons & _ & Hd)] Hnp release r'. rewrite <- (new_revision_id si rq rel plan Hpl) in Hnp.
  pose proof (store_unpromoted si (new_revision si rel plan) dk ltac:(done) Hnp) as [Hnp1 Hsame].
  destruct (store si (new_revision si rel plan) dk) as [dk1 stored]. cbn in Hnp1, Hsame.
  rewrite Hd. destruct stored; [|apply Hsame]. rewrite <- Hsame.
  by apply (store_unpromoted si (failed_revision si rel plan reasons)).
Qed.

(** C37. A failed deployment leaves the actual state as it was: nothing is
    promoted, and the newest promoted revisions are the ones before; and if the
    disk accepts the writes, the attempt is on record as failed, with a reason.
    This needs that the revision's ID, which only tells seconds apart, is not the
    one of a promoted revision. *)
Theorem Run_failure si rq dk oc r :
  let id := NewRevisionID (rq_ReleaseName rq) (rq_EnvName rq) (si_clock si 3) in
  Run AdapterRegistry si rq dk = Some oc -> oc_result oc = inr r -> re_DeployStatus r = "failed" ->
  not_promoted_at (dk_revisions dk) id ->
  re_Promoted r = false /\
  (forall release r', newest release (dk_revisions (oc_disk oc)) r' <-> newest release (dk_revisions dk) r') /\
  ((forall rev, si_write si rev = Written) ->
   exists rev reasons, dk_revisions (oc_disk oc) = <[id := Some rev]> (dk_revisions dk) /\
     rv_PromotionStatus rev = "failed" /\ reasons <> [] /\ rv_FailReason rev = "deploy failed: " +:+ join "; " reasons).
Proof.
  intros id Hr Hre Hst Hnp. apply Run_cases in Hr.
  destruct Hr as [e|rel _ _ _ _|rel plan _ _ Hpl _]; [done|injection Hre as <-; discriminate Hst|].
  destruct (execute_fails _ _ _ _ _ _ _ eq_refl Hre Hst) as [Hp _ (reasons & Hne & Hd)]. split; [done|].
  pose proof (execute_fails _ _ _ _ _ _ _ eq_refl Hre Hst) as Hf. split.
  - pose proof (failure_keeps _ _ _ _ _ _ _ Hpl Hf Hnp) as Hall. intros release r'. unfold newest. rewrite Hall.
    setoid_rewrite Hall. done.
  - intros Hw. assert (forall rev dk, store si rev dk = (Build_Disk (<[rv_RevisionID rev := Some rev]> (dk_revisions dk)) (dk_states dk), true)) as Hstore.
    { intros rev dk0. unfold store. by rewrite Hw. }
    pose proof (new_revision_id si rq rel plan Hpl) as Hid. fold id in Hid.
    destruct (store si (new_revision si rel plan) dk) as [dk1 stored] eqn:Hs.
    assert (rv_RevisionID (failed_revision si rel plan reasons) = id) as Hidf by exact Hid.
    rewrite Hstore, Hid in Hs. injection Hs as <- <-. rewrite Hstore, Hidf in Hd. cbn [fst dk_revisions] in Hd.
    exists (failed_revision si rel plan reasons), reasons. split_and!; try done. rewrite Hd. apply insert_insert_eq.
Qed.

(** The shadow state that a pass which deploys reports. *)
Lemma execute_shadow si rq rel plan res dk oc r :
  execute AdapterRegistry si rq rel plan res dk = oc -> oc_result oc = inr r -> rq_DryRun rq = false ->
  si_readable si 1 = true -> re_ShadowState r = shadow_reconcile rel true (dk_revisions (oc_disk oc)) (si_clock si 5).
Proof.
  unfold execute. intros Ho Hre Hdry Hread. rewrite Hdry in Ho. destruct (store si (new_revision si rel plan) dk) as [dk1 stored].
  destruct (rq_DeployDryRun rq).
  - unfold dry_deploy in Ho. destruct (if stored then _ else _) as [dk2 pr]. unfold update_shadow in Ho. rewrite Hread in Ho.
    unfold shadow_reconcile in *. cbn [negb] in *. subst oc. by injection Hre as <-.
  - unfold deploy_and_record in Ho. destruct (LoadEnvironmentByName (bori_root si) (rq_EnvName rq)) as [err|env]; [by subst oc|].
    destruct (if stored then _ else _) as [dk2 pr]. unfold update_shadow in Ho. rewrite Hread in Ho.
    unfold shadow_reconcile in *. cbn [negb] in *. subst oc. by injection Hre as <-.
Qed.
End spec.
