(* ===== verification/Redact.v ===== *)
(** * Redaction of secrets (pkg/security/redact.go)

    The two regular expressions of the source are matched by functions on
    runes: [sensitiveKeyPattern] is a choice of words looked for anywhere,
    [authHeaderPattern] a scheme, space and a token.  Both ignore case as RE2
    does, by simple folding. *)

From S2P Require Import Prelude Text.
From Stdlib Require Import Ascii.

Definition redacted : string := "[REDACTED]".

(** ** Matching words, ignoring case *)

(** The runes a lower case letter of a pattern matches: itself, its capital,
    and for k and s the Kelvin sign and the long s. *)
Definition folds (letter : ascii) (r : rune) : bool :=
  let c := code r in let l := N_of_ascii letter in
  N.eqb c l || (N.leb 97 l && N.leb l 122 && N.eqb (c + 32) l) ||
  (N.eqb l 107 && N.eqb c 0x212A) || (N.eqb l 115 && N.eqb c 0x17F).

Fixpoint starts_with (word : string) (rs : list rune) : bool :=
  match word, rs with
  | EmptyString, _ => true
  | String a word, r :: rs => folds a r && starts_with word rs
  | String _ _, [] => false
  end.

Fixpoint contains (word : string) (rs : list rune) : bool :=
  starts_with word rs || match rs with [] => false | _ :: rs => contains word rs end.

Definition sensitive_words : list string :=
  ["token"; "password"; "passwd"; "secret"; "credential"; "auth"; "key"; "apikey"; "api_key"; "private"].

Definition IsSensitiveKey (key : string) : bool := existsb (fun w => contains w (runes key)) sensitive_words.

(** ** The header pattern *)

(** \s *)
Definition is_blank (r : rune) : bool :=
  let c := code r in N.eqb c 9 || N.eqb c 10 || N.eqb c 12 || N.eqb c 13 || N.eqb c 32.

Definition schemes : list string := ["bearer"; "basic"; "token"].

Fixpoint take_while {A} (f : A -> bool) (l : list A) : list A :=
  match l with [] => [] | x :: l => if f x then x :: take_while f l else [] end.

Definition not_blank (r : rune) : bool := negb (is_blank r).

(** A match at the head: the length of the scheme, and of the whole match. *)
Definition match_scheme (rs : list rune) (word : string) : option (nat * nat) :=
  let n := String.length word in
  if starts_with word rs then
    let blanks := take_while is_blank (drop n rs) in
    let token := take_while not_blank (drop_while is_blank (drop n rs)) in
    match blanks, token with [], _ => None | _, [] => None | _, _ => Some (n, n + length blanks + length token) end
  else None.

Definition match_header (rs : list rune) : option (nat * nat) := head (omap (match_scheme rs) schemes).

(** ReplaceAllString with "$1 [REDACTED]"; [skip] runes are in the last match. *)
Fixpoint redact_from (skip : nat) (rs : list rune) : list rune :=
  match rs with
  | [] => []
  | r :: rs' =>
      match skip with
      | S skip => redact_from skip rs'
      | O =>
          match match_header rs with
          | Some (n, m) => take n rs ++ runes (" " +:+ redacted) ++ redact_from (m - 1) rs'
          | None => r :: redact_from 0 rs'
          end
      end
  end.

Definition RedactString (s : string) : string := text (redact_from 0 (runes s)).

Definition RedactMap (m : gmap string string) : gmap string string :=
  map_imap (fun k v => Some (if IsSensitiveKey k then redacted else v)) m.

Definition redact_env (e : string) : string :=
  match split_first "="%char e with
  | Some (key, _) => if IsSensitiveKey key then key +:+ "=" +:+ redacted else e
  | None => e
  end.

Definition RedactEnv (env : list string) : list string := redact_env <$> env.

Example redact_header : RedactString "Authorization: BEARER  abc.def tail" = "Authorization: BEARER [REDACTED] tail".
Proof. vm_compute. reflexivity. Qed.

Example redact_variables : RedactEnv ["API_TOKEN=x=y"; "PATH=/bin"; "MONKEY=1"] =
  ["API_TOKEN=[REDACTED]"; "PATH=/bin"; "MONKEY=[REDACTED]"].
Proof. vm_compute. reflexivity. Qed.

(** Only the word after the scheme is taken for the credential. *)
Example second_word_kept : RedactString "Bearer token abc" = "Bearer [REDACTED] abc".
Proof. vm_compute. reflexivity. Qed.

(** * Lemmas *)

Lemma take_drop_while {A} (f : A -> bool) l : take_while f l ++ drop_while f l = l.
Proof. induction l as [|x l IH]; cbn; [done|]. destruct (f x); cbn; [by f_equal|done]. Qed.

(** ** What a match at the head is *)
Lemma starts_with_app word rs rs' : String.length word <= length rs -> starts_with word (rs ++ rs') = starts_with word rs.
Proof.
  revert rs. induction word as [|a word IH]; intros [|r rs] Hl; cbn in *; [done|done|lia|by rewrite IH by lia].
Qed.

Lemma starts_with_length word rs : starts_with word rs = true -> String.length word <= length rs.
Proof.
  revert rs. induction word as [|a word IH]; intros [|r rs]; cbn; [lia|lia|done|]. intros [_ H%IH]%andb_true_iff. lia.
Qed.

(** A word of the pattern, blanks and the first rune of a token. *)
Definition opens (rs : list rune) (word : string) : Prop :=
  starts_with word rs = true /\ exists bs r rest,
    drop (String.length word) rs = bs ++ r :: rest /\ bs <> [] /\ Forall (fun b => is_blank b = true) bs /\ is_blank r = false.

Lemma blanks_unique bs r rest :
  Forall (fun b => is_blank b = true) bs -> is_blank r = false ->
  take_while is_blank (bs ++ r :: rest) = bs /\ drop_while is_blank (bs ++ r :: rest) = r :: rest.
Proof.
  intros Hbs Hr. induction Hbs as [|b bs Hb Hbs [IH1 IH2]]; cbn.
  - by rewrite Hr.
  - rewrite Hb. split; [by f_equal|done].
Qed.

Lemma match_scheme_opens rs word : is_Some (match_scheme rs word) <-> opens rs word.
Proof.
  unfold match_scheme, opens. destruct (starts_with word rs); [|split; [by intros []|by intros []]].
  split.
  - intros Hs. split; [done|]. set (tl := drop _ rs) in *.
    destruct (drop_while_suffix is_blank tl) as (pre & Htl & Hpre).
    destruct (drop_while is_blank tl) as [|r rest] eqn:Ed; [cbn in Hs; destruct (take_while is_blank tl); by destruct Hs|].
    assert (is_blank r = false) as Hr.
    { destruct (is_blank r) eqn:E; [|done]. pose proof (drop_while_idem is_blank tl) as Hi. rewrite Ed in Hi. cbn in Hi.
      rewrite E in Hi. pose proof (f_equal length Hi) as Hlen. pose proof (drop_while_length is_blank rest). cbn in Hlen. lia. }
    exists pre, r, rest. split; [done|]. split; [|done]. intros ->. cbn in Htl. rewrite Htl in Hs. cbn in Hs. rewrite Hr in Hs.
    by destruct Hs.
  - intros (_ & bs & r & rest & Hd & Hne & Hbs & Hr). rewrite Hd. destruct (blanks_unique bs r rest Hbs Hr) as [-> ->].
    cbn. unfold not_blank. rewrite Hr. cbn. destruct bs; [done|eauto].
Qed.

Lemma match_header_opens rs : is_Some (match_header rs) <-> Exists (opens rs) schemes.
Proof.
  unfold match_header. rewrite Exists_exists. split.
  - intros [nm Hh]. assert (nm ∈ omap (match_scheme rs) schemes) as Hin.
    { destruct (omap _ _) as [|x xs]; [done|]. injection Hh as ->. left. }
    apply list_elem_of_omap in Hin as (w & Hw & Hm). exists w. split; [done|]. apply match_scheme_opens. eauto.
  - intros (w & Hw & [nm Hm]%match_scheme_opens). assert (nm ∈ omap (match_scheme rs) schemes) as Hin.
    { apply list_elem_of_omap. eauto. }
    destruct (omap _ _) as [|x xs]; [by apply not_elem_of_nil in Hin|]. cbn. eauto.
Qed.

(** A rune matches one letter of a pattern at most. *)
Definition letter (a : ascii) : bool := N.leb 97 (N_of_ascii a) && N.leb (N_of_ascii a) 122.

Lemma folds_inj a b r : letter a = true -> letter b = true -> folds a r = true -> folds b r = true -> a = b.
Proof.
  unfold letter, folds. intros La Lb Fa Fb.
  assert (N_of_ascii a = N_of_ascii b) as E; [|by rewrite <- (ascii_N_embedding a), E, ascii_N_embedding].
  set (m := N_of_ascii a) in *. set (n := N_of_ascii b) in *. clearbody m n.
  rewrite !orb_true_iff, !andb_true_iff, !N.eqb_eq in Fa, Fb. rewrite andb_true_iff, !N.leb_le in La, Lb. lia.
Qed.

(** The first letter of a scheme, and the other letters. *)
Definition scheme_initial (r : rune) : Prop := folds "b"%char r = true \/ folds "t"%char r = true.

Lemma folds_code a r r' : code r = code r' -> folds a r = folds a r'.
Proof. unfold folds. by intros ->. Qed.

Lemma initial_codes r : scheme_initial r -> (code r ∈ [66; 98; 84; 116])%N.
Proof.
  unfold scheme_initial, folds. cbn. intros [H|H]; rewrite !orb_true_iff, ?andb_true_iff, !N.eqb_eq in H; set_unfold; lia.
Qed.

Lemma initial_not_blank r : scheme_initial r -> is_blank r = false.
Proof.
  intros Hi%initial_codes. unfold is_blank. repeat (apply elem_of_cons in Hi as [->|Hi]); [done..|by apply not_elem_of_nil in Hi].
Qed.

Lemma starts_with_lookup word rs i a :
  starts_with word rs = true -> String.get i word = Some a -> exists r, rs !! i = Some r /\ folds a r = true.
Proof.
  revert rs i. induction word as [|b word IH]; intros [|r rs] i; cbn; try done. intros [Hf Hs]%andb_true_iff.
  destruct i as [|i]; [intros [= ->]; eauto|]. intros Hg. by apply (IH rs i).
Qed.

Lemma opens_initial rs word : word ∈ schemes -> opens rs word -> exists r rest, rs = r :: rest /\ scheme_initial r.
Proof.
  intros Hw [Hs _]. unfold schemes, scheme_initial in *. destruct rs as [|r rs];
    repeat (apply elem_of_cons in Hw as [->|Hw]); try by apply not_elem_of_nil in Hw.
  all: try done; cbn in Hs; apply andb_true_iff in Hs as [Hf _]; eauto.
Qed.

(** A scheme does not begin inside another one. *)
Lemma scheme_inside word rs i r :
  word ∈ schemes -> starts_with word rs = true -> 0 < i -> i < String.length word -> rs !! i = Some r -> ~ scheme_initial r.
Proof.
  intros Hw Hs Hi Hl Hr Hin.
  destruct (String.get i word) as [a|] eqn:Hg; [|by apply get_None in Hg; lia].
  destruct (starts_with_lookup _ _ _ _ Hs Hg) as (r' & Hr' & Hf). rewrite Hr in Hr'. injection Hr' as <-.
  assert (forall c, letter c = true -> folds c r = true -> letter a = true -> a = c) as Hinj.
  { intros c Hc Hfc Ha. by apply (folds_inj _ _ r). }
  unfold schemes in Hw. repeat (apply elem_of_cons in Hw as [->|Hw]); try by apply not_elem_of_nil in Hw.
  all: cbn in Hl; do 6 (destruct i as [|i]; [first [lia|injection Hg as <-; destruct Hin as [Hin|Hin];
    [pose proof (Hinj "b"%char eq_refl Hin eq_refl)|pose proof (Hinj "t"%char eq_refl Hin eq_refl)]; done]|]); lia.
Qed.

(** Whether a match begins at the head of [q] does not depend on what follows a
    letter that can begin a scheme. *)
Lemma opens_local q b Y Y' word :
  word ∈ schemes -> q <> [] -> scheme_initial b -> opens (q ++ b :: Y) word -> opens (q ++ b :: Y') word.
Proof.
  intros Hw Hq Hb (Hs & bs & r & rest & Hd & Hne & Hbs & Hr). set (n := String.length word) in *.
  assert (n <= length q) as Hn.
  { destruct (decide (n <= length q)) as [|Hgt]; [done|]. exfalso.
    apply (scheme_inside word (q ++ b :: Y) (length q) b Hw Hs); [destruct q; [done|cbn; lia]|fold n; lia| |done].
    by rewrite lookup_app_r, Nat.sub_diag by lia. }
  rewrite drop_app_le in Hd by done. split; [by rewrite starts_with_app in Hs |- *|].
  fold n. rewrite drop_app_le by done. set (q' := drop n q) in *. clearbody q'. clear -Hd Hne Hbs Hr Hb.
  assert (forall q' bs, q' ++ b :: Y = bs ++ r :: rest -> Forall (fun b => is_blank b = true) bs ->
    exists r' rest', q' ++ b :: Y' = bs ++ r' :: rest' /\ is_blank r' = false) as H.
  { clear -Hr Hb. induction q' as [|x q' IH]; intros bs Hd Hbs.
    - destruct bs as [|y bs]; [exists b, Y'; split; [done|by apply initial_not_blank]|]. injection Hd as <- _.
      apply Forall_cons in Hbs as [Hbs _]. by rewrite (initial_not_blank b Hb) in Hbs.
    - destruct bs as [|y bs]; injection Hd as <- Hd; [exists x, (q' ++ b :: Y'); done|].
      apply Forall_cons in Hbs as [_ Hbs]. destruct (IH bs Hd Hbs) as (r' & rest' & He & Hr'). exists r', rest'.
      split; [|done]. cbn. by f_equal. }
  destruct (H q' bs Hd Hbs) as (r' & rest' & He & Hr'). by exists bs, r', rest'.
Qed.

(** ** The matches of a text *)
Lemma schemes_differ w1 w2 rs :
  w1 ∈ schemes -> w2 ∈ schemes -> starts_with w1 rs = true -> starts_with w2 rs = true -> w1 = w2.
Proof.
  intros H1 H2 S1 S2.
  destruct (String.get 1 w1) as [a|] eqn:G1, (String.get 1 w2) as [b|] eqn:G2; unfold schemes in *;
    repeat (apply elem_of_cons in H1 as [->|H1]); try (by apply not_elem_of_nil in H1);
    repeat (apply elem_of_cons in H2 as [->|H2]); try (by apply not_elem_of_nil in H2); try done.
  all: destruct (starts_with_lookup _ _ 1 a S1 G1) as (r & Hr & Ha), (starts_with_lookup _ _ 1 b S2 G2) as (r' & Hr' & Hb);
    rewrite Hr in Hr'; injection Hr' as <-; injection G1 as <-; injection G2 as <-; exfalso;
    match type of Ha with folds ?x _ = _ => match type of Hb with folds ?y _ = _ =>
      by pose proof (folds_inj x y r eq_refl eq_refl Ha Hb) end end.
Qed.

Lemma match_header_scheme rs w p : w ∈ schemes -> match_scheme rs w = Some p -> match_header rs = Some p.
Proof.
  intros Hw Hm. assert (is_Some (match_header rs)) as [q Hq].
  { apply match_header_opens, Exists_exists. exists w. split; [done|]. apply match_scheme_opens. eauto. }
  rewrite Hq. f_equal. unfold match_header in Hq. assert (q ∈ omap (match_scheme rs) schemes) as Hin.
  { destruct (omap _ _); [done|]. injection Hq as ->. left. }
  apply list_elem_of_omap in Hin as (w' & Hw' & Hm'). assert (w' = w) as ->; [|congruence].
  unfold match_scheme in Hm, Hm'. destruct (starts_with w' rs) eqn:E', (starts_with w rs) eqn:E; try done.
  by apply (schemes_differ w' w rs).
Qed.

Lemma redact_skip k rs : redact_from k rs = redact_from 0 (drop k rs).
Proof. revert k. induction rs as [|r rs IH]; intros [|k]; [done..|]. exact (IH k). Qed.

(** A match: the scheme, the blanks, the token and what follows. *)
Record matched (rs w bs tok rest : list rune) (word : string) : Prop := {
  mt_word : word ∈ schemes;
  mt_split : rs = w ++ bs ++ tok ++ rest;
  mt_scheme : starts_with word w = true /\ length w = String.length word;
  mt_blanks : bs <> [] /\ Forall (fun b => is_blank b = true) bs;
  mt_token : tok <> [] /\ Forall (fun b => is_blank b = false) tok;
  mt_rest : match rest with [] => True | b :: _ => is_blank b = true end;
}.

Lemma take_while_app {A} (f : A -> bool) l rest :
  Forall (fun x => f x = true) l -> match rest with [] => True | x :: _ => f x = false end ->
  take_while f (l ++ rest) = l /\ drop_while f (l ++ rest) = rest.
Proof.
  intros Hl Hr. induction Hl as [|x l Hx Hl [IH1 IH2]]; cbn.
  - destruct rest as [|x rest]; cbn; [done|by rewrite Hr].
  - rewrite Hx. split; [by f_equal|done].
Qed.

Lemma take_while_spec {A} (f : A -> bool) l :
  Forall (fun x => f x = true) (take_while f l) /\ match drop_while f l with [] => True | x :: _ => f x = false end.
Proof.
  induction l as [|x l [IH1 IH2]]; cbn; [done|]. destruct (f x) eqn:E; [split; [by constructor|done]|done].
Qed.

Lemma matched_header rs w bs tok rest word :
  matched rs w bs tok rest word -> match_header rs = Some (length w, length w + length bs + length tok).
Proof.
  intros [Hw -> [Hs Hl] [Hb1 Hb2] [Ht1 Ht2] Hr]. apply (match_header_scheme _ word _ Hw). unfold match_scheme.
  rewrite starts_with_app by lia. rewrite Hs, <- Hl, drop_app_length.
  destruct tok as [|t tok]; [done|]. pose proof (proj1 (Forall_cons _ _ _) Ht2) as [Htb _].
  destruct (take_while_app is_blank bs ((t :: tok) ++ rest) Hb2 Htb) as [-> ->].
  destruct (take_while_app not_blank (t :: tok) rest) as [-> _].
  - eapply Forall_impl; [exact Ht2|]. intros x Hx. unfold not_blank. by rewrite Hx.
  - destruct rest; [done|]. unfold not_blank. by rewrite Hr.
  - by destruct bs.
Qed.

Lemma header_matched rs p : match_header rs = Some p -> exists w bs tok rest word, matched rs w bs tok rest word.
Proof.
  intros Hp. assert (is_Some (match_header rs)) as Ho by eauto. apply match_header_opens, Exists_exists in Ho as (word & Hw & Ho).
  pose proof Ho as [nm Hm]%match_scheme_opens. unfold match_scheme in Hm. destruct Ho as [Hs _]. rewrite Hs in Hm.
  set (tl := drop (String.length word) rs) in *. pose proof (take_drop_while is_blank tl) as H1.
  pose proof (take_drop_while not_blank (drop_while is_blank tl)) as H2.
  destruct (take_while_spec is_blank tl) as [HB _], (take_while_spec not_blank (drop_while is_blank tl)) as [HT HR].
  exists (take (String.length word) rs), (take_while is_blank tl), (take_while not_blank (drop_while is_blank tl)),
    (drop_while not_blank (drop_while is_blank tl)), word.
  pose proof (starts_with_length _ _ Hs) as Hlen. split; [done|..].
  - rewrite H2, H1. unfold tl. by rewrite take_drop.
  - split; [|by rewrite length_take_le]. rewrite <- (take_drop (String.length word) rs) in Hs.
    rewrite starts_with_app in Hs; [done|]. by rewrite length_take_le.
  - split; [|done]. by destruct (take_while is_blank tl).
  - split; [by destruct (take_while is_blank tl), (take_while not_blank (drop_while is_blank tl))|].
    eapply Forall_impl; [exact HT|]. intros x. unfold not_blank. by destruct (is_blank x).
  - destruct (drop_while not_blank _); [done|]. unfold not_blank in HR. by destruct (is_blank r).
Qed.

Lemma redact_matched rs w bs tok rest word :
  matched rs w bs tok rest word -> redact_from 0 rs = w ++ runes (" " +:+ redacted) ++ redact_from 0 rest.
Proof.
  intros Hm. pose proof (matched_header _ _ _ _ _ _ Hm) as Hh. destruct Hm as [Hw Hs [Hs1 Hs2] [Hb _] _ _].
  destruct rs as [|r rs]; [by destruct w, bs|]. cbn [redact_from]. rewrite Hh, redact_skip. rewrite Hs at 1.
  rewrite take_app_length. do 2 f_equal. f_equal.
  transitivity (drop (length w + length bs + length tok) (r :: rs)).
  - destruct bs as [|b bs]; [done|]. cbn [length].
    replace (length w + S (length bs) + length tok) with (S (length w + length bs + length tok)) by lia.
    cbn [drop]. f_equal. lia.
  - rewrite Hs, !app_assoc. rewrite <- app_assoc. rewrite <- (length_app w), <- length_app. rewrite app_assoc. apply drop_app_length.
Qed.

(** ** Redacting twice *)
Lemma redact_cons r rs : match_header (r :: rs) = None -> redact_from 0 (r :: rs) = r :: redact_from 0 rs.
Proof. intros Hh. cbn [redact_from]. by rewrite Hh. Qed.

(** Redaction makes no new match before it. *)
Lemma opens_redacted n q rs word :
  length rs <= n -> word ∈ schemes -> q <> [] -> opens (q ++ redact_from 0 rs) word -> opens (q ++ rs) word.
Proof.
  revert q rs. induction n as [|n IH]; intros q rs Hn Hw Hq; [by destruct rs; [|cbn in Hn; lia]|].
  destruct (match_header rs) as [p|] eqn:Hh.
  - destruct (header_matched _ _ Hh) as (w & bs & tok & rest & word' & Hm). rewrite (redact_matched _ _ _ _ _ _ Hm).
    destruct Hm as [Hw' -> [Hs Hl] _ _ _].
    assert (exists b w', w = b :: w' /\ scheme_initial b) as (b & w' & -> & Hb).
    { destruct w as [|b w']; [cbn in Hl; unfold schemes in Hw';
        repeat (apply elem_of_cons in Hw' as [->|Hw']); try done; by apply not_elem_of_nil in Hw'|].
      exists b, w'. split; [done|]. unfold schemes, scheme_initial in *.
      repeat (apply elem_of_cons in Hw' as [->|Hw']); try (by apply not_elem_of_nil in Hw');
        cbn in Hs; apply andb_true_iff in Hs as [Hf _]; auto. }
    cbn [app]. by apply opens_local.
  - destruct rs as [|r rs]; [done|]. rewrite redact_cons by done.
    change (r :: ?l) with ([r] ++ l). rewrite !app_assoc. apply IH; [cbn in Hn; lia|done|by destruct q].
Qed.

Lemma blank_header r rs : is_blank r = true -> match_header (r :: rs) = None.
Proof.
  intros Hr. destruct (match_header (r :: rs)) as [p|] eqn:Hh; [|done]. exfalso.
  assert (is_Some (match_header (r :: rs))) as Ho by eauto.
  apply match_header_opens, Exists_exists in Ho as (w & Hw & Ho).
  apply opens_initial in Ho as (r' & rest & [= <- _] & Hi); [|done]. by rewrite (initial_not_blank r Hi) in Hr.
Qed.

Lemma header_redacted r rs : match_header (r :: rs) = None -> match_header (r :: redact_from 0 rs) = None.
Proof.
  intros Hh. destruct (match_header (r :: redact_from 0 rs)) as [p|] eqn:Hh'; [|done]. exfalso.
  assert (is_Some (match_header (r :: redact_from 0 rs))) as Ho by eauto.
  apply match_header_opens, Exists_exists in Ho as (w & Hw & Ho).
  apply (opens_redacted (length rs) [r]) in Ho; [|done..].
  assert (is_Some (match_header (r :: rs))) as Hs by (apply match_header_opens, Exists_exists; eauto).
  rewrite Hh in Hs. by destruct Hs.
Qed.

Lemma redact_idem n rs : length rs <= n -> redact_from 0 (redact_from 0 rs) = redact_from 0 rs.
Proof.
  revert rs. induction n as [|n IH]; intros rs Hn; [by destruct rs; [|cbn in Hn; lia]|].
  destruct (match_header rs) as [p|] eqn:Hh.
  - destruct (header_matched _ _ Hh) as (w & bs & tok & rest & word & Hm). rewrite (redact_matched _ _ _ _ _ _ Hm).
    assert (redact_from 0 (redact_from 0 rest) = redact_from 0 rest) as Hrest.
    { apply IH. destruct Hm as [_ -> _ [Hb _] _ _]. rewrite !length_app in Hn. destruct bs; [done|]. cbn in Hn. lia. }
    rewrite <- Hrest at 2. apply (redact_matched _ w (runes " ") (runes redacted) _ word).
    destruct Hm as [H1 H2 H3 H4 H5 H6]. split; [done|done|done|..].
    + split; [done|]. by repeat constructor.
    + split; [done|]. by repeat constructor.
    + destruct rest as [|b rest]; [done|]. by rewrite redact_cons by (by apply blank_header).
  - destruct rs as [|r rs]; [done|]. rewrite redact_cons by done. rewrite redact_cons.
    + f_equal. apply IH. cbn in Hn. lia.
    + by apply header_redacted.
Qed.

(** ** On texts *)
Lemma blank_ascii r : is_blank r = true -> (code r < 0x80)%N.
Proof. unfold is_blank. rewrite !orb_true_iff, !N.eqb_eq. lia. Qed.

Lemma coded_redacted n q rs : length rs <= n -> coded (q ++ rs) -> coded (q ++ redact_from 0 rs).
Proof.
  revert q rs. induction n as [|n IH]; intros q rs Hn Hc; [by destruct rs; [|cbn in Hn; lia]|].
  destruct (match_header rs) as [p|] eqn:Hh.
  - destruct (header_matched _ _ Hh) as (w & bs & tok & rest & word & Hm). rewrite (redact_matched _ _ _ _ _ _ Hm).
    destruct Hm as [_ -> _ [Hb1 Hb2] _ Hr]. destruct bs as [|b bs]; [done|].
    assert (coded rest) as Hcr by (by apply (coded_tail (q ++ w ++ (b :: bs) ++ tok)); rewrite <- !app_assoc).
    assert (coded (redact_from 0 rest)) as Hrr.
    { apply (IH []); [|done]. rewrite !length_app in Hn. cbn in Hn. lia. }
    assert (cut (text (redact_from 0 rest))) as Hcut.
    { destruct rest as [|x rest]; [done|]. rewrite redact_cons in Hrr |- * by (by apply blank_header).
      apply coded_cut; [done|by apply blank_ascii]. }
    rewrite app_assoc. apply coded_app.
    + rewrite app_assoc in Hc. apply (coded_prefix _ _ Hc). apply coded_cut; [by apply (coded_tail (q ++ w))|].
      apply Forall_cons in Hb2 as [Hb2 _]. by apply blank_ascii.
    + by apply coded_app; [apply coded_runes|done|done].
    + by rewrite text_app, text_runes.
  - destruct rs as [|r rs]; [done|]. rewrite redact_cons by done.
    change (r :: ?l) with ([r] ++ l). rewrite app_assoc. apply IH; [cbn in Hn; lia|by rewrite <- app_assoc].
Qed.

Lemma runes_redacted s : runes (RedactString s) = redact_from 0 (runes s).
Proof. apply (coded_redacted (length (runes s)) []); [done|apply coded_runes]. Qed.

Lemma lookup_RedactMap m k : RedactMap m !! k = (fun v => if IsSensitiveKey k then redacted else v) <$> m !! k.
Proof. unfold RedactMap. rewrite map_lookup_imap. by destruct (m !! k). Qed.

(** ** The theorems *)

Definition mark : list rune := runes (" " +:+ redacted).

Lemma mark_header i rest : i < length mark -> match_header (drop i mark ++ rest) = None.
Proof. intros Hi. do 11 (destruct i as [|i]; [reflexivity|]). vm_compute in Hi. lia. Qed.

Lemma inside_header w word i rest :
  word ∈ schemes -> starts_with word w = true -> length w = String.length word -> 0 < i -> i < length w ->
  match_header (drop i w ++ rest) = None.
Proof.
  intros Hw Hs Hl Hi Hlt. destruct (match_header (drop i w ++ rest)) as [p|] eqn:Hh; [|done]. exfalso.
  assert (is_Some (match_header (drop i w ++ rest))) as Ho by eauto.
  apply match_header_opens, Exists_exists in Ho as (word' & Hw' & Ho).
  apply opens_initial in Ho as (r & rest' & He & Hin); [|done].
  assert (w !! i = Some r) as Hr.
  { rewrite <- (Nat.add_0_r i), <- lookup_drop. destruct (drop i w) as [|x l] eqn:E; [|by injection He as ->].
    apply (f_equal length) in E. rewrite length_drop in E. cbn in E. lia. }
  by apply (scheme_inside word w i r); [done|done|done|lia|..].
Qed.

(** After redaction whatever follows a scheme and blanks is the mark. *)
Lemma redacted_matches n rs pre rs' :
  length rs <= n -> redact_from 0 rs = pre ++ rs' -> match_header rs' <> None ->
  exists w rest word, matched rs' w (runes " ") (runes redacted) rest word.
Proof.
  revert rs pre. induction n as [|n IH]; intros rs pre Hn Hout Hm.
  { destruct rs; [|cbn in Hn; lia]. cbn in Hout. symmetry in Hout. by apply app_nil in Hout as [-> ->]. }
  destruct (match_header rs) as [p|] eqn:Hh.
  - destruct (header_matched _ _ Hh) as (w & bs & tok & rest & word & Hmt). pose proof (redact_matched _ _ _ _ _ _ Hmt) as Hr.
    fold mark in Hr. rewrite Hout in Hr. pose proof Hmt as [Hw Hs [Hs1 Hs2] [Hb1 _] _ Hrest].
    assert (rs' = drop (length pre) (w ++ mark ++ redact_from 0 rest)) as Hd by (by rewrite <- Hr, drop_app_length).
    destruct (decide (length pre = 0)) as [E|Hp].
    { rewrite E, drop_0 in Hd. exists w, (redact_from 0 rest), word. rewrite Hd. split; [done|done|done|..].
      - split; [done|]. by repeat constructor.
      - split; [done|]. by repeat constructor.
      - destruct rest as [|b rest]; [done|]. by rewrite redact_cons by (by apply blank_header). }
    destruct (decide (length pre < length w)) as [Hl|Hl].
    { exfalso. apply Hm. rewrite Hd, drop_app_le by lia. by apply (inside_header w word); [..|lia|]. }
    rewrite drop_app_ge in Hd by lia. destruct (decide (length pre - length w < length mark)) as [Hk|Hk].
    { exfalso. apply Hm. rewrite Hd, drop_app_le by lia. by apply mark_header. }
    rewrite drop_app_ge in Hd by lia.
    apply (IH rest (take (length pre - length w - length mark) (redact_from 0 rest))); [|by rewrite Hd, take_drop|done].
    rewrite Hs, !length_app in Hn. destruct bs; [done|]. cbn in Hn. lia.
  - destruct rs as [|r rs]; [cbn in Hout; symmetry in Hout; by apply app_nil in Hout as [-> ->]|].
    rewrite redact_cons in Hout by done. destruct pre as [|x pre].
    + exfalso. cbn in Hout. rewrite <- Hout in Hm. apply Hm.
      by apply header_redacted.
    + injection Hout as _ Hout. apply (IH rs pre); [cbn in Hn; lia|done|done].
Qed.

Lemma RedactString_idem s : RedactString (RedactString s) = RedactString s.
Proof. unfold RedactString at 1. by rewrite runes_redacted, (redact_idem (length (runes s))). Qed.

(** C26. Redacting a text twice is redacting it once; and wherever a redacted
    text has a scheme, blanks and a token, the token is the mark. *)
Theorem RedactString_spec s :
  RedactString (RedactString s) = RedactString s /\
  forall pre rs, runes (RedactString s) = pre ++ rs -> match_header rs <> None ->
    exists w rest word, matched rs w (runes " ") (runes redacted) rest word.
Proof.
  split; [apply RedactString_idem|]. intros pre rs. rewrite runes_redacted.
  by apply (redacted_matches (length (runes s))).
Qed.

(** Of a map and of an environment exactly the values of sensitive keys are
    replaced; doing it twice is doing it once. *)
Theorem RedactMap_spec m k v :
  RedactMap m !! k = Some v <->
  exists v0, m !! k = Some v0 /\ v = if IsSensitiveKey k then redacted else v0.
Proof. rewrite lookup_RedactMap, fmap_Some. naive_solver. Qed.

Theorem RedactMap_idem m : RedactMap (RedactMap m) = RedactMap m.
Proof. apply map_eq. intros k. rewrite !lookup_RedactMap. by destruct (m !! k), (IsSensitiveKey k). Qed.
