(* ===== verification/DataPlane.v ===== *)
(** * The release controllers (controllers)

    dataplane_controller.go runs a pass for a data plane and publishes its
    outcome; release_reconciler.go counts the data planes of a release;
    verificationrun_reconciler.go links verification runs to revisions.  The API
    server is the record [Api], what it answers during one reconcile. *)

From S2P Require Import Prelude.
From S2P Require Import Shadow.
From S2P Require Import DeploySpec.
From S2P Require Import OpsSpec.
From S2P Require Import Release.
From S2P Require Import ReleaseSpec.
From S2P Require Import Loading.
From S2P Require Import Planner.
From S2P Require Import Revision.
From S2P Require Import Deploy.
From S2P Require Import Redact.

(** ** Objects (apis/bori/v1alpha1) *)
Record BoriDataPlaneStatus := {
  ds_Conditions : list Condition;
  ds_CurrentRevision : string;
  ds_Components : list ComponentStatus;
  ds_ObservedAt : Time;
  ds_ObservedGeneration : Z;
  ds_ObservedReleaseGeneration : Z;
}.

Record BoriDataPlane := {
  bd_Namespace : string;
  bd_Name : string;
  bd_Generation : Z;
  bd_Deleting : bool;
  bd_Finalizers : list string;
  bd_Release : string;
  bd_Environment : string;
  bd_Status : BoriDataPlaneStatus;
}.

(** release_types.go: the spec has the parts of a release of pkg/model, whose
    records stand for both. *)
Record BoriReleaseSpec := {
  be_Components : list ComponentRef;
  be_Matrix : string;
  be_Policies : list string;
  be_Promotion : PromotionPolicy;
}.

Record BoriReleaseStatus := {
  bz_ObservedGeneration : Z;
  bz_ActiveDataPlanes : Z;
  bz_ObservedAt : Time;
}.

Record BoriReleaseObject := {
  br_Namespace : string;
  br_Name : string;
  br_Generation : Z;
  br_Spec : BoriReleaseSpec;
  br_Status : BoriReleaseStatus;
}.

Definition ToModel (br : BoriReleaseObject) : BoriRelease :=
  let sp := br_Spec br in
  Build_BoriRelease (br_Name br) (be_Components sp) (be_Matrix sp) (be_Policies sp) (be_Promotion sp).

Definition FromModelRelease (rel : BoriRelease) (namespace : string) : BoriReleaseObject :=
  Build_BoriReleaseObject namespace (rl_Name rel) 0
    (Build_BoriReleaseSpec (rl_Components rel) (rl_Matrix rel) (rl_Policies rel) (rl_Promotion rel))
    (Build_BoriReleaseStatus 0 0 0).

Record RevisionComponentRef := {
  rc_Name : string;
  rc_Version : string;
  rc_ImageRef : string;
  rc_ImageDigest : string;
  rc_GitSha : string;
  rc_ComponentSpecDigest : string;
  rc_EnvironmentDigest : string;
  rc_VerificationPolicyDigest : string;
}.

Record BoriRevisionSpec := {
  rp_Release : string;
  rp_Environment : string;
  rp_ContentHash : string;
  rp_ParentRevisionID : string;
  rp_BaselineRef : string;
  rp_Components : list RevisionComponentRef;
}.

Record BoriRevisionStatus := {
  rt_PromotionStatus : string;
  rt_PromotedAt : option Time;
  rt_VerificationRunID : string;
  rt_ObservedAt : Time;
}.

Record RevisionObject := {
  ro_Namespace : string;
  ro_Name : string;
  ro_Spec : BoriRevisionSpec;
  ro_Status : BoriRevisionStatus;
}.

(** ** The API server *)
Inductive Got (A : Type) := Found (a : A) | Missing | Broken (err : string).
Arguments Found {A} a.
Arguments Missing {A}.
Arguments Broken {A} err.

(** controllerutil of controller-runtime *)
Class Finalizers := {
  ContainsFinalizer : string -> list string -> bool;
  AddFinalizer : string -> list string -> list string;
  RemoveFinalizer : string -> list string -> list string;
}.

Record Api := {
  ap_dataplane : Got BoriDataPlane;
  ap_release : Got BoriReleaseObject;
  ap_revision : Got RevisionObject;
  (** whether a write succeeds *)
  ap_update : bool;
  ap_patch : bool;
  ap_now : Time;
}.

Inductive DataPlaneWrite :=
  | SetFinalizers (fs : list string)
  | SetStatus (st : BoriDataPlaneStatus)
  | CreateRevision (rev : RevisionObject)
  | SetRevisionStatus (name : string) (st : BoriRevisionStatus).

Inductive DataPlaneError := GetFailed_ | UpdateFailed_ | ReleaseFailed (err : string) | PassFailed (e : RunError) | PatchFailed.

(** ctrl.Result with the error: requeue at once, requeue after, or an error
    (whose delay is the controller's own). *)
Inductive Verdict := RequeueNow | RequeueAfter (d : Duration) | Finished | Err (e : DataPlaneError).

(** An event recorded on the data plane: a warning or not, its reason and its
    message. *)
Record DataPlaneEvent := { ev_Warning : bool; ev_Reason : string; ev_Message : string }.

Record Reconciled := {
  do_verdict : Verdict;
  do_writes : list DataPlaneWrite;
  do_events : list DataPlaneEvent;
  do_pass : option Outcome;
  do_disk : Disk;
}.

Definition finalizerName : string := "bori.dev/cleanup".

(** ** Status *)
Definition zero_status : BoriDataPlaneStatus := Build_BoriDataPlaneStatus [] "" [] 0 0 0.

Definition buildStatus (res : Result) (now : Time) (generation releaseGen : Z) : BoriDataPlaneStatus :=
  match re_ShadowState res with
  | None => Build_BoriDataPlaneStatus [] "" [] now generation releaseGen
  | Some sh =>
      Build_BoriDataPlaneStatus (sh_Conditions sh) (sh_ActualRevision sh) (sh_Components sh) (sh_ComputedAt sh) generation releaseGen
  end.

Definition keep_transition (old c : Condition) : Condition :=
  if bool_decide (cn_Status old = cn_Status c)
  then Build_Condition (cn_Type c) (cn_Status c) (cn_ObservedGeneration c) (cn_LastTransitionTime old) (cn_Reason c) (cn_Message c)
  else c.

Fixpoint setCondition (conditions : list Condition) (cond : Condition) : list Condition :=
  match conditions with
  | [] => [cond]
  | c :: cs => if bool_decide (cn_Type c = cn_Type cond) then keep_transition c cond :: cs else c :: setCondition cs cond
  end.

Definition isUnhealthy (st : BoriDataPlaneStatus) : bool :=
  existsb (fun c => (bool_decide (cn_Type c = ConditionDegraded) || bool_decide (cn_Type c = ConditionViolation)) &&
                    bool_decide (cn_Status c = "True")) (ds_Conditions st).

Definition releaseUnchanged (releaseGen : Z) (bdp : BoriDataPlane) : bool :=
  if Z.eqb releaseGen 0 then true else Z.eqb (ds_ObservedReleaseGeneration (bd_Status bdp)) releaseGen.

Definition unchanged (releaseGen : Z) (bdp : BoriDataPlane) : bool :=
  Z.ltb 0 (ds_ObservedGeneration (bd_Status bdp)) && Z.eqb (ds_ObservedGeneration (bd_Status bdp)) (bd_Generation bdp) &&
  releaseUnchanged releaseGen bdp && negb (isUnhealthy (bd_Status bdp)).

(** ** Revision objects *)
Definition revision_component (c : CompRevision) : RevisionComponentRef :=
  Build_RevisionComponentRef (cv_Name c) (cv_Version c) (cv_ImageRef c) (cv_ImageDigest c) (cv_GitSha c)
    (cv_ComponentSpecDigest c) (cv_EnvironmentDigest c) (cv_VerificationPolicyDigest c).

Definition revisionToCR (namespace : string) (rev : BoriRevision) (now : Time) : RevisionObject := {|
  ro_Namespace := namespace; ro_Name := rv_RevisionID rev;
  ro_Spec := Build_BoriRevisionSpec (rv_Release rev) (rv_Environment rev) (rv_ContentHash rev) (rv_ParentRevisionID rev)
               (rv_BaselineRef rev) (revision_component <$> rv_Components rev);
  ro_Status := Build_BoriRevisionStatus (rv_PromotionStatus rev) (rv_PromotedAt rev) (rv_VerificationRunID rev) now;
|}.

(** The writes sent; errors are only logged. *)
Definition upsertBoriRevision (api : Api) (dir : Revisions) (namespace revisionID : string) : list DataPlaneWrite :=
  match read_revision dir revisionID with
  | None => []
  | Some rev =>
      let cr := revisionToCR namespace rev (ap_now api) in
      match ap_revision api with
      | Broken _ => []
      | Missing => [CreateRevision cr]
      | Found existing => [SetRevisionStatus (ro_Name existing) (ro_Status cr)]
      end
  end.

Section dataplane.
Context `{GoText} `{SortSlice} `{Files} `{References} `{DeployFiles} `{Finalizers}.

(** The reconciler's configuration; a pass runs with [AdapterRegistry]. *)
Record Config := { cfg_AdapterRegistry : gset string; cfg_DeployDryRun : bool; cfg_RequeueInterval : Duration }.

Definition requeueInterval (cfg : Config) : Duration :=
  if Z.ltb 0 (cfg_RequeueInterval cfg) then cfg_RequeueInterval cfg else (30 * Second)%Z.

Definition violation_status (bdp : BoriDataPlane) (vs : list string) (now : Time) : BoriDataPlaneStatus :=
  let st := bd_Status bdp in
  let cs := setCondition (ds_Conditions st)
              (Build_Condition ConditionViolation "True" 0 now "NamespaceViolation" (join "; " vs)) in
  let cs := setCondition cs
              (Build_Condition ConditionDegraded "True" 0 now "NamespaceViolation" "namespace policy violations prevent deployment") in
  Build_BoriDataPlaneStatus cs (ds_CurrentRevision st) (ds_Components st) now (bd_Generation bdp) (ds_ObservedReleaseGeneration st).

Definition reconcileViolation (api : Api) (bdp : BoriDataPlane) (vs : list string) (oc : Outcome) : Reconciled :=
  Build_Reconciled (if ap_patch api then RequeueAfter (5 * 60 * Second)%Z else Err PatchFailed)
    [SetStatus (violation_status bdp vs (ap_now api))]
    (if ap_patch api then [Build_DataPlaneEvent true "NamespaceViolation" (RedactString (join "; " vs))] else [])
    (Some oc) (oc_disk oc).

Definition reconcileDelete (api : Api) (bdp : BoriDataPlane) (dk : Disk) : Reconciled :=
  Build_Reconciled (if ap_update api then Finished else Err UpdateFailed_)
    [SetFinalizers (RemoveFinalizer finalizerName (bd_Finalizers bdp))]
    (if ap_update api
     then [Build_DataPlaneEvent false "Deleted"
             ("BoriDataPlane " +:+ bd_Namespace bdp +:+ "/" +:+ bd_Name bdp +:+
              " deleted; shadow state and revision history retained on disk")] else []) None dk.

(** The release to hand to the pass, and its generation: none, and 0, when it
    is to be read from files. *)
Definition resolveRelease (api : Api) (bdp : BoriDataPlane) : string + (option BoriRelease * Z) :=
  match ap_release api with
  | Missing => inr (None, 0%Z)
  | Broken err => inl ("get BoriRelease " +:+ bd_Namespace bdp +:+ "/" +:+ bd_Release bdp +:+ ": " +:+ err)
  | Found br => inr (Some (ToModel br), br_Generation br)
  end.

Definition pass_request (cfg : Config) (bdp : BoriDataPlane) (rel : option BoriRelease) : Request :=
  Build_Request (bd_Release bdp) (bd_Environment bdp) false (cfg_DeployDryRun cfg) true rel.

(** What a pass that changed something is reported as. *)
Definition pass_events (res : Result) : list DataPlaneEvent :=
  if bool_decide (re_DeployStatus res = "skipped") || bool_decide (re_DeployStatus res = "skipped (dry-run)") then []
  else [Build_DataPlaneEvent false "Reconciled"
          (RedactString ("deploy=" +:+ re_DeployStatus res +:+ " promoted=" +:+ text_of_bool (re_Promoted res) +:+
                         " revision=" +:+ re_RevisionID res))].

(** After the pass. *)
Definition publish (cfg : Config) (api : Api) (bdp : BoriDataPlane) (releaseGen : Z) (oc : Outcome) : Reconciled :=
  match oc_result oc with
  | inl (Violations vs) => reconcileViolation api bdp vs oc
  | inl e =>
      Build_Reconciled (Err (PassFailed e)) []
        [Build_DataPlaneEvent true "ReconcileFailed"
           (RedactString ("reconcile error: " +:+ run_error (pass_request cfg bdp None) e))] (Some oc) (oc_disk oc)
  | inr res =>
      let status := SetStatus (buildStatus res (ap_now api) (bd_Generation bdp) releaseGen) in
      if negb (ap_patch api) then Build_Reconciled (Err PatchFailed) [status] [] (Some oc) (oc_disk oc)
      else
        let upserts :=
          if re_Promoted res && negb (bool_decide (re_RevisionID res = ""))
          then upsertBoriRevision api (dk_revisions (oc_disk oc)) (bd_Namespace bdp) (re_RevisionID res) else [] in
        Build_Reconciled (RequeueAfter (requeueInterval cfg)) (status :: upserts) (pass_events res) (Some oc) (oc_disk oc)
  end.

Definition Reconcile (cfg : Config) (api : Api) (si : Site) (dk : Disk) : option Reconciled :=
  match ap_dataplane api with
  | Missing => Some (Build_Reconciled Finished [] [] None dk)
  | Broken _ => Some (Build_Reconciled (Err GetFailed_) [] [] None dk)
  | Found bdp =>
      if bd_Deleting bdp then Some (reconcileDelete api bdp dk)
      else if negb (ContainsFinalizer finalizerName (bd_Finalizers bdp)) then
        Some (Build_Reconciled (if ap_update api then RequeueNow else Err UpdateFailed_)
                [SetFinalizers (AddFinalizer finalizerName (bd_Finalizers bdp))] [] None dk)
      else match resolveRelease api bdp with
      | inl err =>
          Some (Build_Reconciled (Err (ReleaseFailed err)) []
                  [Build_DataPlaneEvent true "ReleaseResolveFailed" (RedactString ("resolve BoriRelease: " +:+ err))] None dk)
      | inr (rel, releaseGen) =>
          if unchanged releaseGen bdp then Some (Build_Reconciled (RequeueAfter (requeueInterval cfg)) [] [] None dk)
          else
            oc ← Run (cfg_AdapterRegistry cfg) si (pass_request cfg bdp rel) dk;
            Some (publish cfg api bdp releaseGen oc)
      end
  end.
End dataplane.

(** ** release_reconciler.go *)

(** [count] is an int32. *)
Definition active_data_planes (release : string) (bdps : list BoriDataPlane) : Z :=
  foldl (fun count bdp =>
      if bool_decide (bd_Release bdp = release) && negb (bd_Deleting bdp)
      then ((count + 1 + 2 ^ 31) mod 2 ^ 32 - 2 ^ 31)%Z else count) 0%Z bdps.

(** The release object, the data planes of its namespace, whether the status
    can be written, and the clock. *)
Record ReleaseApi := {
  ra_release : Got BoriReleaseObject;
  ra_dataplanes : option (list BoriDataPlane);
  ra_patch : bool;
  ra_now : Time;
}.

(** The status sent, if one is, and whether there is no error. *)
Definition Reconcile_release (api : ReleaseApi) : option BoriReleaseStatus * bool :=
  match ra_release api with
  | Missing => (None, true)
  | Broken _ => (None, false)
  | Found br =>
      match ra_dataplanes api with
      | None => (None, false)
      | Some bdps =>
          (Some (Build_BoriReleaseStatus (br_Generation br) (active_data_planes (br_Name br) bdps) (ra_now api)), ra_patch api)
      end
  end.

(** The request for the release of a data plane. *)
Definition findReleaseForDataPlane (bdp : BoriDataPlane) : list (string * string) :=
  if bool_decide (bd_Release bdp = "") then [] else [(bd_Namespace bdp, bd_Release bdp)].

(** [findDataPlanesForRelease]: the data planes of the release's namespace, or
    none when they cannot be listed. *)
Definition findDataPlanesForRelease (release : string) (bdps : option (list BoriDataPlane)) : list (string * string) :=
  omap (fun bdp => if bool_decide (bd_Release bdp = release) then Some (bd_Namespace bdp, bd_Name bdp) else None) (default [] bdps).

(** ** verificationrun_reconciler.go *)
Record BoriVerificationRun := { vr_Namespace : string; vr_Name : string; vr_RevisionID : string }.

(** The revision objects of the cluster, by namespace and name: their
    [verificationRunId]. *)
Abbreviation Links := (gmap (string * string) string) (only parsing).

(** Whether the run's own status, and the revision's, can be written, and
    whether the revision can be read. *)
Record LinkApi := { la_run : bool; la_get : bool; la_revision : bool }.

Definition link_run (api : LinkApi) (vr : BoriVerificationRun) (links : Links) : Links * bool :=
  if negb (la_run api) then (links, false)
  else if bool_decide (vr_RevisionID vr = "") then (links, true)
  else if negb (la_get api) then (links, false)
  else match links !! (vr_Namespace vr, vr_RevisionID vr) with
  | None => (links, true)
  | Some linked =>
      if negb (bool_decide (linked = "")) && negb (bool_decide (linked = vr_Name vr)) then (links, true)
      else if bool_decide (linked = vr_Name vr) then (links, true)
      else if la_revision api then (<[(vr_Namespace vr, vr_RevisionID vr) := vr_Name vr]> links, true) else (links, false)
  end.

(** The whole step, from the read of the run. *)
Definition Reconcile_run (got : Got BoriVerificationRun) (api : LinkApi) (links : Links) : Links * bool :=
  match got with
  | Missing => (links, true)
  | Broken _ => (links, false)
  | Found vr => link_run api vr links
  end.

(** * What the release controllers guarantee (controllers)

    A data plane whose deployment failed, or was refused, says so and is
    reconciled again; a verification run once linked to a revision stays linked. *)

(** ** Conditions *)

(** The condition of this type has this status. *)
Definition has_condition (ty status : string) (cs : list Condition) : Prop :=
  exists c, c ∈ cs /\ cn_Type c = ty /\ cn_Status c = status.

Lemma keep_transition_spec old c :
  cn_Type (keep_transition old c) = cn_Type c /\ cn_Status (keep_transition old c) = cn_Status c.
Proof. unfold keep_transition. by destruct (bool_decide _). Qed.

Lemma setCondition_set cs c : has_condition (cn_Type c) (cn_Status c) (setCondition cs c).
Proof.
  induction cs as [|c' cs (x & Hx & Ht & Hs)]; cbn.
  - exists c. auto with bori.
  - destruct (bool_decide _) eqn:Hb.
    + exists (keep_transition c' c). split; [auto with bori|apply keep_transition_spec].
    + exists x. auto with bori.
Qed.

Lemma setCondition_keeps cs c ty status :
  ty <> cn_Type c -> has_condition ty status cs -> has_condition ty status (setCondition cs c).
Proof.
  intros Hne. induction cs as [|c' cs IH]; cbn; [by intros (x & Hx & _); nil_elem|].
  intros (x & [->|Hx]%elem_of_cons & Ht & Hs).
  - rewrite bool_decide_eq_false_2 by congruence. exists c'. auto with bori.
  - destruct (bool_decide _).
    + exists x. auto with bori.
    + destruct IH as (y & Hy & Hyt & Hys); [by exists x|]. exists y. auto with bori.
Qed.

Lemma unhealthy st ty :
  ty = ConditionDegraded \/ ty = ConditionViolation -> has_condition ty "True" (ds_Conditions st) -> isUnhealthy st = true.
Proof.
  intros Hty (c & Hc & Ht & Hs). unfold isUnhealthy. apply existsb_exists. exists c. rewrite <- list_elem_of_In. split; [done|].
  rewrite Ht, Hs. by destruct Hty as [-> | ->].
Qed.

Section spec.
Context `{GoText} `{SortSlice} `{Files} `{References} `{DeployFiles} `{Finalizers}.

(** ** The shape of a reconcile *)
Lemma publish_pass cfg api bdp gen oc : do_pass (publish cfg api bdp gen oc) = Some oc.
Proof. unfold publish. destruct (oc_result oc) as [[| | | |]|]; try done. by destruct (negb _). Qed.

Lemma Reconcile_pass cfg api si dk out oc :
  Reconcile cfg api si dk = Some out -> do_pass out = Some oc ->
  exists bdp rel gen, ap_dataplane api = Found bdp /\ Run (cfg_AdapterRegistry cfg) si (pass_request cfg bdp rel) dk = Some oc /\
    out = publish cfg api bdp gen oc.
Proof.
  unfold Reconcile. intros Hr Hp. destruct (ap_dataplane api) as [bdp| |]; [|injection Hr as <-; discriminate Hp..].
  destruct (bd_Deleting bdp); [injection Hr as <-; discriminate Hp|].
  destruct (ContainsFinalizer _ _); cbn [negb] in Hr; [|injection Hr as <-; discriminate Hp].
  destruct (resolveRelease api bdp) as [err|[rel gen]]; [injection Hr as <-; discriminate Hp|].
  destruct (unchanged gen bdp); [injection Hr as <-; discriminate Hp|].
  apply stdpp.option.bind_Some in Hr as (oc' & Hrun & [= <-]).
  rewrite publish_pass in Hp. injection Hp as <-. by exists bdp, rel, gen.
Qed.

(** ** Events *)

(** The release could not be read, the pass failed, or its violations were
    published. *)
Definition in_trouble (out : Reconciled) : Prop :=
  match do_verdict out with
  | Err (ReleaseFailed _) | Err (PassFailed _) => True
  | RequeueAfter _ => exists oc vs, do_pass out = Some oc /\ oc_result oc = inl (Violations vs)
  | _ => False
  end.

(** At most one event, redacted unless it tells of a deletion, and a warning
    exactly in trouble. *)
Definition well_told (out : Reconciled) : Prop :=
  length (do_events out) <= 1 /\
  (forall e, e ∈ do_events out -> ev_Reason e <> "Deleted" -> RedactString (ev_Message e) = ev_Message e) /\
  ((exists e, e ∈ do_events out /\ ev_Warning e = true) <-> in_trouble out).

Lemma told_nothing out : do_events out = [] -> ~ in_trouble out -> well_told out.
Proof. intros E Ht. unfold well_told. rewrite E. split_and!; [cbn; lia|intros e He; nil_elem|]. split; [intros (e & He & _); nil_elem|done]. Qed.

Lemma told_once out e :
  do_events out = [e] -> ev_Reason e = "Deleted" \/ RedactString (ev_Message e) = ev_Message e ->
  (ev_Warning e = true <-> in_trouble out) -> well_told out.
Proof.
  intros E He Hw. unfold well_told. rewrite E. split_and!; [done| |].
  - intros e' ->%list_elem_of_singleton Hne. by destruct He.
  - rewrite <- Hw. split; [by intros (e' & ->%list_elem_of_singleton & ?)|]. intros ?. exists e. split; [by left|done].
Qed.

Lemma publish_told cfg api bdp gen oc : well_told (publish cfg api bdp gen oc).
Proof.
  unfold publish. destruct (oc_result oc) as [err|res] eqn:Hre.
  - destruct err as [| | |vs|]; [eapply told_once; [done|right; apply RedactString_idem|done]..| |
      eapply told_once; [done|right; apply RedactString_idem|done]].
    unfold reconcileViolation. destruct (ap_patch api); [|by apply told_nothing; [|intros []]].
    eapply told_once; [done|right; apply RedactString_idem|]. split; [|done]. intros _. by exists oc, vs.
  - destruct (negb (ap_patch api)); [by apply told_nothing; [|intros []]|]. set (ws := SetStatus _ :: _).
    assert (forall evs, ~ in_trouble (Build_Reconciled (RequeueAfter (requeueInterval cfg)) ws evs (Some oc) (oc_disk oc))) as Hno.
    { intros evs (oc' & vs & [= <-] & ?). congruence. }
    unfold pass_events. destruct (_ || _); [by apply told_nothing; [|apply Hno]|].
    eapply told_once; [done|right; apply RedactString_idem|]. split; [done|]. intros []%Hno.
Qed.

(** Every event of a reconcile is redacted, the one of a deletion apart; there is
    at most one, and it warns exactly when the release could not be read, the
    pass failed, or its violations were published. *)
Theorem Reconcile_events cfg api si dk out : Reconcile cfg api si dk = Some out -> well_told out.
Proof.
  unfold Reconcile. intros Hr. destruct (ap_dataplane api) as [bdp| |err].
  2, 3: injection Hr as <-; by apply told_nothing; [|intros []].
  destruct (bd_Deleting bdp).
  { injection Hr as <-. unfold reconcileDelete. destruct (ap_update api); [|by apply told_nothing; [|intros []]].
    eapply told_once; [done|by left|done]. }
  destruct (ContainsFinalizer _ _); cbn [negb] in Hr.
  2: { injection Hr as <-. destruct (ap_update api); by apply told_nothing; [|intros []]. }
  destruct (resolveRelease api bdp) as [err|[rel gen]].
  { injection Hr as <-. eapply told_once; [done|right; apply RedactString_idem|done]. }
  destruct (unchanged gen bdp); [injection Hr as <-; apply told_nothing; [done|by intros (oc & vs & ? & _)]|].
  apply stdpp.option.bind_Some in Hr as (oc & _ & [= <-]). apply publish_told.
Qed.

(** [bdp] is still there, and is wanted. *)
Definition alive (api : Api) (bdp : BoriDataPlane) : Prop :=
  ap_dataplane api = Found bdp /\ bd_Deleting bdp = false /\ ContainsFinalizer finalizerName (bd_Finalizers bdp) = true /\
  (forall err, ap_release api <> Broken err).

(** With this status, every later reconcile of the data plane runs a pass. *)
Definition retried (cfg : Config) (st : BoriDataPlaneStatus) : Prop :=
  forall api bdp si dk, alive api bdp -> bd_Status bdp = st ->
    exists out oc, Reconcile cfg api si dk = Some out /\ do_pass out = Some oc.

Lemma unhealthy_retried cfg st : isUnhealthy st = true -> retried cfg st.
Proof.
  intros Hu api bdp si dk (Hb & Hd & Hf & Hr) Hst. unfold Reconcile. rewrite Hb, Hd, Hf. cbn [negb].
  assert (exists rel gen, resolveRelease api bdp = inr (rel, gen)) as (rel & gen & ->).
  { unfold resolveRelease. destruct (ap_release api) as [br| |err]; [by eexists _, _|by eexists _, _|by destruct (Hr err)]. }
  assert (unchanged gen bdp = false) as ->.
  { unfold unchanged. rewrite Hst, Hu. cbn [negb]. apply andb_false_r. }
  destruct (Run_total (cfg_AdapterRegistry cfg) si (pass_request cfg bdp rel) dk) as [oc ->].
  exists (publish cfg api bdp gen oc), oc. split; [done|]. apply publish_pass.
Qed.

(** ** A failed deployment is retried *)

(** Promoted revisions can be told apart by their time, and have names. *)
Definition orderly (dir : Revisions) : Prop :=
  (forall release r1 r2, promoted_file release dir r1 -> promoted_file release dir r2 ->
     rv_CreatedAt r1 = rv_CreatedAt r2 -> r1 = r2) /\
  (forall release r, promoted_file release dir r -> rv_RevisionID r <> "").

(** The newest promoted revision only depends on the promoted files. *)
Lemma latest_promoted_same release dir dir' :
  orderly dir -> (forall release r, promoted_file release dir' r <-> promoted_file release dir r) ->
  latest_promoted release dir' = latest_promoted release dir.
Proof.
  intros [Hord _] Hsame. destruct (latest_promoted release dir') as [r'|] eqn:Hl'.
  - apply latest_promoted_newest in Hl' as [Hr' Hmax']. destruct (latest_promoted release dir) as [r|] eqn:Hl.
    + apply latest_promoted_newest in Hl as [Hr Hmax]. f_equal. apply (Hord release); [by apply Hsame|done|].
      pose proof (Hmax _ (proj1 (Hsame _ _) Hr')). pose proof (Hmax' _ (proj2 (Hsame _ _) Hr)). lia.
    + destruct (proj1 (latest_promoted_none _ _) Hl r'). by apply Hsame.
  - symmetry. apply latest_promoted_none. intros r Hr. apply (proj1 (latest_promoted_none _ _) Hl' r). by apply Hsame.
Qed.

Lemma degraded_condition latest installed now :
  has_condition ConditionDegraded "True" (computeConditions latest installed false now).
Proof. unfold computeConditions. cbn [negb]. eexists. split; [apply elem_of_app; right; by left|done]. Qed.

(** After a failed pass that could read the directory, the release is degraded. *)
Lemma failed_degraded registry si rq dk oc r :
  Run registry si rq dk = Some oc -> oc_result oc = inr r -> re_DeployStatus r = "failed" ->
  rq_SkipIfInSync rq = true -> rq_DryRun rq = false -> si_readable si 0 = true -> si_readable si 1 = true ->
  not_promoted_at (dk_revisions dk) (NewRevisionID (rq_ReleaseName rq) (rq_EnvName rq) (si_clock si 3)) ->
  orderly (dk_revisions dk) ->
  re_Promoted r = false /\
  exists sh, re_ShadowState r = Some sh /\ has_condition ConditionDegraded "True" (sh_Conditions sh).
Proof.
  intros Hr Hre Hst Hskip Hdry Hr0 Hr1 Hnp Hord. apply Run_cases in Hr.
  destruct Hr as [e|rel _ _ _ _|rel plan Hl Hdrift Hpl Hv]; [done|injection Hre as <-; discriminate Hst|].
  pose proof (execute_fails _ _ _ _ _ _ _ _ eq_refl Hre Hst) as Hf.
  pose proof (execute_shadow _ _ _ _ _ _ _ _ _ eq_refl Hre Hdry Hr1) as Hsh. split; [apply Hf|].
  rewrite Hsh. unfold shadow_reconcile. cbn [negb]. eexists. split; [done|]. cbn [sh_Conditions].
  rewrite (latest_promoted_same _ (dk_revisions dk)); [|done|exact (failure_keeps _ _ _ _ _ _ _ Hpl Hf Hnp)].
  set (latest := latest_promoted (rl_Name rel) (dk_revisions dk)).
  assert (all_in_sync (actual_components latest) (rl_Components rel) = false) as ->; [|apply degraded_condition].
  apply not_true_iff_false. intros Hall. destruct Hdrift as [Hdrift|]; [|congruence].
  assert (drift_detected (first_shadow si rel dk) = false) as Hn; [|congruence]. apply no_drift. split; [done|].
  destruct latest as [r0|] eqn:Hl0.
  - exists r0. split; [done|]. split; [|by apply all_in_sync_spec].
    apply latest_promoted_newest in Hl0 as [Hp0 _]. by apply (proj2 Hord (rl_Name rel)).
  - exfalso. apply all_in_sync_none in Hall. apply (fl_components _ _ _ _ _ _ _ Hf).
    destruct (plan_correct _ _ _ _ _ _ _ Hpl) as (rel' & env & comps & refs & Hs & _ & Htop & Hp & _).
    rewrite (sources_release _ _ _ _ _ _ Hl Hs), Hall in Htop. destruct (Htop NoDup_nil_2) as [Hperm _].
    apply Permutation_nil_r in Hperm. rewrite Hperm in Hp. by apply Forall2_nil_inv_l in Hp.
Qed.

(** C19. A deployment that fails is reported and tried again: the data plane is
    published as degraded, and with that status every later reconcile runs
    another pass.  The directory must be readable during the pass, and the new
    revision's ID must not be the one of a promoted revision. *)
Theorem failed_retried cfg api si dk out oc r bdp :
  Reconcile cfg api si dk = Some out -> ap_dataplane api = Found bdp -> do_pass out = Some oc -> oc_result oc = inr r ->
  re_DeployStatus r = "failed" -> ap_patch api = true -> si_readable si 0 = true -> si_readable si 1 = true ->
  not_promoted_at (dk_revisions dk) (NewRevisionID (bd_Release bdp) (bd_Environment bdp) (si_clock si 3)) ->
  orderly (dk_revisions dk) ->
  exists st, do_writes out = [SetStatus st] /\ ds_ObservedGeneration st = bd_Generation bdp /\
    has_condition ConditionDegraded "True" (ds_Conditions st) /\ retried cfg st.
Proof.
  intros Hr Hb Hp Hre Hst Hpatch Hr0 Hr1 Hnp Hord. destruct (Reconcile_pass _ _ _ _ _ _ Hr Hp) as (bdp' & rel & gen & Hb' & Hrun & ->).
  rewrite Hb in Hb'. injection Hb' as <-.
  destruct (failed_degraded _ _ _ _ _ _ Hrun Hre Hst) as (Hpr & sh & Hsh & Hdeg); try done.
  unfold publish. rewrite Hre, Hpatch, Hpr. cbn [negb andb do_writes]. eexists. split; [done|].
  unfold buildStatus. rewrite Hsh. split; [done|]. split; [exact Hdeg|].
  apply unhealthy_retried. apply (unhealthy _ ConditionDegraded); [by left|exact Hdeg].
Qed.

(** ** A promoted release comes to rest *)

(** With this status, and while neither object changes, reconciles only wait. *)
Definition at_rest (cfg : Config) (generation releaseGen : Z) (st : BoriDataPlaneStatus) : Prop :=
  forall api bdp si dk, alive api bdp -> bd_Status bdp = st -> bd_Generation bdp = generation ->
    (forall br, ap_release api = Found br -> br_Generation br = releaseGen) ->
    Reconcile cfg api si dk = Some (Build_Reconciled (RequeueAfter (requeueInterval cfg)) [] [] None dk).

Lemma healthy_rests cfg generation releaseGen st :
  (0 < generation)%Z -> ds_ObservedGeneration st = generation -> ds_ObservedReleaseGeneration st = releaseGen ->
  isUnhealthy st = false -> at_rest cfg generation releaseGen st.
Proof.
  intros Hpos Hg Hrg Hh api bdp si dk (Hb & Hd & Hf & Hr) Hst Hgen Hrel. unfold Reconcile. rewrite Hb, Hd, Hf. cbn [negb].
  assert (exists rel, resolveRelease api bdp = inr (rel, match ap_release api with Found _ => releaseGen | _ => 0%Z end)) as (rel & ->).
  { unfold resolveRelease. destruct (ap_release api) as [br| |err]; [rewrite (Hrel br) by done; by eexists|by eexists|by destruct (Hr err)]. }
  unfold unchanged, releaseUnchanged. rewrite Hst, Hgen, Hg, Hrg, Hh, Z.eqb_refl. destruct (Z.ltb_spec 0 generation); [|lia].
  cbn [negb andb]. rewrite andb_true_r. destruct (ap_release api); [by rewrite Z.eqb_refl; destruct (_ =? 0)%Z|done..].
Qed.

(** Conditions of a release all of whose components are in sync. *)
Lemma in_sync_healthy r now current cs observed generation releaseGen :
  isUnhealthy (Build_BoriDataPlaneStatus (computeConditions (Some r) true true now) current cs observed generation releaseGen) = false.
Proof.
  unfold isUnhealthy, computeConditions. cbn [ds_Conditions negb]. destruct (bool_decide (rv_VerificationRunID r = "")); cbn [negb].
  all: by destruct (bool_decide (rv_PromotionStatus r = "promoted")).
Qed.

(** C36. A release that is promoted is published as such, and comes to rest: with the
    status that is published, every later reconcile, at whatever time and
    whatever the disk holds, runs no pass, writes nothing and tells nothing, until
    the data plane or the release object changes.  The clock must move, the
    release bear its name and list no component twice, and each component file
    bear the name it is loaded by. *)
Theorem promoted_rests cfg api si dk out oc r bdp override releaseGen rel :
  Reconcile cfg api si dk = Some out -> ap_dataplane api = Found bdp -> do_pass out = Some oc -> oc_result oc = inr r ->
  re_Promoted r = true -> ap_patch api = true -> si_readable si 1 = true -> (0 < bd_Generation bdp)%Z ->
  resolveRelease api bdp = inr (override, releaseGen) -> load_release si (pass_request cfg bdp override) = inr rel ->
  well_named (bori_root si) (rl_Components rel) -> rl_Name rel = bd_Release bdp -> NoDup (names (rl_Components rel)) ->
  (forall r', promoted_file (rl_Name rel) (dk_revisions dk) r' -> rv_CreatedAt r' < si_clock si 3)%Z ->
  exists st, head (do_writes out) = Some (SetStatus st) /\ ds_CurrentRevision st = re_RevisionID r /\
    has_condition ConditionDegraded "False" (ds_Conditions st) /\ at_rest cfg (bd_Generation bdp) releaseGen st.
Proof.
  intros Hr Hb Hp Hre Hpr Hpatch Hr1 Hpos Hres Hl Hn Hname Hnd Hclock.
  assert (Run (cfg_AdapterRegistry cfg) si (pass_request cfg bdp override) dk = Some oc /\ out = publish cfg api bdp releaseGen oc) as [Hrun ->].
  { revert Hr. unfold Reconcile. rewrite Hb, Hres. destruct (bd_Deleting bdp); [intros [= <-]; discriminate Hp|].
    destruct (ContainsFinalizer _ _); cbn [negb]; [|intros [= <-]; discriminate Hp].
    destruct (unchanged _ _); [intros [= <-]; discriminate Hp|]. intros (oc' & Hrun & [= <-])%stdpp.option.bind_Some.
    rewrite publish_pass in Hp. by injection Hp as <-. }
  destruct (promoted_newest (cfg_AdapterRegistry cfg) si (pass_request cfg bdp override) rel dk oc r) as (rev & Hlat & Hid & _ & Hm); try done.
  apply Run_cases in Hrun. destruct Hrun as [e|rel' _ _ _ _|rel' plan Hlr _ Hpl Hv]; [done|injection Hre as <-; discriminate Hpr|].
  rewrite Hl in Hlr. injection Hlr as <-. pose proof (execute_shadow _ _ _ _ _ _ _ _ _ eq_refl Hre eq_refl Hr1) as Hsh.
  unfold publish. rewrite Hre, Hpatch. cbn [negb do_writes head]. eexists. split; [done|]. unfold buildStatus. rewrite Hsh.
  unfold shadow_reconcile. rewrite Hlat. cbn [negb]. cbv zeta. cbn [sh_Conditions sh_ActualRevision sh_Components sh_ComputedAt ds_CurrentRevision ds_Conditions].
  rewrite (proj2 (all_in_sync_spec _ _) Hm), bool_decide_eq_true_2 by done. split; [done|]. split.
  - unfold computeConditions. cbn [negb]. eexists. split; [apply elem_of_app; right; by left|done].
  - apply healthy_rests; try done. apply in_sync_healthy.
Qed.

(** ** A changed release reaches its data planes *)

(** When the release object of a data plane has a generation that its status
    has not observed, a change of the release wakes the data plane up, and its
    reconcile runs a pass. *)
Theorem release_change_runs cfg api bdp bdps br si dk :
  alive api bdp -> ap_release api = Found br -> br_Name br = bd_Release bdp -> bdp ∈ bdps ->
  br_Generation br <> 0%Z -> br_Generation br <> ds_ObservedReleaseGeneration (bd_Status bdp) ->
  (bd_Namespace bdp, bd_Name bdp) ∈ findDataPlanesForRelease (br_Name br) (Some bdps) /\
  exists out oc, Reconcile cfg api si dk = Some out /\ do_pass out = Some oc.
Proof.
  intros (Hb & Hd & Hf & _) Hr Hname Hin Hnz Hne. split.
  - unfold findDataPlanesForRelease. apply list_elem_of_omap. exists bdp. split; [done|]. by rewrite bool_decide_eq_true_2.
  - unfold Reconcile, resolveRelease. rewrite Hb, Hd, Hf, Hr. cbn [negb].
    assert (unchanged (br_Generation br) bdp = false) as ->.
    { unfold unchanged, releaseUnchanged. rewrite (proj2 (Z.eqb_neq _ _) Hnz).
      rewrite (proj2 (Z.eqb_neq (ds_ObservedReleaseGeneration _) _)) by congruence. by rewrite andb_false_r. }
    destruct (Run_total (cfg_AdapterRegistry cfg) si (pass_request cfg bdp (Some (ToModel br))) dk) as [oc ->].
    eexists _, oc. split; [done|]. apply publish_pass.
Qed.

(** A plan that violates the policy is refused, reported and tried again:
    no adapter is called and nothing is written to disk; the data plane is
    published as violating and degraded, and reconciled again after five
    minutes, with another pass. *)
Theorem violation_reported cfg api si dk out oc vs bdp :
  Reconcile cfg api si dk = Some out -> ap_dataplane api = Found bdp -> do_pass out = Some oc ->
  oc_result oc = inl (Violations vs) ->
  oc_calls oc = [] /\ oc_disk oc = dk /\ do_disk out = dk /\
  exists st, do_writes out = [SetStatus st] /\ ds_ObservedGeneration st = bd_Generation bdp /\
    has_condition ConditionViolation "True" (ds_Conditions st) /\ has_condition ConditionDegraded "True" (ds_Conditions st) /\
    retried cfg st /\ (ap_patch api = true -> do_verdict out = RequeueAfter (300 * Second)%Z).
Proof.
  intros Hr Hb Hp Hre. destruct (Reconcile_pass _ _ _ _ _ _ Hr Hp) as (bdp' & rel & gen & Hb' & Hrun & ->).
  rewrite Hb in Hb'. injection Hb' as <-. unfold publish. rewrite Hre.
  assert (oc_calls oc = [] /\ oc_disk oc = dk) as [Hc Hd].
  { apply Run_cases in Hrun. destruct Hrun as [e|rel' _ _ _ _|rel' plan Hl _ Hpl Hv]; [done|done|].
    exfalso. revert Hre. unfold execute. destruct (store _ _ _) as [dk1 stored]. destruct (rq_DryRun _); [done|].
    destruct (rq_DeployDryRun _); [unfold dry_deploy|unfold deploy_and_record; destruct (LoadEnvironmentByName _ _); [done|]].
    all: destruct (if stored then _ else _) as [dk2 pr]; by destruct (update_shadow _ _ _ _ _). }
  split; [done|]. split; [done|]. split; [exact Hd|]. eexists. split; [done|]. split; [done|].
  set (viol := Build_Condition ConditionViolation "True" 0 (ap_now api) "NamespaceViolation" (join "; " vs)).
  assert (has_condition ConditionViolation "True" (ds_Conditions (violation_status bdp vs (ap_now api)))) as Hviol.
  { apply setCondition_keeps; [done|]. apply (setCondition_set _ viol). }
  split; [exact Hviol|]. split; [exact (setCondition_set _ (Build_Condition _ _ _ _ _ _))|].
  split; [apply unhealthy_retried, (unhealthy _ ConditionViolation); [by right|exact Hviol]|].
  unfold reconcileViolation. by intros ->.
Qed.
End spec.

(** ** Verification runs *)

(** The reconciles of a history: any runs, in any order and any number of
    times, whatever the API server answers. *)
Definition link_all (history : list (LinkApi * BoriVerificationRun)) (links : Links) : Links :=
  foldl (fun links '(api, vr) => (link_run api vr links).1) links history.

Lemma link_run_keeps api vr links k name : links !! k = Some name -> name <> "" -> (link_run api vr links).1 !! k = Some name.
Proof.
  intros Hk Hne. unfold link_run. destruct (negb (la_run api)); [done|]. destruct (bool_decide (vr_RevisionID vr = "")); [done|].
  destruct (negb (la_get api)); [done|].
  destruct (links !! (vr_Namespace vr, vr_RevisionID vr)) as [linked|] eqn:Hl; [|done].
  destruct (bool_decide (linked = "")) eqn:He; cbn [negb andb].
  - apply bool_decide_eq_true in He as ->. destruct (bool_decide ("" = vr_Name vr)); [done|]. destruct (la_revision api); [|done].
    cbn. rewrite lookup_insert_ne; [done|]. intros <-. congruence.
  - destruct (bool_decide (linked = vr_Name vr)); cbn [negb]; done.
Qed.

(** A link is to a run of the history, for that revision. *)
Lemma link_run_new api vr links k name :
  (link_run api vr links).1 !! k = Some name ->
  links !! k = Some name \/ (name = vr_Name vr /\ k = (vr_Namespace vr, vr_RevisionID vr)).
Proof.
  unfold link_run. destruct (negb (la_run api)); [by left|]. destruct (bool_decide (vr_RevisionID vr = "")); [by left|].
  destruct (negb (la_get api)); [by left|].
  destruct (links !! (vr_Namespace vr, vr_RevisionID vr)) as [linked|]; [|by left].
  destruct (_ && _); [by left|]. destruct (bool_decide (linked = vr_Name vr)); [by left|]. destruct (la_revision api); [|by left].
  cbn. rewrite lookup_insert. case_decide as Hk; [|by left]. intros [= <-]. by right.
Qed.

(** The first verification run linked to a revision stays linked to it,
    whatever runs are reconciled later, in any order and however often; and a
    revision is linked only to a run that names it, in its namespace. *)
Theorem first_link_wins history later links k name :
  link_all history links !! k = Some name -> name <> "" ->
  link_all (history ++ later) links !! k = Some name /\
  (links !! k = Some name \/ exists api vr, (api, vr) ∈ history /\ vr_Name vr = name /\ k = (vr_Namespace vr, vr_RevisionID vr)).
Proof.
  intros Hk Hne. split.
  - unfold link_all in *. rewrite foldl_app. revert Hk. generalize (foldl (fun links '(api, vr) => (link_run api vr links).1) links history).
    clear links. induction later as [|[api vr] later IH]; intros links Hk; cbn; [done|]. apply IH. by apply link_run_keeps.
  - revert Hk. unfold link_all. induction history as [|[api vr] history IH] using rev_ind; cbn; [by left|].
    rewrite foldl_app. cbn. intros [Hk|[-> ->]]%link_run_new.
    + destruct (IH Hk) as [?|(api' & vr' & Hin & Hn)]; [by left|]. right. exists api', vr'. split; [|done]. apply elem_of_app. by left.
    + right. exists api, vr. split; [apply elem_of_app; right; by left|done].
Qed.

(** ** The release controller *)
Definition references (release : string) (bdp : BoriDataPlane) : bool :=
  bool_decide (bd_Release bdp = release) && negb (bd_Deleting bdp).

Lemma active_data_planes_count release bdps :
  (Z.of_nat (length bdps) < 2 ^ 31)%Z ->
  active_data_planes release bdps = Z.of_nat (length (List.filter (references release) bdps)).
Proof.
  intros Hb. unfold active_data_planes.
  enough (forall n : nat, (Z.of_nat n + Z.of_nat (length bdps) < 2 ^ 31)%Z ->
    foldl (fun count bdp => if bool_decide (bd_Release bdp = release) && negb (bd_Deleting bdp)
      then ((count + 1 + 2 ^ 31) mod 2 ^ 32 - 2 ^ 31)%Z else count) (Z.of_nat n) bdps =
    Z.of_nat (n + length (List.filter (references release) bdps))) as Hn.
  { rewrite <- (Nat.add_0_l (length (List.filter _ _))). by apply (Hn 0). }
  clear Hb. induction bdps as [|bdp bdps IH]; intros n Hb; cbn [foldl List.filter length] in *; [by rewrite Nat.add_0_r|].
  unfold references at 1. destruct (_ && _); cbn [length].
  - replace ((Z.of_nat n + 1 + 2 ^ 31) mod 2 ^ 32 - 2 ^ 31)%Z with (Z.of_nat (S n)).
    + rewrite IH by lia. f_equal. lia.
    + rewrite Z.mod_small by lia. lia.
  - apply IH. lia.
Qed.

(** The release controller publishes, for a release that is there and whose
    data planes can be listed, how many of them reference it and are not being
    deleted -- an exact count below 2^31 -- for the generation it read; it sends
    nothing otherwise, and only a release that is gone is no error. *)
Theorem Reconcile_release_spec api :
  match Reconcile_release api with
  | (Some st, ok) => exists br bdps, ra_release api = Found br /\ ra_dataplanes api = Some bdps /\ ok = ra_patch api /\
      bz_ObservedGeneration st = br_Generation br /\ bz_ObservedAt st = ra_now api /\
      ((Z.of_nat (length bdps) < 2 ^ 31)%Z ->
       bz_ActiveDataPlanes st = Z.of_nat (length (List.filter (references (br_Name br)) bdps)))
  | (None, ok) => match ra_release api with Missing => ok = true | Broken _ => ok = false | Found _ => ra_dataplanes api = None /\ ok = false end
  end.
Proof.
  unfold Reconcile_release. destruct (ra_release api) as [br| |]; [|done..]. destruct (ra_dataplanes api) as [bdps|]; [|done].
  exists br, bdps. split_and!; [done..|]. apply active_data_planes_count.
Qed.

(** A release written as an object is read back as it was, in any
    namespace. *)
Theorem release_roundtrip rel namespace : ToModel (FromModelRelease rel namespace) = rel.
Proof. by destruct rel. Qed.
