(* ===== verification/DemoDeploy.v ===== *)
(** * A small deployment, on which the theorems of the release controllers are
    evaluated, with counterexamples to comments of the code *)

From S2P Require Import Prelude OpsSpec Release ReleaseSpec Loading Planner DemoRelease.
From S2P Require Import Revision Shadow.
From S2P Require Import Deploy DeploySpec Redact DataPlane.

#[export] Instance demo_deploy_files : DeployFiles := {|
  format_second t := pretty (t / Second)%Z;
  sha256_hex s := s;
  file_absent p := match read_from (repository "/repo" ["web"; "api"; "db"]) p with inl _ => true | inr _ => false end;
|}.

#[export] Instance demo_finalizers : Finalizers := {|
  ContainsFinalizer f fs := bool_decide (f ∈ fs);
  AddFinalizer f fs := fs ++ [f];
  RemoveFinalizer f fs := List.filter (fun x => negb (bool_decide (x = f))) fs;
|}.

(** api, pinned to an image, and db. *)
Definition stable_release : BoriRelease :=
  plain_release "lab" [Build_ComponentRef "api" "v1.3.0" "sha256:aa" ""; demo_ref "db"].

Definition stable_request (env : string) : Request := Build_Request "lab" env false false true (Some stable_release).

Definition demo_registry : gset string := {["kustomize"; "imageswap"]}.

(** The adapters succeed, or fail. *)
Definition demo_site (ok : bool) (start : Time) : Site := {|
  si_abs := inr "/repo"; si_apps_dir := "/"; si_clock n := (start + Z.of_nat n)%Z; si_readable _ := true; si_write _ := Written; si_state := true;
  si_deploy _ _ := if ok then Build_DeployAnswer (Some (true, "applied")) None else Build_DeployAnswer None (Some "no cluster");
|}.

(** An older promoted revision. *)
Definition old_revision : BoriRevision :=
  Build_BoriRevision "bori.revision.v1" "lab-0-old" "lab" "dev" "" 10
    [Build_CompRevision "api" "v1.2.0" "registry.local/api:v1" "" "" "" "" "" ""] "" "" "promoted" (Some 11%Z) "" "".

Definition demo_disk : Disk := Build_Disk {["lab-0-old" := Some old_revision]} ∅.

Definition demo_pass (ok : bool) : Outcome :=
  default (refused (AbsFailed "") demo_disk) (Run demo_registry (demo_site ok 5000000000) (stable_request "dev") demo_disk).

Definition demo_result (ok : bool) : Result :=
  match oc_result (demo_pass ok) with
  | inr r => r
  | inl _ => Build_Result "" "" "" "" false "" "" false None
  end.

Lemma demo_runs ok : Run demo_registry (demo_site ok 5000000000) (stable_request "dev") demo_disk = Some (demo_pass ok).
Proof.
  unfold demo_pass. destruct (Run_total demo_registry (demo_site ok 5000000000) (stable_request "dev") demo_disk) as [oc Ho].
  by rewrite Ho.
Qed.

Lemma demo_succeeds ok : oc_result (demo_pass ok) = inr (demo_result ok).
Proof.
  unfold demo_result. assert (match oc_result (demo_pass ok) with inr _ => True | inl _ => False end) as Ho
    by (destruct ok; vm_compute; exact I).
  destruct (oc_result (demo_pass ok)); [destruct Ho|reflexivity].
Qed.

Example demo_deployed :
  (re_DeployStatus (demo_result true), re_Promoted (demo_result true), dc_Adapter <$> oc_calls (demo_pass true),
   (fun c => bc_ImageRef (dc_Component c)) <$> oc_calls (demo_pass true)) =
  ("success", true, ["kustomize"; "imageswap"], ["registry.local/db:v1"; "registry.local/api:v1@sha256:aa"]).
Proof. vm_compute. reflexivity. Qed.

Example demo_failed :
  (re_DeployStatus (demo_result false), re_Promoted (demo_result false),
   (fun r => (rv_PromotionStatus r, rv_FailReason r)) <$> read_revision (dk_revisions (oc_disk (demo_pass false)))
     (re_RevisionID (demo_result false))) =
  ("failed", false, Some ("failed", "deploy failed: db: no cluster; api: no cluster")).
Proof. vm_compute. reflexivity. Qed.

(** ** Counterexamples *)

(** The drift of a data plane is computed without its environment: once the
    release is promoted in dev, a pass for prod deploys nothing. *)
Example other_environment_skipped :
  (fun oc => match oc_result oc with inr r => (re_DeployStatus r, re_Environment r, oc_calls oc) | inl _ => ("", "", []) end) <$>
    Run demo_registry (demo_site true 9000000000) (stable_request "prod") (oc_disk (demo_pass true)) =
  Some ("skipped", "prod", []).
Proof. vm_compute. reflexivity. Qed.

(** A revision's ID tells only seconds apart: a pass that fails in the second
    of a promoted one overwrites it, and the release counts as never deployed. *)
Example promoted_revision_overwritten :
  let release := plain_release "lab" [Build_ComponentRef "api" "v1.4.0" "sha256:bb" ""] in
  let again := Run demo_registry (demo_site false 5500000000) (Build_Request "lab" "dev" false false true (Some release))
                 (Build_Disk (delete "lab-0-old" (dk_revisions (oc_disk (demo_pass true)))) ∅) in
  (fun oc => rv_PromotionStatus <$> list_revisions (dk_revisions (oc_disk oc))) <$> again = Some ["failed"].
Proof. vm_compute. reflexivity. Qed.

(** A shadow state is written under a file name that reading does not look for. *)
Example shadow_state_lost st : ReadState "team/lab" (WriteState "team/lab" st ∅) = None.
Proof. reflexivity. Qed.

(** The namespace of the component of the release is checked, but the component
    deployed is the one its file names. *)
Definition misnamed_files : Files := {|
  read_file := read_from (repository "/repo" ["alias"; "admin"]);
  decode_release _ := inl "no release";
  decode_environment n := inr (Build_BoriEnvironment n ["safe"]);
  decode_component n :=
    inr (if decide (n = "alias") then Build_BoriComponent "admin" "i" [] "safe" None None "" [] 0 ""
         else Build_BoriComponent n "i" [] "kube-system" None None "" [] 0 "");
  decode_matrix _ := inl "no matrix";
|}.

Example misnamed_component_escapes :
  (fun oc => (fun c => target_namespace (dc_Component c)) <$> oc_calls oc) <$>
    Run (H1 := misnamed_files) demo_registry (demo_site true 5000000000)
      (Build_Request "lab" "dev" false false true (Some (plain_release "lab" [Build_ComponentRef "alias" "v1" "" ""])))
      demo_disk = Some ["kube-system"].
Proof. vm_compute. reflexivity. Qed.

(** A deploy dry run promotes what nobody deployed. *)
Example deploy_dry_run_promotes :
  (fun oc => match oc_result oc with
             | inr r => (re_Promoted r, re_DeployStatus r, length (oc_calls oc))
             | inl _ => (false, "", 0)
             end) <$> Run demo_registry (demo_site true 5000000000)
      (Build_Request "lab" "dev" false true true (rq_Release (stable_request "dev"))) demo_disk =
  Some (true, "skipped (deploy-dry-run)", 0).
Proof. vm_compute. reflexivity. Qed.

(** ** Witnesses *)
Lemma demo_well_named : well_named "/repo" (rl_Components stable_release).
Proof.
  intros ref c Hin. repeat (apply elem_of_cons in Hin as [->|Hin]; [vm_compute; by intros [= <-]|]). nil_elem.
Qed.

Lemma demo_not_promoted : not_promoted_at (dk_revisions demo_disk) (NewRevisionID "lab" "dev" 5000000003).
Proof.
  intros r Hr. cbn [demo_disk dk_revisions] in Hr. apply lookup_singleton_Some in Hr as [Hid _]. exfalso. revert Hid.
  apply (bool_decide_unpack _). vm_compute. exact I.
Qed.

Lemma demo_orderly : orderly (dk_revisions demo_disk).
Proof.
  split.
  - intros release r1 r2 ((n1 & Hn1) & _) ((n2 & Hn2) & _) _. cbn [demo_disk dk_revisions] in *.
    apply lookup_singleton_Some in Hn1 as [_ [= <-]]. by apply lookup_singleton_Some in Hn2 as [_ [= <-]].
  - intros release r ((n & Hn) & _). cbn [demo_disk dk_revisions] in *. by apply lookup_singleton_Some in Hn as [_ [= <-]].
Qed.

Lemma Run_promotes_witness :
  exists rev, dk_revisions (oc_disk (demo_pass true)) = <[re_RevisionID (demo_result true) := Some rev]> (dk_revisions demo_disk) /\
    rv_PromotionStatus rev = "promoted" /\ length (oc_calls (demo_pass true)) = length (rv_Components rev).
Proof.
  destruct (Run_promotes demo_registry (demo_site true 5000000000) (stable_request "dev") demo_disk (demo_pass true)
    (demo_result true) (demo_runs true) (demo_succeeds true) ltac:(vm_compute; reflexivity))
    as (plan & rev & _ & _ & Hd & Hs & Hr & _ & env & _ & Hc & _).
  exists rev. split; [exact Hd|]. split; [exact Hs|].
  exact (eq_trans (eq_sym (Forall2_length _ _ _ Hc)) (Forall2_length _ _ _ Hr)).
Defined.

(** The pass of the demonstration calls adapters, for files that bear the names
    of their entries: so the namespaces called are allowed. *)
Lemma Run_calls_allowed_witness :
  exists env, oc_calls (demo_pass true) <> [] /\
    forall call, call ∈ oc_calls (demo_pass true) -> target_namespace (dc_Component call) ∈ ev_Allowed env.
Proof.
  assert (oc_calls (demo_pass true) <> []) as Hne by (vm_compute; discriminate).
  destruct (Run_calls_allowed demo_registry (demo_site true 5000000000) (stable_request "dev") demo_disk (demo_pass true)
    (demo_runs true) Hne) as (rel & env & comps & refs & Hs & _ & Hall & _ & sub & Hsub & Hp).
  exists env. split; [exact Hne|]. intros call Hin. apply list_elem_of_lookup in Hin as [i Hi].
  destruct (Forall2_lookup_r _ _ _ _ _ Hp Hi) as (ref & Hr & Hpc).
  refine (proj2 (pt_namespace _ _ _ _ _ Hpc _)). intros c Hl. apply (demo_well_named ref); [|exact Hl].
  destruct Hs as [Hrel _ _]. cbn [rq_Release stable_request] in Hrel. rewrite <- Hrel in Hall.
  apply (proj1 (Forall_forall _ _) Hall), (elem_of_sublist _ _ _ (list_elem_of_lookup_2 _ _ _ Hr) Hsub).
Defined.

Lemma Run_skips_witness :
  exists oc r, Run demo_registry (demo_site true 9000000000) (stable_request "dev") (oc_disk (demo_pass true)) = Some oc /\
    oc_result oc = inr r /\ re_DeployStatus r = "skipped" /\ oc_disk oc = oc_disk (demo_pass true) /\ oc_calls oc = [].
Proof.
  apply (Run_skips demo_registry (demo_site true 9000000000) (stable_request "dev") stable_release (oc_disk (demo_pass true))
    eq_refl eq_refl eq_refl).
  apply no_drift. vm_compute. reflexivity.
Defined.

Lemma Run_settles_witness :
  exists oc r, Run demo_registry (demo_site true 9000000000) (stable_request "dev") (oc_disk (demo_pass true)) = Some oc /\
    oc_result oc = inr r /\ re_DeployStatus r = "skipped" /\ oc_disk oc = oc_disk (demo_pass true) /\ oc_calls oc = [].
Proof.
  apply (Run_settles demo_registry (demo_site true 5000000000) (stable_request "dev") stable_release demo_disk (demo_pass true)
    (demo_result true) (demo_site true 9000000000) (stable_request "dev") demo_well_named eq_refl eq_refl).
  - apply (bool_decide_unpack _). vm_compute. exact I.
  - intros r' ((n & Hn) & _). cbn [demo_disk dk_revisions] in Hn. apply lookup_singleton_Some in Hn as [_ [= <-]]. reflexivity.
  - apply demo_runs.
  - apply demo_succeeds.
  - vm_compute. reflexivity.
  - reflexivity.
  - reflexivity.
  - reflexivity.
  - reflexivity.
Defined.

Lemma Run_failure_witness :
  re_Promoted (demo_result false) = false /\
  forall r, newest "lab" (dk_revisions (oc_disk (demo_pass false))) r <-> newest "lab" (dk_revisions demo_disk) r.
Proof.
  destruct (Run_failure demo_registry (demo_site false 5000000000) (stable_request "dev") demo_disk (demo_pass false)
    (demo_result false) (demo_runs false) (demo_succeeds false) ltac:(vm_compute; reflexivity) demo_not_promoted) as (Hp & Hn & _).
  split; [exact Hp|exact (Hn "lab")].
Defined.

(** A data plane of the release. *)
Definition demo_data_plane : BoriDataPlane := {|
  bd_Namespace := "ns"; bd_Name := "plane"; bd_Generation := 1; bd_Deleting := false; bd_Finalizers := [finalizerName];
  bd_Release := "lab"; bd_Environment := "dev"; bd_Status := zero_status;
|}.

Definition demo_release_object (refs : list ComponentRef) : BoriReleaseObject :=
  Build_BoriReleaseObject "ns" "lab" 1 (Build_BoriReleaseSpec refs "" [] (Build_PromotionPolicy "" "" false))
    (Build_BoriReleaseStatus 0 0 0).

Definition demo_api (refs : list ComponentRef) : Api := {|
  ap_dataplane := Found demo_data_plane; ap_release := Found (demo_release_object refs); ap_revision := Missing;
  ap_update := true; ap_patch := true; ap_now := 6000000000;
|}.

Definition demo_config : Config := Build_Config demo_registry false 0.

Lemma failed_retried_witness :
  exists st, do_writes (publish demo_config (demo_api (rl_Components stable_release)) demo_data_plane 1 (demo_pass false)) =
    [SetStatus st] /\ retried demo_config st.
Proof.
  destruct (failed_retried demo_config (demo_api (rl_Components stable_release)) (demo_site false 5000000000) demo_disk
    (publish demo_config (demo_api (rl_Components stable_release)) demo_data_plane 1 (demo_pass false)) (demo_pass false)
    (demo_result false) demo_data_plane) as (st & Hw & _ & _ & Hr).
  - unfold Reconcile. cbn [demo_api ap_dataplane demo_data_plane bd_Deleting bd_Finalizers].
    change (resolveRelease _ _) with (@inr string _ (Some stable_release, 1%Z)).
    change (unchanged 1 _) with false. cbn [negb].
    change (pass_request _ _ _) with (stable_request "dev"). rewrite demo_runs. reflexivity.
  - reflexivity.
  - unfold publish. rewrite demo_succeeds. reflexivity.
  - apply demo_succeeds.
  - vm_compute. reflexivity.
  - reflexivity.
  - reflexivity.
  - reflexivity.
  - exact demo_not_promoted.
  - exact demo_orderly.
  - exists st. split; [exact Hw|exact Hr].
Defined.

(** An API server that cannot give the release, and says why. *)
Definition broken_api (err : string) : Api :=
  Build_Api (Found demo_data_plane) (Broken err) Missing true true 6000000000.

Definition broken_reconcile : option Reconciled :=
  Reconcile demo_config (broken_api "401: Bearer s3cret") (demo_site true 5000000000) demo_disk.

Example secret_redacted : do_events <$> broken_reconcile =
  Some [Build_DataPlaneEvent true "ReleaseResolveFailed"
          "resolve BoriRelease: get BoriRelease ns/lab: 401: Bearer [REDACTED]"].
Proof. vm_compute. reflexivity. Qed.

Lemma Reconcile_events_witness : exists out e,
  broken_reconcile = Some out /\ e ∈ do_events out /\ RedactString (ev_Message e) = ev_Message e.
Proof.
  destruct broken_reconcile as [out|] eqn:Hr; [|by vm_compute in Hr].
  destruct (Reconcile_events demo_config (broken_api "401: Bearer s3cret") (demo_site true 5000000000) demo_disk out Hr) as (_ & Hred & Hw).
  destruct (proj2 Hw) as (e & He & _); [vm_compute in Hr; injection Hr as <-; exact I|].
  exists out, e. split; [done|]. split; [exact He|]. apply (Hred e He).
  revert He. vm_compute in Hr. injection Hr as <-. by intros ->%list_elem_of_singleton.
Defined.

(** The event of a deletion is not redacted, although the comment says every
    event is: of a data plane called bearer a word is taken for a token. *)
Example deletion_not_redacted :
  let bdp := Build_BoriDataPlane "ns" "bearer" 1 true [finalizerName] "lab" "dev" zero_status in
  exists e, do_events (reconcileDelete (demo_api []) bdp demo_disk) = [e] /\ RedactString (ev_Message e) <> ev_Message e.
Proof. eexists. split; [vm_compute; reflexivity|]. vm_compute. discriminate. Qed.

(** The promoted release comes to rest. *)
Lemma promoted_rests_witness : exists st,
  head (do_writes (publish demo_config (demo_api (rl_Components stable_release)) demo_data_plane 1 (demo_pass true))) = Some (SetStatus st) /\
  at_rest demo_config 1 1 st.
Proof.
  destruct (promoted_rests demo_config (demo_api (rl_Components stable_release)) (demo_site true 5000000000) demo_disk
    (publish demo_config (demo_api (rl_Components stable_release)) demo_data_plane 1 (demo_pass true)) (demo_pass true)
    (demo_result true) demo_data_plane (Some stable_release) 1 stable_release) as (st & Hw & _ & _ & Hr).
  - unfold Reconcile. cbn [demo_api ap_dataplane demo_data_plane bd_Deleting bd_Finalizers].
    change (resolveRelease _ _) with (@inr string _ (Some stable_release, 1%Z)).
    change (unchanged 1 _) with false. cbn [negb].
    change (pass_request _ _ _) with (stable_request "dev"). rewrite demo_runs. reflexivity.
  - reflexivity.
  - apply publish_pass.
  - apply demo_succeeds.
  - vm_compute. reflexivity.
  - reflexivity.
  - reflexivity.
  - reflexivity.
  - reflexivity.
  - reflexivity.
  - exact demo_well_named.
  - reflexivity.
  - apply (bool_decide_unpack _). vm_compute. exact I.
  - intros r' ((n & Hn) & _). cbn [demo_disk dk_revisions] in Hn. apply lookup_singleton_Some in Hn as [_ [= <-]]. reflexivity.
  - exists st. split; [exact Hw|exact Hr].
Defined.

(** The release object was changed since: the data plane is woken and runs. *)
Lemma release_change_runs_witness :
  ("ns", "plane") ∈ findDataPlanesForRelease "lab" (Some [demo_data_plane]) /\
  exists out oc, Reconcile demo_config (demo_api (rl_Components stable_release)) (demo_site true 5000000000) demo_disk = Some out /\
    do_pass out = Some oc.
Proof.
  apply (release_change_runs demo_config (demo_api (rl_Components stable_release)) demo_data_plane [demo_data_plane]
    (demo_release_object (rl_Components stable_release))).
  - split; [reflexivity|]. split; [reflexivity|]. split; [reflexivity|]. discriminate.
  - reflexivity.
  - reflexivity.
  - left.
  - discriminate.
  - discriminate.
Defined.
