(* ===== verification/Adapters.v ===== *)
(** * Evidence providers (pkg/providers: registry.go, kubestatus.go, http.go):
    definitions

    What a provider answers to one request.  The API server's and the HTTP
    server's answers are arguments; parsing of URLs, addresses, JSON, times and
    durations is a parameter. *)

From S2P Require Import Prelude.
From S2P Require Import ReleaseSpec.
From S2P Require Import Identity.
From S2P Require Import Predicate.
From S2P Require Import Contract.
From S2P Require Import Assessment.
From S2P Require Import Release.
From S2P Require Import Candidates.
From Stdlib Require Import Ascii.

(** ** Parameters: the standard library and apimachinery *)

(** net/url and net.IP, as far as they are asked. *)
Record Url := { ur_Scheme : string; ur_Host : string; ur_Hostname : string; ur_User : bool; ur_Fragment : string }.

Record IP := {
  ip_Loopback : bool;
  ip_Private : bool;
  ip_LinkLocalUnicast : bool;
  ip_LinkLocalMulticast : bool;
  ip_Unspecified : bool;
  ip_Multicast : bool;
}.

(** A decoded JSON scalar; a number is its text. *)
Inductive Json := JBool (b : bool) | JString (s : string) | JNumber (text : string) | JOther.

(** A response body: the object, with the raw values by name. *)
Record TypedResponse := {
  ty_Subject : string;
  ty_ObservedAt : string;
  ty_ValidUntil : string;
  ty_Values : gmap string string;
}.

Class Parsers := {
  parse_url : string -> option Url;
  parse_ip : string -> option IP;
  (** the first JSON value as a response, and whether nothing follows *)
  decode_response : string -> option (TypedResponse * bool);
  decode_scalar : string -> option Json;
  parse_rfc3339 : string -> option Time;
  parse_duration : string -> option Duration;
  parse_group_version : string -> option (string * string);
}.

(** ** http.go *)
Record HTTPProfile := { AllowInsecureHTTP : bool; AllowPrivateNetworks : bool }.

Record HTTPEndpoint := { ep_SubjectUID : string; ep_URL : string; ep_Fields : gmap string string }.

Record HTTPTyped := { hp_providerName : string; hp_endpoints : list HTTPEndpoint; hp_maxBody : nat }.

(** What the GET of an endpoint brings: the request cannot be made, the
    exchange fails, or a status with a body, [None] if reading it fails. *)
Inductive Exchange := RequestInvalid | TransportError | Responded (status : Z) (body : option string).

Definition restrictedIP (ip : IP) : bool :=
  ip_Loopback ip || ip_Private ip || ip_LinkLocalUnicast ip || ip_LinkLocalMulticast ip || ip_Unspecified ip || ip_Multicast ip.

(** strconv.ParseInt(s, 10, 64) of the text of a JSON number *)
Definition parse_int64 (s : string) : option Z :=
  let ranged n := if Z.leb int64_min n && Z.leb n int64_max then Some n else None in
  match s with
  | String "-"%char s => parse_digits s ≫= fun n => ranged (- n)%Z
  | String "+"%char s => parse_digits s ≫= ranged
  | _ => parse_digits s ≫= ranged
  end.

(** strings.ContainsAny(s, ".eE") *)
Fixpoint fractional (s : string) : bool :=
  match s with
  | EmptyString => false
  | String c s => bool_decide (c = "."%char) || bool_decide (c = "e"%char) || bool_decide (c = "E"%char) || fractional s
  end.

Definition scalar_value (j : Json) : option Value :=
  match j with
  | JBool b => Some (Bool b)
  | JString s => Some (Str s)
  | JNumber text => if fractional text then None else Int <$> parse_int64 text
  | JOther => None
  end.

Section adapters.
Context `{GoText} `{Parsers}.

Definition validateEndpoint (ep : HTTPEndpoint) (profile : HTTPProfile) : bool :=
  if bool_decide (ep_SubjectUID ep = "") || bool_decide (ep_Fields ep = ∅) then false
  else match parse_url (ep_URL ep) with
  | None => false
  | Some u =>
      if negb (bool_decide (ur_Scheme u = "https") || bool_decide (ur_Scheme u = "http") && AllowInsecureHTTP profile) then false
      else if bool_decide (ur_Host u = "") || ur_User u || negb (bool_decide (ur_Fragment u = "")) then false
      else match parse_ip (ur_Hostname u) with
      | Some ip => AllowPrivateNetworks profile || negb (restrictedIP ip)
      | None => true
      end
  end.

(** The check at dial time, of the address without its port. *)
Definition dial_permitted (profile : HTTPProfile) (host : string) : bool :=
  match parse_ip host with
  | None => false
  | Some ip => AllowPrivateNetworks profile || negb (restrictedIP ip)
  end.

Definition NewHTTPTyped (name : string) (endpoints : list HTTPEndpoint) (profile : HTTPProfile) (timeout : Duration) (maxBody : Z) :
    option HTTPTyped :=
  if Z.leb timeout 0 || Z.leb maxBody 0 then None
  else if forallb (fun ep => validateEndpoint ep profile) endpoints
  then Some (Build_HTTPTyped name endpoints (Z.to_nat maxBody)) else None.

Definition typedValue (raw : string) : option Value := decode_scalar raw ≫= scalar_value.

(** The response, once the whole body is one object. *)
Definition read_response (h : HTTPTyped) (ep : HTTPEndpoint) (field : string) (tr : TypedResponse) : Result :=
  if negb (bool_decide (ty_Subject tr = ep_SubjectUID ep)) then unavailable "subject-mismatch"
  else match parse_rfc3339 (ty_ObservedAt tr) with
  | None => unavailable "malformed-observedAt"
  | Some observedAt =>
  match (if bool_decide (ty_ValidUntil tr = "") then Some 0%Z else parse_rfc3339 (ty_ValidUntil tr)) with
  | None => unavailable "malformed-validUntil"
  | Some validUntil =>
  match ty_Values tr !! field with
  | None => unavailable "field-missing"
  | Some raw =>
  match typedValue raw with
  | None => unavailable "malformed-value"
  | Some v => Build_Result v observedAt validUntil ("http:" +:+ hp_providerName h +:+ "#" +:+ field) ""
  end end end end.

(** The first pinned endpoint of the subject. *)
Definition endpoint_of (h : HTTPTyped) (req : Request) : option HTTPEndpoint :=
  List.find (fun ep => bool_decide (ep_SubjectUID ep = sj_ResolvedUID (rq_Subject req))) (hp_endpoints h).

(** [exchange] is what the network brings for a URL. *)
Definition Observe_http (exchange : string -> Exchange) (h : HTTPTyped) (req : Request) : Result :=
  match endpoint_of h req with
  | None => unavailable "no-endpoint-for-subject"
  | Some ep =>
  match ep_Fields ep !! ak_Slot (rq_Key req) with
  | None => unavailable "slot-not-configured"
  | Some field =>
  match exchange (ep_URL ep) with
  | RequestInvalid => unavailable "request-invalid"
  | TransportError => unavailable "transport-error"
  | Responded status body =>
      if negb (Z.eqb status 200) then unavailable ("http-status-" +:+ pretty status)
      else match body with
      | None => unavailable "read-failed"
      | Some text =>
          let read := String.substring 0 (hp_maxBody h + 1) text in
          if hp_maxBody h <? String.length read then unavailable "body-too-large"
          else match decode_response read with
          | None => unavailable "malformed-response"
          | Some (_, false) => unavailable "malformed-response"
          | Some (tr, true) => read_response h ep field tr
          end
      end
  end end end.

(** ** kubestatus.go *)
Definition kubeStatusFields (gvk : string * string * string) : option (list string) :=
  if decide (gvk = ("apps", "v1", "Deployment")) then Some ["replicas"; "readyReplicas"; "availableReplicas"; "updatedReplicas"]
  else if decide (gvk = ("apps", "v1", "StatefulSet")) then Some ["replicas"; "readyReplicas"; "availableReplicas"; "updatedReplicas"]
  else if decide (gvk = ("apps", "v1", "DaemonSet"))
  then Some ["desiredNumberScheduled"; "numberReady"; "numberAvailable"; "updatedNumberScheduled"]
  else None.

(** unstructured.NestedInt64 of a field of status *)
Inductive Nested := Absent | Int64 (n : Z) | Malformed.

Record StatusObject := { so_UID : string; so_Generation : Z; so_status : string -> Nested }.

Inductive Read := ReadObject (obj : StatusObject) | ReadNotFound | ReadFailed.

(** [get] is one GET by kind, namespace and name; [now] the time after it. *)
Definition Observe_kube (get : string * string * string -> string * string -> Read) (now : Time) (fields : gmap string string)
    (req : Request) : Result :=
  let sj := rq_Subject req in
  match parse_group_version (sj_APIVersion sj) with
  | None => unavailable "unsupported-kind"
  | Some (g, v) =>
  let gvk := (g, v, sj_Kind sj) in
  match kubeStatusFields gvk with
  | None => unavailable "unsupported-kind"
  | Some allowed =>
  match fields !! ak_Slot (rq_Key req) with
  | None => unavailable "slot-not-configured"
  | Some field =>
      if negb (bool_decide (field ∈ allowed)) then unavailable "slot-not-configured"
      else if negb (bool_decide (rq_SlotType req = TypeInteger)) then unavailable "slot-type-not-integer"
      else match get gvk (sj_Namespace sj, sj_Name sj) with
      | ReadNotFound => unavailable "subject-not-found"
      | ReadFailed => unavailable "read-failed"
      | ReadObject obj =>
          if negb (bool_decide (so_UID obj = sj_ResolvedUID sj)) then unavailable "subject-uid-mismatch"
          else match so_status obj "observedGeneration" with
          | Absent | Malformed => unavailable "status-not-observed"
          | Int64 observedGen =>
              if Z.ltb observedGen (so_Generation obj) then unavailable "status-lagging-generation"
              else match so_status obj field with
              | Malformed => unavailable "malformed-status"
              | nested =>
                  Build_Result (Int (match nested with Int64 n => n | _ => 0 end)) now 0
                    ("k8s:" +:+ sj_Kind sj +:+ "/" +:+ sj_Namespace sj +:+ "/" +:+ sj_Name sj +:+ "@" +:+ so_UID obj +:+
                     "#status." +:+ field +:+ ",generation=" +:+ pretty (so_Generation obj)) ""
              end
          end
      end
  end end end.

(** ** registry.go *)
Inductive Adapter := KubeStatus (fields : gmap string string) | HTTP (h : HTTPTyped).

Record ProviderConfig := {
  pg_Namespace : string;
  pg_Name : string;
  pg_ConfigRevision : string;
  pg_KubernetesStatus : option (gmap string string);
  pg_HTTP : option (list HTTPEndpoint);
}.

Record LimitsOverride := { lo_PerCallTimeout : string; lo_MaxResponseByte : Z }.

Record ProvidersConfig := { pf_HTTP : HTTPProfile; pf_Limits : option LimitsOverride; pf_Providers : list ProviderConfig }.

Definition DefaultPerCallTimeout : Duration := (2 * Second)%Z.
Definition MaxPerCallTimeout : Duration := (10 * Second)%Z.
Definition DefaultMaxBodyBytes : Z := 16384.
Definition MaxBodyBytesCap : Z := 262144.

(** The configuration file: [read] is os.ReadFile, [decode] the strict YAML
    decoder. *)
Definition LoadConfig (read : string -> string + string) (decode : string -> string + ProvidersConfig) (path : string)
    : string + ProvidersConfig :=
  match read path with
  | inl err => inl err
  | inr b => match decode b with inl err => inl ("provider config: " +:+ err) | inr c => inr c end
  end.

Inductive ConfigError :=
  | BadTimeout
  | BadBodyLimit
  | IncompleteIdentity
  | RegisteredTwice (id : ProviderIdentity)
  | NoReader
  | BadEndpoint (id : ProviderIdentity)
  | NotOneAdapter (id : ProviderIdentity).

Definition per_call_timeout (c : ProvidersConfig) : ConfigError + Duration :=
  match pf_Limits c with
  | None => inr DefaultPerCallTimeout
  | Some l =>
      if bool_decide (lo_PerCallTimeout l = "") then inr DefaultPerCallTimeout
      else match parse_duration (lo_PerCallTimeout l) with
      | None => inl BadTimeout
      | Some d => if Z.leb d 0 || Z.ltb MaxPerCallTimeout d then inl BadTimeout else inr d
      end
  end.

Definition max_body (c : ProvidersConfig) : ConfigError + Z :=
  match pf_Limits c with
  | None => inr DefaultMaxBodyBytes
  | Some l =>
      if negb (Z.eqb (lo_MaxResponseByte l) 0) then
        if Z.ltb (lo_MaxResponseByte l) 0 || Z.ltb MaxBodyBytesCap (lo_MaxResponseByte l) then inl BadBodyLimit
        else inr (lo_MaxResponseByte l)
      else inr DefaultMaxBodyBytes
  end.

Definition config_identity (pc : ProviderConfig) : ProviderIdentity :=
  Build_ProviderIdentity (pg_Namespace pc +:+ "/" +:+ pg_Name pc) (pg_ConfigRevision pc).

(** One entry of the list of providers. *)
Definition register (c : ProvidersConfig) (reader : bool) (timeout : Duration) (maxBody : Z)
    (ps : gmap ProviderIdentity Adapter) (pc : ProviderConfig) : ConfigError + gmap ProviderIdentity Adapter :=
  if bool_decide (pg_Namespace pc = "") || bool_decide (pg_Name pc = "") || bool_decide (pg_ConfigRevision pc = "")
  then inl IncompleteIdentity
  else
    let id := config_identity pc in
    if bool_decide (is_Some (ps !! id)) then inl (RegisteredTwice id)
    else match pg_KubernetesStatus pc, pg_HTTP pc with
    | Some fields, None => if reader then inr (<[id := KubeStatus fields]> ps) else inl NoReader
    | None, Some endpoints =>
        match NewHTTPTyped (pi_Name id) endpoints (pf_HTTP c) timeout maxBody with
        | Some h => inr (<[id := HTTP h]> ps)
        | None => inl (BadEndpoint id)
        end
    | _, _ => inl (NotOneAdapter id)
    end.

Fixpoint register_all (c : ProvidersConfig) (reader : bool) (timeout : Duration) (maxBody : Z) (pcs : list ProviderConfig)
    (ps : gmap ProviderIdentity Adapter) : ConfigError + gmap ProviderIdentity Adapter :=
  match pcs with
  | [] => inr ps
  | pc :: pcs =>
      match register c reader timeout maxBody ps pc with
      | inl e => inl e
      | inr ps => register_all c reader timeout maxBody pcs ps
      end
  end.

(** [reader] is whether there is an API reader. *)
Definition BuildRegistry (c : ProvidersConfig) (reader : bool) : ConfigError + gmap ProviderIdentity Adapter :=
  match per_call_timeout c with
  | inl e => inl e
  | inr timeout =>
  match max_body c with
  | inl e => inl e
  | inr maxBody => register_all c reader timeout maxBody (pf_Providers c) ∅
  end end.

(** What surrounds a call: the API server, the network and the clock. *)
Record Outside := {
  ou_get : string * string * string -> string * string -> Read;
  ou_exchange : string -> Exchange;
  ou_now : Time;
}.

Definition Observe (ou : Outside) (a : Adapter) (req : Request) : Result :=
  match a with
  | KubeStatus fields => Observe_kube (ou_get ou) (ou_now ou) fields req
  | HTTP h => Observe_http (ou_exchange ou) h req
  end.
End adapters.

(** * What an evidence provider may answer (pkg/providers)

    A value is only ever the current fact of the subject that was asked about;
    a registry holds exactly what was configured; an integer is never coerced. *)

(** ** Text *)
Lemma substring_whole n s : String.length s <= n -> String.substring 0 n s = s.
Proof. revert s. induction n as [|n IH]; intros [|c s] Hn; cbn in *; [done|lia|done|]. by rewrite IH by lia. Qed.

(** ** Numbers *)
Lemma digits_not_fractional s : all_digits s -> fractional s = false.
Proof.
  induction s as [|c s IH]; cbn; [done|]. intros [Hc Hs]. rewrite IH by done. rewrite orb_false_r, !orb_false_iff.
  split_and!; apply bool_decide_eq_false; intros ->; vm_compute in Hc; by destruct Hc.
Qed.

Lemma parse_int64_digits (n : N) :
  parse_int64 (pretty n) = if decide (Z.of_N n <= int64_max)%Z then Some (Z.of_N n) else None.
Proof.
  pose proof (parse_pretty n) as Hp. destruct (pretty_nonempty n) as (c & s & E).
  pose proof (all_digits_pretty n) as Hd. rewrite E in Hp, Hd |- *. destruct Hd as [Hc _].
  assert (parse_int64 (String c s) = parse_digits (String c s) ≫= fun n =>
    if Z.leb int64_min n && Z.leb n int64_max then Some n else None) as ->.
  { destruct (decide (c = "-"%char)) as [->|Hm]; [vm_compute in Hc; by destruct Hc|]. destruct (decide (c = "+"%char)) as [->|Hpl]; [vm_compute in Hc; by destruct Hc|].
    destruct c as [[] [] [] [] [] [] [] []]; try reflexivity; by exfalso. }
  rewrite Hp. cbn [mbind option_bind]. assert (Z.leb int64_min (Z.of_N n) = true) as -> by (apply Z.leb_le; unfold int64_min; lia).
  cbn [andb]. case_decide as Hr; destruct (Z.leb_spec (Z.of_N n) int64_max); done || lia.
Qed.

(** An integer is read back exactly, or not at all: the decimal text of a
    number gives that integer if an int64 holds it, and otherwise no value. *)
Theorem integer_read_back z :
  scalar_value (JNumber (pretty z)) = if decide (int64_min <= z <= int64_max)%Z then Some (Int z) else None.
Proof.
  unfold scalar_value. destruct z as [|p|p].
  - reflexivity.
  - change (pretty (Z.pos p)) with (pretty (N.pos p)). rewrite digits_not_fractional by apply all_digits_pretty.
    rewrite parse_int64_digits. cbn [Z.of_N]. repeat case_decide; unfold int64_min, int64_max in *; done || lia.
  - change (pretty (Z.neg p)) with (String "-"%char (pretty (N.pos p))). cbn [fractional].
    rewrite digits_not_fractional by apply all_digits_pretty. cbn [parse_int64]. rewrite parse_pretty. cbn [mbind option_bind Z.of_N].
    rewrite Z.opp_eq_mul_m1. replace (Z.pos p * -1)%Z with (Z.neg p) by lia.
    destruct (Z.leb_spec int64_min (Z.neg p)), (Z.leb_spec (Z.neg p) int64_max); cbn; case_decide; done || lia.
Qed.

Section spec.
Context `{GoText} `{Parsers}.

(** ** Answers *)

(** The answer [res] is a fact of the subject of the request.  Over HTTP: read
    from the subject's pinned endpoint, in a body within bounds that is one
    object, which names the subject and states the time. *)
Record genuine_http (ou : Outside) (h : HTTPTyped) (req : Request) (res : Result) : Prop := {
  gh_value : exists ep field text tr raw,
    endpoint_of h req = Some ep /\ ep_Fields ep !! ak_Slot (rq_Key req) = Some field /\
    ou_exchange ou (ep_URL ep) = Responded 200 (Some text) /\ String.length text <= hp_maxBody h /\
    decode_response text = Some (tr, true) /\ ty_Subject tr = sj_ResolvedUID (rq_Subject req) /\
    parse_rfc3339 (ty_ObservedAt tr) = Some (res_ObservedAt res) /\
    (if bool_decide (ty_ValidUntil tr = "") then res_ValidUntil res = 0%Z
     else parse_rfc3339 (ty_ValidUntil tr) = Some (res_ValidUntil res)) /\
    ty_Values tr !! field = Some raw /\ typedValue raw = Some (res_Value res);
}.

(** From the API server: a readable count of the object itself, at a status that
    has caught up with its spec. *)
Record genuine_kube (ou : Outside) (fields : gmap string string) (req : Request) (res : Result) : Prop := {
  gk_value : exists g v allowed field obj gen n,
    parse_group_version (sj_APIVersion (rq_Subject req)) = Some (g, v) /\
    kubeStatusFields (g, v, sj_Kind (rq_Subject req)) = Some allowed /\
    fields !! ak_Slot (rq_Key req) = Some field /\ field ∈ allowed /\ rq_SlotType req = TypeInteger /\
    ou_get ou (g, v, sj_Kind (rq_Subject req)) (sj_Namespace (rq_Subject req), sj_Name (rq_Subject req)) = ReadObject obj /\
    so_UID obj = sj_ResolvedUID (rq_Subject req) /\ so_status obj "observedGeneration" = Int64 gen /\
    (so_Generation obj <= gen)%Z /\ (so_status obj field = Int64 n \/ so_status obj field = Absent /\ n = 0%Z) /\
    res_Value res = Int n /\ res_ObservedAt res = ou_now ou /\ res_ValidUntil res = 0%Z;
}.

Definition genuine (ou : Outside) (a : Adapter) (req : Request) (res : Result) : Prop :=
  match a with
  | HTTP h => genuine_http ou h req res
  | KubeStatus fields => genuine_kube ou fields req res
  end.

Lemma endpoint_subject h req ep : endpoint_of h req = Some ep -> ep ∈ hp_endpoints h /\ ep_SubjectUID ep = sj_ResolvedUID (rq_Subject req).
Proof. intros [Hin Hb]%find_Some_elem. by apply bool_decide_eq_true in Hb. Qed.

Lemma Observe_http_genuine ou h req :
  res_Unavailable (Observe_http (ou_exchange ou) h req) = "" -> genuine_http ou h req (Observe_http (ou_exchange ou) h req).
Proof.
  unfold Observe_http. destruct (endpoint_of h req) as [ep|] eqn:He; [|done].
  destruct (ep_Fields ep !! _) as [field|] eqn:Hf; [|done]. destruct (ou_exchange ou (ep_URL ep)) as [| |status body] eqn:Hx; [done..|].
  destruct (Z.eqb_spec status 200) as [->|]; cbn [negb]; [|done]. destruct body as [text|]; [|done]. cbv zeta.
  rewrite substring_length. destruct (Nat.ltb_spec (hp_maxBody h) (Nat.min (hp_maxBody h + 1) (String.length text))) as [|Hl]; [done|].
  rewrite substring_whole by lia. destruct (decode_response text) as [[tr []]|] eqn:Hd; [|done..].
  unfold read_response. destruct (bool_decide (ty_Subject tr = ep_SubjectUID ep)) eqn:Hs; cbn [negb]; [|done].
  apply bool_decide_eq_true in Hs. rewrite (proj2 (endpoint_subject _ _ _ He)) in Hs.
  destruct (parse_rfc3339 (ty_ObservedAt tr)) as [observed|] eqn:Ho; [|done].
  destruct (if bool_decide (ty_ValidUntil tr = "") then Some 0%Z else parse_rfc3339 (ty_ValidUntil tr)) as [until|] eqn:Hu; [|done].
  destruct (ty_Values tr !! field) as [raw|] eqn:Hr; [|done]. destruct (typedValue raw) as [v|] eqn:Hv; [|done]. intros _.
  constructor. exists ep, field, text, tr, raw. split_and!; try done; [lia|].
  destruct (bool_decide _); [by injection Hu|done].
Qed.

Lemma Observe_kube_genuine ou fields req :
  res_Unavailable (Observe_kube (ou_get ou) (ou_now ou) fields req) = "" ->
  genuine_kube ou fields req (Observe_kube (ou_get ou) (ou_now ou) fields req).
Proof.
  unfold Observe_kube. cbv zeta. destruct (parse_group_version _) as [[g v]|] eqn:Hgv; [|done].
  destruct (kubeStatusFields _) as [allowed|] eqn:Ha; [|done]. destruct (fields !! _) as [field|] eqn:Hf; [|done].
  destruct (bool_decide (field ∈ allowed)) eqn:Hin; cbn [negb]; [|done]. apply bool_decide_eq_true in Hin.
  destruct (bool_decide (rq_SlotType req = TypeInteger)) eqn:Ht; cbn [negb]; [|done]. apply bool_decide_eq_true in Ht.
  destruct (ou_get ou _ _) as [obj| |] eqn:Hg; [|done..].
  destruct (bool_decide (so_UID obj = _)) eqn:Hu; cbn [negb]; [|done]. apply bool_decide_eq_true in Hu.
  destruct (so_status obj "observedGeneration") as [|gen|] eqn:Ho; [done| |done].
  destruct (Z.ltb_spec gen (so_Generation obj)); [done|].
  destruct (so_status obj field) as [|n|] eqn:Hs; [| |done]; intros _; constructor.
  - exists g, v, allowed, field, obj, gen, 0%Z. split_and!; try done. by right.
  - exists g, v, allowed, field, obj, gen, n. split_and!; try done. by left.
Qed.

Lemma genuine_http_available ou h req res :
  genuine_http ou h req res -> res_Unavailable (Observe_http (ou_exchange ou) h req) = "".
Proof.
  intros [(ep & field & text & tr & raw & He & Hf & Hx & Hl & Hd & Hs & Ho & Hu & Hr & Hv)].
  unfold Observe_http. rewrite He, Hf, Hx. cbn [Z.eqb negb]. rewrite substring_whole by lia.
  destruct (Nat.ltb_spec (hp_maxBody h) (String.length text)); [lia|]. rewrite Hd. unfold read_response.
  rewrite bool_decide_eq_true_2 by (by rewrite Hs, (proj2 (endpoint_subject _ _ _ He))). cbn [negb]. rewrite Ho.
  destruct (bool_decide (ty_ValidUntil tr = "")); [|rewrite Hu]; by rewrite Hr, Hv.
Qed.

Lemma genuine_kube_available ou fields req res :
  genuine_kube ou fields req res -> res_Unavailable (Observe_kube (ou_get ou) (ou_now ou) fields req) = "".
Proof.
  intros [(g & v & allowed & field & obj & gen & n & Hgv & Ha & Hf & Hin & Ht & Hg & Hu & Ho & Hle & Hs & _)].
  unfold Observe_kube. rewrite Hgv. cbv zeta. rewrite Ha, Hf, bool_decide_eq_true_2 by done. cbn [negb].
  rewrite bool_decide_eq_true_2 by done. cbn [negb]. rewrite Hg, bool_decide_eq_true_2 by done. cbn [negb]. rewrite Ho.
  destruct (Z.ltb_spec gen (so_Generation obj)); [lia|]. by destruct Hs as [-> |[-> _]].
Qed.

(** C18. A provider answers with a value exactly when it read a genuine fact of
    the very subject of the request, the value being that fact; anything else is
    reported as unavailable.  And the observation made of an answer bears the
    key of the request, whatever the provider answered. *)
Theorem Observe_genuine ou a req :
  (res_Unavailable (Observe ou a req) = "" <-> exists res, genuine ou a req res) /\
  (res_Unavailable (Observe ou a req) = "" -> genuine ou a req (Observe ou a req)) /\
  forall at_, o_Key (observation_of req (Observe ou a req) at_) = rq_Key req /\
    (o_Outcome (observation_of req (Observe ou a req) at_) = OutcomeValue <-> res_Unavailable (Observe ou a req) = "").
Proof.
  assert (res_Unavailable (Observe ou a req) = "" -> genuine ou a req (Observe ou a req)) as Hg.
  { destruct a; [apply Observe_kube_genuine|apply Observe_http_genuine]. }
  split; [|split; [exact Hg|]].
  - split; [intros Hr; eexists; by apply Hg|]. intros [res Hres]. destruct a; [by eapply genuine_kube_available|by eapply genuine_http_available].
  - intros at_. unfold observation_of. destruct (res_Unavailable (Observe ou a req)); cbn; done.
Qed.

(** ** The registry *)

(** The adapter of a configuration, if it configures exactly one that is
    valid. *)
Definition adapter_of (c : ProvidersConfig) (reader : bool) (timeout : Duration) (maxBody : Z) (pc : ProviderConfig) : option Adapter :=
  match pg_KubernetesStatus pc, pg_HTTP pc with
  | Some fields, None => if reader then Some (KubeStatus fields) else None
  | None, Some endpoints => HTTP <$> NewHTTPTyped (pi_Name (config_identity pc)) endpoints (pf_HTTP c) timeout maxBody
  | _, _ => None
  end.

Definition complete (pc : ProviderConfig) : Prop := pg_Namespace pc <> "" /\ pg_Name pc <> "" /\ pg_ConfigRevision pc <> "".

Lemma register_ok c reader timeout maxBody ps pc ps' :
  register c reader timeout maxBody ps pc = inr ps' <->
  complete pc /\ ps !! config_identity pc = None /\
  exists a, adapter_of c reader timeout maxBody pc = Some a /\ ps' = <[config_identity pc := a]> ps.
Proof.
  unfold register, complete, adapter_of. cbv zeta.
  destruct (bool_decide (pg_Namespace pc = "")) eqn:H1'; [apply bool_decide_eq_true in H1'; naive_solver|apply bool_decide_eq_false in H1'].
  destruct (bool_decide (pg_Name pc = "")) eqn:H2'; [apply bool_decide_eq_true in H2'; naive_solver|apply bool_decide_eq_false in H2'].
  destruct (bool_decide (pg_ConfigRevision pc = "")) eqn:H3'; [apply bool_decide_eq_true in H3'; naive_solver|apply bool_decide_eq_false in H3'].
  cbn [orb]. destruct (ps !! config_identity pc) as [a|] eqn:Hl.
  { rewrite bool_decide_eq_true_2 by done. naive_solver. }
  rewrite bool_decide_eq_false_2 by by intros [? ?].
  destruct (pg_KubernetesStatus pc), (pg_HTTP pc); try naive_solver; [destruct reader; naive_solver|].
  destruct (NewHTTPTyped _ _ _ _ _); naive_solver.
Qed.

(** What the list of providers must be, given the limits. *)
Definition well_configured (c : ProvidersConfig) (reader : bool) (timeout : Duration) (maxBody : Z)
    (pcs : list ProviderConfig) : Prop :=
  NoDup (config_identity <$> pcs) /\
  forall pc, pc ∈ pcs -> complete pc /\ is_Some (adapter_of c reader timeout maxBody pc).

Lemma register_all_ok c reader timeout maxBody pcs ps :
  (forall pc, pc ∈ pcs -> ps !! config_identity pc = None) -> well_configured c reader timeout maxBody pcs ->
  exists ps', register_all c reader timeout maxBody pcs ps = inr ps'.
Proof.
  revert ps. induction pcs as [|pc pcs IH]; intros ps Hnew [Hnd Hall]; cbn; [by eexists|].
  apply NoDup_cons in Hnd as [Hni Hnd]. destruct (Hall pc ltac:(by left)) as [Hc [a Ha]].
  rewrite (proj2 (register_ok c reader timeout maxBody ps pc (<[config_identity pc := a]> ps))).
  - apply IH; [|split; [done|]; intros pc' Hin; apply Hall; by right]. intros pc' Hin. rewrite lookup_insert_ne; [apply Hnew; by right|].
    intros Heq. apply Hni. rewrite Heq. by apply list_elem_of_fmap_2.
  - split; [done|]. split; [apply Hnew; by left|]. by exists a.
Qed.

Lemma register_all_inv c reader timeout maxBody pcs ps ps' :
  register_all c reader timeout maxBody pcs ps = inr ps' ->
  well_configured c reader timeout maxBody pcs /\ (forall pc, pc ∈ pcs -> ps !! config_identity pc = None) /\
  forall id a, ps' !! id = Some a <->
    ps !! id = Some a \/ exists pc, pc ∈ pcs /\ config_identity pc = id /\ adapter_of c reader timeout maxBody pc = Some a.
Proof.
  revert ps. induction pcs as [|pc pcs IH]; intros ps; cbn.
  - intros [= <-]. split; [split; [constructor|by intros; nil_elem]|]. split; [by intros; nil_elem|]. intros id a.
    split; [by left|]. intros [?|(pc & Hpc & _)]; [done|nil_elem].
  - destruct (register _ _ _ _ _ _) as [e|ps1] eqn:Hr; [done|]. apply register_ok in Hr as (Hc & Hn & a1 & Ha & ->).
    intros ([Hnd Hall] & Hnew & Hl)%IH. split; [|split].
    + split.
      * apply NoDup_cons. split; [|done]. intros (pc' & Heq & Hin)%list_elem_of_fmap. specialize (Hnew _ Hin). by rewrite <- Heq, lookup_insert_eq in Hnew.
      * intros pc' [->|Hin]%elem_of_cons; [|by apply Hall]. split; [done|by exists a1].
    + intros pc' [->|Hin]%elem_of_cons; [done|]. specialize (Hnew _ Hin). by apply lookup_insert_None in Hnew as [? _].
    + intros id a. rewrite Hl, lookup_insert_Some. setoid_rewrite elem_of_cons. split.
      * intros [[[<- <-]|[_ ?]]|(pc' & ? & ? & ?)]; [right; exists pc; auto|by left|right; exists pc'; auto].
      * intros [Hid|(pc' & [->|Hin] & <- & Ha')].
        -- left. right. split; [|done]. intros <-. congruence.
        -- left. left. split; congruence.
        -- right. by exists pc'.
Qed.

Lemma per_call_timeout_bounds c timeout : per_call_timeout c = inr timeout -> (0 < timeout <= MaxPerCallTimeout)%Z.
Proof.
  unfold per_call_timeout. destruct (pf_Limits c) as [l|]; [|by intros [= <-]].
  destruct (bool_decide _); [by intros [= <-]|]. destruct (parse_duration _) as [d|]; [|done].
  destruct (Z.leb_spec d 0); cbn [orb]; [done|]. destruct (Z.ltb_spec MaxPerCallTimeout d); [done|]. intros [= <-]. lia.
Qed.

(** A registry is built exactly from a configuration whose limits are in
    range, whose identities are complete and distinct, and where every provider
    sets one valid adapter; and it holds, under each identity, that adapter, and
    nothing else. *)
Theorem BuildRegistry_spec c reader :
  ((exists ps, BuildRegistry c reader = inr ps) <->
   exists timeout maxBody, per_call_timeout c = inr timeout /\ max_body c = inr maxBody /\
     well_configured c reader timeout maxBody (pf_Providers c)) /\
  forall ps, BuildRegistry c reader = inr ps -> exists timeout maxBody,
    (0 < timeout <= MaxPerCallTimeout)%Z /\ (0 < maxBody <= MaxBodyBytesCap)%Z /\
    forall id a, ps !! id = Some a <->
      exists pc, pc ∈ pf_Providers c /\ config_identity pc = id /\ adapter_of c reader timeout maxBody pc = Some a.
Proof.
  assert (forall maxBody, max_body c = inr maxBody -> (0 < maxBody <= MaxBodyBytesCap)%Z) as Hbody.
  { intros maxBody. unfold max_body. destruct (pf_Limits c) as [l|]; [|by intros [= <-]].
    destruct (Z.eqb_spec (lo_MaxResponseByte l) 0); cbn [negb]; [by intros [= <-]|].
    destruct (Z.ltb_spec (lo_MaxResponseByte l) 0); cbn [orb]; [done|].
    destruct (Z.ltb_spec MaxBodyBytesCap (lo_MaxResponseByte l)); [done|]. intros [= <-]. lia. }
  unfold BuildRegistry. destruct (per_call_timeout c) as [e|timeout] eqn:Et; [naive_solver|].
  destruct (max_body c) as [e|maxBody]; [naive_solver|]. split; [split|].
  - intros [ps Hps]. exists timeout, maxBody. split; [done|]. split; [done|]. by apply register_all_inv in Hps as [Hw _].
  - intros (t & m & [= <-] & [= <-] & Hw). apply register_all_ok; [|done]. intros pc _. apply lookup_empty.
  - intros ps Hps. exists timeout, maxBody. split; [by eapply per_call_timeout_bounds|]. split; [by apply Hbody|]. intros id a.
    apply register_all_inv in Hps as (_ & _ & Hl). rewrite Hl, lookup_empty. naive_solver.
Qed.
End spec.
