(* ===== verification/DemoAdapters.v ===== *)
(** * A provider, asked *)

From S2P Require Import Prelude Identity Predicate Contract Assessment Candidates.
From S2P Require Import Adapters.

(** Parsers that know the texts used here. *)
#[export] Instance demo_parsers : Parsers := {|
  parse_url u := Some (Build_Url "https" "facts.example" "facts.example" false "");
  parse_ip _ := None;
  decode_response text :=
    if decide (text = "two") then Some (Build_TypedResponse "uid" "t" "" {["ready" := "12"]}, false)
    else if decide (text = "other") then Some (Build_TypedResponse "stranger" "t" "" {["ready" := "12"]}, true)
    else Some (Build_TypedResponse "uid" "t" "" {["ready" := text]}, true);
  decode_scalar raw := Some (JNumber raw);
  parse_rfc3339 _ := Some 7%Z;
  parse_duration _ := Some Second;
  parse_group_version v := Some ("apps", v);
|}.

Definition demo_endpoint : HTTPEndpoint := Build_HTTPEndpoint "uid" "https://facts.example/api" {["replicas" := "ready"]}.

Definition demo_http : HTTPTyped := Build_HTTPTyped "ns/facts" [demo_endpoint] 8.

Definition demo_ask : Request :=
  Build_Request (Build_ApplicabilityKey (Build_TargetIdentity "ns" "db" "db-uid") "uid"
    (Build_ContractIdentity "ns" "db" "c" "d") "replicas" (Build_ProviderIdentity "ns/facts" "1"))
    (Build_ProviderSubject "ns" "v1" "Deployment" "db" "uid") TypeInteger.

Definition demo_outside (body : string) : Outside :=
  Build_Outside (fun _ _ => ReadObject (Build_StatusObject "uid" 3 (fun f =>
      if decide (f = "observedGeneration") then Int64 3 else if decide (f = "readyReplicas") then Int64 2 else Absent)))
    (fun _ => Responded 200 (Some body)) 9.

(** A value; trailing text; another subject; a fraction; too much text. *)
Example demo_answers :
  (fun body => let r := Observe (demo_outside body) (HTTP demo_http) demo_ask in (v_Int (res_Value r), res_Unavailable r)) <$>
    ["12"; "two"; "other"; "1.0"; "123456789"] =
  [(12%Z, ""); (0%Z, "malformed-response"); (0%Z, "subject-mismatch"); (0%Z, "malformed-value"); (0%Z, "body-too-large")].
Proof. vm_compute. reflexivity. Qed.

(** The API server: a count, an absent count, a field that is not readable. *)
Example demo_counts :
  (fun field => let r := Observe (demo_outside "") (KubeStatus {["replicas" := field]}) demo_ask in
                (v_Int (res_Value r), res_Unavailable r)) <$> ["readyReplicas"; "updatedReplicas"; "observedGeneration"] =
  [(2%Z, ""); (0%Z, ""); (0%Z, "slot-not-configured")].
Proof. vm_compute. reflexivity. Qed.

Lemma Observe_genuine_witness :
  genuine (demo_outside "12") (HTTP demo_http) demo_ask (Observe (demo_outside "12") (HTTP demo_http) demo_ask).
Proof. apply (proj1 (proj2 (Observe_genuine (demo_outside "12") (HTTP demo_http) demo_ask))). vm_compute. reflexivity. Defined.
