(* ===== verification/Process.v ===== *)
(** * Go processes: functions that return, exit or panic

    The commands of the repository print, run other programs, write files and
    may end the process.  A [prog] threads a state and says how it ended;
    os.Exit ends the process without the deferred calls, a panic and a return
    run them. *)

From S2P Require Import Prelude.

Inductive ending (A : Type) :=
  | Returned (x : A)
  | Exited (status : Z)
  | Panicked (why : string).
Arguments Returned {A}. Arguments Exited {A}. Arguments Panicked {A}.

Definition prog (S A : Type) : Type := S -> ending A * S.

#[export] Instance prog_ret (S : Type) : MRet (prog S) := fun A x s => (Returned x, s).
#[export] Instance prog_bind (S : Type) : MBind (prog S) := fun A B f m s =>
  match m s with
  | (Returned x, s) => f x s
  | (Exited n, s) => (Exited n, s)
  | (Panicked why, s) => (Panicked why, s)
  end.

Definition ask {S A} (f : S -> A) : prog S A := fun s => (Returned (f s), s).
Definition update {S} (f : S -> S) : prog S unit := fun s => (Returned tt, f s).
Definition exit {S A} (status : Z) : prog S A := fun s => (Exited status, s).
Definition panic {S A} (why : string) : prog S A := fun s => (Panicked why, s).

(** [defer cleanup] at the top of a function with the rest of its body. *)
Definition deferring {S A} (cleanup : prog S unit) (body : prog S A) : prog S A := fun s =>
  match body s with
  | (Exited n, s) => (Exited n, s)
  | (Returned x, s) => (_ ← cleanup; mret x) s
  | (Panicked why, s) => (_ ← cleanup; panic why) s
  end.

(** [for _, x := range l] with an accumulator. *)
Fixpoint fold_prog {S A B} (f : A -> B -> prog S A) (acc : A) (l : list B) : prog S A :=
  match l with
  | [] => mret acc
  | x :: l => acc ← f acc x; fold_prog f acc l
  end.

(** The same for a body that may break out of the loop. *)
Inductive turn (A : Type) := Continue (acc : A) | Break (acc : A).
Arguments Continue {A}. Arguments Break {A}.

Fixpoint loop_prog {S A B} (f : A -> B -> prog S (turn A)) (acc : A) (l : list B) : prog S A :=
  match l with
  | [] => mret acc
  | x :: l => t ← f acc x; match t with Continue acc => loop_prog f acc l | Break acc => mret acc end
  end.

Definition when {S} (b : bool) (m : prog S unit) : prog S unit := if b then m else mret tt.

(** A program in a scope with a variable of its own. *)
Definition lift {S V A} (m : prog S A) : prog (S * V) A := fun '(s, v) => let '(e, s') := m s in (e, (s', v)).

Definition with_var {S V A} (v : V) (m : prog (S * V) A) : prog S A := fun s => let '(e, (s', _)) := m (s, v) in (e, s').

(** How a process that ran main to this point ends: its exit status. *)
Definition exit_status {A} (e : ending A) : Z :=
  match e with Returned _ => 0 | Exited n => n | Panicked _ => 2 end.

(** * Lemmas *)
Section laws.
Context {S : Type}.

Lemma bind_returned {A B} (m : prog S A) (f : A -> prog S B) s y s' :
  (m ≫= f) s = (Returned y, s') <-> exists x s1, m s = (Returned x, s1) /\ f x s1 = (Returned y, s').
Proof. unfold mbind, prog_bind. destruct (m s) as [[x|n|why] s1]; naive_solver. Qed.

(** One step of a program. *)
Lemma bind_run {A B} (m : prog S A) (f : A -> prog S B) s :
  (m ≫= f) s =
  match m s with (Returned x, s1) => f x s1 | (Exited n, s1) => (Exited n, s1) | (Panicked w, s1) => (Panicked w, s1) end.
Proof. done. Qed.

Lemma ret_run {A} (x : A) s : (mret x : prog S A) s = (Returned x, s).
Proof. done. Qed.

Lemma ask_run {A} (f : S -> A) s : ask f s = (Returned (f s), s).
Proof. done. Qed.

Lemma exit_run {A} n s : (exit n : prog S A) s = (Exited n, s).
Proof. done. Qed.

Lemma panic_run {A} w s : (panic w : prog S A) s = (Panicked w, s).
Proof. done. Qed.

Lemma bind_assoc {A B C} (m : prog S A) (f : A -> prog S B) (g : B -> prog S C) s :
  ((m ≫= f) ≫= g) s = (m ≫= (fun x => f x ≫= g)) s.
Proof. unfold mbind, prog_bind. by destruct (m s) as [[x|n|why] s1]. Qed.

End laws.

(** ** Programs that keep a reflexive and transitive relation of states, and
    exit only to report a failure *)
Definition fails {A} (e : ending A) : Prop := match e with Exited n => n = 1%Z | _ => True end.

Definition keeps {S A} (R : relation S) (m : prog S A) : Prop := forall s, R s (m s).2 /\ fails (m s).1.

Section keeps.
Context {S : Type} (R : relation S) `{!PreOrder R}.

Lemma keeps_ret {A} (x : A) : keeps R (mret x : prog S A).
Proof. intros s. cbn. split; [reflexivity|done]. Qed.

Lemma keeps_ask {A} (f : S -> A) : keeps R (ask f).
Proof. intros s. cbn. split; [reflexivity|done]. Qed.

Lemma keeps_exit {A} : keeps R (exit 1 : prog S A).
Proof. intros s. cbn. split; [reflexivity|done]. Qed.

Lemma keeps_panic {A} w : keeps R (panic w : prog S A).
Proof. intros s. cbn. split; [reflexivity|done]. Qed.

Lemma keeps_update f : (forall s, R s (f s)) -> keeps R (update f).
Proof. intros Hf s. by split; [apply Hf|]. Qed.

Lemma keeps_bind {A B} (m : prog S A) (f : A -> prog S B) :
  keeps R m -> (forall x, keeps R (f x)) -> keeps R (m ≫= f).
Proof.
  intros Hm Hf s. specialize (Hm s). unfold mbind, prog_bind. destruct (m s) as [[x|n|w] s1]; cbn in *; [|done..].
  destruct (Hf x s1). split; [|done]. by etrans; [apply Hm|].
Qed.

Lemma keeps_when b (m : prog S unit) : keeps R m -> keeps R (when b m).
Proof. intros Hm. destruct b; [exact Hm|apply keeps_ret]. Qed.

Lemma keeps_fold {A B} (f : A -> B -> prog S A) acc l :
  (forall acc x, x ∈ l -> keeps R (f acc x)) -> keeps R (fold_prog f acc l).
Proof.
  revert acc. induction l as [|x l IH]; intros acc Hf; cbn; [apply keeps_ret|].
  apply keeps_bind; [apply Hf; left|]. intros acc'. apply IH. intros. apply Hf. by right.
Qed.

Lemma keeps_loop {A B} (f : A -> B -> prog S (turn A)) acc l :
  (forall acc x, x ∈ l -> keeps R (f acc x)) -> keeps R (loop_prog f acc l).
Proof.
  revert acc. induction l as [|x l IH]; intros acc Hf; cbn; [apply keeps_ret|].
  apply keeps_bind; [apply Hf; left|]. intros [acc'|acc']; [|apply keeps_ret]. apply IH. intros. apply Hf. by right.
Qed.
End keeps.

Create Rewrite HintDb run.
#[export] Hint Rewrite @bind_run @ret_run @ask_run @exit_run @panic_run : run.

(** Runs a program as far as its answers are known. *)
Ltac running := repeat (progress (autorewrite with run; cbn beta match)).
Ltac running_in H := repeat (progress (autorewrite with run in H; cbn beta match in H)).

(** The programs of a development that are known to keep a relation. *)
Create HintDb prog.

(** Goes through a program: binds, choices, and the parts known to keep the
    relation. *)
Ltac keeping_step :=
  match goal with
  | |- keeps ?R (@mbind _ _ _ _ _ _) => apply (keeps_bind R); [|intros ?]
  | |- keeps ?R (@mret _ _ _ _) => apply (keeps_ret R)
  | |- keeps ?R (ask _) => apply (keeps_ask R)
  | |- keeps ?R (exit 1) => apply (keeps_exit R)
  | |- keeps ?R (panic _) => apply (keeps_panic R)
  | |- keeps ?R (when _ _) => apply (keeps_when R)
  | |- keeps ?R (fold_prog _ _ _) => apply (keeps_fold R); intros ? ? _
  | |- keeps ?R (loop_prog _ _ _) => apply (keeps_loop R); intros ? ? _
  | |- keeps _ (match ?x with _ => _ end) => destruct x
  | |- keeps _ _ => solve [auto with prog]
  end.
Ltac keeping := repeat keeping_step.

(** Takes a returned bind apart. *)
Ltac returned :=
  repeat match goal with
  | H : @mbind _ _ _ _ _ _ _ = (Returned _, _) |- _ => apply bind_returned in H; destruct H as (? & ? & ? & ?)
  | H : @mret _ _ _ _ _ = (Returned _, _) |- _ => injection H; clear H; intros; subst
  | H : ask _ _ = (Returned _, _) |- _ => injection H; clear H; intros; subst
  | H : exit _ _ = (Returned _, _) |- _ => discriminate H
  | H : panic _ _ = (Returned _, _) |- _ => discriminate H
  end.

(** ** Programs that never panic *)
Definition safe {S A} (m : prog S A) : Prop := forall s, match (m s).1 with Panicked _ => False | _ => True end.

Section safe.
Context {S : Type}.

Lemma safe_ret {A} (x : A) : safe (mret x : prog S A). Proof. by intros s. Qed.
Lemma safe_ask {A} (f : S -> A) : safe (ask f). Proof. by intros s. Qed.
Lemma safe_exit {A} n : safe (exit n : prog S A). Proof. by intros s. Qed.
Lemma safe_update f : safe (update f : prog S unit). Proof. by intros s. Qed.

Lemma safe_bind {A B} (m : prog S A) (f : A -> prog S B) : safe m -> (forall x, safe (f x)) -> safe (m ≫= f).
Proof. intros Hm Hf s. specialize (Hm s). rewrite bind_run. destruct (m s) as [[x|n|w] s1]; [apply Hf|done|done]. Qed.

Lemma safe_when b (m : prog S unit) : safe m -> safe (when b m).
Proof. intros Hm. destruct b; [exact Hm|apply safe_ret]. Qed.

Lemma safe_fold {A B} (f : A -> B -> prog S A) acc l : (forall acc x, safe (f acc x)) -> safe (fold_prog f acc l).
Proof. intros Hf. revert acc. induction l; intros acc; cbn; [apply safe_ret|]. by apply safe_bind. Qed.

Lemma safe_lift {V A} (m : prog S A) : safe m -> safe (lift m : prog (S * V) A).
Proof. intros Hm [s v]. specialize (Hm s). unfold lift. by destruct (m s) as [[x|n|w] s1]. Qed.

Lemma safe_deferring {A} (cleanup : prog S unit) (body : prog S A) : safe cleanup -> safe body -> safe (deferring cleanup body).
Proof.
  intros Hc Hb s. specialize (Hb s). unfold deferring. destruct (body s) as [[x|n|w] s1]; [|done|done].
  rewrite bind_run. specialize (Hc s1). by destruct (cleanup s1) as [[u|n|w] s2].
Qed.

Lemma safe_with_var {V A} (v : V) (m : prog (S * V) A) : safe m -> safe (with_var v m).
Proof. intros Hm s. specialize (Hm (s, v)). unfold with_var. by destruct (m (s, v)) as [[x|n|w] [s1 v1]]. Qed.
End safe.

Ltac safely_step :=
  match goal with
  | |- safe (@mbind _ _ _ _ _ _) => apply safe_bind; [|intros ?]
  | |- safe (@mret _ _ _ _) => apply safe_ret
  | |- safe (ask _) => apply safe_ask
  | |- safe (exit _) => apply safe_exit
  | |- safe (update _) => apply safe_update
  | |- safe (when _ _) => apply safe_when
  | |- safe (lift _) => apply safe_lift
  | |- safe (deferring _ _) => apply safe_deferring
  | |- safe (with_var _ _) => apply safe_with_var
  | |- safe (fold_prog _ _ _) => apply safe_fold; intros ? ?
  | |- safe (match ?x with _ => _ end) => destruct x
  | |- safe _ => solve [auto with prog]
  end.
Ltac safely := repeat safely_step.
