(* ===== verification/Gate.v ===== *)
(** * Gate results and their policy (pkg/verification): definitions

    provider.go decides what a gate result means, version.go reads the version
    of the gate.  Running the gate itself (kubeslint.go) is in GateRun.v.  Gate
    results and policies are strings, since any text can be read from a file. *)

From S2P Require Import Prelude Text Release ReleaseSpec.
From Stdlib Require Import Ascii.

(** ** provider.go *)
Definition FailOnNever : string := "NEVER".
Definition FailOnFail : string := "FAIL".
Definition FailOnFailOrNoGrade : string := "FAIL_OR_NOGRADE".
Definition FailOnWarn : string := "WARN".

Definition GateResultPass : string := "PASS".
Definition GateResultWarn : string := "WARN".
Definition GateResultNoGrade : string := "NO_GRADE".
Definition GateResultFail : string := "FAIL".

Definition severity (g : string) : Z :=
  if bool_decide (g = GateResultPass) then 0
  else if bool_decide (g = GateResultWarn) then 1
  else if bool_decide (g = GateResultNoGrade) then 2
  else if bool_decide (g = GateResultFail) then 3
  else 2.

Definition Max (a b : string) : string := if Z.leb (severity b) (severity a) then a else b.

Definition fail_or_no_grade (result : string) : bool :=
  bool_decide (result = GateResultFail) || bool_decide (result = GateResultNoGrade).

Definition IsBlocking (result failOn : string) : bool :=
  if bool_decide (failOn = FailOnNever) then false
  else if bool_decide (failOn = FailOnFail) then bool_decide (result = GateResultFail)
  else if bool_decide (failOn = FailOnFailOrNoGrade) then fail_or_no_grade result
  else if bool_decide (failOn = FailOnWarn) then Z.leb (severity GateResultWarn) (severity result)
  else fail_or_no_grade result.

(** ** version.go *)
Definition RequiredSlintGateVersion : string := "1.2.0".

(** *** fmt.Sscanf with %d and a literal byte *)

(** [None] is an error; a newline is one where a number is wanted. *)
Fixpoint skip_space (rs : list rune) : option (list rune) :=
  match rs with
  | [] => Some []
  | r :: rs' =>
      if N.eqb (code r) 13 && bool_decide (head (code <$> rs') = Some 10%N) then skip_space rs'
      else if N.eqb (code r) 10 then None
      else if is_space r then skip_space rs' else Some rs
  end.

Definition is_digit (r : rune) : bool := N.leb 48 (code r) && N.leb (code r) 57.

(** The longest prefix of digits, and the rest. *)
Fixpoint span_digits (rs : list rune) : list rune * list rune :=
  match rs with
  | [] => ([], [])
  | r :: rs' => if is_digit r then let '(ds, rest) := span_digits rs' in (r :: ds, rest) else ([], rs)
  end.

Definition scan_sign (rs : list rune) : Z * list rune :=
  match rs with
  | r :: rs' => if N.eqb (code r) 45 then ((-1)%Z, rs') else if N.eqb (code r) 43 then (1%Z, rs') else (1%Z, rs)
  | [] => (1%Z, [])
  end.

(** An int in decimal, which fails when it does not fit an int64. *)
Definition scan_int (rs : list rune) : option (Z * list rune) :=
  rs ← skip_space rs;
  let '(sign, rs) := scan_sign rs in
  let '(ds, rest) := span_digits rs in
  n ← parse_digits (text ds);
  let z := (sign * n)%Z in
  if Z.leb int64_min z && Z.leb z int64_max then Some (z, rest) else None.

Definition scan_byte (c : N) (rs : list rune) : option (list rune) :=
  match rs with r :: rs => if N.eqb (code r) c then Some rs else None | [] => None end.

(** What Sscanf could not read keeps the value 0. *)
Definition parseSemver (v : string) : Z * Z * Z :=
  match scan_int (runes (trim_prefix "v" v)) with
  | None => (0, 0, 0)%Z
  | Some (major, rs) =>
      match (rs ← scan_byte 46 rs; scan_int rs) with
      | None => (major, 0, 0)%Z
      | Some (minor, rs) =>
          match (rs ← scan_byte 46 rs; scan_int rs) with
          | None => (major, minor, 0)%Z
          | Some (patch, _) => (major, minor, patch)
          end
      end
  end.

Definition versionSufficient (detected required : string) : bool :=
  let '(d0, d1, d2) := parseSemver detected in
  let '(r0, r1, r2) := parseSemver required in
  if negb (Z.eqb d0 r0) then Z.ltb r0 d0
  else if negb (Z.eqb d1 r1) then Z.ltb r1 d1
  else Z.leb r2 d2.

(** [output]: what `slint-gate version` printed, or why it could not be run. *)
Definition CheckSlintGateVersion (bin : string) (output : string + string) : string * option string :=
  match output with
  | inl err =>
      ("", Some (bin +:+ " version: binary not found or does not support 'version' subcommand — install slint-gate v" +:+
                 RequiredSlintGateVersion +:+ "+: " +:+ err))
  | inr out =>
      match last (Fields (TrimSpace out)) with
      | None => ("", Some "slint-gate version: empty output")
      | Some detected =>
          (detected,
           if versionSufficient detected RequiredSlintGateVersion then None
           else Some ("slint-gate " +:+ detected +:+ " detected, require v" +:+ RequiredSlintGateVersion +:+
                      "+ — K0-K5 features unavailable"))
      end
  end.

(** ** kubeslint.go: the file the gate writes *)

(** The fields gate_result and overall_message of the file, or why it cannot be
    read or decoded. *)
Definition readGateSummary (file : string + string * string) : string + string * string :=
  match file with
  | inl err => inl err
  | inr (result, message) => inr (if bool_decide (result = "") then GateResultNoGrade else result, message)
  end.

(** * Lemmas *)

(** ** Severity *)
Lemma severity_bounds g : (0 <= severity g <= 3)%Z.
Proof. unfold severity. repeat case_bool_decide; lia. Qed.

Lemma severity_fail g : (3 <= severity g)%Z <-> g = GateResultFail.
Proof. unfold severity. repeat case_bool_decide; subst; split; try done; try lia. Qed.

Lemma severity_pass g : (severity g <= 0)%Z <-> g = GateResultPass.
Proof. unfold severity. repeat case_bool_decide; subst; split; try done; try lia. Qed.

Lemma severity_Max a b : severity (Max a b) = Z.max (severity a) (severity b).
Proof. unfold Max. destruct (Z.leb_spec (severity b) (severity a)); lia. Qed.

Lemma Max_choice a b : Max a b = a \/ Max a b = b.
Proof. unfold Max. case_match; auto. Qed.

Lemma Max_assoc a b c : Max a (Max b c) = Max (Max a b) c.
Proof.
  unfold Max.
  destruct (Z.leb_spec (severity c) (severity b)), (Z.leb_spec (severity b) (severity a));
    repeat match goal with |- context [Z.leb ?x ?y] => destruct (Z.leb_spec x y) end; try done; lia.
Qed.

(** The worst of a list of results, from the left. *)
Definition worst (gs : list string) : string := foldl Max GateResultPass gs.

Lemma severity_foldl_Max a gs : (severity a <= severity (foldl Max a gs))%Z /\
  (forall g, g ∈ gs -> severity g <= severity (foldl Max a gs))%Z /\ (foldl Max a gs = a \/ foldl Max a gs ∈ gs).
Proof.
  revert a. induction gs as [|g gs IH]; intros a; cbn [foldl].
  - split; [lia|]. split; [|by left]. intros g Hg. nil_elem.
  - destruct (IH (Max a g)) as (H1 & H2 & H3). rewrite severity_Max in H1. split; [lia|]. split.
    + intros g' [->|Hg]%elem_of_cons; [lia|by apply H2].
    + destruct H3 as [->|H3]; [|right; by right]. destruct (Max_choice a g) as [->| ->]; [by left|right; left].
Qed.

Lemma foldl_Max_fail a gs : foldl Max a gs = GateResultFail <-> a = GateResultFail \/ GateResultFail ∈ gs.
Proof.
  destruct (severity_foldl_Max a gs) as (H1 & H2 & H3). split.
  - intros E. rewrite E in H3. destruct H3 as [->|?]; auto.
  - intros [->|Hg]; apply severity_fail; [exact H1|exact (H2 _ Hg)].
Qed.

Lemma foldl_Max_pass a gs :
  foldl Max a gs = GateResultPass <-> a = GateResultPass /\ Forall (eq GateResultPass) gs.
Proof.
  destruct (severity_foldl_Max a gs) as (H1 & H2 & H3). rewrite Forall_forall. split.
  - intros E. rewrite E in H1, H2. split; [by apply severity_pass|]. intros g Hg. symmetry. by apply severity_pass, H2.
  - intros [-> Hgs]. destruct H3 as [->|H3]; [done|]. by rewrite <- (Hgs _ H3).
Qed.

(** ** Blocking *)

(** The results the code knows. *)
Definition known (g : string) : Prop := g ∈ [GateResultPass; GateResultWarn; GateResultNoGrade; GateResultFail].

(** The severity from which a policy blocks: none for NEVER. *)
Definition threshold (failOn : string) : option Z :=
  if bool_decide (failOn = FailOnNever) then None
  else if bool_decide (failOn = FailOnFail) then Some 3%Z
  else if bool_decide (failOn = FailOnWarn) then Some 1%Z else Some 2%Z.

#[export] Instance known_dec g : Decision (known g).
Proof. unfold known. apply _. Defined.

Lemma IsBlocking_threshold g f :
  known g -> IsBlocking g f = match threshold f with Some t => Z.leb t (severity g) | None => false end.
Proof.
  intros Hg. unfold known in Hg. repeat (apply elem_of_cons in Hg as [->|Hg]); [..|by apply not_elem_of_nil in Hg];
    unfold IsBlocking, threshold; repeat case_bool_decide; subst; done.
Qed.

Lemma known_foldl_Max a gs : known a -> Forall known gs -> known (foldl Max a gs).
Proof.
  revert a. induction gs as [|g gs IH]; intros a Ha Hgs; [done|]. apply Forall_cons in Hgs as [Hg Hgs]. cbn.
  apply IH; [|done]. by destruct (Max_choice a g) as [->| ->].
Qed.

(** Combining the results of several gates and then applying a policy is
    applying it to each: one result that blocks is enough. *)
Lemma IsBlocking_foldl_Max a gs f :
  known a -> Forall known gs -> IsBlocking (foldl Max a gs) f = existsb (fun g => IsBlocking g f) (a :: gs).
Proof.
  revert a. induction gs as [|g gs IH]; intros a Ha Hgs; cbn [foldl existsb]; [by rewrite orb_false_r|].
  apply Forall_cons in Hgs as [Hg Hgs]. rewrite IH; [|by destruct (Max_choice a g) as [->| ->]|done].
  cbn [existsb]. rewrite orb_assoc. f_equal.
  rewrite !IsBlocking_threshold by (done || by destruct (Max_choice a g) as [->| ->]).
  destruct (threshold f) as [t|]; [|done]. rewrite severity_Max.
  destruct (Z.leb_spec t (severity a)), (Z.leb_spec t (severity g)), (Z.leb_spec t (Z.max (severity a) (severity g))); try done; lia.
Qed.

(** ** Versions *)

(** Lexicographic order of the numbers. *)
Definition at_least (d r : Z * Z * Z) : Prop :=
  (r.1.1 < d.1.1 \/ (r.1.1 = d.1.1 /\ (r.1.2 < d.1.2 \/ (r.1.2 = d.1.2 /\ r.2 <= d.2))))%Z.

Lemma versionSufficient_iff d r : versionSufficient d r = true <-> at_least (parseSemver d) (parseSemver r).
Proof.
  unfold versionSufficient, at_least. destruct (parseSemver d) as [[d0 d1] d2], (parseSemver r) as [[r0 r1] r2]. cbn [fst snd].
  destruct (Z.eqb_spec d0 r0), (Z.eqb_spec d1 r1); cbn [negb]; rewrite ?Z.ltb_lt, ?Z.leb_le; lia.
Qed.

Lemma digit_ascii a : (48 <= Z.of_nat (nat_of_ascii a) <= 57)%Z -> (48 <= N_of_ascii a <= 57)%N.
Proof. unfold nat_of_ascii. lia. Qed.

Lemma span_digits_app s t :
  all_digits s -> match t with [] => True | r :: _ => is_digit r = false end ->
  exists ds, span_digits (runes s ++ t) = (ds, t) /\ text ds = s.
Proof.
  intros Hs Ht. induction s as [|a s IH].
  - exists []. destruct t as [|r t]; [done|]. cbn. by rewrite Ht.
  - destruct Hs as [Ha Hs]. apply digit_ascii in Ha. destruct (IH Hs) as (ds & Hd & Htxt).
    exists (ascii_rune a :: ds). rewrite runes_ascii by lia. cbn [app span_digits]. rewrite Hd.
    unfold is_digit. cbn [ascii_rune code]. destruct Ha as [H1%N.leb_le H2%N.leb_le]. rewrite H1, H2. cbn [andb].
    split; [done|]. by rewrite <- Htxt.
Qed.

Lemma scan_pretty (x : N) t :
  (Z.of_N x <= int64_max)%Z -> match t with [] => True | r :: _ => is_digit r = false end ->
  scan_int (runes (pretty x) ++ t) = Some (Z.of_N x, t).
Proof.
  intros Hx Ht. pose proof (all_digits_pretty x) as Hd. destruct (span_digits_app _ _ Hd Ht) as (ds & Hs & Htxt).
  pose proof (parse_pretty x) as Hp. destruct (pretty_nonempty x) as (c & s & E). rewrite E in *. destruct Hd as [Hc _].
  apply digit_ascii in Hc. revert Hs. rewrite runes_ascii by lia. cbn [app]. intros Hs. unfold scan_int.
  assert (forall n, (n < 48 \/ 57 < n)%N -> N.eqb (code (ascii_rune c)) n = false) as Hne.
  { intros n Hn. apply N.eqb_neq. cbn. lia. }
  assert (is_space (ascii_rune c) = false) as Hsp.
  { unfold is_space. rewrite !Hne by lia. cbn [ascii_rune code].
    repeat match goal with |- context [N.leb ?a ?b] => destruct (N.leb_spec a b); try lia end; done. }
  cbn [skip_space]. rewrite !Hne by lia. cbn [andb]. rewrite Hsp. cbn [mbind option_bind scan_sign]. rewrite !Hne by lia.
  rewrite Hs. cbn [mbind option_bind]. rewrite Htxt, Hp. cbn [mbind option_bind]. rewrite Z.mul_1_l.
  destruct (Z.leb_spec int64_min (Z.of_N x)); [|unfold int64_min in *; lia].
  by destruct (Z.leb_spec (Z.of_N x) int64_max); [|lia].
Qed.

Lemma runes_dot s t : cut t -> runes (s +:+ "." +:+ t) = runes s ++ ascii_rune "."%char :: runes t.
Proof.
  intros Ht. rewrite runes_app by (by apply ascii_cut). f_equal.
  change ("." +:+ t) with (String "."%char t). by rewrite runes_ascii.
Qed.

Lemma pretty_cut (x : N) s : cut (pretty x +:+ s).
Proof.
  pose proof (all_digits_pretty x) as Hd. destruct (pretty_nonempty x) as (c & t & E). rewrite E in *.
  apply (ascii_cut c (t +:+ s)). destruct Hd as [Hc%digit_ascii _]. lia.
Qed.

(** Version text is read back as its three numbers. *)
Lemma parseSemver_text (x y z : N) :
  (Z.of_N x <= int64_max -> Z.of_N y <= int64_max -> Z.of_N z <= int64_max ->
   parseSemver (version_text x y z) = (Z.of_N x, Z.of_N y, Z.of_N z))%Z.
Proof.
  intros Hx Hy Hz. unfold parseSemver. set (v := version_text x y z).
  assert (trim_prefix "v" v = v) as ->.
  { unfold trim_prefix, v, version_text. pose proof (all_digits_pretty x) as Hd. destruct (pretty_nonempty x) as (c & t & E).
    rewrite E in *. destruct Hd as [Hc _]. change (has_prefix "v" _) with (bool_decide ("v"%char = c) && true).
    case_bool_decide; [subst; by vm_compute in Hc; destruct Hc|done]. }
  assert (runes v = runes (pretty x) ++ ascii_rune "."%char :: runes (pretty y) ++ ascii_rune "."%char :: runes (pretty z)) as ->.
  { unfold v, version_text. rewrite runes_dot by apply pretty_cut. f_equal. f_equal. apply runes_dot.
    rewrite <- (append_nil_r (pretty z)). apply pretty_cut. }
  rewrite scan_pretty by done. cbn [scan_byte ascii_rune code].
  change (N.eqb (N_of_ascii "."%char) 46) with true. cbn [mbind option_bind].
  rewrite scan_pretty by done. cbn [scan_byte ascii_rune code].
  change (N.eqb (N_of_ascii "."%char) 46) with true. cbn [mbind option_bind].
  rewrite <- (app_nil_r (runes (pretty z))), scan_pretty by done. done.
Qed.
