(* ===== verification/Render.v ===== *)
(** * Rendering interaction summaries (pkg/interaction/render.go)

    The overview counts targets per level; the text shows each target, ordered
    by namespace and name, and prints only what its status holds. *)

From S2P Require Import Prelude Text Identity OpsStatus Interaction.

#[export] Instance InteractionLevel_countable : Countable InteractionLevel.
Proof.
  refine (inj_countable'
    (fun l => match l with LevelNoAction => 0 | LevelAwareness => 1 | LevelDecisionRequired => 2 | LevelImmediateIntervention => 3 end)
    (fun n => match n with 0 => LevelNoAction | 1 => LevelAwareness | 2 => LevelDecisionRequired | _ => LevelImmediateIntervention end) _).
  by intros [].
Defined.

Definition level_text (l : InteractionLevel) : string :=
  match l with
  | LevelNoAction => "NO_ACTION"
  | LevelAwareness => "AWARENESS"
  | LevelDecisionRequired => "DECISION_REQUIRED"
  | LevelImmediateIntervention => "IMMEDIATE_INTERVENTION"
  end.

(** A target as it is rendered.  [rw_Investigated]: the summary has an
    investigation, as every projected one does. *)
Record Row := {
  rw_Namespace : string;
  rw_Name : string;
  rw_Interaction : option InteractionStatus;
  rw_Investigated : bool;
}.

(** ** Overview *)
Record Overview := {
  ov_Targets : Z;
  ov_NothingAssessed : bool;
  ov_ByLevel : gmap InteractionLevel Z;
  ov_WithoutSummary : Z;
}.

Definition count (o : Overview) (t : Row) : Overview :=
  match rw_Interaction t with
  | None => Build_Overview (ov_Targets o) (ov_NothingAssessed o) (ov_ByLevel o) (ov_WithoutSummary o + 1)
  | Some s =>
      Build_Overview (ov_Targets o) (ov_NothingAssessed o)
        (<[is_Level s := (default 0 (ov_ByLevel o !! is_Level s) + 1)%Z]> (ov_ByLevel o)) (ov_WithoutSummary o)
  end.

Definition OverviewOf (ts : list Row) : Overview :=
  foldl count (Build_Overview (Z.of_nat (length ts)) (bool_decide (ts = [])) ∅ 0) ts.

Definition by_level (o : Overview) (l : InteractionLevel) : Z := default 0%Z (ov_ByLevel o !! l).

(** ** Text *)
Definition row_less (a b : Row) : bool :=
  if negb (bool_decide (rw_Namespace a = rw_Namespace b)) then String.ltb (rw_Namespace a) (rw_Namespace b)
  else String.ltb (rw_Name a) (rw_Name b).

Definition text_line (s : string) : string := s +:+ line_feed.

(** A labelled list: the label before the first item. *)
Definition labelled (label : string) (items : list string) : string :=
  match items with
  | [] => ""
  | it :: items =>
      text_line ("  " +:+ pad_right 11 (label +:+ ":") +:+ " " +:+ it) +:+
      join "" ((fun it => text_line ("  " +:+ pad_right 11 "" +:+ " " +:+ it)) <$> items)
  end.

Definition reason_text (r : StatusReason) : string :=
  sr_Code r +:+ (if bool_decide (sr_Subject r = "") then "" else " " +:+ sr_Subject r) +:+
  (if bool_decide (sr_Detail r = "") then "" else " (" +:+ sr_Detail r +:+ ")").

Definition reasonList (rs : list StatusReason) : list string := reason_text <$> rs.

Definition cap_line (c : InteractionCapability) : string :=
  typeKey (ic_Type c) +:+ " " +:+ ic_State c +:+
  (if bool_decide (ic_Reasons c = []) then "" else ": " +:+ join ", " (sr_Code <$> ic_Reasons c)).

Definition capLines (cs : list InteractionCapability) : list string := cap_line <$> cs.

Definition fact_line (withRef : bool) (e : EvidenceEntry) : string :=
  ee_Slot e +:+ " " +:+ ee_State e +:+
  (if bool_decide (ee_Provider e = "") then "" else " via " +:+ ee_Provider e +:+ "@" +:+ ee_ConfigRevision e) +:+
  (if withRef && negb (bool_decide (ee_EvidenceRef e = "")) then " ref " +:+ ee_EvidenceRef e else "").

Definition factLines (es : list EvidenceEntry) (withRef : bool) : list string := fact_line withRef <$> es.

Definition detail_text (r : StatusReason) : string := sr_Subject r +:+ "=" +:+ sr_Code r.

Definition preconds (r : InteractionResponse) : string :=
  if bool_decide (ir_Preconditions r = []) then "" else "; preconditions " +:+ join ", " (detail_text <$> ir_Preconditions r).

Definition response_line (r : InteractionResponse) : string :=
  ir_Name r +:+ " for " +:+ ct_Name (ir_For r) +:+ " on " +:+ ir_Target r +:+ ", owner " +:+
  (if bool_decide (ir_Owner r = "") then "<undeclared>" else ir_Owner r) +:+ ": " +:+ ir_Status r +:+ preconds r +:+ " (display only)".

Definition action_line (a : InteractionAction) : string :=
  ia_Name a +:+ " for " +:+ ct_Name (ia_For a) +:+ ": " +:+ ia_Phase a +:+ " (attempt " +:+ pretty (ia_Attempt a) +:+ ")" +:+
  (if bool_decide (ia_Reasons a = []) then "" else " [" +:+ join ", " (sr_Code <$> ia_Reasons a) +:+ "]") +:+
  "; recovery " +:+ (if bool_decide (ia_Recovery a = "") then "not assessed" else ia_Recovery a) +:+
  (if bool_decide (ia_RecoveryDetail a = []) then "" else " (" +:+ join ", " (detail_text <$> ia_RecoveryDetail a) +:+ ")") +:+
  "; proposal " +:+ ia_Proposal a +:+ " digest " +:+ ia_Digest a.

Definition actionLines (as_ : list InteractionAction) : list string := action_line <$> as_.

Definition candidate_line (c : InteractionCandidate) : string := cd_Status c +:+ " (hypothesis): " +:+ cd_ID c.

Definition investigation_line (inv : InteractionInvestigation) : string :=
  text_line ("  checked:    " +:+ ii_Outcome inv +:+ "; hypotheses refuted=" +:+ pretty (Z.of_nat (ii_Refuted inv)) +:+
             " maintained=" +:+ pretty (Z.of_nat (ii_Maintained inv)) +:+ " open=" +:+ pretty (Z.of_nat (ii_Open inv))).

Definition renderTarget (t : Row) : string :=
  text_line (rw_Namespace t +:+ "/" +:+ rw_Name t) +:+
  match rw_Interaction t with
  | None => text_line "  no interaction summary (projection disabled or not yet reconciled)"
  | Some s =>
      text_line ("  level:      " +:+ level_text (is_Level s) +:+
        (if is_Recurring s then " (recurring, " +:+ pretty (is_Recurrences s) +:+ " re-entries)" else "")) +:+
      text_line ("  problem:    " +:+ is_Summary s) +:+
      labelled "why" (reasonList (is_LevelReasons s)) +:+
      labelled "affected" (capLines (is_Affected s)) +:+
      labelled "unknown" (capLines (is_Unknown s)) +:+
      labelled "available" (capLines (is_Unaffected s)) +:+
      labelled "confirmed" (factLines (is_ConfirmedFacts s) true) +:+
      labelled "missing" (factLines (is_MissingEvidence s) false) +:+
      labelled "candidates" (candidate_line <$> is_CauseCandidates s) +:+
      (if rw_Investigated t then investigation_line (is_Investigation s) else "") +:+
      labelled "responses" (response_line <$> is_Responses s) +:+
      labelled "actions" (actionLines (is_Actions s)) +:+
      labelled "human" (reasonList (is_HumanReasons s)) +:+
      labelled "pending" (reasonList (is_PendingPostConditions s))
  end.

Definition level_count (o : Overview) (l : InteractionLevel) : string := level_text l +:+ "=" +:+ pretty (by_level o l).

Definition shown_levels : list InteractionLevel :=
  [LevelImmediateIntervention; LevelDecisionRequired; LevelAwareness; LevelNoAction].

Definition overview_line (o : Overview) : string :=
  text_line (pretty (ov_Targets o) +:+ " targets: " +:+ join " " (level_count o <$> shown_levels) +:+ ", without summary=" +:+
             pretty (ov_WithoutSummary o) +:+ " (counts only; no overall health)").

Definition RenderText `{SortSlice} (ts : list Row) : string :=
  let o := OverviewOf ts in
  if ov_NothingAssessed o then text_line "No OperationalTarget found: nothing is assessed (this is not NO_ACTION)."
  else overview_line o +:+ join "" ((fun t => line_feed +:+ renderTarget t) <$> sort_slice row_less ts).

(** * Theorems *)

(** How many of [ts] satisfy [f]. *)
Definition how_many (f : Row -> bool) (ts : list Row) : Z := Z.of_nat (length (List.filter f ts)).

Definition at_level (l : InteractionLevel) (t : Row) : bool :=
  match rw_Interaction t with Some s => bool_decide (is_Level s = l) | None => false end.

Definition unsummarised (t : Row) : bool := match rw_Interaction t with None => true | Some _ => false end.

Lemma count_all ts : forall o,
  ov_Targets (foldl count o ts) = ov_Targets o /\ ov_NothingAssessed (foldl count o ts) = ov_NothingAssessed o /\
  ov_WithoutSummary (foldl count o ts) = (ov_WithoutSummary o + how_many unsummarised ts)%Z /\
  forall l, by_level (foldl count o ts) l = (by_level o l + how_many (at_level l) ts)%Z.
Proof.
  induction ts as [|t ts IH]; intros o; cbn [foldl].
  { unfold how_many. cbn. split_and!; try done; intros; lia. }
  destruct (IH (count o t)) as (-> & -> & -> & Hl). split_and!.
  - unfold count. by destruct (rw_Interaction t).
  - unfold count. by destruct (rw_Interaction t).
  - unfold count, how_many, unsummarised. cbn [List.filter]. destruct (rw_Interaction t); cbn [ov_WithoutSummary length]; lia.
  - intros l. rewrite Hl. unfold count, by_level, how_many, at_level. cbn [List.filter]. destruct (rw_Interaction t) as [s|]; [|done].
    cbn [ov_ByLevel]. destruct (decide (is_Level s = l)) as [<-|Hn].
    + rewrite lookup_insert_eq, bool_decide_eq_true_2 by done. cbn [length default]. unfold id. lia.
    + by rewrite lookup_insert_ne, bool_decide_eq_false_2 by done.
Qed.

(** The overview partitions the targets: each is counted once, under the
    level of its summary or as without one, and nothing is assessed exactly when
    there is no target. *)
Theorem OverviewOf_spec ts :
  let o := OverviewOf ts in
  (forall l, by_level o l = how_many (at_level l) ts) /\ ov_WithoutSummary o = how_many unsummarised ts /\
  ov_Targets o = (by_level o LevelNoAction + by_level o LevelAwareness + by_level o LevelDecisionRequired +
    by_level o LevelImmediateIntervention + ov_WithoutSummary o)%Z /\
  (ov_NothingAssessed o = true <-> ov_Targets o = 0%Z).
Proof.
  cbn zeta. unfold OverviewOf. destruct (count_all ts (Build_Overview (Z.of_nat (length ts)) (bool_decide (ts = [])) ∅ 0)) as (-> & -> & -> & Hl).
  cbn [ov_Targets ov_NothingAssessed ov_WithoutSummary] in *. split; [done|]. split; [done|]. split.
  - rewrite !Hl. unfold by_level. cbn [ov_ByLevel]. rewrite !lookup_empty. cbn [default]. clear Hl. unfold how_many, id.
    induction ts as [|t ts IH]; [done|]. cbn [length List.filter]. unfold at_level, unsummarised in *.
    destruct (rw_Interaction t) as [s|]; [|cbn [length] in *; lia].
    destruct (is_Level s); repeat case_bool_decide; try done; cbn [length] in *; lia.
  - rewrite bool_decide_eq_true. destruct ts; cbn; split; try done; lia.
Qed.

Lemma how_many_perm f ts ts' : ts ≡ₚ ts' -> how_many f ts = how_many f ts'.
Proof.
  unfold how_many. induction 1 as [|t ts ts' _ IH|t t' ts|ts ts' ts'' _ IH1 _ IH2]; cbn [List.filter]; try done.
  - destruct (f t); cbn [length]; lia.
  - by destruct (f t), (f t').
  - by rewrite IH1.
Qed.

Lemma NoDup_fmap_keys {A B} (f : A -> B) l : NoDup (f <$> l) -> forall x y, x ∈ l -> y ∈ l -> f x = f y -> x = y.
Proof.
  induction l as [|a l IH]; cbn; [intros _ x y Hx; by apply elem_of_nil in Hx|]. intros [Ha Hl]%NoDup_cons x y Hx Hy E.
  apply elem_of_cons in Hx as [->|Hx]; apply elem_of_cons in Hy as [->|Hy]; [done|..|by apply IH]; exfalso; apply Ha.
  - rewrite E. by apply list_elem_of_fmap_2.
  - rewrite <- E. by apply list_elem_of_fmap_2.
Qed.

(** What is shown does not depend on the order in which the targets were
    listed. *)
Theorem RenderText_order `{SortSlice} ts ts' :
  NoDup ((fun t => [rw_Namespace t; rw_Name t]) <$> ts) -> ts ≡ₚ ts' -> RenderText ts = RenderText ts'.
Proof.
  intros Hnd Hp.
  assert (sort_slice row_less ts = sort_slice row_less ts') as Hs.
  { apply (sort_slice_key_unique (fun t => [rw_Namespace t; rw_Name t])); [|by apply NoDup_fmap_keys|done].
    intros x y. unfold row_less. cbn. case_bool_decide as Hn; cbn [negb].
    - rewrite decide_True by done. case_decide as Hm; [|done]. rewrite Hm. apply string_ltb_irrefl.
    - by rewrite decide_False. }
  assert (forall f, how_many f ts = how_many f ts') as Hm by (intros f; by apply how_many_perm).
  pose proof (count_all ts (Build_Overview (Z.of_nat (length ts)) (bool_decide (ts = [])) ∅ 0)) as (T1 & A1 & W1 & L1).
  pose proof (count_all ts' (Build_Overview (Z.of_nat (length ts')) (bool_decide (ts' = [])) ∅ 0)) as (T2 & A2 & W2 & L2).
  cbn [ov_Targets ov_NothingAssessed ov_WithoutSummary] in *. unfold RenderText, OverviewOf. rewrite A1, A2, Hs.
  unfold overview_line, level_count, shown_levels. cbn [fmap list_fmap]. rewrite T1, T2, W1, W2, !L1, !L2, !Hm, (Permutation_length Hp).
  assert (bool_decide (ts = []) = bool_decide (ts' = [])) as ->; [|done]. apply bool_decide_ext. split; intros ->.
  - by apply Permutation_nil in Hp.
  - by apply symmetry, Permutation_nil in Hp.
Qed.
