(* ===== verification/Artifact.v ===== *)
(** * What a run leaves behind (pkg/artifact, pkg/adapter/summary.go): data

    The documents the commands write as JSON or YAML; a file is modelled by the
    document it holds.  Numbers are IEEE binary64, as the Standard Library
    specifies them. *)

From S2P Require Import Prelude Release ReleaseSpec.
From S2P Require Import Planner.
From S2P Require Import Revision.
From S2P Require Import Shadow.
From S2P Require Import Deploy.
From S2P Require Import DataPlane.
From S2P Require Import Render.
From Stdlib Require Import Floats.SpecFloat.

(** float64 *)
Abbreviation float64 := spec_float (only parsing).
Definition float_sub (x y : float64) : float64 := SFsub 53 1024 x y.
Definition float_zero : float64 := S754_zero false.

(** ** run.go *)
Record CompStatus := { ct_Name : string; ct_GateResult : string; ct_Message : string }.

Record RunStatus := {
  ru_SchemaVersion : string;
  ru_RunID : string;
  ru_Release : string;
  ru_Environment : string;
  ru_Profile : string;
  ru_StartedAt : Time;
  ru_FinishedAt : Time;
  ru_Phase : string;
  ru_Result : string;
  ru_Components : list CompStatus;
}.

(** ** deploy_result.go; its components are those of Deploy.v *)
Record DeployResult := {
  dr_RunID : string;
  dr_Release : string;
  dr_Environment : string;
  dr_StartedAt : Time;
  dr_FinishedAt : Time;
  dr_Overall : string;
  dr_Components : list CompDeploy;
}.

(** ** release_result.go *)
Record CompReleaseGate := {
  cg_Name : string;
  cg_Version : string;
  cg_GateResult : string;
  cg_Affected : bool;
  cg_Skipped : bool;
}.

Record ReleaseResult := {
  rr_RunID : string;
  rr_Release : string;
  rr_Environment : string;
  rr_CreatedAt : Time;
  rr_GateResult : string;
  rr_Components : list CompReleaseGate;
}.

(** ** verification_run.go *)
Record VerificationRun := {
  vn_RunID : string;
  vn_App : string;
  vn_Release : string;
  vn_Environment : string;
  vn_Provider : string;
  vn_MeasurementSummaryPath : string;
  vn_GateSummaryPath : string;
  vn_GateResult : string;
  vn_PromotionDecision : string;
  vn_StartedAt : Time;
  vn_FinishedAt : Time;
}.

(** ** summary.go of pkg/adapter *)
Record sliResult := { sl_ID : string; sl_Kind : string; sl_Value : option float64 }.

Record sliSummary := {
  ss_SchemaVersion : string;
  ss_GeneratedAt : Time;
  ss_StartedAt : Time;
  ss_FinishedAt : Time;
  ss_Location : string;
  ss_Trigger : string;
  ss_Tags : gmap string string;
  ss_Format : string;
  ss_CollectionStatus : string;
  ss_EvaluationStatus : string;
  ss_Results : list sliResult;
}.

(** ** BoriVerificationRun (apis/bori/v1alpha1/verificationrun_types.go) *)
Record BoriVerificationRunSpec := {
  bv_Provider : string;
  bv_App : string;
  bv_Release : string;
  bv_Environment : string;
  bv_RevisionID : string;
  bv_GateResult : string;
  bv_PromotionDecision : string;
  bv_StartedAt : Time;
  bv_FinishedAt : Time;
  bv_MeasurementSummaryPath : string;
  bv_GateSummaryPath : string;
}.

Record VerificationRunObject := { bo_Namespace : string; bo_Name : string; bo_Spec : BoriVerificationRunSpec }.

Definition FromArtifact (vr : VerificationRun) (revisionID : string) : BoriVerificationRunSpec := {|
  bv_Provider := vn_Provider vr; bv_App := vn_App vr; bv_Release := vn_Release vr; bv_Environment := vn_Environment vr;
  bv_RevisionID := revisionID; bv_GateResult := vn_GateResult vr; bv_PromotionDecision := vn_PromotionDecision vr;
  bv_StartedAt := vn_StartedAt vr; bv_FinishedAt := vn_FinishedAt vr;
  bv_MeasurementSummaryPath := vn_MeasurementSummaryPath vr; bv_GateSummaryPath := vn_GateSummaryPath vr;
|}.

(** ** Files *)
Inductive document :=
  | DStatus (d : RunStatus)
  | DPlan (d : Plan_)
  | DRollout (d : BoriRollout)
  | DDeployResult (d : DeployResult)
  | DReleaseResult (d : ReleaseResult)
  | DVerificationRun (d : VerificationRun)
  | DSummary (d : sliSummary)
  | DText (text : string)
  | DInteraction (overview : Overview) (targets : list Row)
  | DShadowState (d : ShadowState)
  | DRelease (d : BoriRelease)
  | DReleaseObject (d : BoriReleaseObject)
  | DVerificationRunObject (d : VerificationRunObject).

