(* ===== verification/Host.v ===== *)
(** * The host of a process: files, programs, the clock, the terminal

    The state of a process is what it has done so far, its log, and the disk of
    revisions.  Everything it asks its surroundings is answered by the record
    [Host]; an answer may depend on all that was done before. *)

From S2P Require Import Prelude Text Process.
From S2P Require Import Planner Revision Shadow Deploy Artifact.

(** What can be observed of a process. *)
Inductive event :=
  (** a line on the standard output or the standard error *)
  | Said (line : string)
  | Warned (line : string)
  (** a document encoded to the standard output *)
  | Printed (doc : document)
  (** a program run to its end: directory, arguments, standard input *)
  | Ran (dir : string) (argv : list string) (input : option document)
  (** a file that now holds the document; one left incomplete; one removed *)
  | Saved (path : string) (doc : document)
  | Spoiled (path : string)
  | Unlinked (path : string)
  | Renamed (from to : string)
  | Slept (d : Duration)
  (** a reading of the clock *)
  | Ticked
  (** a GET of a service's metrics through a port-forward *)
  | Fetched (namespace service : string) (port : Z) (path : string)
  (** the measurement session of kube-slint begins and ends *)
  | SessionStarted (target : string)
  | SessionEnded (target : string)
  (** an object applied to the API server *)
  | Applied (kind name : string).

Record Shell := { ps_log : list event; ps_disk : Disk }.

(** os.Stat *)
Inductive Stat := Present | Absent | Unreadable (err : string).

(** os.Remove *)
Inductive Removal := Gone | NotThere | NotRemoved (err : string).

(** Creating, encoding or closing a file may fail; a failed close leaves the
    text complete or not. *)
Inductive WriteFault := CreateFault (err : string) | EncodeFault (err : string) | CloseFault (err : string) (complete : bool).

(** One GET: the transport fails, or a status with a body, which may break off. *)
Record HttpAnswer := { ha_status : Z; ha_body : string; ha_broken : option string }.

Record Host := {
  h_now : list event -> Time;
  h_getenv : string -> string;
  (** os.Executable, when there is no error *)
  h_executable : option string;
  h_abs : string -> string + string;
  h_stat : list event -> string -> Stat;
  h_mkdir : list event -> string -> option string;
  h_write : list event -> string -> option WriteFault;
  h_remove : list event -> string -> Removal;
  (** the error of a program, if it could not be run or failed *)
  h_run : list event -> string -> list string -> option string;
  h_lookpath : string -> option string;
  (** what a program printed, or its error *)
  h_output : list event -> list string -> string + string;
  h_write_revision : list event -> BoriRevision -> WriteAnswer * string;
  (** why the directory of revisions cannot be listed *)
  h_list : list event -> option string;
  (** the gate's file: its result and message, or why it cannot be read *)
  h_gate_file : list event -> string -> string + string * string;
  (** a free local port, the start of kubectl port-forward, the text of a URL as
      a request, and one GET *)
  h_port : list event -> string + Z;
  h_forward : list event -> option string;
  h_request : string -> option string;
  h_get : list event -> string + HttpAnswer;
  (** a status.json, decoded; the name of a new temporary file in a directory;
      writing, closing and renaming it *)
  h_read_status : list event -> string -> string + RunStatus;
  h_temp : list event -> string -> string + string;
  h_temp_write : list event -> string -> option string;
  h_temp_close : list event -> string -> option string;
  h_rename : list event -> string -> string -> option string;
}.

(** Directories, filepath and the names of runs. *)
Definition RunDir (baseDir runID : string) : string := path_join [baseDir; "runs"; runID].

Section shell.
Variable host : Host.

Abbreviation run A := (prog Shell A) (only parsing).

Definition note (e : event) : run unit := update (fun s => Build_Shell (ps_log s ++ [e]) (ps_disk s)).
Definition log : run (list event) := ask ps_log.

Definition say (line : string) : run unit := note (Said line).
Definition warn (line : string) : run unit := note (Warned line).

(** fatalf *)
Definition fatalf {A} (msg : string) : run A := _ ← warn ("[bori] " +:+ msg); exit 1.

(** time.Now *)
Definition now : run Time := _ ← note Ticked; l ← log; mret (h_now host l).

Definition stat (path : string) : run Stat := l ← log; mret (h_stat host l path).

(** exec.Command(...).Run() in a directory. *)
Definition exec (dir : string) (argv : list string) (input : option document) : run (option string) :=
  l ← log; _ ← note (Ran dir argv input); mret (h_run host l dir argv).

Definition mkdir_all (dir : string) : run (option string) := l ← log; mret (h_mkdir host l dir).

(** The error of MkdirAll as the callers report it. *)
Definition mkdir_error (dir err : string) : string := "mkdir " +:+ dir +:+ ": " +:+ err.

Definition remove (path : string) : run Removal :=
  l ← log;
  let r := h_remove host l path in
  _ ← match r with Gone => note (Unlinked path) | _ => mret tt end;
  mret r.

(** os.Create, an encoder and Close; [removes] is whether a file whose encoding
    failed is removed. *)
Definition write_file (path : string) (doc : document) (removes : bool) : run (option WriteFault) :=
  l ← log;
  let fault := h_write host l path in
  _ ← match fault with
      | None | Some (CloseFault _ true) => note (Saved path doc)
      | Some (CreateFault _) => mret tt
      | Some (EncodeFault _) => note (if removes then Unlinked path else Spoiled path)
      | Some (CloseFault _ false) => note (Spoiled path)
      end;
  mret fault.

Definition fault_error (created : string) (f : WriteFault) : string :=
  match f with CreateFault err => created +:+ ": " +:+ err | EncodeFault err => "encode: " +:+ err | CloseFault err _ => err end.

Definition create (path : string) (doc : document) (removes : bool) : run (option string) :=
  fault ← write_file path doc removes; mret (fault_error ("create " +:+ path) <$> fault).

Definition write_in (dir name : string) (doc : document) (removes : bool) : run (option string) :=
  made ← mkdir_all dir;
  match made with
  | Some err => mret (Some (mkdir_error dir err))
  | None => create (path_join [dir; name]) doc removes
  end.

(** ** pkg/artifact *)
Definition WriteStatus (runDir : string) (s : RunStatus) : run (option string) :=
  write_in runDir "status.json" (DStatus s) false.

Definition WritePlan (runDir : string) (p : Plan_) : run (option string) :=
  write_in runDir "plan.json" (DPlan p) true.

Definition WriteDeployResult (runDir : string) (r : DeployResult) : run (option string) :=
  write_in runDir "deploy-result.json" (DDeployResult r) false.

Definition WriteReleaseResult (runDir : string) (r : ReleaseResult) : run (option string) :=
  write_in runDir "release-result.json" (DReleaseResult r) false.

Definition WriteVerificationRun (path : string) (r : VerificationRun) : run (option string) :=
  create path (DVerificationRun r) false.

(** pkg/revision Write and pkg/rollout Write *)
Definition write_revision_file (rev : BoriRevision) : run (option string) := fun s =>
  let '(answer, err) := h_write_revision host (ps_log s) rev in
  let '(revs, ok) := write_revision rev answer (dk_revisions (ps_disk s)) in
  (Returned (if ok then None else Some err), Build_Shell (ps_log s) (Build_Disk revs (dk_states (ps_disk s)))).

Definition write_rollout (boriDir : string) (ro : BoriRollout) : run (option string) :=
  write_in (path_join [boriDir; "rollouts"]) (ro_RolloutID ro +:+ ".json") (DRollout ro) false.
End shell.

(** * Lemmas *)

(** What a process did is never undone. *)
Definition grows (s s' : Shell) : Prop := ps_log s `prefix_of` ps_log s'.

#[export] Instance grows_preorder : PreOrder grows.
Proof. split; [intros s; unfold grows; reflexivity|]. intros a b c. unfold grows. by etrans. Qed.

Lemma note_grows e : keeps grows (note e).
Proof. intros s. split; [|done]. unfold grows. cbn. by eexists. Qed.

(** What the primitives do. *)
Lemma note_run e s : note e s = (Returned tt, Build_Shell (ps_log s ++ [e]) (ps_disk s)).
Proof. done. Qed.

Lemma log_run s : log s = (Returned (ps_log s), s).
Proof. done. Qed.

#[export] Hint Rewrite note_run log_run : run.

Lemma mkdir_run host dir s : mkdir_all host dir s = (Returned (h_mkdir host (ps_log s) dir), s).
Proof. done. Qed.

Lemma stat_run host path s : stat host path s = (Returned (h_stat host (ps_log s) path), s).
Proof. done. Qed.

Lemma exec_run host dir argv input s :
  exec host dir argv input s =
  (Returned (h_run host (ps_log s) dir argv), Build_Shell (ps_log s ++ [Ran dir argv input]) (ps_disk s)).
Proof. done. Qed.

Lemma now_run host s :
  now host s = (Returned (h_now host (ps_log s ++ [Ticked])), Build_Shell (ps_log s ++ [Ticked]) (ps_disk s)).
Proof. done. Qed.

Lemma remove_run host path s :
  remove host path s =
  (Returned (h_remove host (ps_log s) path),
   match h_remove host (ps_log s) path with Gone => Build_Shell (ps_log s ++ [Unlinked path]) (ps_disk s) | _ => s end).
Proof. unfold remove. running. by destruct (h_remove host (ps_log s) path). Qed.

#[export] Hint Resolve note_grows : prog.
#[export] Hint Rewrite mkdir_run stat_run exec_run now_run remove_run : run.
