(* ===== verification/GateRun.v ===== *)
(** * Measuring and gating (pkg/collect, pkg/adapter, pkg/verification/kubeslint.go)

    Scraping a metrics endpoint, the summary of two scrapes, and running
    slint-gate on it, twice: for cmd/bori ([KubeSlintProvider]) and for
    cmd/bori-devspace ([GateRunner]). *)

From S2P Require Import Prelude Text Process.
From S2P Require Import Planner Revision Shadow Deploy Artifact Host Gate.
From Stdlib Require Import Ascii.

(** strconv.ParseFloat(s, 64) without its error. *)
Class ParseFloat := { parse_float : string -> option float64 }.

(** The order in which range goes through a map. *)
Class MapRange := {
  map_range : forall {A : Type}, gmap string A -> list (string * A);
  map_range_perm : forall A (m : gmap string A), map_range m ≡ₚ map_to_list m;
}.

#[export] Instance ordered_range : MapRange := {|
  map_range A m := map_to_list m;
  map_range_perm A m := Permutation_refl _;
|}.

(** ** collect.go *)
Record Target := { tg_Namespace : string; tg_ServiceName : string; tg_Port : Z; tg_MetricsPath : string }.

(** bufio.Scanner by lines: the last line may lack its end, and a line does not
    fill the buffer of 64 KiB. *)
Definition drop_cr (l : string) : string :=
  match String.length l with
  | O => l
  | S n => if bool_decide (String.get n l = Some (ascii_of_nat 13)) then String.substring 0 n l else l
  end.

Definition raw_lines (body : string) : list string :=
  let ls := split_on (ascii_of_nat 10) body in
  if bool_decide (last ls = Some "") then removelast ls else ls.

Definition too_long (l : string) : bool := N.leb 65536 (N.of_nat (String.length l)).

Section gaterun.
Context `{GoText} `{DeployFiles} `{ParseFloat} `{MapRange}.

(** One line: a name and a number, if it is that. *)
Definition parse_line (l : string) : option (string * float64) :=
  let line := TrimSpace l in
  if bool_decide (line = "") || has_prefix "#" line then None
  else match Fields line with
  | name :: value :: _ => v ← parse_float value; Some (name, v)
  | _ => None
  end.

Definition add_line (out : gmap string float64) (l : string) : gmap string float64 :=
  match parse_line (drop_cr l) with Some (name, v) => <[name := v]> out | None => out end.

(** Scanning stops at a line that is too long. *)
Fixpoint parse_lines (out : gmap string float64) (ls : list string) : gmap string float64 * option string :=
  match ls with
  | [] => (out, None)
  | l :: ls => if too_long l then (out, Some "bufio.Scanner: token too long") else parse_lines (add_line out l) ls
  end.

(** [broken]: reading the body fails after [body]. *)
Definition ParsePromText (body : string) (broken : option string) : gmap string float64 * option string :=
  let '(out, err) := parse_lines ∅ (raw_lines body) in
  (out, match err with Some e => Some e | None => broken end).

Variable host : Host.
Abbreviation run A := (prog Shell A) (only parsing).

Definition MetricsURL (port : Z) (path : string) : string := "http://localhost:" +:+ pretty port +:+ path.

(** The loop over twenty attempts: the error of a request that cannot be built,
    or the first answer, if there is one. *)
Fixpoint fetch (t : Target) (url : string) (attempts : nat) : run (string + option HttpAnswer) :=
  match attempts with
  | O => mret (inr None)
  | S attempts =>
      _ ← note (Slept 300000000%Z);
      match h_request host url with
      | Some err => mret (inl err)
      | None =>
          l ← log;
          _ ← note (Fetched (tg_Namespace t) (tg_ServiceName t) (tg_Port t) (tg_MetricsPath t));
          match h_get host l with
          | inl _ => fetch t url attempts
          | inr a => mret (inr (Some a))
          end
      end
  end.

(** The error tested after the loop is that of FreePort, which is nil: the
    requests assign one of their own.  Without an answer the body of a nil
    response is closed. *)
Definition ScrapeMetrics (t : Target) : run (string + gmap string float64) :=
  l ← log;
  match h_port host l with
  | inl err => mret (inl ("free port: " +:+ err))
  | inr port =>
  match h_forward host l with
  | Some err => mret (inl ("kubectl port-forward: " +:+ err))
  | None =>
      let url := MetricsURL port (tg_MetricsPath t) in
      resp ← fetch t url 20;
      match resp with
      | inl err => mret (inl ("build request: " +:+ err))
      | inr None => panic "runtime error: invalid memory address or nil pointer dereference"
      | inr (Some a) =>
          if negb (Z.eqb (ha_status a) 200)
          then mret (inl ("metrics endpoint " +:+ url +:+ " returned HTTP " +:+ pretty (ha_status a)))
          else match ParsePromText (ha_body a) (ha_broken a) with
          | (_, Some err) => mret (inl err)
          | (out, None) => mret (inr out)
          end
      end
  end end.

(** ** summary.go *)
Record AppSnapshot := { as_At : Time; as_Values : gmap string float64 }.

Record RunRequest := {
  rn_Profile : string;
  rn_App : string;
  rn_PolicyPath : string;
  rn_Before : AppSnapshot;
  rn_After : AppSnapshot;
  rn_OutDir : string;
}.

Definition delta_result (before : gmap string float64) (after : string * float64) : sliResult :=
  Build_sliResult after.1 "delta_counter" (Some (float_sub after.2 (default float_zero (before !! after.1)))).

Definition buildDeltaSummary (req : RunRequest) (generated : Time) : sliSummary := {|
  ss_SchemaVersion := "slint.summary.v4"; ss_GeneratedAt := generated;
  ss_StartedAt := as_At (rn_Before req); ss_FinishedAt := as_At (rn_After req);
  ss_Location := "outside"; ss_Trigger := "bori:" +:+ rn_Profile req;
  ss_Tags := <["profile" := rn_Profile req]> {["app" := rn_App req]}; ss_Format := "v4";
  ss_CollectionStatus := "Complete"; ss_EvaluationStatus := "Complete";
  ss_Results := delta_result (as_Values (rn_Before req)) <$> map_range (as_Values (rn_After req));
|}.

Definition writeSummary (path : string) (sum : sliSummary) : run (option string) :=
  fault ← write_file host path (DSummary sum) false; mret (fault_error "create" <$> fault).

Definition BuildMeasurementSummary (req : RunRequest) (outDir : string) : run (string + string) :=
  made ← mkdir_all host outDir;
  match made with
  | Some err => mret (inl (mkdir_error outDir err))
  | None =>
      t ← now host;
      let path := path_join [outDir; rn_App req +:+ "-sli-summary.json"] in
      wrote ← writeSummary path (buildDeltaSummary req t);
      mret (match wrote with Some err => inl err | None => inr path end)
  end.

(** ** gate_runner.go *)
Record RunResult := {
  rx_App : string;
  rx_GateResult : string;
  rx_SummaryPath : string;
  rx_GatePath : string;
  rx_Message : string;
}.

Definition gate_argv (bin summaryPath policyPath gatePath : string) (mode : list string) : list string :=
  [bin; "--measurement-summary"; summaryPath; "--policy"; policyPath; "--output"; gatePath] ++ mode.

(** readGateResult keeps an empty result. *)
Definition GateRunner_Run (bin : string) (req : RunRequest) : run (string + RunResult) :=
  made ← mkdir_all host (rn_OutDir req);
  match made with
  | Some err => mret (inl (mkdir_error (rn_OutDir req) err))
  | None =>
      t ← now host;
      let summaryPath := path_join [rn_OutDir req; rn_App req +:+ "-sli-summary.json"] in
      wrote ← writeSummary summaryPath (buildDeltaSummary req t);
      match wrote with
      | Some err => mret (inl ("write summary: " +:+ err))
      | None =>
          let gatePath := path_join [rn_OutDir req; rn_App req +:+ "-gate-summary.json"] in
          ran ← exec host "" (gate_argv bin summaryPath (rn_PolicyPath req) gatePath ["--fail-on"; "FAIL"]) None;
          st ← stat host gatePath;
          match ran, st with
          | Some err, Absent | Some err, Unreadable _ => mret (inl ("slint-gate: " +:+ err))
          | _, _ =>
              l ← log;
              match h_gate_file host l gatePath with
              | inl err => mret (inl ("read gate result: " +:+ err))
              | inr (result, message) => mret (inr (Build_RunResult (rn_App req) result summaryPath gatePath message))
              end
          end
      end
  end.

(** ** kubeslint.go *)
Record GateRequest := {
  gq_RunID : string;
  gq_App : string;
  gq_PolicyPath : string;
  gq_MeasurementSummaryPath : string;
  gq_FailOn : string;
  gq_OutDir : string;
}.

Record GateOutcome := { go_App : string; go_GateResult : string; go_Message : string; go_SummaryPath : string; go_GatePath : string }.

(** The version check only warns. *)
Definition NewKubeSlintProvider (slintGateBin : string) : run string :=
  let bin := if bool_decide (slintGateBin = "") then "slint-gate" else slintGateBin in
  l ← log;
  _ ← note (Ran "" [bin; "version"] None);
  _ ← match (CheckSlintGateVersion bin (h_output host l [bin; "version"])).2 with
      | Some err => warn ("[bori] warning: " +:+ err)
      | None => mret tt
      end;
  mret bin.

Definition promotion_decision (gateResult failOn : string) : string :=
  if IsBlocking gateResult failOn then "blocked" else "eligible".

Definition verification_run (req : GateRequest) (gatePath gateResult : string) (started finished : Time) : VerificationRun := {|
  vn_RunID := gq_RunID req; vn_App := gq_App req; vn_Release := ""; vn_Environment := ""; vn_Provider := "kube-slint";
  vn_MeasurementSummaryPath := gq_MeasurementSummaryPath req; vn_GateSummaryPath := gatePath; vn_GateResult := gateResult;
  vn_PromotionDecision := promotion_decision gateResult (gq_FailOn req); vn_StartedAt := started; vn_FinishedAt := finished;
|}.

Definition KubeSlint_Run (bin : string) (req : GateRequest) : run (string + GateOutcome) :=
  made ← mkdir_all host (gq_OutDir req);
  match made with
  | Some err => mret (inl (mkdir_error (gq_OutDir req) err))
  | None =>
      let gatePath := path_join [gq_OutDir req; gq_App req +:+ "-gate-summary.json"] in
      startedAt ← now host;
      ran ← exec host "" (gate_argv bin (gq_MeasurementSummaryPath req) (gq_PolicyPath req) gatePath ["--exit-on"; "NEVER"]) None;
      st ← stat host gatePath;
      match st with
      | Absent | Unreadable _ =>
          mret (inl (match ran with
                     | Some err => "slint-gate: " +:+ err
                     | None => "slint-gate produced no output at " +:+ gatePath
                     end))
      | Present =>
          l ← log;
          match readGateSummary (h_gate_file host l gatePath) with
          | inl err => mret (inl ("read gate summary: " +:+ err))
          | inr (gateResult, message) =>
              finishedAt ← now host;
              wrote ← WriteVerificationRun host (path_join [gq_OutDir req; gq_App req +:+ "-verification-run.json"])
                        (verification_run req gatePath gateResult startedAt finishedAt);
              _ ← match wrote with
                  | Some err => warn ("[bori] warning: could not write verification run: " +:+ err)
                  | None => mret tt
                  end;
              mret (inr (Build_GateOutcome (gq_App req) gateResult message (gq_MeasurementSummaryPath req) gatePath))
          end
      end
  end.
End gaterun.

(** * What is collected *)

(** ** Samples *)
Section samples.
Context `{ParseFloat}.

(** The samples of a body, in order. *)
Definition samples (body : string) : list (string * float64) := omap (fun l => parse_line (drop_cr l)) (raw_lines body).

Lemma parse_lines_samples ls out :
  Forall (fun l => too_long l = false) ls ->
  parse_lines out ls = (foldl (fun m p => <[p.1 := p.2]> m) out (omap (fun l => parse_line (drop_cr l)) ls), None).
Proof.
  revert out. induction ls as [|l ls IH]; intros out Hs; [done|]. apply Forall_cons in Hs as [Hl Hs].
  cbn [parse_lines omap list_omap]. rewrite Hl, IH by done. unfold add_line. by destruct (parse_line (drop_cr l)) as [[name v]|].
Qed.

Lemma parse_lines_too_long ls out l : l ∈ ls -> too_long l = true -> (parse_lines out ls).2 <> None.
Proof.
  intros Hin Hl. revert out. induction ls as [|x ls IH]; intros out; [nil_elem|]. cbn [parse_lines].
  apply elem_of_cons in Hin as [<-|Hin]; [by rewrite Hl|]. destruct (too_long x); [done|]. by apply IH.
Qed.

Lemma foldl_last_value {A} (ps : list (string * A)) (m : gmap string A) k v :
  foldl (fun (m : gmap string A) p => <[p.1 := p.2]> m) m ps !! k = Some v <->
  (exists l r, ps = l ++ (k, v) :: r /\ k ∉ r.*1) \/ (m !! k = Some v /\ k ∉ ps.*1).
Proof.
  revert m. induction ps as [|[k' v'] ps IH]; intros m; cbn [foldl fmap list_fmap fst snd].
  { split; [intros Hm; right; split; [done|apply not_elem_of_nil]|]. intros [([|] & ? & ? & _)|[? _]]; done. }
  rewrite IH. split.
  - intros [(l & r & -> & Hr)|[Hm Hk]]; [left; by exists ((k', v') :: l), r|]. destruct (decide (k' = k)) as [->|Hne].
    + rewrite lookup_insert_eq in Hm. injection Hm as ->. left. by exists [], ps.
    + rewrite lookup_insert_ne in Hm by done. right. split; [done|]. apply not_elem_of_cons. by split; [intros ->|].
  - intros [([|x l] & r & E & Hr)|[Hm Hk]].
    + injection E as -> -> ->. right. by rewrite lookup_insert_eq.
    + injection E as <- ->. left. by exists l, r.
    + apply not_elem_of_cons in Hk as [Hne Hk]. right. by rewrite lookup_insert_ne.
Qed.

(** Parsing succeeds exactly on a whole body without a line of 64 KiB, and then
    gives each name the value of its last sample. *)
Theorem ParsePromText_spec body broken :
  let '(out, err) := ParsePromText body broken in
  (err = None <-> broken = None /\ Forall (fun l => too_long l = false) (raw_lines body)) /\
  (err = None -> forall k v, out !! k = Some v <-> exists l r, samples body = l ++ (k, v) :: r /\ k ∉ r.*1).
Proof.
  unfold ParsePromText. destruct (decide (Forall (fun l => too_long l = false) (raw_lines body))) as [Hs|Hs].
  - rewrite (parse_lines_samples _ _ Hs). split; [by split; [intros ->|intros [-> _]]|]. intros _ k v. rewrite foldl_last_value.
    rewrite lookup_empty. split; [by intros [?|[? _]]|by left].
  - assert ((parse_lines ∅ (raw_lines body)).2 <> None) as He.
    { apply not_Forall_Exists, Exists_exists in Hs as (l & Hin & Hl); [|apply _]. apply (parse_lines_too_long _ _ l Hin). cbn in Hl. by destruct (too_long l). }
    destruct (parse_lines ∅ (raw_lines body)) as [out [err|]]; [|done]. split; [by split; [|intros [_ ?]]|done].
Qed.
End samples.

(** ** Scraping *)
Section scrape.
Context `{GoText} `{ParseFloat}.
Variable host : Host.
Variable t : Target.

(** The log at the request of attempt [i], counted from 0. *)
Definition waited : event := Slept 300000000%Z.
Definition fetched : event := Fetched (tg_Namespace t) (tg_ServiceName t) (tg_Port t) (tg_MetricsPath t).
Fixpoint attempt_log (l : list event) (i : nat) : list event :=
  match i with O => l ++ [waited] | S i => attempt_log (l ++ [waited; fetched]) i end.

Definition refused_at (l : list event) (i : nat) : Prop := exists err, h_get host (attempt_log l i) = inl err.

Lemma fetch_spec url n s :
  match (fetch host t url n s).1 with
  | Returned (inl err) => h_request host url = Some err
  | Returned (inr None) => (n <> 0 -> h_request host url = None) /\ forall i, i < n -> refused_at (ps_log s) i
  | Returned (inr (Some a)) => h_request host url = None /\
      exists i, i < n /\ h_get host (attempt_log (ps_log s) i) = inr a /\ forall j, j < i -> refused_at (ps_log s) j
  | _ => False
  end.
Proof.
  revert s. induction n as [|n IH]; intros s; cbn [fetch]; [split; [done|lia]|]. unfold note, log, update. running.
  destruct (h_request host url) as [err|] eqn:Er; [by running|]. running. cbn [ps_log].
  destruct (h_get host (ps_log s ++ [Slept 300000000%Z])) as [err|a] eqn:Eg.
  - match goal with |- context [fetch host t url n ?s1] => specialize (IH s1); destruct (fetch host t url n s1) as [e s2] end.
    cbn [fst ps_log] in *. rewrite <- app_assoc in IH. cbn [app] in IH. destruct e as [[err'|[a|]]|?|?]; [done| | |done..].
    + destruct IH as (_ & i & Hi & Ha & Hj). split; [done|]. exists (S i). split; [lia|]. split; [exact Ha|].
      intros [|j] Hlt; [by exists err|]. apply Hj. lia.
    + destruct IH as [_ Hj]. split; [done|]. intros [|i] Hlt; [by exists err|]. apply Hj. lia.
  - cbn [fst]. split; [done|]. exists 0. split; [lia|]. split; [exact Eg|]. lia.
Qed.

(** Everything before the first request succeeds. *)
Definition reachable_at (l : list event) : Prop :=
  exists port, h_port host l = inr port /\ h_forward host l = None /\ h_request host (MetricsURL port (tg_MetricsPath t)) = None.

(** Scraping never exits; it yields metrics only from the first endpoint
    answer of twenty attempts, which is a whole body with status 200; and it
    panics exactly when the endpoint could be asked and refused every time. *)
Theorem ScrapeMetrics_spec s :
  match (ScrapeMetrics host t s).1 with
  | Returned (inr m) => reachable_at (ps_log s) /\ exists i a, i < 20 /\ h_get host (attempt_log (ps_log s) i) = inr a /\
      (forall j, j < i -> refused_at (ps_log s) j) /\ ha_status a = 200%Z /\ ParsePromText (ha_body a) (ha_broken a) = (m, None)
  | Returned (inl _) => ~ (reachable_at (ps_log s) /\ forall i, i < 20 -> refused_at (ps_log s) i)
  | Panicked _ => reachable_at (ps_log s) /\ forall i, i < 20 -> refused_at (ps_log s) i
  | Exited _ => False
  end.
Proof.
  unfold ScrapeMetrics, log. running. destruct (h_port host (ps_log s)) as [err|port] eqn:Ep.
  { intros [(p & Hp & _) _]. congruence. }
  destruct (h_forward host (ps_log s)) as [err|] eqn:Ef. { intros [(p & _ & Hf & _) _]. congruence. }
  running. set (url := MetricsURL port (tg_MetricsPath t)).
  pose proof (fetch_spec url 20 s) as Hs. destruct (fetch host t url 20 s) as [e s1]. cbn [fst] in Hs.
  destruct e as [[err|[a|]]|?|?]; [| | |done..].
  - intros [(p & Hp & _ & Hr) _]. assert (p = port) as -> by congruence. fold url in Hr. congruence.
  - destruct Hs as (Hr & i & Hi & Ha & Hj).
    assert (~ (reachable_at (ps_log s) /\ forall i, i < 20 -> refused_at (ps_log s) i)) as Hno.
    { intros [_ Hall]. destruct (Hall i Hi) as [err Herr]. congruence. }
    destruct (Z.eqb_spec (ha_status a) 200) as [E2|E2]; cbn [negb]; [|done].
    destruct (ParsePromText (ha_body a) (ha_broken a)) as [out [err|]] eqn:Epp; [done|].
    split; [by exists port|]. exists i, a. by rewrite Epp.
  - destruct Hs as [Hr Hall]. split; [|exact Hall]. exists port. split_and!; [done..|]. by apply Hr.
Qed.
End scrape.

(** ** The summary of deltas *)

(** Whatever the order of the map: each metric read after is reported once, with
    what it grew by, from 0 if it was not read before. *)
Theorem buildDeltaSummary_spec `{MapRange} req generated :
  ss_Results (buildDeltaSummary req generated) ≡ₚ
    (fun p => Build_sliResult p.1 "delta_counter" (Some (float_sub p.2 (default float_zero (as_Values (rn_Before req) !! p.1))))) <$>
      map_to_list (as_Values (rn_After req)) /\
  NoDup (sl_ID <$> ss_Results (buildDeltaSummary req generated)).
Proof.
  assert (ss_Results (buildDeltaSummary req generated) ≡ₚ
    delta_result (as_Values (rn_Before req)) <$> map_to_list (as_Values (rn_After req))) as Hp
    by (apply fmap_Permutation, map_range_perm).
  split; [exact Hp|]. rewrite Hp, <- list_fmap_compose. apply NoDup_fst_map_to_list.
Qed.
