(* ===== verification/Measure.v ===== *)
(** * The measured target (cmd/bori/sliprofile.go, cmd/bori/measure.go)

    A target has a measurement profile fixed at compile time; the kube-slint
    producer measures it around a smoke run and writes a summary, which is used
    only when it is exactly what the profile asks for.  The kube-slint module is
    a parameter, the class [KubeSlint]. *)

From S2P Require Import Prelude.
From S2P Require Import Text.
From S2P Require Import Process.
From S2P Require Import Planner.
From S2P Require Import Revision.
From S2P Require Import Shadow.
From S2P Require Import Deploy.
From S2P Require Import Artifact.
From S2P Require Import Host.

(** What is used of kube-slint: metric references and what builds them, the
    check of the selectors of a specification, the identity a result bears, and
    three constants. *)
Class KubeSlint := {
  MetricRef : Type;
  LabelMatcher : Type;
  Comparability : Type;
  LabelEq : string -> string -> LabelMatcher;
  LabelRegexp : string -> string -> LabelMatcher;
  SelectMetric : string -> string -> list LabelMatcher -> MetricRef;
  WithEmptyMatch : MetricRef -> string -> MetricRef;
  ref_Key : MetricRef -> string;
  ref_has_selector : MetricRef -> bool;
  cm_Complete : Comparability -> bool;
  cm_SubjectID : Comparability -> string;
  cm_SourceConfigID : Comparability -> string;
  SchemaVersionTrust : string;
  StatusSkip : string;
  ServiceURLHTTP : string;
}.

Section measure.
Context `{GoText} `{SortSlice} `{KubeSlint}.

(** spec.SLISpec *)
Record SLISpec := {
  sp_ID : string;
  sp_Title : string;
  sp_Unit : string;
  sp_Kind : string;
  sp_Inputs : list MetricRef;
  sp_Compute : string;
}.

(** summary.Summary, as far as it is read *)
Record SummaryResult := {
  sr_ID : string;
  sr_Status : string;
  sr_Value : option float64;
  sr_Reason : string;
  sr_Comparability : Comparability;
}.

Record Summary := { su_SchemaVersion : string; su_Results : list SummaryResult }.

(** spec.SLISpec.ValidateSelectors *)
Variable ValidateSelectors : SLISpec -> option string.

(** ** sliprofile.go *)
Record targetProfile := {
  tp_Target : string;
  tp_SourceConfigID : string;
  tp_Namespace : string;
  tp_MetricsService : string;
  tp_ServiceURLFormat : string;
  tp_Specs : option (list SLISpec);
}.

Definition intentReconcileDelta : string := "reconcile-delta".
Definition intentReconcileErrorsDelta : string := "reconcile-errors-delta".
Definition intentWorkqueueDepthEnd : string := "workqueue-depth-end".
Definition intentRESTErrorsDelta : string := "rest-errors-delta".

Definition boriOperatorController : string := "boridataplane".

Definition boriOperatorIntents : list string :=
  [intentReconcileDelta; intentReconcileErrorsDelta; intentWorkqueueDepthEnd; intentRESTErrorsDelta].

(** The aggregations none and sum, the computations delta and end, and the
    treatment of an empty match are constants of kube-slint, here by name. *)
Definition boriOperatorSpecs : list SLISpec := [
  Build_SLISpec intentReconcileDelta "BoriDataPlane reconcile delta" "count" "delta_counter"
    [SelectMetric "controller_runtime_reconcile_total" "AggregateSum" [LabelEq "controller" boriOperatorController]] "ComputeDelta";
  Build_SLISpec intentReconcileErrorsDelta "BoriDataPlane reconcile errors delta" "count" "delta_counter"
    [SelectMetric "controller_runtime_reconcile_errors_total" "AggregateNone" [LabelEq "controller" boriOperatorController]]
    "ComputeDelta";
  Build_SLISpec intentWorkqueueDepthEnd "BoriDataPlane workqueue depth at end" "count" "gauge"
    [SelectMetric "workqueue_depth" "AggregateNone" [LabelEq "name" boriOperatorController]] "ComputeEnd";
  Build_SLISpec intentRESTErrorsDelta "REST client 5xx delta" "count" "delta_counter"
    [WithEmptyMatch (SelectMetric "rest_client_requests_total" "AggregateSum" [LabelRegexp "code" "5[0-9][0-9]"])
       "EmptyMatchZeroIfFamilyPresent"] "ComputeDelta" ].

Definition targetProfiles : gmap string targetProfile :=
  {["bori-operator" := Build_targetProfile "bori-operator" "bori/cmd-bori/target-profile/bori-operator/v1" "bori-system"
      "bori-operator-metrics" ServiceURLHTTP (Some boriOperatorSpecs)]}.

Definition requiredIntents : gmap string (list string) := {["bori-operator" := boriOperatorIntents]}.

Definition target_error (p : targetProfile) (msg : string) : string := "target " +:+ quote (tp_Target p) +:+ ": " +:+ msg.

(** The first input that is not a selector. *)
Definition plain_input (s : SLISpec) : option MetricRef := List.find (fun r => negb (ref_has_selector r)) (sp_Inputs s).

(** The loop over the specifications: the IDs, or an error. *)
Fixpoint check_specs (p : targetProfile) (got : list string) (seen : gset string) (specs : list SLISpec) :
    string + list string :=
  match specs with
  | [] => inr got
  | s :: specs =>
      let err msg := inl (target_error p msg) in
      if decide (sp_ID s ∈ seen) then err ("duplicate intent " +:+ quote (sp_ID s))
      else if bool_decide (sp_Inputs s = []) then err ("intent " +:+ quote (sp_ID s) +:+ " has no inputs")
      else match plain_input s with
      | Some r => err ("intent " +:+ quote (sp_ID s) +:+ ": input " +:+ quote (ref_Key r) +:+ " is not a selector")
      | None =>
          match ValidateSelectors s with
          | Some e => err e
          | None => check_specs p (got ++ [sp_ID s]) ({[sp_ID s]} ∪ seen) specs
          end
      end
  end.

Definition validateProfile (p : targetProfile) (required : list string) : option string :=
  match tp_Specs p with
  | None => Some (target_error p "incomplete measurement profile")
  | Some specs =>
      if bool_decide (tp_SourceConfigID p = "") || bool_decide (tp_Namespace p = "") || bool_decide (tp_MetricsService p = "") ||
         bool_decide (tp_ServiceURLFormat p = "")
      then Some (target_error p "incomplete measurement profile")
      else if bool_decide (required = []) then Some (target_error p "no required intent set")
      else match check_specs p [] ∅ specs with
      | inl err => Some err
      | inr got =>
          let got := sort_strings got in
          let want := sort_strings required in
          if bool_decide (got = want) then None
          else Some (target_error p ("intent set " +:+ show_strings got +:+ ", want exactly " +:+ show_strings want))
      end
  end.

Definition lookupProfile (target : string) : string + targetProfile :=
  match targetProfiles !! target with
  | None => inl ("no compile-time measurement profile for target " +:+ quote target)
  | Some p =>
      match validateProfile p (default [] (requiredIntents !! target)) with
      | Some err => inl err
      | None => inr p
      end
  end.

(** ** measure.go *)
Definition measurementSummaryFile : string := "sli-summary.json".

Record measureRequest := {
  me_Profile : targetProfile;
  me_RunID : string;
  me_SubjectID : string;
  me_WindowID : string;
  me_EvidenceDir : string;
  me_ServiceAccount : string;
  me_Token : string;
  me_CurlImage : string;
}.

(** slint.SessionConfig with its engine.TrustContract. *)
Record SessionConfig := {
  sc_Namespace : string;
  sc_MetricsServiceName : string;
  sc_TestCase : string;
  sc_Suite : string;
  sc_RunID : string;
  sc_ServiceAccountName : string;
  sc_Token : string;
  sc_ArtifactsDir : string;
  sc_ServiceURLFormat : string;
  sc_CurlImage : string;
  sc_Specs : list SLISpec;
  sc_SubjectID : string;
  sc_SourceConfigID : string;
  sc_WindowID : string;
}.

Definition profile_specs (p : targetProfile) : list SLISpec := default [] (tp_Specs p).

Definition sessionConfig (r : measureRequest) : SessionConfig := {|
  sc_Namespace := tp_Namespace (me_Profile r); sc_MetricsServiceName := tp_MetricsService (me_Profile r);
  sc_TestCase := tp_Target (me_Profile r); sc_Suite := "bori-verify"; sc_RunID := me_RunID r;
  sc_ServiceAccountName := me_ServiceAccount r; sc_Token := me_Token r; sc_ArtifactsDir := me_EvidenceDir r;
  sc_ServiceURLFormat := tp_ServiceURLFormat (me_Profile r); sc_CurlImage := me_CurlImage r;
  sc_Specs := profile_specs (me_Profile r); sc_SubjectID := me_SubjectID r;
  sc_SourceConfigID := tp_SourceConfigID (me_Profile r); sc_WindowID := me_WindowID r;
|}.

Definition errNoTrustContract : string := "subject-id and window-id are required for a trust-correct measurement".

(** What is wrong with one result of a wanted intent. *)
Definition result_problem (r : SummaryResult) (req : measureRequest) : option string :=
  if bool_decide (sr_Status r = StatusSkip) then Some (sr_ID r +:+ " skipped: " +:+ sr_Reason r)
  else if bool_decide (sr_Value r = None) then Some (sr_ID r +:+ " has no value")
  else if negb (cm_Complete (sr_Comparability r)) then Some (sr_ID r +:+ " has no complete comparability identity")
  else if negb (bool_decide (cm_SubjectID (sr_Comparability r) = me_SubjectID req)) ||
          negb (bool_decide (cm_SourceConfigID (sr_Comparability r) = tp_SourceConfigID (me_Profile req)))
  then Some (sr_ID r +:+ " comparability does not match the request TrustContract")
  else None.

(** The loop over the results: the problems and the IDs got. *)
Definition check_result (req : measureRequest) (want : gset string) (got : gset string) (r : SummaryResult) :
    list string * gset string :=
  if negb (bool_decide (sr_ID r ∈ want)) then (["unexpected result " +:+ quote (sr_ID r)], got)
  else if bool_decide (sr_ID r ∈ got) then (["duplicate result " +:+ quote (sr_ID r)], got)
  else (option_list (result_problem r req), {[sr_ID r]} ∪ got).

(** [None] is a valid summary; the problems are sorted, so the order of the
    wanted IDs does not matter. *)
Definition validateSummary (sum : option Summary) (req : measureRequest) : option string :=
  match sum with
  | None => Some "kube-slint producer returned no summary"
  | Some sum =>
      if negb (bool_decide (su_SchemaVersion sum = SchemaVersionTrust))
      then Some ("summary schema " +:+ quote (su_SchemaVersion sum) +:+ ", want " +:+ quote SchemaVersionTrust)
      else
        let want : gset string := list_to_set (sp_ID <$> profile_specs (me_Profile req)) in
        let '(problems, got) := collect (check_result req want) ∅ (su_Results sum) in
        let problems := problems ++ ((fun id => "missing result " +:+ quote id) <$> elements (want ∖ got)) in
        match problems with
        | [] => None
        | _ => Some ("incomplete measurement for target " +:+ quote (tp_Target (me_Profile req)) +:+ ": " +:+
                     join "; " (sort_strings problems))
        end
  end.

(** *** The producer around smoke *)
Variable host : Host.
Abbreviation run A := (prog Shell A) (only parsing).

(** Session.End, and summary.LoadFile. *)
Variable session_end : list event -> SessionConfig -> option string.
Variable summary_file : list event -> string -> string + Summary.

(** The error comes with that of smoke, which the caller's closure keeps. *)
Definition measureAround (req : measureRequest) (smoke : run (option string)) : run (string * option string + string) :=
  let failed msg := mret (inl (msg, None)) in
  if bool_decide (TrimSpace (me_SubjectID req) = "") || bool_decide (TrimSpace (me_WindowID req) = "")
  then failed errNoTrustContract
  else
    made ← mkdir_all host (me_EvidenceDir req);
    match made with
    | Some err => failed (mkdir_error (me_EvidenceDir req) err)
    | None =>
        let summaryPath := path_join [me_EvidenceDir req; measurementSummaryFile] in
        removed ← remove host summaryPath;
        match removed with
        | NotRemoved err => failed ("remove stale summary " +:+ summaryPath +:+ ": " +:+ err)
        | Gone | NotThere =>
            let cfg := sessionConfig req in
            _ ← note (SessionStarted (sc_TestCase cfg));
            smoked ← smoke;
            match smoked with
            | Some err => mret (inl ("smoke: " +:+ err, Some err))
            | None =>
                l ← log;
                _ ← note (SessionEnded (sc_TestCase cfg));
                match session_end l cfg with
                | Some err => failed ("kube-slint producer: " +:+ err)
                | None =>
                    l ← log;
                    match summary_file l summaryPath with
                    | inl err => failed ("kube-slint producer wrote no summary at " +:+ summaryPath +:+ ": " +:+ err)
                    | inr written =>
                        match validateSummary (Some written) req with
                        | Some err => failed err
                        | None => mret (inr summaryPath)
                        end
                    end
                end
            end
        end
    end.

(** runSmoke of cmd/bori and of cmd/bori-devspace *)
Definition runSmoke (cmd : string) (wait : Duration) : run (option string) :=
  if negb (bool_decide (cmd = "")) then
    err ← exec host "" ["sh"; "-c"; cmd] None;
    mret ((fun e => "smoke command: " +:+ e) <$> err)
  else _ ← note (Slept wait); mret None.
End measure.

(** * What a measurement is worth (cmd/bori/sliprofile.go, cmd/bori/measure.go)

    A profile is accepted exactly when it asks for the intents required of the
    target; a summary exactly when it answers each of them, once, for this
    request; and a measurement only yields a summary that was read after the
    session ended and is accepted. *)

(** ** Programs that note events and no run status *)
Definition status_of (e : event) : option RunStatus := match e with Saved _ (DStatus st) => Some st | _ => None end.

(** Some events were added, and no status.json among them. *)
Definition quiet (s s' : Shell) : Prop := exists l, ps_log s' = ps_log s ++ l /\ omap status_of l = [].

#[export] Instance quiet_preorder : PreOrder quiet.
Proof.
  split; [intros s; exists []; by rewrite app_nil_r|]. intros a b c (l1 & E1 & Q1) (l2 & E2 & Q2).
  exists (l1 ++ l2). by rewrite E2, E1, app_assoc, omap_app, Q1, Q2.
Qed.

Lemma note_quiet e : status_of e = None -> keeps quiet (note e).
Proof. intros He s. split; [|done]. exists [e]. cbn. by rewrite He. Qed.

#[export] Hint Resolve note_quiet : prog.

Section host.
Variable host : Host.

Lemma warn_quiet line : keeps quiet (warn line). Proof. by apply note_quiet. Qed.
Lemma say_quiet line : keeps quiet (say line). Proof. by apply note_quiet. Qed.
Lemma log_quiet : keeps quiet log. Proof. apply keeps_ask. apply _. Qed.
Hint Resolve warn_quiet say_quiet log_quiet : prog.

Lemma now_quiet : keeps quiet (now host).
Proof. unfold now. keeping.
Qed.
Lemma stat_quiet path : keeps quiet (stat host path). Proof. unfold stat. keeping. Qed.
Lemma exec_quiet dir argv input : keeps quiet (exec host dir argv input). Proof. unfold exec. keeping. Qed.
Lemma mkdir_quiet dir : keeps quiet (mkdir_all host dir). Proof. unfold mkdir_all. keeping. Qed.
Lemma remove_quiet path : keeps quiet (remove host path). Proof. unfold remove. keeping. Qed.

Lemma fatalf_quiet {A} msg : keeps quiet (fatalf msg : prog Shell A). Proof. unfold fatalf. keeping. Qed.

Lemma write_file_quiet path doc removes :
  match doc with DStatus _ => False | _ => True end -> keeps quiet (write_file host path doc removes).
Proof. intros Hd. unfold write_file. destruct doc, removes; try done; keeping. Qed.

Lemma create_quiet path doc removes :
  match doc with DStatus _ => False | _ => True end -> keeps quiet (create host path doc removes).
Proof. intros Hd. unfold create. pose proof write_file_quiet. keeping. Qed.
Hint Resolve mkdir_quiet create_quiet : prog.

Lemma write_in_quiet dir name doc removes :
  match doc with DStatus _ => False | _ => True end -> keeps quiet (write_in host dir name doc removes).
Proof. intros Hd. unfold write_in. keeping. Qed.
End host.

#[export] Hint Resolve warn_quiet say_quiet log_quiet now_quiet stat_quiet exec_quiet mkdir_quiet remove_quiet fatalf_quiet
  write_file_quiet create_quiet write_in_quiet : prog.

Section measure.
Context `{GoText} `{SortSlice} `{KubeSlint}.
Variable ValidateSelectors : SLISpec -> option string.

(** ** Profiles *)

(** A specification every input of which selects series, well formed. *)
Definition measurable (s : SLISpec) : Prop :=
  sp_Inputs s <> [] /\ Forall (fun r => ref_has_selector r = true) (sp_Inputs s) /\ ValidateSelectors s = None.

(** What is required of the profile of a target. *)
Record acceptable (p : targetProfile) (required : list string) (specs : list SLISpec) : Prop := {
  ac_specs : tp_Specs p = Some specs;
  ac_located : tp_SourceConfigID p <> "" /\ tp_Namespace p <> "" /\ tp_MetricsService p <> "" /\ tp_ServiceURLFormat p <> "";
  ac_required : required <> [];
  ac_measurable : Forall measurable specs;
  ac_distinct : NoDup (sp_ID <$> specs);
  ac_intents : (sp_ID <$> specs) ≡ₚ required;
}.

Lemma plain_input_None s : plain_input s = None <-> Forall (fun r => ref_has_selector r = true) (sp_Inputs s).
Proof.
  unfold plain_input. rewrite Forall_forall. split.
  - intros Hf r Hr. apply (find_None_elem _ _ _ Hf) in Hr. by destruct (ref_has_selector r).
  - intros Hf. destruct (List.find _ _) as [r|] eqn:E; [|done]. apply find_Some_elem in E as [Hr Hn].
    by rewrite (Hf _ Hr) in Hn.
Qed.

Lemma check_specs_ok p got seen specs ids :
  check_specs ValidateSelectors p got seen specs = inr ids <->
  ids = got ++ (sp_ID <$> specs) /\ Forall measurable specs /\ NoDup (sp_ID <$> specs) /\
  (forall s, s ∈ specs -> sp_ID s ∉ seen).
Proof.
  revert got seen. induction specs as [|s specs IH]; intros got seen; cbn [check_specs].
  - rewrite app_nil_r. split; [|by intros [-> _]]. intros [= <-]. do 3 (split; [done || constructor|]). intros s Hs. nil_elem.
  - rewrite fmap_cons, NoDup_cons, Forall_cons. case_decide as Hseen.
    { split; [done|]. intros (_ & _ & _ & Hn). by destruct (Hn s (list_elem_of_here _ _)). }
    case_bool_decide as Hin; [split; [done|]; by intros (_ & [[Hne _] _] & _)|].
    destruct (plain_input s) as [r|] eqn:Ep.
    { split; [done|]. intros (_ & [(_ & Hsel & _) _] & _). apply plain_input_None in Hsel. congruence. }
    apply plain_input_None in Ep. destruct (ValidateSelectors s) as [e|] eqn:Ev.
    { split; [done|]. intros (_ & [(_ & _ & Hv) _] & _). congruence. }
    rewrite IH, <- app_assoc. cbn [app]. split.
    + intros (-> & Hm & Hnd & Hn). do 2 (split; [done|]). split.
      * split; [|done]. intros (s' & Hs' & Hin')%list_elem_of_fmap. apply (Hn s' Hin'). rewrite <- Hs'. set_solver.
      * intros s' [->|Hin']%elem_of_cons; [done|]. specialize (Hn s' Hin'). set_solver.
    + intros (-> & [_ Hm] & [Hni Hnd] & Hn). do 3 (split; [done|]). intros s' Hin' Hs'.
      apply elem_of_union in Hs' as [Hs'%elem_of_singleton|Hs'].
      * apply Hni. rewrite <- Hs'. by apply list_elem_of_fmap_2.
      * by apply (Hn s'); [right|].
Qed.

Lemma sort_strings_eq l1 l2 : sort_strings l1 = sort_strings l2 <-> l1 ≡ₚ l2.
Proof.
  split; [|apply sort_strings_unique]. intros E. unfold sort_strings in E.
  rewrite <- (sort_slice_perm _ String.ltb l1), E. apply sort_slice_perm.
Qed.

(** A measurement profile is accepted exactly when it is located, asks for
    the required intents, each once, and selects well-formed series for each. *)
Theorem validateProfile_spec p required :
  validateProfile ValidateSelectors p required = None <-> exists specs, acceptable p required specs.
Proof.
  unfold validateProfile. destruct (tp_Specs p) as [specs|] eqn:Es; [|split; [done|]; intros [specs [E _ _ _ _ _]]; congruence].
  destruct (bool_decide (tp_SourceConfigID p = "") || _ || _ || _) eqn:Eloc.
  { split; [done|]. intros [specs' [_ (H1' & H2' & H3' & H4') _ _ _ _]].
    by rewrite !bool_decide_eq_false_2 in Eloc by done. }
  rewrite !orb_false_iff, !bool_decide_eq_false in Eloc. case_bool_decide as Hreq.
  { split; [done|]. intros [specs' [_ _ Hr _ _ _]]. done. }
  destruct (check_specs _ p [] ∅ specs) as [err|ids] eqn:Ec.
  { split; [done|]. intros [specs' [E _ _ Hm Hd _]]. rewrite E in Es. injection Es as <-.
    assert (check_specs ValidateSelectors p [] ∅ specs' = inr (sp_ID <$> specs')) as Hok.
    { apply check_specs_ok. cbn. do 3 (split; [done|]). set_solver. }
    congruence. }
  apply check_specs_ok in Ec as (-> & Hm & Hd & _). cbn [app]. case_bool_decide as Hs.
  - split; [|done]. intros _. exists specs. split; [done|naive_solver|done|done|done|by apply sort_strings_eq].
  - split; [done|]. intros [specs' [E _ _ _ _ Hp]]. rewrite E in Es. injection Es as <-. by apply sort_strings_eq in Hp.
Qed.

(** ** Summaries *)

(** A result that answers its intent for the request. *)
Record answers (req : measureRequest) (r : SummaryResult) : Prop := {
  an_status : sr_Status r <> StatusSkip;
  an_value : sr_Value r <> None;
  an_complete : cm_Complete (sr_Comparability r) = true;
  an_subject : cm_SubjectID (sr_Comparability r) = me_SubjectID req;
  an_source : cm_SourceConfigID (sr_Comparability r) = tp_SourceConfigID (me_Profile req);
}.

(** A summary that answers every intent of the profile once, and nothing else. *)
Record trustworthy (sum : Summary) (req : measureRequest) : Prop := {
  tw_schema : su_SchemaVersion sum = SchemaVersionTrust;
  tw_once : NoDup (sr_ID <$> su_Results sum);
  tw_intents : forall id, id ∈ sr_ID <$> su_Results sum <-> id ∈ sp_ID <$> profile_specs (me_Profile req);
  tw_answers : Forall (answers req) (su_Results sum);
}.

Lemma result_problem_None r req : result_problem r req = None <-> answers req r.
Proof.
  unfold result_problem. case_bool_decide as H1'; [split; [done|by intros []]|].
  case_bool_decide as H2'; [split; [done|by intros []]|].
  destruct (cm_Complete _) eqn:H3'; cbn [negb]; [|split; [done|intros []; congruence]].
  destruct (bool_decide_reflect (cm_SubjectID (sr_Comparability r) = me_SubjectID req)); cbn [negb orb];
    [|split; [done|by intros []]].
  destruct (bool_decide_reflect (cm_SourceConfigID (sr_Comparability r) = tp_SourceConfigID (me_Profile req))); cbn [negb];
    [|split; [done|by intros []]].
  split; [|done]. by intros _.
Qed.

Lemma check_results_ok req want got rs :
  (collect (check_result req want) got rs).1 = [] <->
  Forall (fun r => sr_ID r ∈ want /\ (sr_ID r ∉ got) /\ answers req r) rs /\ NoDup (sr_ID <$> rs).
Proof.
  revert got. induction rs as [|r rs IH]; intros got; cbn [collect]; [split; [by repeat constructor|done]|].
  rewrite Forall_cons, fmap_cons, NoDup_cons. unfold check_result at 1.
  case_bool_decide as Hw; cbn [negb]; [|destruct (collect _ _ _); cbn; split; [done|naive_solver]].
  case_bool_decide as Hg; [destruct (collect _ _ _); cbn; split; [done|naive_solver]|].
  specialize (IH ({[sr_ID r]} ∪ got)). destruct (collect _ _ rs) as [errs g'] eqn:Ec. cbn [fst] in *.
  destruct (result_problem r req) as [msg|] eqn:Ep; cbn.
  { split; [done|]. intros [[(_ & _ & Ha%result_problem_None) _] _]. congruence. }
  apply result_problem_None in Ep. rewrite IH. rewrite !Forall_forall. split.
  - intros [Hf Hnd]. split; [split; [done|]|split; [|done]].
    + intros x Hx. specialize (Hf x Hx). set_solver.
    + intros (x & Hx & Hin)%list_elem_of_fmap. specialize (Hf x Hin). rewrite <- Hx in Hf. set_solver.
  - intros [[_ Hf] [Hni Hnd]]. split; [|done]. intros x Hx. destruct (Hf x Hx) as (? & ? & ?). split; [done|]. split; [|done].
    intros [Hs%elem_of_singleton|Hs]%elem_of_union; [|done]. apply Hni. rewrite <- Hs. by apply list_elem_of_fmap_2.
Qed.

Lemma elements_difference_nil (X Y : gset string) : elements (X ∖ Y) = [] <-> X ⊆ Y.
Proof.
  rewrite elements_empty_iff. split.
  - intros He x Hx. destruct (decide (x ∈ Y)) as [|Hn]; [done|]. exfalso.
    assert (x ∈ X ∖ Y) as Hd by (by apply elem_of_difference). rewrite He in Hd. by apply not_elem_of_empty in Hd.
  - intros Hs x. rewrite elem_of_difference. split; [|by intros ?%not_elem_of_empty]. intros [Hx Hn]. by destruct (Hn (Hs x Hx)).
Qed.

Lemma check_results_got req want got rs :
  (collect (check_result req want) got rs).1 = [] ->
  (collect (check_result req want) got rs).2 = got ∪ list_to_set (sr_ID <$> rs).
Proof.
  revert got. induction rs as [|r rs IH]; intros got; cbn [collect]; [intros _; set_solver|].
  unfold check_result at 1 3. case_bool_decide; cbn [negb]; [|by destruct (collect _ _ _)].
  case_bool_decide; [by destruct (collect _ _ _)|]. specialize (IH ({[sr_ID r]} ∪ got)).
  destruct (collect _ _ rs) as [errs g'] eqn:Ec. cbn [fst snd] in *. intros [_ E]%app_nil. rewrite IH by done. set_solver.
Qed.

(** A summary is accepted exactly when it has the trusted schema and answers
    every intent of the profile once, with a value measured for this subject and
    this source. *)
Lemma validateSummary_trustworthy sum req : validateSummary (Some sum) req = None <-> trustworthy sum req.
Proof.
  unfold validateSummary. case_bool_decide as Hs; cbn [negb]; [|split; [done|by intros [? _ _ _]]].
  set (want := list_to_set (sp_ID <$> profile_specs (me_Profile req)) : gset string).
  pose proof (check_results_ok req want ∅ (su_Results sum)) as Hok.
  pose proof (check_results_got req want ∅ (su_Results sum)) as Hgot.
  destruct (collect _ ∅ (su_Results sum)) as [problems got]. cbn [fst snd] in *.
  assert (problems ++ ((fun id => "missing result " +:+ quote id) <$> elements (want ∖ got)) = [] <-> trustworthy sum req) as Hiff.
  { split.
    - intros [-> Hm]%app_nil. destruct (proj1 Hok eq_refl) as [Hf Hnd]. rewrite (Hgot eq_refl) in Hm.
      apply fmap_nil_inv, elements_difference_nil in Hm. rewrite Forall_forall in Hf. split; [done|done|..].
      + intros id. split.
        * intros (r & -> & Hr)%list_elem_of_fmap. destruct (Hf r Hr) as [Hw _]. by apply elem_of_list_to_set in Hw.
        * intros Hid%(elem_of_list_to_set (C:=gset string)). apply Hm in Hid.
          apply elem_of_union in Hid as [Hid|Hid]; [by apply not_elem_of_empty in Hid|by apply elem_of_list_to_set in Hid].
      + rewrite Forall_forall. intros r Hr. by destruct (Hf r Hr) as (_ & _ & ?).
    - intros [_ Hnd Hids Han]. rewrite Forall_forall in Han. assert (problems = []) as Hp.
      { apply Hok. split; [|done]. rewrite Forall_forall. intros r Hr. split; [|split; [set_solver|by apply Han]].
        unfold want. apply elem_of_list_to_set, Hids. by apply list_elem_of_fmap_2. }
      rewrite Hp, (Hgot Hp). cbn [app].
      assert (elements (want ∖ (∅ ∪ list_to_set (sr_ID <$> su_Results sum))) = []) as ->; [|done].
      apply elements_difference_nil. intros id Hid%elem_of_list_to_set%Hids. apply elem_of_union_r. by apply elem_of_list_to_set. }
  destruct (problems ++ _) as [|x xs]; [by rewrite <- Hiff|]. rewrite <- Hiff. done.
Qed.

(** ** Measuring *)
Variable host : Host.
Variable session_end : list event -> SessionConfig -> option string.
Variable summary_file : list event -> string -> string + Summary.

(** The log before the session: a summary left in the directory is gone. *)
Definition cleared (path : string) (l : list event) : option (list event) :=
  match h_remove host l path with Gone => Some (l ++ [Unlinked path]) | NotThere => Some l | NotRemoved _ => None end.

(** A measurement of [req] from [s] to [s']: the request names its subject and
    window; what an earlier run left is gone before the session starts; smoke
    runs inside the session; and what is read after its end is trustworthy. *)
Record measured (req : measureRequest) (smoke : prog Shell (option string)) (s : Shell) (path : string) (s' : Shell) : Prop := {
  ms_named : TrimSpace (me_SubjectID req) <> "" /\ TrimSpace (me_WindowID req) <> "";
  ms_path : path = path_join [me_EvidenceDir req; measurementSummaryFile];
  ms_dir : h_mkdir host (ps_log s) (me_EvidenceDir req) = None;
  ms_run : exists l0 s1, cleared path (ps_log s) = Some l0 /\
    smoke (Build_Shell (l0 ++ [SessionStarted (tp_Target (me_Profile req))]) (ps_disk s)) = (Returned None, s1) /\
    session_end (ps_log s1) (sessionConfig req) = None /\
    s' = Build_Shell (ps_log s1 ++ [SessionEnded (tp_Target (me_Profile req))]) (ps_disk s1);
  ms_summary : exists sum, summary_file (ps_log s') path = inr sum /\ trustworthy sum req;
}.

(** measureAround yields a path exactly when the measurement was made as
    described: there is no other way to a summary. *)
Lemma measureAround_measured req smoke s path s' :
  measureAround host session_end summary_file req smoke s = (Returned (inr path), s') <-> measured req smoke s path s'.
Proof.
  unfold measureAround. destruct (bool_decide (TrimSpace (me_SubjectID req) = "") || _) eqn:Eb.
  { split; [done|]. intros [[Hs Hw] _ _ _ _]. by rewrite !bool_decide_eq_false_2 in Eb by done. }
  rewrite orb_false_iff, !bool_decide_eq_false in Eb. running.
  destruct (h_mkdir host (ps_log s) (me_EvidenceDir req)) as [err|] eqn:Em; [split; [done|by intros [_ _ Hd _ _]; congruence]|].
  set (p := path_join [me_EvidenceDir req; measurementSummaryFile]).
  assert (forall l0 r, cleared p (ps_log s) = Some l0 ->
    r = (let cfg := sessionConfig req in
      (_ ← note (SessionStarted (sc_TestCase cfg)); smoked ← smoke;
       match smoked with
       | Some err => mret (inl ("smoke: " +:+ err, Some err))
       | None =>
           l ← log; _ ← note (SessionEnded (sc_TestCase cfg));
           match session_end l cfg with
           | Some err => mret (inl ("kube-slint producer: " +:+ err, None))
           | None =>
               l ← log;
               match summary_file l p with
               | inl err => mret (inl ("kube-slint producer wrote no summary at " +:+ p +:+ ": " +:+ err, None))
               | inr written =>
                   match validateSummary (Some written) req with Some err => mret (inl (err, None)) | None => mret (inr p) end
               end
           end
       end) (Build_Shell l0 (ps_disk s))) ->
    r = (Returned (inr path), s') <-> measured req smoke s path s') as Hmain.
  { intros l0 r Hc ->. cbn zeta. running. split.
    - destruct (smoke _) as [[[err|]|n|w] s1] eqn:Esm; running; try done.
      destruct (session_end _ _) as [err|] eqn:Ese; running; [done|].
      destruct (summary_file _ p) as [err|sum] eqn:Esf; running; [done|].
      destruct (validateSummary _ _) as [err|] eqn:Ev; running; [done|]. apply validateSummary_trustworthy in Ev.
      intros [= <- <-]. split; [done|done|done| |].
      + by exists l0, s1.
      + cbn. exists sum. done.
    - intros [_ -> _ (l0' & s1 & Hc' & Hsm & Hse & ->) (sum & Hsum & Ht)]. fold p in Hc', Hsum. rewrite Hc in Hc'. injection Hc' as <-.
      cbn [ps_log ps_disk sessionConfig sc_TestCase] in *. rewrite Hsm. running. rewrite Hse. running. cbn [ps_log] in *. rewrite Hsum.
      running. apply validateSummary_trustworthy in Ht. by rewrite Ht. }
  fold p. unfold cleared in Hmain. destruct (h_remove host (ps_log s) p) as [| |err] eqn:Er; rewrite bind_run, remove_run, Er.
  - by apply (Hmain _ _ eq_refl).
  - destruct s as [l d]. by apply (Hmain _ _ eq_refl).
  - split; [done|]. intros [_ -> _ (l0 & s1 & Hc & _) _]. unfold cleared in Hc. fold p in Hc. by rewrite Er in Hc.
Qed.
End measure.
