(* ===== verification/VerifyCmd.v ===== *)
(** * bori verify (cmd/bori/main.go, pkg/model/policy.go, pkg/component): definitions

    What is verified (one profiled target, a release, or the apps of a
    directory), the measurement and the gates of one target, the loop over the
    targets, and what is recorded of it.  Lines printed only with -v are left
    out. *)

From S2P Require Import Prelude Text Process.
From S2P Require Import Release Loading Planner Revision Shadow Deploy DataPlane Artifact Host Gate.
From S2P Require Import GateRun.
From S2P Require Import Measure Redact.
From Stdlib Require Import Ascii.

(** ** pkg/model/policy.go *)
Record BoriVerificationPolicy := {
  po_Name : string;
  po_Policy : string;
  po_FailOn : string;
  po_Blocking : bool;
}.

Definition ResolvePolicyPath (p : BoriVerificationPolicy) (appDir profile : string) : string :=
  path_join [appDir; replace_all "{profile}" profile (po_Policy p)].

(** ** pkg/component *)
Record Component := {
  cc_Name : string;
  cc_Image : string;
  cc_Port : Z;
  cc_MetricsPath : string;
  cc_Namespace : string;
}.

Record RegisteredApp := { ra_BoriDir : string; ra_Comp : Component }.

(** yaml.Unmarshal of a policy and of an app's component.yaml; and a
    directory's entries with whether they are directories. *)
Class VerifyFiles := {
  decode_policy : string -> string + BoriVerificationPolicy;
  decode_app : string -> string + Component;
  read_dir : string -> string + list (string * bool);
}.

Definition component_defaults (c : Component) : Component :=
  Build_Component (cc_Name c) (cc_Image c) (if Z.eqb (cc_Port c) 0 then 8080 else cc_Port c)
    (if bool_decide (cc_MetricsPath c = "") then "/metrics" else cc_MetricsPath c)
    (if bool_decide (cc_Namespace c = "") then cc_Name c else cc_Namespace c).

Record resolvedPolicy := {
  rq_Name : string;
  rq_PolicyPath : string;
  rq_FailOn : string;
  rq_Blocking : bool;
}.

Record verifyTarget := {
  vt_Name : string;
  vt_Producer : bool;
  vt_Namespace : string;
  vt_ServiceName : string;
  vt_Port : Z;
  vt_MetricsPath : string;
  vt_Policies : list resolvedPolicy;
}.

Record measureOptions := {
  mo_SubjectID : string;
  mo_WindowID : string;
  mo_ServiceAccount : string;
  mo_Token : string;
  mo_CurlImage : string;
}.

Record VerifyFlags := {
  vf_release : string;
  vf_env : string;
  vf_bori_root : string;
  vf_changed : string;
  vf_apps_dir : string;
  vf_profile : string;
  vf_smoke_cmd : string;
  vf_smoke_wait : Duration;
  vf_bori_dir : string;
  vf_slint_gate : string;
  vf_kube_namespace : string;
  vf_target : string;
  vf_policy : string;
  vf_fail_on : string;
  vf_subject_id : string;
  vf_window_id : string;
  vf_slint_sa : string;
  vf_curl_image : string;
}.

Section verify.
Context `{GoText} `{SortSlice} `{Files} `{References} `{DeployFiles} `{ParseFloat} `{MapRange} `{KubeSlint} `{VerifyFiles}.
Variable ValidateSelectors : SLISpec -> option string.
Variable host : Host.
Variable session_end : list event -> SessionConfig -> option string.
Variable summary_file : list event -> string -> string + Summary.
(** The token read from the environment. *)
Variable slint_token : string.

Abbreviation run A := (prog Shell A) (only parsing).

(** ** pkg/model/policy.go *)
Definition LoadPolicy (path : string) : string + BoriVerificationPolicy := load decode_policy path.

Definition LoadPolicyByName (boriRoot name : string) : string + BoriVerificationPolicy :=
  LoadPolicy (path_join [boriRoot; "verification"; "policies"; name +:+ ".yaml"]).

(** ** pkg/component: an app's component.yaml, with its defaults *)
Definition LoadApp (path : string) : string + Component :=
  match read_file path with
  | inl err => inl ("read: " +:+ err)
  | inr data => match decode_app data with inl err => inl ("parse: " +:+ err) | inr c => inr (component_defaults c) end
  end.

(** ** Discovery of apps *)
Definition discover_one (appsDir : string) (acc : list RegisteredApp) (entry : string * bool) :
    run (turn (string + list RegisteredApp)) :=
  if negb entry.2 then mret (Continue (inr acc))
  else
    let boriDir := appsDir +:+ "/" +:+ entry.1 +:+ "/.bori" in
    let compPath := boriDir +:+ "/component.yaml" in
    st ← stat host compPath;
    match st with
    | Absent => mret (Continue (inr acc))
    | _ =>
        match LoadApp compPath with
        | inl err => mret (Break (inl (entry.1 +:+ ": " +:+ err)))
        | inr c => mret (Continue (inr (acc ++ [Build_RegisteredApp boriDir c])))
        end
    end.

Definition Discover (appsDir : string) : run (string + list RegisteredApp) :=
  match read_dir appsDir with
  | inl err => mret (inl ("read dir " +:+ appsDir +:+ ": " +:+ err))
  | inr entries =>
      loop_prog (fun acc e => match acc with inl err => mret (Break (inl err)) | inr apps => discover_one appsDir apps e end)
        (inr []) entries
  end.

(** ** resolvePolicies *)
Definition policy_file (profile : string) : string := "policy." +:+ profile +:+ ".yaml".

Definition resolve_policy (boriRoot appDir profile polName : string) : resolvedPolicy :=
  match LoadPolicyByName boriRoot polName with
  | inl _ => Build_resolvedPolicy polName (path_join [appDir; ".bori"; policy_file profile]) FailOnFailOrNoGrade false
  | inr pol =>
      Build_resolvedPolicy (po_Name pol) (ResolvePolicyPath pol appDir profile)
        (if bool_decide (po_FailOn pol = "") then FailOnFailOrNoGrade else po_FailOn pol) (po_Blocking pol)
  end.

Definition resolvePolicies (boriRoot appsDir : string) (comp : BoriComponent) (profile : string) : list resolvedPolicy :=
  resolve_policy boriRoot (path_join [appsDir; bc_Name comp]) profile <$> bc_VerificationPolicies comp.

(** ** One target *)
Definition set_message (cs : CompStatus) (msg : string) : CompStatus := Build_CompStatus (ct_Name cs) (ct_GateResult cs) msg.
Definition set_gate (cs : CompStatus) (g : string) : CompStatus := Build_CompStatus (ct_Name cs) g (ct_Message cs).

(** The status of a target, its result and whether it halts the loop. *)
Record Verified := { vd_status : CompStatus; vd_result : string; vd_blocked : bool }.

Definition scrape_target (t : verifyTarget) : Target :=
  Build_Target (vt_Namespace t) (vt_ServiceName t) (vt_Port t) (vt_MetricsPath t).

(** The path of the summary, or the status and the result of the target. *)
Definition scrapeSummary (t : verifyTarget) (cs : CompStatus) (evidenceDir profile smokeCmd : string) (smokeWait : Duration) :
    run (CompStatus * string + string) :=
  let failed what msg g := _ ← warn ("[bori] " +:+ vt_Name t +:+ ": " +:+ what +:+ ": " +:+ msg);
                           mret (inl (set_message (if bool_decide (g = GateResultFail) then set_gate cs g else cs) msg, g)) in
  before ← ScrapeMetrics host (scrape_target t);
  match before with
  | inl err => failed "pre-smoke scrape" (RedactString err) GateResultNoGrade
  | inr before =>
      preAt ← now host;
      smoked ← runSmoke host smokeCmd smokeWait;
      match smoked with
      | Some err => failed "smoke" (RedactString err) GateResultFail
      | None =>
          after ← ScrapeMetrics host (scrape_target t);
          match after with
          | inl err => failed "post-smoke scrape" (RedactString err) GateResultNoGrade
          | inr after =>
              postAt ← now host;
              built ← BuildMeasurementSummary host
                        (Build_RunRequest profile (vt_Name t) "" (Build_AppSnapshot preAt before) (Build_AppSnapshot postAt after) "")
                        evidenceDir;
              match built with
              | inl err => failed "build summary" err GateResultNoGrade
              | inr path => mret (inr path)
              end
          end
      end
  end.

(** Every policy against the one summary; [overall] is the result so far. *)
Fixpoint gate_policies (bin runID : string) (t : verifyTarget) (cs : CompStatus) (evidenceDir summaryPath overall : string)
    (pols : list resolvedPolicy) : run Verified :=
  match pols with
  | [] => mret (Build_Verified (set_gate cs overall) overall false)
  | pol :: pols =>
      let halt g msg := mret (Build_Verified (Build_CompStatus (ct_Name cs) g ("blocking policy " +:+ quote (rq_Name pol) +:+ ": " +:+ msg)) g true) in
      st ← stat host (rq_PolicyPath pol);
      match st with
      | Absent =>
          let overall := Max overall GateResultNoGrade in
          if rq_Blocking pol then halt overall "policy file not found"
          else gate_policies bin runID t cs evidenceDir summaryPath overall pols
      | _ =>
          ran ← KubeSlint_Run host bin
                  (Build_GateRequest runID (vt_Name t) (rq_PolicyPath pol) summaryPath (rq_FailOn pol)
                     (path_join [evidenceDir; rq_Name pol]));
          match ran with
          | inl err =>
              _ ← warn ("[bori] " +:+ vt_Name t +:+ "/" +:+ rq_Name pol +:+ ": gate error: " +:+ err);
              let overall := Max overall GateResultNoGrade in
              if rq_Blocking pol then halt overall ("gate error: " +:+ err)
              else gate_policies bin runID t cs evidenceDir summaryPath overall pols
          | inr res =>
              _ ← say ("[bori] " +:+ pad_right 24 (vt_Name t) +:+ " " +:+ pad_right 32 (rq_Name pol) +:+ " " +:+ go_GateResult res);
              let overall := Max overall (go_GateResult res) in
              if rq_Blocking pol && IsBlocking (go_GateResult res) (rq_FailOn pol)
              then halt overall (go_GateResult res +:+ " — " +:+ go_Message res)
              else gate_policies bin runID t cs evidenceDir summaryPath overall pols
          end
      end
  end.

Definition evidence_dir (runDir name : string) : string := path_join [runDir; "evidence"; name].

(** The summary of a profiled target, or why it has none. *)
Definition produceSummary (fl : VerifyFlags) (mopts : measureOptions) (t : verifyTarget) (cs : CompStatus) (runID evidenceDir : string) :
    run (Verified + string) :=
  let blocking := existsb rq_Blocking (vt_Policies t) in
  match lookupProfile ValidateSelectors (vt_Name t) with
  | inl err =>
      _ ← warn ("[bori] " +:+ vt_Name t +:+ ": " +:+ err);
      mret (inl (Build_Verified (set_message cs err) GateResultNoGrade blocking))
  | inr prof =>
      measured ← measureAround host session_end summary_file
        (Build_measureRequest prof runID (mo_SubjectID mopts) (mo_WindowID mopts) evidenceDir (mo_ServiceAccount mopts)
           (mo_Token mopts) (mo_CurlImage mopts))
        (runSmoke host (vf_smoke_cmd fl) (vf_smoke_wait fl));
      match measured with
      | inr path => mret (inr path)
      | inl (err, smokeErr) =>
          let msg := RedactString err in
          _ ← warn ("[bori] " +:+ vt_Name t +:+ ": measurement: " +:+ msg);
          mret (inl (match smokeErr with
                     | Some _ => Build_Verified (Build_CompStatus (ct_Name cs) GateResultFail msg) GateResultFail blocking
                     | None => Build_Verified (set_message cs msg) GateResultNoGrade blocking
                     end))
      end
  end.

Definition runOneVerification (fl : VerifyFlags) (mopts : measureOptions) (bin : string) (t : verifyTarget) (runID runDir : string) :
    run Verified :=
  let cs := Build_CompStatus (vt_Name t) GateResultNoGrade "" in
  let evidenceDir := evidence_dir runDir (vt_Name t) in
  summary ← (if vt_Producer t then produceSummary fl mopts t cs runID evidenceDir
             else
               scraped ← scrapeSummary t cs evidenceDir (vf_profile fl) (vf_smoke_cmd fl) (vf_smoke_wait fl);
               mret (match scraped with inl (cs, g) => inl (Build_Verified cs g false) | inr path => inr path end));
  match summary with
  | inl v => mret v
  | inr summaryPath => gate_policies bin runID t cs evidenceDir summaryPath GateResultPass (vt_Policies t)
  end.

(** ** The loop over the targets *)
Record Progress := { pg_statuses : list CompStatus; pg_overall : string; pg_halted : bool }.

Definition verify_one (fl : VerifyFlags) (mopts : measureOptions) (bin runID runDir : string) (p : Progress) (t : verifyTarget) :
    run (turn Progress) :=
  v ← runOneVerification fl mopts bin t runID runDir;
  let p' := Build_Progress (pg_statuses p ++ [vd_status v]) (Max (pg_overall p) (vd_result v)) (vd_blocked v) in
  if vd_blocked v then
    _ ← warn ("[bori] blocking policy failed for " +:+ vt_Name t +:+ " — halting verification"); mret (Break p')
  else mret (Continue p').

Definition verify_all (fl : VerifyFlags) (mopts : measureOptions) (bin runID runDir : string) (ts : list verifyTarget) : run Progress :=
  loop_prog (verify_one fl mopts bin runID runDir) (Build_Progress [] GateResultPass false) ts.

(** ** What to verify *)

(** Target mode. *)
Definition profiled_target (fl : VerifyFlags) (exitFailOn : string) : verifyTarget :=
  Build_verifyTarget (vf_target fl) true "" "" 0 "" [Build_resolvedPolicy "slint" (vf_policy fl) exitFailOn true].

(** Release mode: one component of the plan. *)
Definition planned_target (boriRoot appsDir profile : string) (affected : option (gset string)) (cp : ComponentPlan) : option verifyTarget :=
  if bool_decide (cp_Action cp = "violation") then None
  else if match affected with Some A => negb (bool_decide (cp_Name cp ∈ A)) | None => false end then None
  else match LoadComponentByName boriRoot (cp_Name cp) with
  | inl _ => None
  | inr comp =>
      match resolvePolicies boriRoot appsDir comp profile with
      | [] => None
      | policies =>
          Some (Build_verifyTarget (bc_Name comp) false (cp_Namespace cp) (bc_Name comp) (bc_MetricsPort comp) (bc_MetricsPath comp)
                  policies)
      end
  end.

Definition plan_refs (plan : Plan_) : list ComponentRef :=
  (fun cp => Build_ComponentRef (cp_Name cp) (cp_Version cp) "" "") <$> pl_Components plan.

(** The set of --changed: [None] without the flag. *)
Definition affected_set (fl : VerifyFlags) (plan : Plan_) (comps : gmap string BoriComponent) : run (option (gset string)) :=
  if bool_decide (vf_changed fl = "") then mret None
  else
    let changed := split_on ","%char (vf_changed fl) in
    match AffectedComponents changed (plan_refs plan) comps with
    | None => panic "unreachable: fuel"
    | Some affected =>
        _ ← say ("[bori] incremental verify — changed: " +:+ join ", " changed +:+ " → affected: " +:+ join ", " affected);
        mret (Some (list_to_set affected))
    end.

(** The targets, and the components of the plan in order. *)
Definition release_targets (fl : VerifyFlags) (runID : string) : run (list verifyTarget * list ComponentPlan) :=
  if bool_decide (vf_env fl = "") then fatalf "verify: --env is required with --release"
  else match h_abs host (vf_bori_root fl) with
  | inl err => fatalf ("abs bori-root: " +:+ err)
  | inr abs =>
      let appsDir := if bool_decide (vf_apps_dir fl = "") then path_join [abs; ".."] else vf_apps_dir fl in
      t ← now host;
      match Plan abs None t runID (vf_release fl) (vf_env fl) with
      | None => panic "unreachable: fuel"
      | Some (inl err) => fatalf ("plan: " +:+ err)
      | Some (inr plan) =>
          match LoadReleaseByName abs (vf_release fl) with
          | inl err => fatalf ("load release: " +:+ err)
          | inr rel =>
              match LoadComps abs rel with
              | inl err => fatalf ("load components: " +:+ err)
              | inr comps =>
                  affected ← affected_set fl plan comps;
                  mret (omap (planned_target abs appsDir (vf_profile fl) affected) (pl_Components plan), pl_Components plan)
              end
          end
      end
  end.

Definition legacy_target (profile : string) (ts : list verifyTarget) (app : RegisteredApp) : run (list verifyTarget) :=
  let c := ra_Comp app in
  let policyPath := path_join [ra_BoriDir app; policy_file profile] in
  st ← stat host policyPath;
  match st with
  | Absent => mret ts
  | _ => mret (ts ++ [Build_verifyTarget (cc_Name c) false (cc_Namespace c) (cc_Name c) (cc_Port c) (cc_MetricsPath c)
                        [Build_resolvedPolicy "smoke" policyPath FailOnFailOrNoGrade false]])
  end.

(** Legacy mode: [None] when no app is registered. *)
Definition legacy_targets (fl : VerifyFlags) : run (option (list verifyTarget)) :=
  appsDir ← (if bool_decide (vf_apps_dir fl = "") then
               match h_abs host "." with inl err => fatalf ("getwd: " +:+ err) | inr cwd => mret (path_join [cwd; ".."]) end
             else mret (vf_apps_dir fl));
  found ← Discover appsDir;
  match found with
  | inl err => fatalf ("discover apps: " +:+ err)
  | inr [] => mret None
  | inr apps => ts ← fold_prog (legacy_target (vf_profile fl)) [] apps; mret (Some ts)
  end.

(** ** What is recorded *)
Definition set_outcome (phase result : string) (comps : list CompStatus) (s : RunStatus) : RunStatus :=
  Build_RunStatus (ru_SchemaVersion s) (ru_RunID s) (ru_Release s) (ru_Environment s) (ru_Profile s) (ru_StartedAt s)
    (ru_FinishedAt s) phase result comps.

Definition set_finished (t : Time) (s : RunStatus) : RunStatus :=
  Build_RunStatus (ru_SchemaVersion s) (ru_RunID s) (ru_Release s) (ru_Environment s) (ru_Profile s) (ru_StartedAt s) t
    (ru_Phase s) (ru_Result s) (ru_Components s).

Definition verified_phase (overall : string) : string :=
  if bool_decide (overall = GateResultPass) || bool_decide (overall = GateResultWarn) then "Verified" else "Failed".

(** A program with the variable [status]. *)
Abbreviation vrun A := (prog (Shell * RunStatus) A) (only parsing).

Definition set_status (f : RunStatus -> RunStatus) : vrun unit := update (fun p => (p.1, f p.2)).

Definition writeStatus (runDir : string) : vrun unit :=
  t ← lift (now host);
  _ ← set_status (set_finished t);
  s ← ask snd;
  wrote ← lift (WriteStatus host runDir s);
  match wrote with
  | Some err => lift (warn ("[bori] warning: could not write status.json: " +:+ err))
  | None => mret tt
  end.

(** The gates of a release's components: one that was not verified counts as
    skipped and passed. *)
Definition release_gate (verified : gmap string CompStatus) (cp : ComponentPlan) : CompReleaseGate :=
  match verified !! cp_Name cp with
  | Some cs => Build_CompReleaseGate (cp_Name cp) (cp_Version cp) (ct_GateResult cs) true false
  | None => Build_CompReleaseGate (cp_Name cp) (cp_Version cp) GateResultPass false true
  end.

Definition verified_set (css : list CompStatus) : gmap string CompStatus := foldl (fun m cs => <[ct_Name cs := cs]> m) ∅ css.

Definition release_result (fl : VerifyFlags) (runID : string) (p : Progress) (cps : list ComponentPlan) (t : Time) : ReleaseResult := {|
  rr_RunID := runID; rr_Release := vf_release fl; rr_Environment := vf_env fl; rr_CreatedAt := t; rr_GateResult := pg_overall p;
  rr_Components := release_gate (verified_set (pg_statuses p)) <$> cps;
|}.

Definition write_release_result (fl : VerifyFlags) (runID runDir : string) (p : Progress) (cps : list ComponentPlan) : run unit :=
  when (negb (bool_decide (vf_release fl = "")) && negb (bool_decide (cps = [])))
    (t ← now host;
     wrote ← WriteReleaseResult host runDir (release_result fl runID p cps t);
     match wrote with
     | Some err => warn ("[bori] warning: could not write release-result.json: " +:+ err)
     | None => mret tt
     end).

(** The newest promoted revision of the release in the environment. *)
Definition promoted_in (release env : string) (r : BoriRevision) : bool :=
  promoted_of release r && bool_decide (rv_Environment r = env).

Definition latest_revision (release env : string) (readable : bool) (dir : Revisions) : string :=
  if readable then from_option rv_RevisionID "" (List.find (promoted_in release env) (list_revisions dir)) else "".

Definition createVerificationRunCR (runID release env namespace gateResult : string) (startedAt : Time) : run unit :=
  l ← log;
  disk ← ask ps_disk;
  let revisionID := latest_revision release env (bool_decide (h_list host l = None)) (dk_revisions disk) in
  t ← now host;
  let spec := Build_BoriVerificationRunSpec "kube-slint" "" release env revisionID gateResult
                (promotion_decision gateResult FailOnFailOrNoGrade) startedAt t "" "" in
  ran ← exec host "" ["kubectl"; "apply"; "-f"; "-"] (Some (DVerificationRunObject (Build_VerificationRunObject namespace runID spec)));
  match ran with
  | Some err => warn ("[bori] warning: create BoriVerificationRun CR: " +:+ err)
  | None => mret tt
  end.

(** ** cmdVerify *)
Definition nothing_to_evaluate (msg : string) : vrun unit :=
  _ ← lift (warn ("[bori] " +:+ msg +:+ " — nothing to evaluate")); set_status (set_outcome "Verified" GateResultPass []).

(** The policy of the exit status, or the text of the error. *)
Definition exit_fail_on (fl : VerifyFlags) : string + string :=
  if bool_decide (vf_target fl = "") then inr FailOnFailOrNoGrade
  else if bool_decide (vf_fail_on fl ∈ [FailOnNever; FailOnFail; FailOnFailOrNoGrade; FailOnWarn]) then inr (vf_fail_on fl)
  else inl ("verify: unknown --fail-on " +:+ quote (vf_fail_on fl)).

Definition verify_targets (fl : VerifyFlags) (runID runDir exitFailOn : string) (startedAt : Time) (ts : list verifyTarget)
    (cps : list ComponentPlan) : vrun unit :=
  match ts with
  | [] => nothing_to_evaluate "no verification targets"
  | _ =>
      bin ← lift (NewKubeSlintProvider host (vf_slint_gate fl));
      p ← lift (verify_all fl
                  (Build_measureOptions (vf_subject_id fl) (vf_window_id fl) (vf_slint_sa fl) slint_token (vf_curl_image fl))
                  bin runID runDir ts);
      let overall := pg_overall p in
      _ ← set_status (set_outcome (verified_phase overall) overall (pg_statuses p));
      _ ← lift (write_release_result fl runID runDir p cps);
      _ ← lift (say ("[bori] overall: " +:+ overall +:+ "  run-id: " +:+ runID +:+
                     (if pg_halted p then "  (halted: blocking policy)" else "")));
      _ ← lift (when (negb (bool_decide (h_getenv host "KUBECONFIG" = "")) && negb (bool_decide (vf_release fl = "")))
                  (createVerificationRunCR runID (vf_release fl) (vf_env fl) (vf_kube_namespace fl) overall startedAt));
      if IsBlocking overall exitFailOn || pg_halted p then _ ← writeStatus runDir; exit 1 else mret tt
  end.

Definition verify_body (fl : VerifyFlags) (runID runDir exitFailOn : string) (startedAt : Time) : vrun unit :=
  if negb (bool_decide (vf_target fl = ""))
  then verify_targets fl runID runDir exitFailOn startedAt [profiled_target fl exitFailOn] []
  else if negb (bool_decide (vf_release fl = "")) then
    found ← lift (release_targets fl runID);
    verify_targets fl runID runDir exitFailOn startedAt found.1 found.2
  else
    found ← lift (legacy_targets fl);
    match found with
    | None => nothing_to_evaluate "no .bori/component.yaml files found"
    | Some ts => verify_targets fl runID runDir exitFailOn startedAt ts []
    end.

Definition verify_status (fl : VerifyFlags) (runID : string) (startedAt : Time) : RunStatus :=
  Build_RunStatus "bori.run.v1" runID (vf_release fl) (vf_env fl) (vf_profile fl) startedAt 0 "Failed" GateResultNoGrade [].

Definition cmdVerify (fl : VerifyFlags) : run unit :=
  if negb (bool_decide (vf_target fl = "")) && (negb (bool_decide (vf_release fl = "")) || negb (bool_decide (vf_apps_dir fl = "")))
  then fatalf "verify: --target cannot be combined with --release or --apps-dir"
  else if negb (bool_decide (vf_target fl = "")) && bool_decide (vf_policy fl = "")
  then fatalf "verify: --policy is required with --target"
  else match exit_fail_on fl with
  | inl err => fatalf err
  | inr exitFailOn =>
      t0 ← now host;
      let runID := format_second t0 in
      let runDir := RunDir (vf_bori_dir fl) runID in
      startedAt ← now host;
      with_var (verify_status fl runID startedAt)
        (deferring (writeStatus runDir) (verify_body fl runID runDir exitFailOn startedAt))
  end.
End verify.
