(* ===== verification/VerifySpec.v ===== *)
(** * What bori verify promises (cmd/bori/main.go)

    The exit status and the status file agree, whatever the surroundings
    answer; and a profiled target passes only on a measurement of its own. *)

From S2P Require Import Prelude Text Process.
From S2P Require Import Release Loading Planner Revision Shadow Deploy DataPlane Artifact Host Gate.
From S2P Require Import GateRun.
From S2P Require Import Measure Redact.
From S2P Require Import VerifyCmd.

(** ** Verification writes no run status of its own *)
Section quiet.
Context `{GoText} `{SortSlice} `{Files} `{References} `{DeployFiles} `{ParseFloat} `{MapRange} `{KubeSlint} `{VerifyFiles}.
Variable ValidateSelectors : SLISpec -> option string.
Variable host : Host.
Variable session_end : list event -> SessionConfig -> option string.
Variable summary_file : list event -> string -> string + Summary.
Variable slint_token : string.

Lemma fetch_quiet t url n : keeps quiet (fetch host t url n).
Proof. induction n as [|n IH]; cbn [fetch]; keeping. Qed.
Hint Resolve fetch_quiet : prog.

Lemma ScrapeMetrics_quiet t : keeps quiet (ScrapeMetrics host t).
Proof. unfold ScrapeMetrics. keeping. Qed.

Lemma writeSummary_quiet path sum : keeps quiet (writeSummary host path sum).
Proof. unfold writeSummary. pose proof (write_file_quiet host path (DSummary sum) false I). keeping. Qed.
Hint Resolve writeSummary_quiet ScrapeMetrics_quiet : prog.

Lemma BuildMeasurementSummary_quiet req dir : keeps quiet (BuildMeasurementSummary host req dir).
Proof. unfold BuildMeasurementSummary. keeping. Qed.

Lemma NewKubeSlintProvider_quiet bin : keeps quiet (NewKubeSlintProvider host bin).
Proof. unfold NewKubeSlintProvider. keeping. Qed.

Lemma WriteVerificationRun_quiet path r : keeps quiet (WriteVerificationRun host path r).
Proof. by apply create_quiet. Qed.
Hint Resolve WriteVerificationRun_quiet : prog.

Lemma KubeSlint_Run_quiet bin req : keeps quiet (KubeSlint_Run host bin req).
Proof. unfold KubeSlint_Run. keeping. Qed.
Hint Resolve KubeSlint_Run_quiet BuildMeasurementSummary_quiet : prog.

Lemma runSmoke_quiet cmd wait : keeps quiet (runSmoke host cmd wait).
Proof. unfold runSmoke. keeping. Qed.
Hint Resolve runSmoke_quiet : prog.

Lemma measureAround_quiet req smoke : keeps quiet smoke -> keeps quiet (measureAround host session_end summary_file req smoke).
Proof. intros Hs. unfold measureAround. cbn zeta. keeping. Qed.
Hint Resolve measureAround_quiet : prog.

Lemma scrapeSummary_quiet t cs dir profile cmd wait : keeps quiet (scrapeSummary host t cs dir profile cmd wait).
Proof. unfold scrapeSummary. cbn zeta. keeping. Qed.

Lemma gate_policies_quiet bin runID t cs dir sum overall pols :
  keeps quiet (gate_policies host bin runID t cs dir sum overall pols).
Proof.
  revert overall. induction pols as [|pol pols IH]; intros overall; cbn [gate_policies]; keeping; apply IH.
Qed.

Lemma produceSummary_quiet fl mo t cs runID dir :
  keeps quiet (produceSummary ValidateSelectors host session_end summary_file fl mo t cs runID dir).
Proof. unfold produceSummary. keeping. Qed.
Hint Resolve scrapeSummary_quiet gate_policies_quiet produceSummary_quiet : prog.

Lemma runOneVerification_quiet fl mo bin t runID runDir :
  keeps quiet (runOneVerification ValidateSelectors host session_end summary_file fl mo bin t runID runDir).
Proof. unfold runOneVerification. cbn zeta. keeping. Qed.
Hint Resolve runOneVerification_quiet : prog.

Lemma verify_all_quiet fl mo bin runID runDir ts :
  keeps quiet (verify_all ValidateSelectors host session_end summary_file fl mo bin runID runDir ts).
Proof. unfold verify_all, verify_one. keeping. Qed.

Lemma discover_quiet dir : keeps quiet (Discover host dir).
Proof. unfold Discover, discover_one. keeping. Qed.
Hint Resolve discover_quiet : prog.

Lemma legacy_targets_quiet fl : keeps quiet (legacy_targets host fl).
Proof. unfold legacy_targets, legacy_target. keeping. Qed.

Lemma release_targets_quiet fl runID : keeps quiet (release_targets host fl runID).
Proof. unfold release_targets, affected_set. keeping. Qed.

Lemma write_release_result_quiet fl runID dir p cps : keeps quiet (write_release_result host fl runID dir p cps).
Proof. unfold write_release_result. pose proof write_in_quiet. unfold WriteReleaseResult. keeping. Qed.

Lemma createVerificationRunCR_quiet runID rel env ns g t : keeps quiet (createVerificationRunCR host runID rel env ns g t).
Proof. unfold createVerificationRunCR. keeping. Qed.
End quiet.

#[export] Hint Resolve ScrapeMetrics_quiet BuildMeasurementSummary_quiet NewKubeSlintProvider_quiet KubeSlint_Run_quiet
  runSmoke_quiet measureAround_quiet verify_all_quiet legacy_targets_quiet release_targets_quiet write_release_result_quiet
  createVerificationRunCR_quiet writeSummary_quiet : prog.

(** ** What is recorded *)

(** The run statuses written between two states. *)
Definition wrote_statuses (s : Shell) (sts : list RunStatus) (s' : Shell) : Prop :=
  exists l, ps_log s' = ps_log s ++ l /\ omap status_of l = sts.

(** A status that says what its components say. *)
Record consistent (st : RunStatus) : Prop := {
  cs_phase : ru_Phase st = verified_phase (ru_Result st);
  cs_result : ru_Result st = worst (ct_GateResult <$> ru_Components st);
}.

(** The disk's answer, at log [l], to the writing of a file. *)
Definition disk_refuses (host : Host) (dir name : string) (l : list event) : Prop :=
  h_mkdir host l dir <> None \/ h_write host l (path_join [dir; name]) <> None.

(** The status [st] was written, once and nothing but it; or the disk refused
    it, none was written, and the last thing the process does is to say so. *)
Definition leaves (host : Host) (runDir : string) (s : Shell) (st : RunStatus) (s' : Shell) : Prop :=
  wrote_statuses s [st] s' \/
  (wrote_statuses s [] s' /\
   (exists l, l `prefix_of` ps_log s' /\ disk_refuses host runDir "status.json" l) /\
   exists err, last (ps_log s') = Some (Warned ("[bori] warning: could not write status.json: " +:+ err))).

Lemma wrote_app s s1 s2 sts1 sts2 :
  wrote_statuses s sts1 s1 -> wrote_statuses s1 sts2 s2 -> wrote_statuses s (sts1 ++ sts2) s2.
Proof.
  intros (l1 & E1 & O1) (l2 & E2 & O2). exists (l1 ++ l2). by rewrite E2, E1, app_assoc, omap_app, O1, O2.
Qed.

Lemma quiet_wrote s s' : quiet s s' <-> wrote_statuses s [] s'.
Proof. done. Qed.

Lemma leaves_from host runDir s s1 st s' : quiet s s1 -> leaves host runDir s1 st s' -> leaves host runDir s st s'.
Proof.
  intros Hq [Hw|(Hw & Hr)]; [left|right; split; [|done]].
  - by apply (wrote_app _ s1 _ [] [st]).
  - by apply (wrote_app _ s1 _ [] []).
Qed.

Lemma consistent_finished t st : consistent st -> consistent (set_finished t st).
Proof. by intros [H1 H2]. Qed.

Section verify.
Context `{GoText} `{SortSlice} `{Files} `{References} `{DeployFiles} `{ParseFloat} `{MapRange} `{KubeSlint} `{VerifyFiles}.
Variable ValidateSelectors : SLISpec -> option string.
Variable host : Host.
Variable session_end : list event -> SessionConfig -> option string.
Variable summary_file : list event -> string -> string + Summary.
Variable slint_token : string.

Abbreviation verify_all := (verify_all ValidateSelectors host session_end summary_file).
Abbreviation runOneVerification := (runOneVerification ValidateSelectors host session_end summary_file).
Abbreviation verify_targets := (verify_targets ValidateSelectors host session_end summary_file slint_token).
Abbreviation verify_body := (verify_body ValidateSelectors host session_end summary_file slint_token).
Abbreviation cmdVerify := (cmdVerify ValidateSelectors host session_end summary_file slint_token).

(** ** One target and all of them *)

(** A target's status bears its result. *)
Definition told (v : Verified) : Prop := ct_GateResult (vd_status v) = vd_result v.

Lemma gate_policies_told bin runID t cs dir sum overall pols s v s' :
  gate_policies host bin runID t cs dir sum overall pols s = (Returned v, s') -> told v.
Proof.
  revert overall s. induction pols as [|pol pols IH]; intros overall s; cbn [gate_policies]; [by intros [= <- _]|].
  running. destruct (h_stat host (ps_log s) (rq_PolicyPath pol)) as [| |e0].
  2: { destruct (rq_Blocking pol); [by intros [= <- _]|apply IH]. }
  all: running; destruct (KubeSlint_Run _ _ _ _) as [[[err|res]|n|w] s1]; running; try done.
  all: destruct (rq_Blocking pol); cbn [andb]; try (by intros [= <- _]); try apply IH.
  all: destruct (IsBlocking _ _); [by intros [= <- _]|apply IH].
Qed.

Lemma runOneVerification_told fl mo bin t runID runDir s v s' :
  runOneVerification fl mo bin t runID runDir s = (Returned v, s') -> told v.
Proof.
  unfold VerifyCmd.runOneVerification. cbn zeta. intros Hr. apply bind_returned in Hr as (sum & s1 & Hs & Hg).
  destruct sum as [v'|path]; [|by apply gate_policies_told in Hg]. injection Hg as <- <-. destruct (vt_Producer t).
  - unfold produceSummary in Hs. destruct (lookupProfile _ _) as [err|prof]; running_in Hs; [by injection Hs as <- _|].
    destruct (measureAround _ _ _ _ _ _) as [[[[err smoked]|path]|n|w] s2]; running_in Hs; try done.
    destruct smoked; by injection Hs as <- _.
  - apply bind_returned in Hs as (sc & s2 & Hs & Hm). destruct sc as [[cs g]|path]; [|done]. injection Hm as <- <-.
    unfold scrapeSummary in Hs. cbn zeta in Hs.
    repeat match type of Hs with
    | _ = _ => progress running_in Hs
    | context [ScrapeMetrics ?h ?t ?s] => destruct (ScrapeMetrics h t s) as [[[?|?]|?|?] ?]
    | context [runSmoke ?h ?c ?w ?s] => destruct (runSmoke h c w s) as [[[?|]|?|?] ?]
    | context [BuildMeasurementSummary ?h ?r ?d ?s] => destruct (BuildMeasurementSummary h r d s) as [[[?|?]|?|?] ?]
    end; try done; by injection Hs as <- <- _.
Qed.

Definition progressing (p : Progress) : Prop := pg_overall p = worst (ct_GateResult <$> pg_statuses p).

Lemma verify_one_progress fl mo bin runID runDir p t s tn s' :
  progressing p -> verify_one ValidateSelectors host session_end summary_file fl mo bin runID runDir p t s = (Returned tn, s') ->
  match tn with Continue p' | Break p' => progressing p' end.
Proof.
  intros Hp Hr. unfold verify_one in Hr. apply bind_returned in Hr as (v & s1 & Hv & Hr).
  apply runOneVerification_told in Hv. unfold told, progressing, worst in *.
  assert (forall b, Max (pg_overall p) (vd_result v) =
    foldl Max GateResultPass (ct_GateResult <$> pg_statuses (Build_Progress (pg_statuses p ++ [vd_status v]) (Max (pg_overall p) (vd_result v)) b))) as Hw.
  { intros b. cbn [pg_statuses]. by rewrite fmap_app, foldl_app, <- Hp, <- Hv. }
  destruct (vd_blocked v); running_in Hr; injection Hr as <- _; apply Hw.
Qed.

Lemma loop_inv {S A B} (I : A -> Prop) (f : A -> B -> prog S (turn A)) l acc s acc' s' :
  (forall acc x s tn s1, I acc -> f acc x s = (Returned tn, s1) -> match tn with Continue a | Break a => I a end) ->
  I acc -> loop_prog f acc l s = (Returned acc', s') -> I acc'.
Proof.
  intros Hf. revert acc s. induction l as [|x l IH]; intros acc s HI; cbn [loop_prog]; [by intros [= <- _]|].
  intros ([a|a] & s1 & Hx & Hr)%bind_returned; apply (Hf _ _ _ _ _ HI) in Hx; [by apply (IH a s1)|by injection Hr as <- _].
Qed.

Lemma verify_all_progress fl mo bin runID runDir ts s p s' :
  verify_all fl mo bin runID runDir ts s = (Returned p, s') -> progressing p.
Proof.
  intros Hr. unfold VerifyCmd.verify_all in Hr. refine (loop_inv progressing _ _ _ _ _ _ _ _ Hr); [|done].
  intros. by eapply verify_one_progress.
Qed.

(** ** The status file and the exit status *)

(** Why a verification that was recorded failed. *)
Definition stopped (fl : VerifyFlags) (runID runDir f : string) (st : RunStatus) : Prop :=
  exists mo bin ts p s1 s2, verify_all fl mo bin runID runDir ts s1 = (Returned p, s2) /\
    ru_Result st = pg_overall p /\ ru_Components st = pg_statuses p /\ (IsBlocking (pg_overall p) f || pg_halted p) = true.

Lemma WriteStatus_cases runDir st s :
  exists o s', WriteStatus host runDir st s = (Returned o, s') /\
    (wrote_statuses s [st] s' \/ o <> None /\ wrote_statuses s [] s') /\
    (o <> None -> disk_refuses host runDir "status.json" (ps_log s)).
Proof.
  unfold WriteStatus, write_in, create, write_file, disk_refuses, wrote_statuses. running.
  destruct (h_mkdir host (ps_log s) runDir) as [err|]; running.
  { eexists _, _. split; [reflexivity|]. split; [right; split; [done|by exists []; rewrite app_nil_r]|by left]. }
  destruct (h_write host (ps_log s) _) as [[err|err|err [|]]|]; running; eexists _, _; (split; [reflexivity|]); cbn [ps_log];
    (split; [|by right]); first [left; by eexists | right; split; [done|by eexists] | right; split; [done|by exists []; rewrite app_nil_r]].
Qed.

Lemma writeStatus_spec runDir s st :
  exists t s', writeStatus host runDir (s, st) = (Returned tt, (s', set_finished t st)) /\
    leaves host runDir s (set_finished t st) s'.
Proof.
  set (s0 := Build_Shell (ps_log s ++ [Ticked]) (ps_disk s)). set (t := h_now host (ps_log s0)). exists t.
  assert (quiet s s0) as Hq by by apply (note_quiet Ticked).
  destruct (WriteStatus_cases runDir (set_finished t st) s0) as (o & s1 & Hw & Hs1 & Hr).
  unfold writeStatus. rewrite bind_run. unfold lift at 1. rewrite now_run. cbn beta match. rewrite bind_run.
  unfold set_status, update at 1. cbn beta match. rewrite bind_run. cbn [ask fst snd]. fold s0 t. rewrite bind_run. unfold lift.
  cbn [fst snd]. change (h_now host (ps_log s ++ [Ticked])) with t. rewrite Hw. cbn beta match. destruct o as [err|].
  - eexists. split; [reflexivity|]. apply (leaves_from _ _ _ s0 _ _ Hq). specialize (Hr ltac:(done)).
    assert (quiet s1 (Build_Shell (ps_log s1 ++ [Warned ("[bori] warning: could not write status.json: " +:+ err)]) (ps_disk s1)))
      as Hq1 by by apply (note_quiet (Warned _)).
    destruct Hs1 as [Hs1|[_ Hs1]]; [left; by apply (wrote_app _ s1 _ [_] [])|right].
    split; [by apply (wrote_app _ s1 _ [] [])|]. split.
    + exists (ps_log s0). split; [|done]. destruct Hs1 as (l & E & _). cbn [ps_log]. rewrite E, <- app_assoc. by eexists.
    + eexists. cbn [ps_log]. by rewrite last_snoc.
  - eexists. split; [reflexivity|]. apply (leaves_from _ _ _ s0 _ _ Hq). left. by destruct Hs1 as [|[? _]].
Qed.

(** How the body ends: it returns with a good status not yet written, exits
    with nothing or one status written, or panics with the status untouched. *)
Definition body_ends (fl : VerifyFlags) (runID runDir f : string) (s : Shell) (st : RunStatus) (r : ending unit * (Shell * RunStatus)) :
    Prop :=
  match r with
  | (Returned _, (s', st')) => quiet s s' /\ consistent st' /\ IsBlocking (ru_Result st') f = false
  | (Exited n, (s', _)) =>
      n = 1%Z /\ (quiet s s' \/ exists st', leaves host runDir s st' s' /\ consistent st' /\ stopped fl runID runDir f st')
  | (Panicked _, (s', st')) => quiet s s' /\ st' = st
  end.

Lemma body_lift fl runID runDir f {A} (m : prog Shell A) k s st :
  keeps quiet m ->
  (forall x s1, m s = (Returned x, s1) -> quiet s s1 -> body_ends fl runID runDir f s st (k x (s1, st))) ->
  body_ends fl runID runDir f s st ((lift m ≫= k) (s, st)).
Proof.
  intros Hm Hk. specialize (Hm s). rewrite bind_run. unfold lift. destruct (m s) as [[x|n|w] s1] eqn:E; cbn in *.
  - by apply Hk; [|apply Hm].
  - split; [apply Hm|left; apply Hm].
  - split; [apply Hm|done].
Qed.

Lemma body_from fl runID runDir f s s1 st r :
  quiet s s1 -> body_ends fl runID runDir f s1 st r -> body_ends fl runID runDir f s st r.
Proof.
  intros Hq. destruct r as [[x|n|w] [s' st']]; cbn.
  - intros (Hq' & ?). split; [by etrans|done].
  - intros (-> & [Hq'|(st'' & Hw & ?)]); (split; [done|]); [left; by etrans|right]. exists st''. split; [|done].
    by apply (leaves_from _ _ _ _ _ _ Hq Hw).
  - intros (Hq' & ->). split; [by etrans|done].
Qed.

(** A program that always returns. *)
Definition calm (m : prog Shell unit) : Prop := forall s, exists s', m s = (Returned tt, s') /\ quiet s s'.

Lemma body_calm fl runID runDir f m (k : unit -> prog (Shell * RunStatus) unit) s st st0 :
  calm m -> (forall s1, body_ends fl runID runDir f s1 st0 (k tt (s1, st))) ->
  body_ends fl runID runDir f s st0 ((lift m ≫= k) (s, st)).
Proof.
  intros Hm Hk. destruct (Hm s) as (s1 & E & Q). rewrite bind_run. unfold lift. rewrite E. by apply (body_from _ _ _ _ _ s1).
Qed.

Lemma say_calm line : calm (say line).
Proof. intros s. eexists. split; [done|]. by apply (note_quiet (Said line)). Qed.

Lemma when_calm b m : calm m -> calm (when b m).
Proof. intros Hm s. destruct b; [apply Hm|]. exists s. split; [done|reflexivity]. Qed.

Lemma write_release_calm fl runID dir p cps : calm (write_release_result host fl runID dir p cps).
Proof.
  intros s. pose proof (write_release_result_quiet host fl runID dir p cps s) as [Q _].
  unfold write_release_result, when, WriteReleaseResult, write_in, create, write_file in *.
  destruct (_ && _); [|eauto]. revert Q. running. destruct (h_mkdir host _ _); running; [eauto|].
  destruct (h_write host _ _) as [[?|?|? [|]]|]; running; eauto.
Qed.

Lemma create_calm runID rel env ns g t : calm (createVerificationRunCR host runID rel env ns g t).
Proof.
  intros s. pose proof (createVerificationRunCR_quiet host runID rel env ns g t s) as [Q _].
  unfold createVerificationRunCR in *. revert Q. running. destruct (h_run host _ _ _); running; eauto.
Qed.

Lemma nothing_ends fl runID runDir f msg s st :
  body_ends fl runID runDir f s st (nothing_to_evaluate msg (s, st)).
Proof.
  unfold nothing_to_evaluate. apply body_lift; [auto with prog|]. intros [] s1 _ Hq. cbn.
  split; [exact Hq|]. split; [by split|]. unfold IsBlocking. by repeat case_bool_decide.
Qed.

Lemma verify_targets_ends fl runID runDir f startedAt ts cps s st :
  body_ends fl runID runDir f s st (verify_targets fl runID runDir f startedAt ts cps (s, st)).
Proof.
  unfold VerifyCmd.verify_targets. destruct ts as [|t ts]; [apply nothing_ends|].
  apply body_lift; [auto with prog|]. intros bin s1 _ Q1. apply (body_from _ _ _ _ _ s1); [done|].
  apply body_lift; [auto with prog|]. intros p s2 Hp Q2. apply (body_from _ _ _ _ _ s2); [done|]. clear s Q1 Q2.
  pose proof (verify_all_progress _ _ _ _ _ _ _ _ _ Hp) as Hprog.
  set (st1 := set_outcome (verified_phase (pg_overall p)) (pg_overall p) (pg_statuses p) st).
  assert (consistent st1) as Hc by (by split).
  rewrite bind_run. unfold set_status, update. cbn beta match. cbn [fst snd]. fold st1.
  apply body_calm; [by apply write_release_calm|]. intros s3.
  apply body_calm; [apply say_calm|]. intros s4.
  apply body_calm; [apply when_calm, create_calm|]. intros s5.
  destruct (IsBlocking (pg_overall p) f || pg_halted p) eqn:Eb.
  - destruct (writeStatus_spec runDir s5 st1) as (t' & s' & Hw & Hs'). rewrite bind_run, Hw. cbn.
    split; [done|right]. exists (set_finished t' st1). split; [done|]. split; [by apply consistent_finished|].
    exists (Build_measureOptions (vf_subject_id fl) (vf_window_id fl) (vf_slint_sa fl) slint_token (vf_curl_image fl)), bin, (t :: ts), p, s1, s2.
    done.
  - cbn. split; [reflexivity|]. split; [done|]. by apply orb_false_iff in Eb as [? _].
Qed.

Lemma verify_body_ends fl runID runDir f startedAt s st :
  body_ends fl runID runDir f s st (verify_body fl runID runDir f startedAt (s, st)).
Proof.
  unfold VerifyCmd.verify_body. case_bool_decide; cbn [negb]; [|by apply verify_targets_ends].
  case_bool_decide; cbn [negb].
  - apply body_lift; [auto with prog|]. intros [ts|] s1 _ Q1; apply (body_from _ _ _ _ _ s1); [done| |done|].
    + by apply verify_targets_ends.
    + apply nothing_ends.
  - apply body_lift; [auto with prog|]. intros [ts cps] s1 _ Q1; apply (body_from _ _ _ _ _ s1); [done|].
    by apply verify_targets_ends.
Qed.

End verify.

(** ** A profiled target *)
Section target.
Context `{GoText} `{SortSlice} `{Files} `{References} `{DeployFiles} `{ParseFloat} `{MapRange} `{KubeSlint} `{VerifyFiles}.
Variable ValidateSelectors : SLISpec -> option string.
Variable host : Host.
Variable session_end : list event -> SessionConfig -> option string.
Variable summary_file : list event -> string -> string + Summary.
Variable slint_token : string.

(** The gate ran on a summary, from the log [l] on, and its file says [result]. *)
Record gated (bin app policy summaryPath outDir : string) (l : list event) (result : string) : Prop := {
  gt_file : exists raw message, let gatePath := path_join [outDir; app +:+ "-gate-summary.json"] in
    let l' := l ++ [Ticked; Ran "" (gate_argv bin summaryPath policy gatePath ["--exit-on"; "NEVER"]) None] in
    h_stat host l' gatePath = Present /\ h_gate_file host l' gatePath = inr (raw, message) /\
    result = if bool_decide (raw = "") then GateResultNoGrade else raw;
}.

Lemma KubeSlint_Run_gated bin req s res s' :
  KubeSlint_Run host bin req s = (Returned (inr res), s') ->
  gated bin (gq_App req) (gq_PolicyPath req) (gq_MeasurementSummaryPath req) (gq_OutDir req) (ps_log s) (go_GateResult res).
Proof.
  unfold KubeSlint_Run. running. destruct (h_mkdir _ _ _); [done|]. running. cbn [ps_log].
  rewrite <- app_assoc. cbn [app]. set (gatePath := path_join _). set (l := ps_log s ++ _).
  destruct (h_stat host l gatePath) eqn:Est; [|done|done]. running. cbn [ps_log].
  unfold readGateSummary. destruct (h_gate_file host l gatePath) as [err|[raw message]] eqn:Eg; [done|]. running.
  destruct (WriteVerificationRun _ _ _ _) as [[[err|]|n|w] s1]; running; try done.
  all: intros [= <- _]; split; cbn [go_GateResult]; by exists raw, message.
Qed.

(** C21. A profiled target passes only on a measurement of its own: its profile
    is valid, its summary was made in a session of this run and is trustworthy,
    the gate then ran on exactly that summary, and its result does not block. *)
Theorem cmdVerify_target fl s s' :
  vf_target fl <> "" ->
  cmdVerify ValidateSelectors host session_end summary_file slint_token fl s = (Returned tt, s') ->
  exists f prof req s1 s2 path bin outDir result,
    exit_fail_on fl = inr f /\ lookupProfile ValidateSelectors (vf_target fl) = inr prof /\
    me_Profile req = prof /\ me_SubjectID req = vf_subject_id fl /\ me_WindowID req = vf_window_id fl /\
    measured host session_end summary_file req (runSmoke host (vf_smoke_cmd fl) (vf_smoke_wait fl)) s1 path s2 /\
    gated bin (vf_target fl) (vf_policy fl) path outDir (ps_log s2) result /\ IsBlocking result f = false.
Proof.
  intros Ht. unfold cmdVerify. rewrite bool_decide_eq_false_2 by done. cbn [negb andb].
  destruct (_ || _); [done|]. destruct (bool_decide (vf_policy fl = "")); [done|].
  destruct (exit_fail_on fl) as [err|f] eqn:Ef; [done|]. rewrite bind_run, now_run. cbn beta match. rewrite bind_run, now_run.
  cbn beta match zeta. unfold with_var, deferring, verify_body. rewrite bool_decide_eq_false_2 by done. cbn [negb].
  set (st0 := verify_status _ _ _). set (runID := format_second _). set (s0 := Build_Shell _ _). clearbody s0 st0 runID.
  destruct (verify_targets _ _ _ _ _ _ _ _ _ _ _ _ _) as [[[]|n|w] [s9 st]] eqn:Ev; try done.
  2: { intros Hw. exfalso. rewrite bind_run in Hw.
    match type of Hw with context [writeStatus ?h ?d ?x] => destruct (writeStatus h d x) as [[[]|?|?] [? ?]] end; by cbn in Hw. }
  intros _. unfold verify_targets in Ev. apply bind_returned in Ev as (bin & [s1 st1] & _ & Ev).
  apply bind_returned in Ev as (p & [s2 st2] & Hp & Ev). cbn zeta in Ev.
  do 4 (apply bind_returned in Ev as (? & ? & _ & Ev)).
  destruct (IsBlocking (pg_overall p) f || pg_halted p) eqn:Eb; [by apply bind_returned in Ev as (? & ? & _ & Ev)|].
  apply orb_false_iff in Eb as [_ Hh]. clear Ev. unfold lift in Hp.
  destruct (verify_all _ _ _ _ _ _ _ _ _ _ _) as [e s3] eqn:Ea. injection Hp as -> <- <-.
  unfold verify_all in Ea. cbn [loop_prog] in Ea. apply bind_returned in Ea as (tn & s4 & Ho & Ea).
  unfold verify_one in Ho. apply bind_returned in Ho as (v & s5 & Hv & Ho). destruct (vd_blocked v) eqn:Ebl.
  { running_in Ho. injection Ho as <- <-. injection Ea as <- _. done. }
  clear Ho Ea. unfold runOneVerification in Hv. cbn zeta in Hv. cbn [profiled_target vt_Producer vt_Name vt_Policies] in Hv.
  apply bind_returned in Hv as (sum & s6 & Hs & Hg). unfold produceSummary in Hs. cbn [vt_Name vt_Policies existsb rq_Blocking] in Hs.
  destruct (lookupProfile _ _) as [err|prof] eqn:El; running_in Hs.
  { injection Hs as <- <-. injection Hg as <- _. done. }
  set (req := Build_measureRequest _ _ _ _ _ _ _ _) in Hs.
  destruct (measureAround _ _ _ _ _ _) as [[[[err smoked]|path]|n|w] s7] eqn:Em; running_in Hs; try done.
  { injection Hs as <- <-. injection Hg as <- _. by destruct smoked. }
  injection Hs as <- <-. apply measureAround_measured in Em. cbn [gate_policies rq_PolicyPath rq_Blocking] in Hg. running_in Hg.
  destruct (h_stat host (ps_log s7) (vf_policy fl)).
  2: { injection Hg as <- _. done. }
  all: running_in Hg; match type of Hg with context [KubeSlint_Run ?h ?b ?q ?x] => destruct (KubeSlint_Run h b q x) as [[[err'|res]|n|w] s8] eqn:Ek end; running_in Hg; try done;
    try (injection Hg as <- _; done).
  all: cbn [rq_FailOn andb] in Hg; destruct (IsBlocking (go_GateResult res) f) eqn:Ei; [by injection Hg as <- _|].
  all: apply KubeSlint_Run_gated in Ek; cbn in Ek.
  all: eexists f, prof, req, _, s7, path, bin, _, (go_GateResult res); by repeat (split; [done || exact Em || exact Ek|]).
Qed.
End target.
