(* ===== verification/Deployers.v ===== *)
(** * Deployment adapters (pkg/adapter/deploy.go, adapters)

    Each adapter as a program of the host, and the registries of the command
    line and of the operator.  DeployResult.ManifestPath, which no adapter sets,
    is left out.  YAML decoding and the API server, which the in-process adapter
    uses, are the class [Manifests]. *)

From S2P Require Import Prelude.
From S2P Require Import Text.
From S2P Require Import Process.
From S2P Require Import Release.
From S2P Require Import Loading.
From S2P Require Import Planner.
From S2P Require Import Revision.
From S2P Require Import Shadow.
From S2P Require Import Deploy.
From S2P Require Import Artifact.
From S2P Require Import Host.
From S2P Require Import Gate.
From Stdlib Require Import Ascii.

(** ** pkg/adapter/deploy.go *)
Record DeployRequest := {
  dq_Component : BoriComponent;
  dq_Environment : BoriEnvironment;
  dq_DryRun : bool;
  dq_OutDir : string;
  dq_BoriRoot : string;
}.

Inductive DeployAdapter :=
  | Devspace (AppsDir : string)
  | Imageswap
  | Ko (AppsDir : string)
  | Kustomize (AppsDir OverlaySubdir : string)
  | PlainManifest
  | ShellScript (AppsDir ScriptName : string)
  | KubeApply.

Definition adapter_name (a : DeployAdapter) : string :=
  match a with
  | Devspace _ => "devspace"
  | Imageswap => "imageswap"
  | Ko _ => "ko"
  | Kustomize _ _ => "kustomize"
  | PlainManifest => "manifest"
  | ShellScript _ _ => "shell"
  | KubeApply => "kube-apply"
  end.

(** One document of a YAML file: only blanks; not YAML; not an object; or an
    object with its kind, apiVersion and name. *)
Inductive yaml_doc :=
  | BlankDoc
  | NotYaml (err : string)
  | NotObject (err : string)
  | ObjectDoc (kind apiVersion name : string).

(** A file: why it cannot be read, or its documents and why reading stopped
    short.  The resources of a kustomization.yaml that can be read and decoded.
    The entries of a directory in order of their names, with whether they are
    directories.  The answer of the API server to one object. *)
Class Manifests := {
  yaml_docs : string -> string + list yaml_doc * option string;
  kustomization_resources : string -> option (list string);
  manifest_dir : string -> string + list (string * bool);
  apply_object : list event -> string -> string -> option string;
}.

Definition done (msg : string) : DeployAnswer := Build_DeployAnswer (Some (true, msg)) None.
Definition not_done (msg err : string) : DeployAnswer := Build_DeployAnswer (Some (false, msg)) (Some err).
Definition not_started (err : string) : DeployAnswer := Build_DeployAnswer None (Some err).

(** ^[a-z0-9]([a-z0-9\-]{0,61}[a-z0-9])?$ *)
Definition lower_alnum (c : ascii) : bool :=
  let n := nat_of_ascii c in (97 <=? n) && (n <=? 122) || (48 <=? n) && (n <=? 57).

Definition name_char (c : ascii) : bool := lower_alnum c || bool_decide (c = "-"%char).

Definition validK8sName (name : string) : bool :=
  let cs := String.list_ascii_of_string name in
  from_option lower_alnum false (head cs) && from_option lower_alnum false (last cs) && forallb name_char cs &&
  (length cs <=? 63).

(** strings.HasSuffix *)
Definition has_suffix (suffix s : string) : bool :=
  (String.length suffix <=? String.length s) &&
  bool_decide (String.substring (String.length s - String.length suffix) (String.length suffix) s = suffix).

(** A file that is applied without being listed. *)
Definition yaml_manifest (e : string * bool) : bool :=
  negb e.2 && has_suffix ".yaml" e.1 && negb (bool_decide (e.1 = "kustomization.yaml")).

Section deployers.
Context `{GoText} `{Manifests}.
Variable host : Host.

Abbreviation run A := (prog Shell A) (only parsing).

(** A directory or file that os.Stat does not find. *)
Definition missing (path : string) : run bool :=
  st ← stat host path; mret (match st with Present => false | _ => true end).

(** A program that ends the deployment when it fails. *)
Definition running_or (dir : string) (argv : list string) (what : string) (ok : run DeployAnswer) : run DeployAnswer :=
  ran ← exec host dir argv None;
  match ran with Some err => mret (not_done (what +:+ ": " +:+ err) err) | None => ok end.

Definition deploy_devspace (appsDir : string) (req : DeployRequest) : run DeployAnswer :=
  let name := bc_Name (dq_Component req) in
  _ ← warn "[bori] DEPRECATED: devspace adapter is deprecated; migrate to kustomize or manifest bootstrap adapter";
  let appDir := path_join [appsDir; name] in
  absent ← missing appDir;
  if (absent : bool) then mret (not_started ("app dir not found: " +:+ appDir))
  else if dq_DryRun req then mret (done ("[dry-run] devspace deploy in " +:+ appDir))
  else running_or appDir ["devspace"; "deploy"] "devspace deploy" (mret (done ("deployed " +:+ name +:+ " via devspace"))).

Definition swap_namespace (c : BoriComponent) : string :=
  if bool_decide (bc_Namespace c = "") then bc_Name c +:+ "-system" else bc_Namespace c.

Definition deploy_imageswap (req : DeployRequest) : run DeployAnswer :=
  let c := dq_Component req in
  let name := bc_Name c in
  if negb (validK8sName name) then
    mret (not_started ("imageswap: component name " +:+ quote name +:+ " is not a valid Kubernetes name"))
  else
    let ns := swap_namespace c in
    let imageRef := bc_ImageRef c in
    let target := "deployment/" +:+ name in
    if bool_decide (imageRef = "") then
      mret (not_started ("imageswap: component " +:+ quote name +:+ " has no imageRef (need digest-qualified ref)"))
    else if dq_DryRun req then mret (done ("[dry-run] imageswap " +:+ target +:+ " -n " +:+ ns +:+ " → " +:+ imageRef))
    else
      running_or "" ["kubectl"; "set"; "image"; target; name +:+ "=" +:+ imageRef; "-n"; ns] ("kubectl set image " +:+ target)
        (running_or "" ["kubectl"; "rollout"; "status"; target; "-n"; ns; "--timeout=5m"]
           ("rollout status " +:+ target +:+ " -n " +:+ ns)
           (mret (done ("imageswap " +:+ ns +:+ "/" +:+ name +:+ " → " +:+ imageRef)))).

(** The namespace is that of the name, not the component's own. *)
Definition deploy_ko (appsDir : string) (req : DeployRequest) : run DeployAnswer :=
  let name := bc_Name (dq_Component req) in
  let appDir := path_join [appsDir; name] in
  absent ← missing appDir;
  if (absent : bool) then mret (not_started ("app dir not found: " +:+ appDir))
  else if dq_DryRun req then mret (done ("[dry-run] ko apply in " +:+ appDir))
  else running_or appDir ["ko"; "apply"; "-f"; "config/"; "--namespace"; name +:+ "-system"] "ko apply"
         (mret (done ("deployed " +:+ name +:+ " via ko"))).

Definition bootstrap_path (c : BoriComponent) : string := from_option bs_Path "" (bc_Bootstrap c).

Definition overlay_dir (appsDir overlay : string) (req : DeployRequest) : string :=
  let c := dq_Component req in
  if negb (bool_decide (bootstrap_path c = "")) && negb (bool_decide (dq_BoriRoot req = ""))
  then path_join [dq_BoriRoot req; bootstrap_path c]
  else path_join [appsDir; bc_Name c; overlay].

Definition deploy_kustomize (appsDir overlay : string) (req : DeployRequest) : run DeployAnswer :=
  let dir := overlay_dir appsDir overlay req in
  absent ← missing dir;
  if (absent : bool) then mret (not_started ("kustomize overlay not found: " +:+ dir))
  else if dq_DryRun req then mret (done ("[dry-run] kubectl apply -k " +:+ dir))
  else running_or "" ["kubectl"; "apply"; "-k"; dir] "kubectl apply -k"
         (mret (done ("deployed " +:+ bc_Name (dq_Component req) +:+ " via kustomize"))).

(** The directory of manifests of the component, for an adapter of that name
    and with that complaint about a component without one. *)
Definition in_manifest_dir (adapter complaint : string) (req : DeployRequest) (ok : string -> run DeployAnswer) : run DeployAnswer :=
  let c := dq_Component req in
  if bool_decide (bootstrap_path c = "") then mret (not_started (adapter +:+ " adapter requires deploy.bootstrap.path" +:+ complaint))
  else if bool_decide (dq_BoriRoot req = "") then mret (not_started (adapter +:+ " adapter requires BoriRoot"))
  else
    let dir := path_join [dq_BoriRoot req; bootstrap_path c] in
    absent ← missing dir;
    if (absent : bool) then mret (not_started ("manifest dir not found: " +:+ dir)) else ok dir.

Definition deploy_manifest (req : DeployRequest) : run DeployAnswer :=
  in_manifest_dir "manifest" " to be set in component.yaml" req (fun dir =>
    if dq_DryRun req then mret (done ("[dry-run] kubectl apply -f " +:+ dir))
    else running_or "" ["kubectl"; "apply"; "-f"; dir] "kubectl apply -f"
           (mret (done ("deployed " +:+ bc_Name (dq_Component req) +:+ " via manifest")))).

Definition no_shell : string :=
  "shell adapter requires the shell capability (an `sh` interpreter on PATH), " +:+
  "but this runtime has none (e.g. distroless). Select a shell-capable profile or " +:+
  "use a typed adapter (manifest/kustomize).".

Definition deploy_shell (appsDir script : string) (req : DeployRequest) : run DeployAnswer :=
  let name := bc_Name (dq_Component req) in
  let appDir := path_join [appsDir; name] in
  let scriptPath := path_join [appDir; script] in
  absent ← missing scriptPath;
  if (absent : bool) then mret (not_started ("deploy script not found: " +:+ scriptPath))
  else if dq_DryRun req then mret (done ("[dry-run] sh " +:+ scriptPath +:+ " (developer mode)"))
  else match h_lookpath host "sh" with
  | Some err => mret (not_done no_shell ("shell adapter unsupported: no shell capability (sh not found on PATH): " +:+ err))
  | None =>
      _ ← warn "[bori] WARNING: shell adapter is developer mode only — unsafe for shared envs";
      running_or appDir ["sh"; scriptPath] "shell deploy" (mret (done ("deployed " +:+ name +:+ " via shell (developer mode)")))
  end.

(** ** kubeapply *)

(** One document: whether it counts as applied, or the error. *)
Definition apply_doc (d : yaml_doc) : run (string + nat) :=
  match d with
  | BlankDoc => mret (inr 0)
  | NotYaml err => mret (inl ("yaml→json: " +:+ err))
  | NotObject err => mret (inl ("unmarshal: " +:+ err))
  | ObjectDoc kind apiVersion name =>
      if bool_decide (kind = "") || bool_decide (apiVersion = "") then mret (inr 0)
      else
        l ← log;
        match apply_object l kind name with
        | Some err => mret (inl ("SSA apply " +:+ kind +:+ "/" +:+ name +:+ ": " +:+ err))
        | None => _ ← note (Applied kind name); mret (inr 1)
        end
  end.

Fixpoint apply_docs (applied : nat) (docs : list yaml_doc) : run (string + nat) :=
  match docs with
  | [] => mret (inr applied)
  | d :: docs =>
      r ← apply_doc d;
      match r with inl err => mret (inl err) | inr n => apply_docs (applied + n) docs end
  end.

Definition applyFile (path : string) : run (string + nat) :=
  match yaml_docs path with
  | inl err => mret (inl ("read " +:+ path +:+ ": " +:+ err))
  | inr (docs, broken) =>
      applied ← apply_docs 0 docs;
      mret (match applied, broken with
            | inr _, Some err => inl ("parse yaml: " +:+ err)
            | _, _ => applied
            end)
  end.

(** The files that are there, of those of the kustomization. *)
Definition listed_files (dir : string) (rs : list string) : run (list string) :=
  fold_prog (fun fs r => let p := path_join [dir; r] in absent ← missing p; mret (if (absent : bool) then fs else fs ++ [p])) [] rs.

Definition resolveFiles (dir : string) : run (string + list string) :=
  match kustomization_resources (path_join [dir; "kustomization.yaml"]) with
  | Some (r :: rs) => fs ← listed_files dir (r :: rs); mret (inr fs)
  | _ =>
      mret (match manifest_dir dir with
            | inl err => inl err
            | inr entries => inr ((fun e => path_join [dir; e.1]) <$> List.filter yaml_manifest entries)
            end)
  end.

(** The loop over the files: the file and the error, or the count. *)
Fixpoint apply_files (applied : nat) (fs : list string) : run ((string * string) + nat) :=
  match fs with
  | [] => mret (inr applied)
  | f :: fs =>
      r ← applyFile f;
      match r with inl err => mret (inl (f, err)) | inr n => apply_files (applied + n) fs end
  end.

Definition deploy_kubeapply (req : DeployRequest) : run DeployAnswer :=
  in_manifest_dir "kube-apply" "" req (fun dir =>
    files ← resolveFiles dir;
    match files with
    | inl err => mret (not_started ("resolve manifest files: " +:+ err))
    | inr fs =>
        if dq_DryRun req then mret (done ("[dry-run] kube-apply " +:+ dir +:+ " (" +:+ pretty (Z.of_nat (length fs)) +:+ " files)"))
        else
          r ← apply_files 0 fs;
          mret (match r with
                | inl (f, err) => not_done ("apply " +:+ path_base f +:+ ": " +:+ err) err
                | inr n => done ("applied " +:+ pretty (Z.of_nat n) +:+ " objects for " +:+ bc_Name (dq_Component req))
                end)
    end).

(** ** The interface *)
Definition adapter_deploy (a : DeployAdapter) (req : DeployRequest) : run DeployAnswer :=
  match a with
  | Devspace appsDir => deploy_devspace appsDir req
  | Imageswap => deploy_imageswap req
  | Ko appsDir => deploy_ko appsDir req
  | Kustomize appsDir overlay => deploy_kustomize appsDir overlay req
  | PlainManifest => deploy_manifest req
  | ShellScript appsDir script => deploy_shell appsDir script req
  | KubeApply => deploy_kubeapply req
  end.
End deployers.

(** buildAdapterRegistry of cmd/bori, and the registry of cmd/bori-operator,
    where kustomize and manifest are the in-process adapter. *)
Definition buildAdapterRegistry (appsDir : string) : gmap string DeployAdapter := list_to_map [
  ("devspace", Devspace appsDir);
  ("imageswap", Imageswap);
  ("ko", Ko appsDir);
  ("kustomize", Kustomize appsDir "config/overlays/default");
  ("manifest", PlainManifest);
  ("shell", ShellScript appsDir "deploy.sh")].

Definition operator_registry (appsDir : string) : gmap string DeployAdapter := list_to_map [
  ("devspace", Devspace appsDir);
  ("imageswap", Imageswap);
  ("ko", Ko appsDir);
  ("kustomize", KubeApply);
  ("manifest", KubeApply);
  ("shell", ShellScript appsDir "deploy.sh")].

(** * Deployment adapters: what they do

    The work of an adapter is the list of programs it runs and objects it
    applies ([work]); what an adapter did is compared with it. *)

(** Events that change the cluster. *)
Definition acts (e : event) : bool := match e with Ran _ _ _ | Applied _ _ => true | _ => false end.
Definition actions (l : list event) : list event := List.filter acts l.

Lemma actions_app l1 l2 : actions (l1 ++ l2) = actions l1 ++ actions l2.
Proof. apply List.filter_app. Qed.

Section spec.
Context `{GoText} `{Manifests}.
Variable host : Host.

(** ** The work *)
Definition listed (l : list event) (dir : string) (rs : list string) : list string :=
  List.filter (fun p => match h_stat host l p with Present => true | _ => false end) ((fun r => path_join [dir; r]) <$> rs).

Definition manifest_files (l : list event) (dir : string) : string + list string :=
  match kustomization_resources (path_join [dir; "kustomization.yaml"]) with
  | Some (r :: rs) => inr (listed l dir (r :: rs))
  | _ => match manifest_dir dir with
         | inl err => inl err
         | inr entries => inr ((fun e => path_join [dir; e.1]) <$> List.filter yaml_manifest entries)
         end
  end.

Definition doc_objects (d : yaml_doc) : list event :=
  match d with
  | ObjectDoc kind apiVersion name => if bool_decide (kind = "") || bool_decide (apiVersion = "") then [] else [Applied kind name]
  | _ => []
  end.

Definition file_objects (path : string) : list event :=
  match yaml_docs path with inl _ => [] | inr (docs, _) => docs ≫= doc_objects end.

Definition work (a : DeployAdapter) (req : DeployRequest) (l : list event) : list event :=
  let c := dq_Component req in
  let name := bc_Name c in
  let bootstrap := path_join [dq_BoriRoot req; bootstrap_path c] in
  match a with
  | Devspace appsDir => [Ran (path_join [appsDir; name]) ["devspace"; "deploy"] None]
  | Imageswap =>
      [Ran "" ["kubectl"; "set"; "image"; "deployment/" +:+ name; name +:+ "=" +:+ bc_ImageRef c; "-n"; swap_namespace c] None;
       Ran "" ["kubectl"; "rollout"; "status"; "deployment/" +:+ name; "-n"; swap_namespace c; "--timeout=5m"] None]
  | Ko appsDir => [Ran (path_join [appsDir; name]) ["ko"; "apply"; "-f"; "config/"; "--namespace"; name +:+ "-system"] None]
  | Kustomize appsDir overlay => [Ran "" ["kubectl"; "apply"; "-k"; overlay_dir appsDir overlay req] None]
  | PlainManifest => [Ran "" ["kubectl"; "apply"; "-f"; bootstrap] None]
  | ShellScript appsDir script => [Ran (path_join [appsDir; name]) ["sh"; path_join [path_join [appsDir; name]; script]] None]
  | KubeApply => match manifest_files l bootstrap with inl _ => [] | inr fs => fs ≫= file_objects end
  end.

(** Every program and every object of [l'], after [l], succeeded. *)
Definition accepted (l l' : list event) : Prop := forall l1 e l2, l' = l1 ++ e :: l2 ->
  match e with
  | Ran dir argv _ => h_run host (l ++ l1) dir argv = None
  | Applied kind name => apply_object (l ++ l1) kind name = None
  | _ => True
  end.

Lemma accepted_nil l : accepted l [].
Proof. intros l1 e l2 E. by destruct l1. Qed.

Lemma accepted_cons l e l' :
  match e with
  | Ran dir argv _ => h_run host l dir argv = None
  | Applied kind name => apply_object l kind name = None
  | _ => True
  end -> accepted (l ++ [e]) l' -> accepted l (e :: l').
Proof.
  intros He Hl l1 e' l2. destruct l1 as [|e1 l1]; cbn [app]; intros [= <- ->]; [by rewrite app_nil_r|].
  specialize (Hl l1 e' l2 eq_refl). by rewrite <- app_assoc in Hl.
Qed.

(** What a deployment did, [l'] after the log [l], and how it answered, against
    its work [w]: it did a beginning of the work, nothing of it on a dry run; and
    it answers without an error only with a success, when the whole work is done
    and was accepted. *)
Record deployed (w : list event) (dry : bool) (l l' : list event) (ans : DeployAnswer) : Prop := {
  dd_part : actions l' `prefix_of` w;
  dd_dry : dry = true -> actions l' = [];
  dd_success : da_Error ans = None -> exists msg, da_Result ans = Some (true, msg);
  dd_done : da_Error ans = None -> dry = false -> actions l' = w /\ accepted l l';
}.

Definition does (w : list event) (dry : bool) (m : prog Shell DeployAnswer) (s : Shell) : Prop :=
  exists ans l', m s = (Returned ans, Build_Shell (ps_log s ++ l') (ps_disk s)) /\ deployed w dry (ps_log s) l' ans.

Lemma same_shell s : Build_Shell (ps_log s ++ []) (ps_disk s) = s.
Proof. rewrite app_nil_r. by destruct s. Qed.

Lemma does_error w dry r err s : does w dry (mret (Build_DeployAnswer r (Some err))) s.
Proof. exists (Build_DeployAnswer r (Some err)), []. rewrite same_shell. split; [done|split; try done]. apply prefix_nil. Qed.

Lemma does_dry w msg s : does w true (mret (done msg)) s.
Proof. exists (done msg), []. rewrite same_shell. split; [done|split; try done; [apply prefix_nil|by exists msg]]. Qed.

Lemma does_done msg dry s : does [] dry (mret (done msg)) s.
Proof.
  exists (done msg), []. rewrite same_shell. split; [done|split; try done; [by exists msg|]].
  intros _ _. split; [done|apply accepted_nil].
Qed.

Lemma does_missing w dry path f s : (forall b, does w dry (f b) s) -> does w dry (missing host path ≫= f) s.
Proof. intros Hf. unfold missing. specialize (Hf match h_stat host (ps_log s) path with Present => false | _ => true end). done. Qed.

Lemma does_warn w dry line m s :
  does w dry m (Build_Shell (ps_log s ++ [Warned line]) (ps_disk s)) -> does w dry (warn line ≫= fun _ => m) s.
Proof.
  intros (ans & l' & Hm & [H1 H2 H3 H4]). exists ans, (Warned line :: l'). unfold warn. running. rewrite Hm. cbn [ps_log ps_disk] in *.
  rewrite <- app_assoc. split; [done|split; [exact H1|exact H2|exact H3|]].
  intros He Hd. destruct (H4 He Hd) as [Ha Hacc]. split; [exact Ha|]. by apply accepted_cons.
Qed.

Lemma does_run w dir argv what ok s :
  does w false ok (Build_Shell (ps_log s ++ [Ran dir argv None]) (ps_disk s)) ->
  does (Ran dir argv None :: w) false (running_or host dir argv what ok) s.
Proof.
  intros (ans & l' & Hm & [H1 H2 H3 H4]). unfold running_or, does. running.
  destruct (h_run host (ps_log s) dir argv) as [err|] eqn:Er.
  - exists (not_done (what +:+ ": " +:+ err) err), [Ran dir argv None]. running.
    split; [done|split; try done]. apply prefix_cons, prefix_nil.
  - exists ans, (Ran dir argv None :: l'). rewrite Hm. cbn [ps_log ps_disk] in *. rewrite <- app_assoc.
    split; [done|split; [by apply prefix_cons|done|exact H3|]].
    intros He Hd. destruct (H4 He Hd) as [Ha Hacc]. split; [cbn; by f_equal|]. by apply accepted_cons.
Qed.

Lemma does_manifest_dir w dry adapter complaint req ok s :
  does w dry (ok (path_join [dq_BoriRoot req; bootstrap_path (dq_Component req)])) s ->
  does w dry (in_manifest_dir host adapter complaint req ok) s.
Proof.
  intros Hok. unfold in_manifest_dir. case_bool_decide; [apply does_error|]. case_bool_decide; [apply does_error|].
  apply does_missing. intros []; [apply does_error|exact Hok].
Qed.

(** ** The in-process adapter *)
Lemma listed_files_run dir rs s : listed_files host dir rs s = (Returned (listed (ps_log s) dir rs), s).
Proof.
  unfold listed_files, listed, missing.
  match goal with |- fold_prog ?f _ _ _ = _ =>
    enough (forall acc, fold_prog f acc rs s = (Returned (acc ++ List.filter (fun p => match h_stat host (ps_log s) p with
      Present => true | _ => false end) ((fun r => path_join [dir; r]) <$> rs)), s)) as Hacc by apply Hacc
  end.
  induction rs as [|r rs IH]; intros acc; cbn [fold_prog fmap list_fmap List.filter]; [by rewrite app_nil_r|].
  running. rewrite IH. destruct (h_stat host (ps_log s) (path_join [dir; r])); [by rewrite <- app_assoc|done|done].
Qed.

Lemma resolveFiles_run dir s : resolveFiles host dir s = (Returned (manifest_files (ps_log s) dir), s).
Proof.
  unfold resolveFiles, manifest_files. destruct (kustomization_resources _) as [[|r rs]|]; try done.
  running. by rewrite listed_files_run.
Qed.

(** How applying ends: an error after a beginning of the objects [w], or all of
    them accepted. *)
Definition applies {E : Type} (w : list event) (m : prog Shell (E + nat)) (s : Shell) : Prop :=
  exists r l', m s = (Returned r, Build_Shell (ps_log s ++ l') (ps_disk s)) /\ l' `prefix_of` w /\
    match r with inl _ => True | inr _ => l' = w /\ accepted (ps_log s) l' end.

Lemma objects_act w : Forall (fun e => acts e = true) w -> actions w = w.
Proof. induction 1 as [|e w He _ IH]; [done|]. unfold actions in *. cbn. by rewrite He, IH. Qed.

Lemma accepted_app l l1 l2 : accepted l l1 -> accepted (l ++ l1) l2 -> accepted l (l1 ++ l2).
Proof.
  revert l. induction l1 as [|e l1 IH]; intros l H1 H2; [by rewrite app_nil_r in H2|]. cbn [app]. apply accepted_cons.
  - specialize (H1 [] e l1 eq_refl). by rewrite app_nil_r in H1.
  - apply IH; [|by rewrite <- app_assoc]. intros k e' k' ->. specialize (H1 (e :: k) e' k' eq_refl). by rewrite <- app_assoc.
Qed.

Lemma applies_bind {E F : Type} w1 w2 (m : prog Shell (E + nat)) (f : E + nat -> prog Shell (F + nat)) s :
  applies w1 m s ->
  (forall e s', exists e', f (inl e) s' = (Returned (inl e'), s')) ->
  (forall n s', applies w2 (f (inr n)) s') ->
  applies (w1 ++ w2) (m ≫= f) s.
Proof.
  intros (r & l1 & Hm & Hp & Hr) Hf1 Hf2. unfold applies. rewrite bind_run, Hm. destruct r as [e|n].
  - destruct (Hf1 e (Build_Shell (ps_log s ++ l1) (ps_disk s))) as [e' ->]. exists (inl e'), l1.
    split; [done|]. split; [by apply prefix_app_r|done].
  - destruct Hr as [-> Ha]. destruct (Hf2 n (Build_Shell (ps_log s ++ w1) (ps_disk s))) as (r & l2 & -> & Hp2 & Hr2).
    cbn [ps_log ps_disk]. exists r, (w1 ++ l2). rewrite app_assoc. split; [done|]. split; [by apply prefix_app|].
    destruct r as [|k]; [done|]. destruct Hr2 as [-> Ha2]. split; [done|]. by apply accepted_app.
Qed.

Lemma apply_doc_applies d s : applies (doc_objects d) (apply_doc d) s.
Proof.
  assert (forall r : string + nat, applies [] (mret r) s) as Hret.
  { intros r. exists r, []. rewrite same_shell. split; [done|]. split; [done|]. destruct r; [done|]. split; [done|apply accepted_nil]. }
  destruct d as [|err|err|kind apiVersion name]; cbn [doc_objects apply_doc]; [apply Hret..|].
  destruct (_ || _); [apply Hret|]. unfold applies. running. destruct (apply_object (ps_log s) kind name) as [err|] eqn:Ea.
  - exists (inl ("SSA apply " +:+ kind +:+ "/" +:+ name +:+ ": " +:+ err)), []. rewrite same_shell. split; [done|].
    split; [apply prefix_nil|done].
  - running. exists (inr 1), [Applied kind name]. split; [done|]. split; [done|]. split; [done|].
    apply accepted_cons; [done|apply accepted_nil].
Qed.

Lemma apply_docs_applies docs : forall applied s, applies (docs ≫= doc_objects) (apply_docs applied docs) s.
Proof.
  induction docs as [|d docs IH]; intros applied s.
  - exists (inr applied), []. cbn. rewrite same_shell. split; [done|]. split; [done|]. split; [done|apply accepted_nil].
  - cbn [mbind list_bind apply_docs]. apply applies_bind; [apply apply_doc_applies|intros e s'; by exists e|].
    intros n s'. apply IH.
Qed.

Lemma applyFile_applies path s : applies (file_objects path) (applyFile path) s.
Proof.
  unfold file_objects, applyFile. destruct (yaml_docs path) as [err|[docs broken]].
  { eexists (inl _), []. cbn. rewrite same_shell. by split. }
  destruct (apply_docs_applies docs 0 s) as (r & l' & Hm & Hp & Hr). unfold applies. rewrite bind_run, Hm.
  destruct r as [err|n].
  - exists (inl err), l'. by split.
  - destruct broken as [err|]; [exists (inl ("parse yaml: " +:+ err)), l'; by split|].
    exists (inr n), l'. by split.
Qed.

Lemma apply_files_applies fs : forall applied s, applies (fs ≫= file_objects) (apply_files applied fs) s.
Proof.
  induction fs as [|f fs IH]; intros applied s.
  - exists (inr applied), []. cbn. rewrite same_shell. split; [done|]. split; [done|]. split; [done|apply accepted_nil].
  - cbn [mbind list_bind apply_files]. apply applies_bind; [apply applyFile_applies|intros e s'; by eexists|].
    intros n s'. apply IH.
Qed.

Lemma file_objects_act path : Forall (fun e => acts e = true) (file_objects path).
Proof.
  unfold file_objects. destruct (yaml_docs path) as [|[docs _]]; [constructor|]. induction docs as [|d docs IH]; [constructor|].
  cbn. apply Forall_app. split; [|exact IH]. destruct d; cbn; repeat constructor. destruct (_ || _); repeat constructor.
Qed.

Lemma files_act fs : Forall (fun e => acts e = true) (fs ≫= file_objects).
Proof. induction fs; cbn; [constructor|]. apply Forall_app. by split; [apply file_objects_act|]. Qed.

Lemma deploy_kubeapply_does req s : does (work KubeApply req (ps_log s)) (dq_DryRun req) (deploy_kubeapply host req) s.
Proof.
  apply does_manifest_dir. unfold does. running. rewrite resolveFiles_run. cbn [work].
  destruct (manifest_files (ps_log s) _) as [err|fs]; [apply does_error|]. destruct (dq_DryRun req); [apply does_dry|].
  destruct (apply_files_applies fs 0 s) as (r & l' & Hm & Hp & Hr). running. rewrite Hm.
  assert (actions l' `prefix_of` fs ≫= file_objects) as Hpre.
  { assert (Forall (fun e => acts e = true) l') as Hl; [|by rewrite (objects_act _ Hl)].
    destruct Hp as [k Hk]. pose proof (files_act fs) as Hf. rewrite Hk in Hf. by apply Forall_app in Hf as [? _]. }
  destruct r as [[f err]|n].
  - eexists (not_done _ err), l'. split; [done|]. by split.
  - destruct Hr as [-> Ha]. eexists (done _), _. split; [done|]. split; [done|done|by eexists|].
    intros _ _. split; [apply objects_act, files_act|done].
Qed.

(** C23. Every adapter returns, and does its work and nothing else: nothing on a
    dry run, a beginning of it when it reports an error, and without an error
    the whole of it, in order, each program and each object with success. *)
Theorem adapter_deploy_spec a req s : does (work a req (ps_log s)) (dq_DryRun req) (adapter_deploy host a req) s.
Proof.
  destruct a as [appsDir| |appsDir|appsDir overlay| |appsDir script|]; cbn [adapter_deploy];
    [unfold deploy_devspace; apply does_warn|unfold deploy_imageswap|unfold deploy_ko|unfold deploy_kustomize|unfold deploy_manifest|
     unfold deploy_shell|apply deploy_kubeapply_does].
  - apply does_missing. intros []; [apply does_error|]. destruct (dq_DryRun req); [apply does_dry|]. apply does_run, does_done.
  - destruct (negb _); [apply does_error|]. case_bool_decide; [apply does_error|]. destruct (dq_DryRun req); [apply does_dry|].
    apply does_run, does_run, does_done.
  - apply does_missing. intros []; [apply does_error|]. destruct (dq_DryRun req); [apply does_dry|]. apply does_run, does_done.
  - apply does_missing. intros []; [apply does_error|]. destruct (dq_DryRun req); [apply does_dry|]. apply does_run, does_done.
  - apply does_manifest_dir. destruct (dq_DryRun req); [apply does_dry|]. apply does_run, does_done.
  - apply does_missing. intros []; [apply does_error|]. destruct (dq_DryRun req); [apply does_dry|].
    destruct (h_lookpath host "sh") as [err|]; [apply does_error|]. apply does_warn, does_run, does_done.
Qed.
End spec.
