(* ===== verification/DeployCmd.v ===== *)
(** * bori plan, bori deploy, bori rollout plan (cmd/bori/main.go): definitions

    The commands that plan a release and deploy it from the command line.  Both
    write the plan, the revision and the rollout; cmdDeploy then runs the
    adapters one after the other and records how that ended. *)

From S2P Require Import Prelude Text Process.
From S2P Require Import Release Loading Planner Revision Shadow Deploy Artifact Host Gate Redact.
From S2P Require Import Deployers.
From S2P Require Import VerifyCmd.

Record PlanFlags := { pf_release : string; pf_env : string; pf_bori_root : string; pf_bori_dir : string }.

Record DeployFlags := {
  df_release : string;
  df_env : string;
  df_bori_root : string;
  df_apps_dir : string;
  df_bori_dir : string;
  df_dry_run : bool;
}.

Section deploy.
Context `{GoText} `{SortSlice} `{Files} `{References} `{DeployFiles} `{Manifests}.
Variable host : Host.

Abbreviation run A := (prog Shell A) (only parsing).
Abbreviation vrun A := (prog (Shell * RunStatus) A) (only parsing).

(** A warning about something that could not be done. *)
Definition warned (what : string) (r : option string) : run unit :=
  match r with Some err => warn ("[bori] warning: could not " +:+ what +:+ ": " +:+ err) | None => mret tt end.

(** A command without its required flags. *)
Definition usage_error {A} (msg : string) : run A := _ ← warn msg; exit 1.

Definition print (d : document) : run unit := note (Printed d).

Fixpoint warn_all (lines : list string) : run unit :=
  match lines with [] => mret tt | v :: lines => _ ← warn ("  - " +:+ v); warn_all lines end.

(** planner.Plan at the clock's next reading.  A plan that fails early has not
    read the clock, but then the process ends before anyone reads it again. *)
Definition planning (boriRoot runID release env : string) : run Plan_ :=
  t ← now host;
  match Plan boriRoot None t runID release env with
  | None => panic "unreachable: fuel"
  | Some (inl err) => fatalf ("plan: " +:+ err)
  | Some (inr plan) => mret plan
  end.

Definition say_revision (rev : BoriRevision) : run unit :=
  say ("[bori] revision: " +:+ rv_RevisionID rev +:+ "  content-hash: " +:+ rv_ContentHash rev).

(** rollout.BuildFromPlan and rollout.Write *)
Definition record_rollout (boriDir : string) (plan : Plan_) (rev : BoriRevision) : run BoriRollout :=
  t ← now host;
  let ro := rollout_of_plan plan (rv_RevisionID rev) t in
  wrote ← write_rollout host boriDir ro;
  _ ← warned "write rollout" wrote;
  mret ro.

(** ** cmdPlan *)
Definition cmdPlan (fl : PlanFlags) : run unit :=
  if bool_decide (pf_release fl = "") || bool_decide (pf_env fl = "")
  then usage_error "bori plan: --release and --env are required"
  else
    t0 ← now host;
    let runID := format_second t0 in
    let runDir := RunDir (pf_bori_dir fl) runID in
    plan ← planning (pf_bori_root fl) runID (pf_release fl) (pf_env fl);
    wrote ← WritePlan host runDir plan;
    _ ← warned "write plan.json" wrote;
    t ← now host;
    let rev := revision_of_plan (pf_bori_root fl) plan t in
    wrote ← write_revision_file host rev;
    _ ← warned "write revision" wrote;
    _ ← record_rollout (pf_bori_dir fl) plan rev;
    _ ← say_revision rev;
    _ ← print (DPlan plan);
    if 0 <? length (pl_Violations plan) then
      _ ← warn ("[bori] plan: " +:+ pretty (Z.of_nat (length (pl_Violations plan))) +:+ " namespace violation(s) — deploy blocked");
      _ ← warn_all (pl_Violations plan);
      exit 1
    else say ("[bori] plan ok — " +:+ pretty (Z.of_nat (length (pl_Components plan))) +:+ " component(s)  run-id: " +:+ runID).

(** ** cmdRolloutPlan *)
Definition cmdRolloutPlan (fl : PlanFlags) : run unit :=
  if bool_decide (pf_release fl = "") || bool_decide (pf_env fl = "")
  then usage_error "bori rollout plan: --release and --env are required"
  else match h_abs host (pf_bori_root fl) with
  | inl err => fatalf ("abs bori-root: " +:+ err)
  | inr abs =>
      t0 ← now host;
      plan ← planning abs (format_second t0) (pf_release fl) (pf_env fl);
      t ← now host;
      let rev := revision_of_plan abs plan t in
      ro ← record_rollout (pf_bori_dir fl) plan rev;
      _ ← print (DRollout ro);
      say ("[bori] rollout plan: " +:+ ro_RolloutID ro +:+ "  revision: " +:+ rv_RevisionID rev)
  end.

(** ** cmdDeploy *)

(** The directory of the apps: by default the parent of bori-root. *)
Definition apps_dir (given boriRoot : string) : run string :=
  if bool_decide (given = "") then
    match h_abs host boriRoot with inl err => fatalf ("abs bori-root: " +:+ err) | inr abs => mret (path_join [abs; ".."]) end
  else mret given.

Definition compForDeploy (boriRoot : string) (cp : ComponentPlan) : string + BoriComponent :=
  match LoadComponentByName boriRoot (cp_Name cp) with inl err => inl err | inr comp => inr (overridden cp comp) end.

Definition envForDeploy (boriRoot envName : string) : string + BoriEnvironment := LoadEnvironmentByName boriRoot envName.

Definition deploy_request (fl : DeployFlags) (abs runDir : string) (cp : ComponentPlan) (comp : BoriComponent)
    (env : BoriEnvironment) : DeployRequest :=
  Build_DeployRequest comp env (df_dry_run fl) (path_join [runDir; "deploy"; cp_Name cp]) abs.

(** overall, compStatuses, compDeploys *)
Record Deployment := { dv_overall : string; dv_statuses : list CompStatus; dv_deploys : list CompDeploy }.

(** One component was deployed or not, with a message. *)
Definition record_component (d : Deployment) (cp : ComponentPlan) (success : bool) (msg : string) : Deployment :=
  Build_Deployment
    (if success then dv_overall d else Max (dv_overall d) GateResultFail)
    (dv_statuses d ++ [Build_CompStatus (cp_Name cp) (if success then GateResultPass else GateResultFail) msg])
    (dv_deploys d ++ [Build_CompDeploy (cp_Name cp) (cp_Version cp) (cp_Adapter cp) success msg]).

(** The message of a deployment: a failure's, or a success's.  Without a result
    and without an error the message of a nil result is read. *)
Inductive told := Deploys (msg : string) | DeployFails (msg : string) | NilResult.

Definition deploy_told (a : DeployAnswer) : told :=
  match da_Error a, da_Result a with
  | Some err, _ => DeployFails (RedactString err)
  | None, Some (false, msg) => DeployFails msg
  | None, Some (true, msg) => Deploys msg
  | None, None => NilResult
  end.

Definition deploy_component (fl : DeployFlags) (registry : gmap string DeployAdapter) (abs runDir : string) (d : Deployment)
    (cp : ComponentPlan) : run Deployment :=
  match registry !! cp_Adapter cp with
  | None =>
      _ ← warn ("[bori] " +:+ cp_Name cp +:+ ": unknown adapter " +:+ quote (cp_Adapter cp));
      mret (Build_Deployment (Max (dv_overall d) GateResultFail)
              (dv_statuses d ++ [Build_CompStatus (cp_Name cp) GateResultFail ("unknown adapter: " +:+ cp_Adapter cp)]) (dv_deploys d))
  | Some a =>
      match compForDeploy (df_bori_root fl) cp with
      | inl err => fatalf ("load component " +:+ cp_Name cp +:+ ": " +:+ err)
      | inr comp =>
          match envForDeploy (df_bori_root fl) (df_env fl) with
          | inl err => fatalf ("load environment " +:+ df_env fl +:+ ": " +:+ err)
          | inr env =>
              answer ← adapter_deploy host a (deploy_request fl abs runDir cp comp env);
              match deploy_told answer with
              | DeployFails msg =>
                  _ ← warn ("[bori] " +:+ cp_Name cp +:+ ": deploy failed: " +:+ msg); mret (record_component d cp false msg)
              | Deploys msg =>
                  _ ← say ("[bori] " +:+ pad_right 24 (cp_Name cp) +:+ " deployed  (" +:+ msg +:+ ")");
                  mret (record_component d cp true msg)
              | NilResult => panic "runtime error: invalid memory address or nil pointer dereference"
              end
          end
      end
  end.

Definition deploy_overall (d : Deployment) : string :=
  if bool_decide (dv_overall d = GateResultFail) then "failed"
  else if existsb (fun cd => negb (cd_Success cd)) (dv_deploys d) then "partial"
  else "success".

(** The pending revision and the rollout: the revision, and whether it was stored. *)
Definition record_pending (fl : DeployFlags) (abs : string) (plan : Plan_) : run (BoriRevision * bool) :=
  t ← now host;
  let rev := revision_of_plan abs plan t in
  wrote ← write_revision_file host rev;
  _ ← match wrote with Some err => warned "write revision" (Some err) | None => say_revision rev end;
  _ ← record_rollout (df_bori_dir fl) plan rev;
  mret (rev, match wrote with None => true | Some _ => false end).

Definition set_verification_run (runID : string) (rev : BoriRevision) : BoriRevision :=
  Build_BoriRevision (rv_SchemaVersion rev) (rv_RevisionID rev) (rv_Release rev) (rv_Environment rev)
    (rv_ParentRevisionID rev) (rv_CreatedAt rev) (rv_Components rev) (rv_ContentHash rev) runID
    (rv_PromotionStatus rev) (rv_PromotedAt rev) (rv_BaselineRef rev) (rv_FailReason rev).

(** The promoted revision names the deployment as its verification run. *)
Definition promoted_by (runID runDir : string) (rev : BoriRevision) (t : Time) : BoriRevision :=
  set_verification_run runID (Promote rev (runDir +:+ "/evidence") t).

Definition record_outcome (runID runDir overall : string) (rev : BoriRevision) (stored : bool) : run unit :=
  when stored
    (if bool_decide (overall = "success") then
       t ← now host;
       wrote ← write_revision_file host (promoted_by runID runDir rev t);
       match wrote with
       | Some err => warned "update promoted revision" (Some err)
       | None => say ("[bori] revision promoted: " +:+ rv_RevisionID rev)
       end
     else
       wrote ← write_revision_file host (fail_revision rev ("deploy overall: " +:+ overall));
       warned "update failed revision" wrote).

Definition deploy_result (fl : DeployFlags) (runID : string) (startedAt finishedAt : Time) (d : Deployment) : DeployResult := {|
  dr_RunID := runID; dr_Release := df_release fl; dr_Environment := df_env fl; dr_StartedAt := startedAt;
  dr_FinishedAt := finishedAt; dr_Overall := deploy_overall d; dr_Components := dv_deploys d;
|}.

(** From the plan on: everything up to the status of the run. *)
Definition deploy_plan (fl : DeployFlags) (registry : gmap string DeployAdapter) (abs runID runDir : string) (startedAt : Time)
    (plan : Plan_) : run Deployment :=
  pending ← record_pending fl abs plan;
  d ← fold_prog (deploy_component fl registry abs runDir) (Build_Deployment GateResultPass [] []) (pl_Components plan);
  finishedAt ← now host;
  wrote ← WriteDeployResult host runDir (deploy_result fl runID startedAt finishedAt d);
  _ ← warned "write deploy-result.json" wrote;
  _ ← record_outcome runID runDir (deploy_overall d) pending.1 pending.2;
  mret d.

Definition deployed_phase (overall : string) : string := if bool_decide (overall = GateResultPass) then "Deployed" else "Failed".

(** What is planned, unless it is refused. *)
Definition deployable (fl : DeployFlags) (abs runID runDir : string) : run Plan_ :=
  plan ← planning abs runID (df_release fl) (df_env fl);
  wrote ← WritePlan host runDir plan;
  _ ← warned "write plan.json" wrote;
  if 0 <? length (pl_Violations plan) then
    _ ← warn "[bori] deploy blocked: namespace violations"; _ ← warn_all (pl_Violations plan); exit 1
  else mret plan.

Definition deploy_body (fl : DeployFlags) (appsDir runID runDir : string) (startedAt : Time) : vrun unit :=
  match h_abs host (df_bori_root fl) with
  | inl err => lift (fatalf ("abs bori-root: " +:+ err))
  | inr abs =>
      plan ← lift (deployable fl abs runID runDir);
      d ← lift (deploy_plan fl (buildAdapterRegistry appsDir) abs runID runDir startedAt plan);
      _ ← set_status (set_outcome (deployed_phase (dv_overall d)) (dv_overall d) (dv_statuses d));
      _ ← lift (say ("[bori] deploy overall: " +:+ dv_overall d +:+ "  run-id: " +:+ runID));
      if bool_decide (dv_overall d = GateResultFail) then exit 1 else mret tt
  end.

Definition deploy_status (fl : DeployFlags) (runID : string) (startedAt : Time) : RunStatus :=
  Build_RunStatus "bori.run.v1" runID (df_release fl) (df_env fl) "" startedAt 0 "Failed" GateResultNoGrade [].

Definition cmdDeploy (fl : DeployFlags) : run unit :=
  if bool_decide (df_release fl = "") || bool_decide (df_env fl = "")
  then usage_error "bori deploy: --release and --env are required"
  else
    appsDir ← apps_dir (df_apps_dir fl) (df_bori_root fl);
    t0 ← now host;
    let runID := format_second t0 in
    let runDir := RunDir (df_bori_dir fl) runID in
    startedAt ← now host;
    with_var (deploy_status fl runID startedAt)
      (deferring (writeStatus host runDir) (deploy_body fl appsDir runID runDir startedAt)).
End deploy.
