(* ===== verification/HostSpec.v ===== *)
(** * Programs that only note harmless events

    Relations between the states of a process before and after: [noted P], only
    events of [P] were added and no revision became promoted.  The primitives of
    the host keep it for every [P] that holds of messages, readings of the clock
    and documents other than a run's status. *)

From S2P Require Import Prelude Text Process.
From S2P Require Import Planner Revision Shadow Deploy Artifact Host Measure.

(** Every promoted revision of the disk was there before. *)
Definition kept (s s' : Shell) : Prop := forall id rev, dk_revisions (ps_disk s') !! id = Some (Some rev) ->
  rv_PromotionStatus rev = "promoted" -> dk_revisions (ps_disk s) !! id = Some (Some rev).

Definition noted (P : event -> Prop) (s s' : Shell) : Prop :=
  (exists l, ps_log s' = ps_log s ++ l /\ Forall P l) /\ kept s s'.

#[export] Instance noted_preorder P : PreOrder (noted P).
Proof.
  split; [intros s; split; [exists []; by rewrite app_nil_r|by intros id rev]|].
  intros a b c ((l1 & E1 & Q1) & K1) ((l2 & E2 & Q2) & K2). split; [|intros id rev Hid Hp; apply K1, Hp; by apply K2].
  exists (l1 ++ l2). rewrite E2, E1, app_assoc. split; [done|by apply Forall_app].
Qed.

(** Messages, the clock, and files other than a run's status. *)
Class Mild (P : event -> Prop) : Prop := {
  mild_said : forall line, P (Said line);
  mild_warned : forall line, P (Warned line);
  mild_printed : forall doc, P (Printed doc);
  mild_ticked : P Ticked;
  mild_saved : forall path doc, match doc with DStatus _ => False | _ => True end -> P (Saved path doc);
  mild_spoiled : forall path, P (Spoiled path);
  mild_unlinked : forall path, P (Unlinked path);
}.

(** Not a run's status. *)
Definition no_status (e : event) : Prop := status_of e = None.

#[export] Instance no_status_mild : Mild no_status.
Proof. split; try done. by intros path [] Hd. Qed.

Section host.
Context (P : event -> Prop) `{!Mild P}.
Variable host : Host.

Lemma note_noted e : P e -> keeps (noted P) (note e).
Proof. intros He s. split; [|done]. split; [exists [e]; cbn; split; [done|by constructor]|by intros id rev]. Qed.
Hint Resolve note_noted : prog.
Hint Extern 1 (P _) => first [apply mild_said|apply mild_warned|apply mild_printed|apply mild_ticked|apply mild_spoiled|
  apply mild_unlinked|by apply mild_saved] : prog.

Lemma warn_noted line : keeps (noted P) (warn line). Proof. apply note_noted; auto with prog. Qed.
Lemma say_noted line : keeps (noted P) (say line). Proof. apply note_noted; auto with prog. Qed.
Lemma log_noted : keeps (noted P) log. Proof. apply keeps_ask. apply _. Qed.
Hint Resolve warn_noted say_noted log_noted : prog.

Lemma now_noted : keeps (noted P) (now host). Proof. unfold now. keeping. Qed.
Lemma stat_noted path : keeps (noted P) (stat host path). Proof. unfold stat. keeping. Qed.
Lemma mkdir_noted dir : keeps (noted P) (mkdir_all host dir). Proof. unfold mkdir_all. keeping. Qed.
Lemma fatalf_noted {A} msg : keeps (noted P) (fatalf msg : prog Shell A). Proof. unfold fatalf. keeping. Qed.
Hint Resolve now_noted mkdir_noted fatalf_noted : prog.

Lemma create_noted path doc removes :
  match doc with DStatus _ => False | _ => True end -> keeps (noted P) (create host path doc removes).
Proof. intros Hd. unfold create, write_file. destruct removes; keeping. Qed.
Hint Resolve create_noted : prog.

Lemma write_in_noted dir name doc removes :
  match doc with DStatus _ => False | _ => True end -> keeps (noted P) (write_in host dir name doc removes).
Proof. intros Hd. unfold write_in. keeping. Qed.

Lemma write_revision_noted rev : rv_PromotionStatus rev <> "promoted" -> keeps (noted P) (write_revision_file host rev).
Proof.
  intros Hr s. unfold write_revision_file. destruct (h_write_revision host (ps_log s) rev) as [answer err].
  destruct (write_revision rev answer (dk_revisions (ps_disk s))) as [revs ok] eqn:Ew. cbn. split; [|done].
  split; [exists []; by rewrite app_nil_r|]. intros id rev'. cbn. intros Hid Hp.
  assert (forall o, (forall r, o = Some r -> rv_PromotionStatus r <> "promoted") ->
    <[rv_RevisionID rev := o]> (dk_revisions (ps_disk s)) !! id = Some (Some rev') -> dk_revisions (ps_disk s) !! id = Some (Some rev')) as Hins.
  { intros o Ho Hl. destruct (decide (rv_RevisionID rev = id)) as [<-|Hne].
    - rewrite lookup_insert_eq in Hl. injection Hl as ->. by destruct (Ho rev').
    - by rewrite lookup_insert_ne in Hl. }
  destruct answer as [| | |[]]; cbn in Ew; injection Ew as <- <-; try done.
  - refine (Hins _ _ Hid). by intros r [= <-].
  - by apply lookup_delete_Some in Hid as [_ ?].
  - refine (Hins _ _ Hid). by intros r [= <-].
  - by refine (Hins _ _ Hid).
Qed.
End host.

#[export] Hint Resolve note_noted warn_noted say_noted log_noted now_noted stat_noted mkdir_noted fatalf_noted create_noted
  write_in_noted write_revision_noted : prog.
#[export] Hint Extern 1 (no_status _) => reflexivity : prog.
#[export] Hint Extern 1 (Mild _) => typeclasses eauto : prog.

(** ** The primitives never panic *)
Section safe.
Variable host : Host.

Lemma note_safe e : safe (note e). Proof. by intros s. Qed.
Lemma log_safe : safe log. Proof. by intros s. Qed.
Lemma fatalf_safe {A} msg : safe (fatalf msg : prog Shell A). Proof. by intros s. Qed.
Lemma exec_safe dir argv input : safe (exec host dir argv input). Proof. by intros s. Qed.
Lemma now_safe : safe (now host). Proof. by intros s. Qed.
Lemma mkdir_safe dir : safe (mkdir_all host dir). Proof. by intros s. Qed.
Hint Resolve note_safe log_safe mkdir_safe : prog.
Lemma warn_safe line : safe (warn line). Proof. apply note_safe. Qed.
Lemma say_safe line : safe (say line). Proof. apply note_safe. Qed.
Lemma create_safe path doc removes : safe (create host path doc removes).
Proof. unfold create, write_file. safely. Qed.
Hint Resolve create_safe : prog.
Lemma write_in_safe dir name doc removes : safe (write_in host dir name doc removes).
Proof. unfold write_in. safely. Qed.
Lemma write_revision_safe rev : safe (write_revision_file host rev).
Proof.
  intros s. unfold write_revision_file. destruct (h_write_revision host (ps_log s) rev) as [answer err].
  by destruct (write_revision rev answer (dk_revisions (ps_disk s))).
Qed.
End safe.

#[export] Hint Resolve note_safe log_safe fatalf_safe exec_safe now_safe mkdir_safe warn_safe say_safe create_safe write_in_safe
  write_revision_safe : prog.
