(* ===== verification/DeployCmdSpec.v ===== *)
(** * What bori deploy promises (cmd/bori/main.go)

    A deployment that returns did the whole work of every component of its plan,
    in order and with success; one that exits records no status and promotes
    nothing. *)

From S2P Require Import Prelude Text Process.
From S2P Require Import Release Loading Planner Revision Shadow Deploy DeploySpec Artifact Host.
From S2P Require Import Gate.
From S2P Require Import Measure Redact VerifyCmd.
From S2P Require Import Deployers DeployCmd HostSpec.

(** Not a change of the cluster. *)
Definition idle (e : event) : Prop := acts e = false.

#[export] Instance idle_mild : Mild idle.
Proof. by split. Qed.

Section registry.
Context `{GoText} `{Manifests}.
Variable host : Host.

(** The command line has no in-process adapter. *)
Lemma registry_external dir n a : buildAdapterRegistry dir !! n = Some a -> a <> KubeApply.
Proof.
  intros Ha%elem_of_list_to_map_2. rewrite !elem_of_cons in Ha. intros ->.
  do 6 (destruct Ha as [Ha|Ha]; [by inversion Ha|]). by apply elem_of_nil in Ha.
Qed.

Lemma work_here a req l : a <> KubeApply -> work host a req l = work host a req [].
Proof. by destruct a. Qed.

(** The work depends on the component and the repository only. *)
Lemma work_request a dry dir comp env abs :
  work host a (Build_DeployRequest comp env dry dir abs) [] = work host a (Build_DeployRequest comp env false "" abs) [].
Proof. by destruct a. Qed.

(** ** What a program did to the cluster, with success *)
Definition acted (w : list event) (s s' : Shell) : Prop :=
  exists l, ps_log s' = ps_log s ++ l /\ actions l = w /\ accepted host (ps_log s) l.

Lemma acted_app w1 w2 s s1 s2 : acted w1 s s1 -> acted w2 s1 s2 -> acted (w1 ++ w2) s s2.
Proof.
  intros (l1 & E1 & <- & A1) (l2 & E2 & <- & A2). exists (l1 ++ l2). rewrite E2, E1, app_assoc, actions_app.
  split; [done|]. split; [done|]. apply accepted_app; [done|]. by rewrite <- E1.
Qed.

Lemma idle_acted s s' : noted idle s s' -> acted [] s s'.
Proof.
  intros ((l & E & Hl) & _). exists l. split; [done|]. split.
  - clear E. induction Hl as [|e l He _ IH]; [done|]. unfold actions in *. cbn. by rewrite He.
  - intros l1 e l2 ->. apply Forall_app in Hl as [_ [He _]%Forall_cons]. by destruct e.
Qed.

Lemma idle_l w s s1 s2 : noted idle s s1 -> acted w s1 s2 -> acted w s s2.
Proof. intros Hi Ha. apply (acted_app [] w s s1); [by apply idle_acted|done]. Qed.

Lemma idle_r w s s1 s2 : acted w s s1 -> noted idle s1 s2 -> acted w s s2.
Proof. intros Ha Hi. rewrite <- (app_nil_r w). apply (acted_app w [] s s1); [done|by apply idle_acted]. Qed.

(** ** Adapters write no status and promote nothing *)
Lemma stat_run_noted P path : Mild P -> keeps (noted P) (missing host path).
Proof. intros HP. unfold missing. pose proof (stat_noted P). keeping. Qed.
Hint Resolve stat_run_noted : prog.

Lemma exec_no_status dir argv input : keeps (noted no_status) (exec host dir argv input).
Proof. unfold exec. keeping. Qed.
Hint Resolve exec_no_status : prog.

Lemma apply_docs_no_status docs : forall n, keeps (noted no_status) (apply_docs n docs).
Proof. induction docs as [|[] docs IH]; intros n; cbn [apply_docs apply_doc]; keeping; apply IH. Qed.
Hint Resolve apply_docs_no_status : prog.

Lemma apply_files_no_status fs : forall n, keeps (noted no_status) (apply_files n fs).
Proof. induction fs as [|f fs IH]; intros n; cbn [apply_files]; unfold applyFile; keeping; apply IH. Qed.
Hint Resolve apply_files_no_status : prog.

Lemma adapter_deploy_no_status a req : keeps (noted no_status) (adapter_deploy host a req).
Proof.
  destruct a; cbn [adapter_deploy];
    unfold deploy_devspace, deploy_imageswap, deploy_ko, deploy_kustomize, deploy_manifest, deploy_shell, deploy_kubeapply,
      in_manifest_dir, resolveFiles, listed_files, running_or; cbn zeta; keeping.
Qed.
End registry.

#[export] Hint Resolve adapter_deploy_no_status : prog.

Section deploy.
Context `{GoText} `{SortSlice} `{Files} `{References} `{DeployFiles} `{Manifests}.
Variable host : Host.

(** ** The parts that only note *)
Section noted.
Context (P : event -> Prop) `{!Mild P}.

Lemma warned_noted what r : keeps (noted P) (warned what r).
Proof. unfold warned. keeping. Qed.
Hint Resolve warned_noted : prog.

Lemma warn_all_noted lines : keeps (noted P) (warn_all lines).
Proof. induction lines; cbn [warn_all]; keeping. Qed.
Hint Resolve warn_all_noted : prog.

Lemma planning_noted root runID rel env : keeps (noted P) (planning host root runID rel env).
Proof. unfold planning. keeping. Qed.
Hint Resolve planning_noted : prog.

Lemma record_rollout_noted dir plan rev : keeps (noted P) (record_rollout host dir plan rev).
Proof. unfold record_rollout, write_rollout. keeping. Qed.
Hint Resolve record_rollout_noted : prog.

Lemma deployable_noted fl abs runID runDir : keeps (noted P) (deployable host fl abs runID runDir).
Proof. unfold deployable, WritePlan. keeping. Qed.

Lemma apps_dir_noted given root : keeps (noted P) (apps_dir host given root).
Proof. unfold apps_dir. keeping. Qed.

Lemma record_pending_noted fl abs plan : keeps (noted P) (record_pending host fl abs plan).
Proof. unfold record_pending, say_revision. keeping. Qed.

Lemma WriteDeployResult_noted dir r : keeps (noted P) (WriteDeployResult host dir r).
Proof. unfold WriteDeployResult. keeping. Qed.
End noted.

Hint Resolve warned_noted warn_all_noted planning_noted record_rollout_noted deployable_noted apps_dir_noted record_pending_noted
  WriteDeployResult_noted : prog.

(** ** One component *)

(** The work of a component of the plan. *)
Definition component_work (registry : gmap string DeployAdapter) (abs boriRoot envName : string) (cp : ComponentPlan) :
    list event :=
  match registry !! cp_Adapter cp, compForDeploy boriRoot cp, envForDeploy boriRoot envName with
  | Some a, inr comp, inr env => work host a (Build_DeployRequest comp env false "" abs) []
  | _, _, _ => []
  end.

(** What is to be done: nothing on a dry run. *)
Definition planned_work (fl : DeployFlags) (registry : gmap string DeployAdapter) (abs : string)
    (cps : list ComponentPlan) : list event :=
  if df_dry_run fl then [] else cps ≫= component_work registry abs (df_bori_root fl) (df_env fl).

(** A component that has an adapter and a file, in an environment that has one. *)
Definition known (fl : DeployFlags) (registry : gmap string DeployAdapter) (cp : ComponentPlan) : Prop :=
  is_Some (registry !! cp_Adapter cp) /\ (exists comp, LoadComponentByName (df_bori_root fl) (cp_Name cp) = inr comp) /\
  exists env, LoadEnvironmentByName (df_bori_root fl) (df_env fl) = inr env.

(** The records of a deployed component. *)
Definition passed (cp : ComponentPlan) (cs : CompStatus) : Prop := exists msg, cs = Build_CompStatus (cp_Name cp) GateResultPass msg.
Definition landed (cp : ComponentPlan) (cd : CompDeploy) : Prop :=
  exists msg, cd = Build_CompDeploy (cp_Name cp) (cp_Version cp) (cp_Adapter cp) true msg.

(** How [d'] follows [d] when every one of [cps] was deployed. *)
Record succeeded (fl : DeployFlags) (registry : gmap string DeployAdapter) (abs : string)
    (cps : list ComponentPlan) (d d' : Deployment) (s s' : Shell) : Prop := {
  sc_overall : dv_overall d' = dv_overall d;
  sc_known : Forall (known fl registry) cps;
  sc_statuses : exists css, dv_statuses d' = dv_statuses d ++ css /\ Forall2 passed cps css;
  sc_deploys : exists cds, dv_deploys d' = dv_deploys d ++ cds /\ Forall2 landed cps cds;
  sc_acted : acted host (planned_work fl registry abs cps) s s';
}.

Lemma planned_work_cons fl registry abs cp cps :
  planned_work fl registry abs (cp :: cps) =
  planned_work fl registry abs [cp] ++ planned_work fl registry abs cps.
Proof. unfold planned_work. destruct (df_dry_run fl); [done|]. cbn. by rewrite app_nil_r. Qed.

Lemma succeeded_nil fl registry abs d s : succeeded fl registry abs [] d d s s.
Proof.
  split; [done|done|exists []; by rewrite app_nil_r..|].
  exists []. rewrite app_nil_r. unfold planned_work. split; [done|]. split; [by destruct (df_dry_run fl)|apply accepted_nil].
Qed.

Lemma succeeded_cons fl registry abs cp cps d d1 d2 s s1 s2 :
  succeeded fl registry abs [cp] d d1 s s1 -> succeeded fl registry abs cps d1 d2 s1 s2 ->
  succeeded fl registry abs (cp :: cps) d d2 s s2.
Proof.
  intros [O1 K1 (css1 & S1 & F1) (cds1 & D1 & G1) A1] [O2 K2 (css2 & S2 & F2) (cds2 & D2 & G2) A2]. split.
  - by rewrite O2.
  - by apply (Forall_app_2 _ [cp]).
  - exists (css1 ++ css2). rewrite S2, S1, app_assoc. split; [done|]. change (cp :: cps) with ([cp] ++ cps). by apply Forall2_app.
  - exists (cds1 ++ cds2). rewrite D2, D1, app_assoc. split; [done|]. change (cp :: cps) with ([cp] ++ cps). by apply Forall2_app.
  - rewrite planned_work_cons. by eapply acted_app.
Qed.

(** One turn of the loop: it exits without a trace in the records, fails, or
    does the work of the component. *)
Lemma deploy_component_run fl dir abs runDir d cp s :
  exists e s1, deploy_component host fl (buildAdapterRegistry dir) abs runDir d cp s = (e, s1) /\ noted no_status s s1 /\
    match e with
    | Panicked _ => False
    | Exited n => n = 1%Z
    | Returned d1 => dv_overall d1 = Max (dv_overall d) GateResultFail \/ succeeded fl (buildAdapterRegistry dir) abs [cp] d d1 s s1
    end.
Proof.
  unfold deploy_component. set (registry := buildAdapterRegistry dir).
  destruct (registry !! cp_Adapter cp) as [a|] eqn:Ea.
  2: { eexists _, _. split; [done|]. split; [|by left]. apply (warn_noted no_status). }
  destruct (compForDeploy (df_bori_root fl) cp) as [err|comp] eqn:Ec.
  { eexists _, _. split; [done|]. split; [|done]. apply (fatalf_noted no_status (A := Deployment)). }
  destruct (envForDeploy (df_bori_root fl) (df_env fl)) as [err|env] eqn:He.
  { eexists _, _. split; [done|]. split; [|done]. apply (fatalf_noted no_status (A := Deployment)). }
  set (req := deploy_request fl abs runDir cp comp env).
  pose proof (adapter_deploy_no_status host a req s) as [Hn _].
  destruct (adapter_deploy_spec host a req s) as (ans & l' & Hrun & [_ Hdry Hok Hdone]). rewrite bind_run, Hrun. rewrite Hrun in Hn. cbn [snd] in Hn.
  unfold deploy_told. destruct (da_Error ans) as [err|] eqn:Ee.
  { eexists _, _. split; [done|]. split; [|by left]. etrans; [exact Hn|]. apply (warn_noted no_status). }
  destruct (Hok eq_refl) as [msg ->]. eexists _, _. split; [done|]. split; [etrans; [exact Hn|]; apply (say_noted no_status)|].
  right. split; [done| | | |].
  - constructor; [|done]. split; [done|]. split; [|by exists env]. unfold compForDeploy in Ec.
    destruct (LoadComponentByName _ (cp_Name cp)) as [|c]; [done|by exists c].
  - exists [Build_CompStatus (cp_Name cp) GateResultPass msg]. split; [done|]. constructor; [by exists msg|done].
  - exists [Build_CompDeploy (cp_Name cp) (cp_Version cp) (cp_Adapter cp) true msg]. split; [done|].
    constructor; [by exists msg|done].
  - eapply idle_r; [|apply (say_noted idle)]. exists l'. split; [done|]. unfold planned_work, component_work. cbn [mbind list_bind].
    rewrite Ea, Ec, He. rewrite <- (work_request host a (df_dry_run fl) (path_join [runDir; "deploy"; cp_Name cp])). fold req. rewrite (work_here host a req (ps_log s)) in Hdone by by apply (registry_external dir (cp_Adapter cp)).
    change (dq_DryRun req) with (df_dry_run fl) in *. destruct (df_dry_run fl).
    + split; [by apply Hdry|]. intros l1 e l2 E. assert (actions l' = []) as Ha by by apply Hdry.
      rewrite E, actions_app in Ha. apply app_nil in Ha as [_ Ha]. unfold actions in Ha. cbn in Ha. by destruct e.
    + rewrite app_nil_r. by apply Hdone.
Qed.

Definition graded (d : Deployment) : Prop := dv_overall d = GateResultPass \/ dv_overall d = GateResultFail.

(** The loop. *)
Lemma deploy_components_run fl dir abs runDir cps : forall d s, graded d ->
  exists e s1, fold_prog (deploy_component host fl (buildAdapterRegistry dir) abs runDir) d cps s = (e, s1) /\ noted no_status s s1 /\
    match e with
    | Panicked _ => False
    | Exited n => n = 1%Z
    | Returned d1 => dv_overall d1 = GateResultFail \/ succeeded fl (buildAdapterRegistry dir) abs cps d d1 s s1
    end.
Proof.
  induction cps as [|cp cps IH]; intros d s Hd; cbn [fold_prog].
  { exists (Returned d), s. split; [done|]. split; [reflexivity|]. right. apply succeeded_nil. }
  destruct (deploy_component_run fl dir abs runDir d cp s) as (e & s1 & Hr & Hn & Hc). rewrite bind_run, Hr.
  destruct e as [d1|n|w]; [|by exists (Exited n), s1|done].
  assert (graded d1) as Hd1.
  { unfold graded. destruct Hc as [->|Hc]; [right; by destruct Hd as [->| ->]|]. by rewrite (sc_overall _ _ _ _ _ _ _ _ Hc). }
  destruct (IH d1 s1 Hd1) as (e & s2 & Hr2 & Hn2 & Hc2). exists e, s2. split; [done|]. split; [by etrans|].
  destruct e as [d2|n|w]; [|done..]. destruct Hc2 as [Hf|Hs2]; [by left|]. destruct Hc as [Hf|Hs1].
  - left. rewrite (sc_overall _ _ _ _ _ _ _ _ Hs2), Hf. by destruct Hd as [->| ->].
  - right. by eapply succeeded_cons.
Qed.

(** ** Recording *)

(** The only revisions that became promoted are of the plan, promoted by this run. *)
Definition promotes (abs runID runDir : string) (plan : Plan_) (s s' : Shell) : Prop := forall id rev,
  dk_revisions (ps_disk s') !! id = Some (Some rev) -> rv_PromotionStatus rev = "promoted" ->
  dk_revisions (ps_disk s) !! id = Some (Some rev) \/
  exists t t', rev = promoted_by runID runDir (revision_of_plan abs plan t) t'.

(** The events noted are of [P]; the disk may have changed. *)
Definition logged (P : event -> Prop) (s s' : Shell) : Prop := exists l, ps_log s' = ps_log s ++ l /\ Forall P l.

Lemma logged_trans P s s1 s2 : logged P s s1 -> logged P s1 s2 -> logged P s s2.
Proof. intros (l1 & E1 & F1) (l2 & E2 & F2). exists (l1 ++ l2). rewrite E2, E1, app_assoc. split; [done|by apply Forall_app]. Qed.

Lemma noted_logged P s s' : noted P s s' -> logged P s s'.
Proof. by intros [Hl _]. Qed.

Lemma write_revision_returns rev s : exists r s1, write_revision_file host rev s = (Returned r, s1).
Proof.
  unfold write_revision_file. destruct (h_write_revision host (ps_log s) rev) as [answer err].
  destruct (write_revision rev answer (dk_revisions (ps_disk s))) as [revs ok]. by eexists _, _.
Qed.

Lemma write_in_returns dir name doc removes s : exists r s1, write_in host dir name doc removes s = (Returned r, s1).
Proof.
  unfold write_in, create, write_file. running. destruct (h_mkdir _ _ _); [by eexists _, _|]. running.
  destruct (h_write host _ _) as [[| |? []]|], removes; by eexists _, _.
Qed.

Lemma warned_returns what r s : exists s1, warned what r s = (Returned tt, s1).
Proof. destruct r; by eexists. Qed.

(** Recording a revision of the plan. *)
Lemma record_outcome_run abs runID runDir overall plan t stored s :
  let rev := revision_of_plan abs plan t in
  exists s', record_outcome host runID runDir overall rev stored s = (Returned tt, s') /\
    (forall P, Mild P -> logged P s s') /\ promotes abs runID runDir plan s s' /\
    (overall <> "success" -> forall P, Mild P -> noted P s s').
Proof.
  cbn zeta. unfold record_outcome, when. destruct stored.
  2: { exists s. split; [done|]. split; [intros P HP; apply noted_logged; reflexivity|]. split; [by left|]. intros; reflexivity. }
  case_bool_decide as Ho.
  - rewrite bind_run, now_run. cbn beta match. set (t' := h_now _ _). set (s1 := Build_Shell _ _).
    set (rev' := promoted_by runID runDir (revision_of_plan abs plan t) t').
    rewrite bind_run. unfold write_revision_file at 1. destruct (h_write_revision host (ps_log s1) rev') as [answer err].
    destruct (write_revision rev' answer (dk_revisions (ps_disk s1))) as [revs ok] eqn:Ew.
    assert (forall id rev, revs !! id = Some (Some rev) -> dk_revisions (ps_disk s) !! id = Some (Some rev) \/ rev = rev') as Hrevs.
    { intros id r Hr. destruct (decide (rv_RevisionID rev' = id)) as [<-|Hne]; destruct answer as [| | |[]]; cbn in Ew;
        injection Ew as <- <-; rewrite ?lookup_insert_eq, ?lookup_delete_eq in Hr; rewrite ?lookup_insert_ne, ?lookup_delete_ne in Hr by done;
        try (by left); try done; right; by injection Hr. }
    set (s2 := Build_Shell _ _). exists (Build_Shell (ps_log s2 ++ [if ok then Said ("[bori] revision promoted: " +:+ rv_RevisionID (revision_of_plan abs plan t))
      else Warned ("[bori] warning: could not " +:+ "update promoted revision" +:+ ": " +:+ err)]) (ps_disk s2)).
    split; [by destruct ok|]. split; [|split; [|done]].
    + intros P HP. exists [Ticked; if ok then Said ("[bori] revision promoted: " +:+ rv_RevisionID (revision_of_plan abs plan t))
        else Warned ("[bori] warning: could not " +:+ "update promoted revision" +:+ ": " +:+ err)].
      split; [cbn; by rewrite <- app_assoc|]. constructor; [apply mild_ticked|]. constructor; [|done].
      destruct ok; [apply mild_said|apply mild_warned].
    + intros id r Hr _. destruct (Hrevs id r Hr) as [?| ->]; [by left|right]. by exists t, t'.
  - set (rev := fail_revision (revision_of_plan abs plan t) ("deploy overall: " +:+ overall)).
    destruct (write_revision_returns rev s) as (r & s1 & Hw). destruct (warned_returns "update failed revision" r s1) as [s2 Hr].
    exists s2. rewrite bind_run, Hw. split; [exact Hr|].
    assert (forall P, Mild P -> noted P s s2) as Hn.
    { intros P HP. pose proof (write_revision_noted P host rev ltac:(by vm_compute) s) as [Hn1 _].
      pose proof (warned_noted P "update failed revision" r s1) as [Hn2 _]. rewrite Hw in Hn1. rewrite Hr in Hn2. by etrans. }
    split; [intros P HP; by apply noted_logged, Hn|]. split; [|done].
    intros id r' Hid Hp. left. by apply (proj2 (Hn no_status _)).
Qed.

(** ** The command *)

(** Events around the status [st]. *)
Definition telling (st : RunStatus) (e : event) : Prop := idle e /\ (status_of e = None \/ status_of e = Some st).

Lemma writeStatus_run runDir s st :
  exists t s', writeStatus host runDir (s, st) = (Returned tt, (s', set_finished t st)) /\ noted (telling (set_finished t st)) s s'.
Proof.
  set (t := h_now host (ps_log s ++ [Ticked])). exists t.
  assert (Mild (telling (set_finished t st))) as HM.
  { split; intros; (split; [done|]); left; try done. by destruct doc. }
  assert (forall d, keeps (noted (telling (set_finished t st))) (WriteStatus host d (set_finished t st))) as Hk.
  { intros d. unfold WriteStatus, write_in, create, write_file. keeping.
    all: apply note_noted; split; [done|]; cbn; by auto. }
  set (s1 := Build_Shell (ps_log s ++ [Ticked]) (ps_disk s)).
  assert (noted (telling (set_finished t st)) s s1) as N1 by apply (now_noted (telling (set_finished t st)) host s).
  destruct (Hk runDir s1) as [N2 _].
  assert (exists r s2, WriteStatus host runDir (set_finished t st) s1 = (Returned r, s2)) as (r & s2 & Hw).
  { unfold WriteStatus, write_in, create, write_file. running. destruct (h_mkdir _ _ _); [by eexists _, _|]. running.
    by destruct (h_write host _ _) as [[| |? []]|]; eexists _, _. }
  rewrite Hw in N2. destruct (warned_returns "write status.json" r s2) as [s3 N3].
  pose proof (warned_noted (telling (set_finished t st)) "write status.json" r s2) as [N4 _]. rewrite N3 in N4.
  exists s3. split; [|by etrans; [|etrans]]. unfold writeStatus. rewrite bind_run. unfold lift at 1. rewrite now_run. fold t s1.
  cbn beta match. rewrite bind_run. unfold set_status, update at 1. cbn beta match. rewrite bind_run, ask_run. cbn beta match.
  cbn [fst snd]. rewrite bind_run. unfold lift at 1. rewrite Hw. unfold warned in N3. destruct r; unfold lift; by rewrite N3 || by injection N3 as <-.
Qed.

(** A status of a plan that was deployed. *)
Record deployed_status (cps : list ComponentPlan) (st : RunStatus) : Prop := {
  ds_phase : ru_Phase st = "Deployed";
  ds_result : ru_Result st = GateResultPass;
  ds_components : Forall2 passed cps (ru_Components st);
}.

(** A deployment of [fl] that is complete: from [s] to [s'] the work of every
    component of a plan without violations was done with success, any status
    written says so, and only a revision of the plan became promoted. *)
Definition complete (fl : DeployFlags) (s s' : Shell) : Prop :=
  exists t runID runDir appsDir abs plan l,
    h_abs host (df_bori_root fl) = inr abs /\ Plan abs None t runID (df_release fl) (df_env fl) = Some (inr plan) /\ pl_Violations plan = [] /\
    Forall (known fl (buildAdapterRegistry appsDir)) (pl_Components plan) /\
    ps_log s' = ps_log s ++ l /\
    actions l = planned_work fl (buildAdapterRegistry appsDir) abs (pl_Components plan) /\
    accepted host (ps_log s) l /\
    Forall (deployed_status (pl_Components plan)) (omap status_of l) /\
    promotes abs runID runDir plan s s'.

Lemma planning_returned root runID rel env s plan s1 :
  planning host root runID rel env s = (Returned plan, s1) -> exists t, Plan root None t runID rel env = Some (inr plan).
Proof.
  unfold planning. running. set (t := h_now _ _). destruct (Plan root None t runID rel env) as [[err|p]|] eqn:Ep; [done| |done].
  intros [= <- _]. by exists t.
Qed.

Lemma planning_safe root runID rel env : safe (planning host root runID rel env).
Proof.
  unfold planning. apply safe_bind; [auto with prog|]. intros t. destruct (plan_returns root None t runID rel env) as [[err|p] ->]; safely.
Qed.

Lemma deployable_returned fl abs runID runDir s plan s1 :
  deployable host fl abs runID runDir s = (Returned plan, s1) ->
  pl_Violations plan = [] /\ exists t, Plan abs None t runID (df_release fl) (df_env fl) = Some (inr plan).
Proof.
  intros Hd. unfold deployable in Hd. apply bind_returned in Hd as (p & s2 & Hp & Hd). apply planning_returned in Hp.
  apply bind_returned in Hd as (w & s3 & _ & Hd). apply bind_returned in Hd as (u & s4 & _ & Hd).
  destruct (pl_Violations p) eqn:Ev; cbn [length Nat.ltb Nat.leb] in Hd; [by injection Hd as <- _|].
  apply bind_returned in Hd as (u2 & s5 & _ & Hd). by apply bind_returned in Hd as (u3 & s6 & _ & Hd).
Qed.

Lemma record_pending_returns fl abs plan s :
  exists t stored s1, record_pending host fl abs plan s = (Returned (revision_of_plan abs plan t, stored), s1).
Proof.
  unfold record_pending. rewrite bind_run, now_run. cbn beta match zeta. set (t := h_now _ _). exists t. rewrite bind_run.
  match goal with |- context [write_revision_file host ?r ?y] => destruct (write_revision_returns r y) as (r0 & s1 & ->) end.
  rewrite bind_run.
  assert (exists s2, match r0 with Some err => warned "write revision" (Some err) | None => say_revision (revision_of_plan abs plan t) end s1 =
    (Returned tt, s2)) as [s2 ->] by (destruct r0; by eexists).
  unfold record_rollout. running.
  match goal with |- context [write_rollout host ?d ?r ?y] =>
    destruct (write_in_returns (path_join [d; "rollouts"]) (ro_RolloutID r +:+ ".json") (DRollout r) false y) as (w & s3 & Hw) end.
  unfold write_rollout. rewrite Hw. running. destruct (warned_returns "write rollout" w s3) as [s4 ->]. by eexists _, _.
Qed.

Lemma promotes_l abs runID runDir plan s s1 s2 : noted no_status s s1 -> promotes abs runID runDir plan s1 s2 -> promotes abs runID runDir plan s s2.
Proof. intros [_ Hk] Hp id rev Hid Hpr. destruct (Hp id rev Hid Hpr) as [?|?]; [left; by apply Hk|by right]. Qed.

Lemma promotes_r abs runID runDir plan s s1 s2 : promotes abs runID runDir plan s s1 -> kept s1 s2 -> promotes abs runID runDir plan s s2.
Proof. intros Hp Hk id rev Hid Hpr. by apply Hp, Hpr; apply Hk. Qed.

Lemma acted_logged w s s1 s2 : acted host w s s1 -> logged idle s1 s2 -> acted host w s s2.
Proof.
  intros Ha (l & E & Hl). assert (noted idle s1 (Build_Shell (ps_log s2) (ps_disk s1))) as Hn.
  { split; [by exists l|by intros id rev]. }
  destruct (idle_r host w s s1 _ Ha Hn) as (l' & E' & ? & ?). by exists l'.
Qed.

(** From the plan on. *)
Lemma deploy_plan_run fl dir abs runID runDir t0 plan s :
  exists e s1, deploy_plan host fl (buildAdapterRegistry dir) abs runID runDir t0 plan s = (e, s1) /\
    match e with
    | Panicked _ => False
    | Exited n => n = 1%Z /\ noted no_status s s1
    | Returned d =>
        logged no_status s s1 /\ promotes abs runID runDir plan s s1 /\
        (dv_overall d = GateResultFail /\ noted no_status s s1 \/
         dv_overall d = GateResultPass /\ Forall (known fl (buildAdapterRegistry dir)) (pl_Components plan) /\
         Forall2 passed (pl_Components plan) (dv_statuses d) /\
         acted host (planned_work fl (buildAdapterRegistry dir) abs (pl_Components plan)) s s1)
    end.
Proof.
  unfold deploy_plan. destruct (record_pending_returns fl abs plan s) as (t & stored & s1 & Hp).
  rewrite bind_run, Hp. cbn [fst snd].
  assert (forall P, Mild P -> noted P s s1) as N1.
  { intros P HP. pose proof (record_pending_noted P fl abs plan s) as [Hn _]. by rewrite Hp in Hn. }
  destruct (deploy_components_run fl dir abs runDir (pl_Components plan) (Build_Deployment GateResultPass [] []) s1)
    as (e & s2 & Hf & N2 & Hc); [by left|].
  rewrite bind_run, Hf. destruct e as [d|n|w]; [|exists (Exited n), s2; split; [done|]; split; [done|]; by etrans; [apply (N1 no_status _)|]|done].
  rewrite bind_run, now_run. cbn beta match. set (t1 := h_now _ _). set (s3 := Build_Shell _ _).
  assert (forall P, Mild P -> noted P s2 s3) as N3 by (intros P HP; apply (now_noted P host s2)).
  destruct (write_in_returns runDir "deploy-result.json" (DDeployResult (deploy_result fl runID t0 t1 d)) false s3) as (r & s4 & Hw).
  rewrite bind_run. unfold WriteDeployResult. rewrite Hw.
  assert (forall P, Mild P -> noted P s3 s4) as N4.
  { intros P HP. pose proof (WriteDeployResult_noted P runDir (deploy_result fl runID t0 t1 d) s3) as [Hn _].
    unfold WriteDeployResult in Hn. by rewrite Hw in Hn. }
  destruct (warned_returns "write deploy-result.json" r s4) as [s5 Hw5]. rewrite bind_run, Hw5.
  assert (forall P, Mild P -> noted P s4 s5) as N5.
  { intros P HP. pose proof (warned_noted P "write deploy-result.json" r s4) as [Hn _]. by rewrite Hw5 in Hn. }
  destruct (record_outcome_run abs runID runDir (deploy_overall d) plan t stored s5) as (s6 & Ho & L6 & P6 & N6). rewrite bind_run, Ho.
  assert (forall P, Mild P -> noted P s2 s5) as N25 by (intros P HP; etrans; [by apply N3|]; etrans; [by apply N4|by apply N5]).
  assert (noted no_status s s5) as N05 by (etrans; [apply (N1 no_status _)|]; etrans; [exact N2|apply (N25 no_status _)]).
  exists (Returned d), s6. split; [done|]. split; [by eapply logged_trans; [apply noted_logged, N05|apply (L6 no_status _)]|].
  split; [by eapply promotes_l; [apply N05|]|]. destruct Hc as [Hfail|[Hov Hk (css & Hcss & Fcss) _ Ha]].
  - left. split; [done|]. etrans; [exact N05|]. apply N6; [|apply _]. unfold deploy_overall. by rewrite bool_decide_eq_true_2.
  - right. split; [exact Hov|]. split; [exact Hk|]. split; [by rewrite Hcss|]. eapply idle_l; [apply (N1 idle _)|].
    eapply acted_logged; [|apply (L6 idle _)]. by eapply idle_r; [|apply (N25 idle _)].
Qed.

Lemma deployable_safe fl abs runID runDir : safe (deployable host fl abs runID runDir).
Proof.
  assert (forall ls, safe (warn_all ls)) as Hw by (intros ls; induction ls; cbn [warn_all]; safely).
  pose proof planning_safe. unfold deployable, WritePlan, warned. safely.
Qed.

Lemma apps_dir_safe given root : safe (apps_dir host given root).
Proof. unfold apps_dir. safely. Qed.

Lemma no_statuses l : Forall no_status l -> omap status_of l = [].
Proof. induction 1 as [|e l He _ IH]; [done|]. cbn. by rewrite He. Qed.

(** The body of the command, run with the status [st0]: it never panics; it exits
    without a trace in the records; or it returns with the status of a
    deployment. *)
Lemma deploy_body_run fl dir runID runDir t0 s st0 e s1 st1 :
  deploy_body host fl dir runID runDir t0 (s, st0) = (e, (s1, st1)) ->
  match e with
  | Panicked _ => False
  | Exited n => n = 1%Z /\ noted no_status s s1
  | Returned _ => exists t abs plan, h_abs host (df_bori_root fl) = inr abs /\ Plan abs None t runID (df_release fl) (df_env fl) = Some (inr plan) /\ pl_Violations plan = [] /\
      Forall (known fl (buildAdapterRegistry dir)) (pl_Components plan) /\
      logged no_status s s1 /\ promotes abs runID runDir plan s s1 /\
      acted host (planned_work fl (buildAdapterRegistry dir) abs (pl_Components plan)) s s1 /\
      deployed_status (pl_Components plan) st1
  end.
Proof.
  unfold deploy_body. destruct (h_abs host (df_bori_root fl)) as [err|abs] eqn:Habs.
  { intros [= <- <- <-]. split; [done|]. apply (fatalf_noted no_status (A := unit)). }
  rewrite bind_run. unfold lift at 1. pose proof (deployable_noted no_status fl abs runID runDir s) as [N1 F1].
  pose proof (deployable_noted idle fl abs runID runDir s) as [I1 _]. pose proof (deployable_safe fl abs runID runDir s) as Hsafe.
  destruct (deployable host fl abs runID runDir s) as [[plan|n|w] s2] eqn:Ed; [|by intros [= <- <- <-]|done].
  apply deployable_returned in Ed as (Hv & t & Hplan). cbn [fst snd] in N1.
  rewrite bind_run. unfold lift at 1. destruct (deploy_plan_run fl dir abs runID runDir t0 plan s2) as (e2 & s3 & -> & Hc).
  destruct e2 as [d|n|w]; [|by intros [= <- <- <-]; destruct Hc as [-> Hn]; split; [|etrans]|done].
  destruct Hc as (L3 & P3 & Hd). rewrite bind_run. unfold set_status, update. rewrite bind_run. unfold lift at 1. cbn [fst snd].
  set (line := "[bori] deploy overall: " +:+ _). set (s4 := Build_Shell (ps_log s3 ++ [Said line]) (ps_disk s3)).
  change (say line s3) with (@Returned unit tt, s4). cbn beta match.
  assert (forall P, Mild P -> noted P s3 s4) as N4 by (intros P HP; apply (say_noted P line s3)).
  destruct Hd as [[-> Nf]|(Hov & Hk & Hcs & Ha)].
  - rewrite bool_decide_eq_true_2 by done. intros [= <- <- <-]. split; [done|]. etrans; [exact N1|]. by etrans; [|apply (N4 no_status _)].
  - rewrite bool_decide_eq_false_2 by (by rewrite Hov). intros [= <- <- <-]. exists t, abs, plan. split_and!; try done.
    + eapply logged_trans; [by apply noted_logged|]. eapply logged_trans; [exact L3|]. apply noted_logged, (N4 no_status _).
    + eapply promotes_l; [exact N1|]. eapply promotes_r; [exact P3|]. apply (N4 no_status _).
    + eapply idle_l; [exact I1|]. eapply idle_r; [exact Ha|apply (N4 idle _)].
    + split; [by rewrite Hov|done|done].
Qed.

(** C20. bori deploy never panics.  When it exits it exits with 1, wrote no
    status.json and promoted nothing; when it returns, its deployment is
    complete: on a run that is not dry the whole work of every component of the
    plan was done in order with success, every status written says so, and only
    a revision of the plan became promoted. *)
Theorem cmdDeploy_spec fl s e s' :
  cmdDeploy host fl s = (e, s') ->
  match e with
  | Panicked _ => False
  | Exited n => n = 1%Z /\ noted no_status s s'
  | Returned _ => complete fl s s'
  end.
Proof.
  unfold cmdDeploy. destruct (_ || _).
  { intros [= <- <-]. split; [done|]. apply (warn_noted no_status). }
  rewrite bind_run. pose proof (apps_dir_noted no_status (df_apps_dir fl) (df_bori_root fl) s) as [N1 F1].
  pose proof (apps_dir_noted idle (df_apps_dir fl) (df_bori_root fl) s) as [I1 _].
  pose proof (apps_dir_safe (df_apps_dir fl) (df_bori_root fl) s) as Hs1.
  destruct (apps_dir host (df_apps_dir fl) (df_bori_root fl) s) as [[dir|n|w] s1]; [|by intros [= <- <-]|done].
  cbn [snd] in N1, I1. rewrite bind_run, now_run. cbn beta match. rewrite bind_run, now_run. cbn beta match zeta. set (t0 := h_now host _). set (t1 := h_now host _).
  set (s2 := Build_Shell _ (ps_disk s1)). set (s3 := Build_Shell _ (ps_disk s2)).
  set (runID := format_second t0). set (runDir := RunDir (df_bori_dir fl) runID).
  assert (forall P, Mild P -> noted P s1 s3) as N3.
  { intros P HP. etrans; [apply (now_noted P host s1)|apply (now_noted P host s2)]. }
  unfold with_var, deferring. destruct (deploy_body host fl dir runID runDir t1 _) as [e4 [s4 st4]] eqn:Eb.
  apply deploy_body_run in Eb. destruct e4 as [[]|n|w]; [| |done].
  2: { intros [= <- <-]. destruct Eb as [-> Hn]. split; [done|]. etrans; [exact N1|]. by etrans; [apply (N3 no_status _)|]. }
  destruct Eb as (t & abs & plan & Habs & Hplan & Hv & Hk & L4 & P4 & A4 & St).
  destruct (writeStatus_run runDir s4 st4) as (tf & s5 & Hw & N5). rewrite bind_run, Hw. intros [= <- <-].
  destruct L4 as (l4 & E4 & F4). destruct N1 as [(l1 & E1 & F1') K1].
  pose proof (N3 no_status _) as [(l3 & E3 & F3) K3]. destruct N5 as [(l5 & E5 & F5) K5].
  assert (acted host (planned_work fl (buildAdapterRegistry dir) abs (pl_Components plan)) s s5) as (l & El & Hl & Hacc).
  { eapply idle_l; [exact I1|]. eapply idle_l; [apply (N3 idle _)|]. eapply acted_logged; [exact A4|]. exists l5.
    split; [done|]. by eapply Forall_impl; [exact F5|intros ? [? _]]. }
  exists t, runID, runDir, dir, abs, plan, l. split_and!; try done.
  - assert (l = ((l1 ++ l3) ++ l4) ++ l5) as ->.
    { apply (app_inv_head (ps_log s)). by rewrite <- El, E5, E4, E3, E1, <- !app_assoc. }
    rewrite !omap_app, !(no_statuses l1), !(no_statuses l3), !(no_statuses l4) by done. cbn [app]. clear -F5 St.
    induction F5 as [|e l [_ He] _ IH]; [constructor|]. cbn. destruct He as [-> | ->]; [done|]. constructor; [|done].
    destruct St. by split.
  - eapply promotes_l; [split; [by exists l1|exact K1]|]. eapply promotes_l; [split; [by exists l3|exact K3]|]. by eapply promotes_r.
Qed.
End deploy.
