(* ===== verification/ReportCmd.v ===== *)
(** * The other commands of bori (cmd/bori/main.go)

    bori status, revision list, shadow status, reconcile, release apply and
    release set-image.  A pass of bori reconcile is [Deploy.Run] at a site whose
    adapters are those of the command line. *)

From S2P Require Import Prelude.
From S2P Require Import DeploySpec.
From S2P Require Import Measure.
From S2P Require Import HostSpec.
From S2P Require Import Deployers.
From S2P Require Import DeployCmdSpec.
From S2P Require Import Text.
From S2P Require Import Process.
From S2P Require Import OpsSpec.
From S2P Require Import Release.
From S2P Require Import Loading.
From S2P Require Import Planner.
From S2P Require Import Revision.
From S2P Require Import Shadow.
From S2P Require Import Deploy.
From S2P Require Import DataPlane.
From S2P Require Import Artifact.
From S2P Require Import Host.
From S2P Require Import DeployCmd.
From Stdlib Require Import Ascii.

(** Time.Format with "2006-01-02 15:04:05". *)
Class DisplayTime := { display_time : Time -> string }.

Record ReconcileFlags := {
  kf_release : string;
  kf_env : string;
  kf_bori_root : string;
  kf_apps_dir : string;
  kf_bori_dir : string;
  kf_dry_run : bool;
  kf_skip_if_in_sync : bool;
}.

Record SetImageFlags := {
  mf_release : string;
  mf_component : string;
  mf_image_digest : string;
  mf_version : string;
  mf_git_sha : string;
  mf_bori_root : string;
}.

Definition orNone (s : string) : string := if bool_decide (s = "") then "(none)" else s.

Section report.
Context `{GoText} `{SortSlice} `{Files} `{References} `{DeployFiles} `{Manifests} `{DisplayTime}.
Variable host : Host.

Abbreviation run A := (prog Shell A) (only parsing).

Fixpoint say_all (lines : list string) : run unit :=
  match lines with [] => mret tt | line :: lines => _ ← say line; say_all lines end.

(** ** cmdStatus *)
Definition cmdStatus (runID boriDir : string) : run unit :=
  if bool_decide (runID = "") then usage_error "bori status: --run <run-id> is required"
  else
    l ← log;
    match h_read_status host l (path_join [RunDir boriDir runID; "status.json"]) with
    | inl err => fatalf ("read status: " +:+ err)
    | inr s => print (DStatus s)
    end.

(** ** cmdRevisionList *)
Definition revision_row (id release status hash created : string) : string :=
  pad_right 52 id +:+ "  " +:+ pad_right 18 release +:+ "  " +:+ pad_right 11 status +:+ "  " +:+ pad_right 16 hash +:+ "  " +:+ created.

Definition revision_line (rev : BoriRevision) : string :=
  revision_row (rv_RevisionID rev) (rv_Release rev) (rv_PromotionStatus rev) (rv_ContentHash rev) (display_time (rv_CreatedAt rev)).

Definition shown (filterRelease : string) (rev : BoriRevision) : bool :=
  bool_decide (filterRelease = "") || bool_decide (rv_Release rev = filterRelease).

Fixpoint repeat_text (n : nat) (s : string) : string := match n with O => "" | S n => s +:+ repeat_text n s end.

(** revision.List *)
Definition list_all (boriDir : string) : run (string + list BoriRevision) :=
  l ← log;
  disk ← ask ps_disk;
  mret (match h_list host l with
        | Some err => inl ("read dir " +:+ path_join [boriDir; "revisions"] +:+ ": " +:+ err)
        | None => inr (list_revisions (dk_revisions disk))
        end).

Definition cmdRevisionList (filterRelease boriDir : string) : run unit :=
  listed ← list_all boriDir;
  match listed with
  | inl err => fatalf ("list revisions: " +:+ err)
  | inr [] => say "[bori] no revisions found"
  | inr revs =>
      _ ← say (revision_row "REVISION ID" "RELEASE" "STATUS" "CONTENT HASH" "CREATED AT");
      _ ← say (repeat_text 120 "-");
      say_all (revision_line <$> List.filter (shown filterRelease) revs)
  end.

(** ** cmdShadowStatus *)

(** shadow.Reconcile *)
Definition shadow_now (boriDir : string) (rel : BoriRelease) : run (string + ShadowState) :=
  t ← now host;
  listed ← list_all boriDir;
  disk ← ask ps_disk;
  mret (match listed with
        | inl err => inl ("list revisions: " +:+ err)
        | inr _ =>
            match shadow_reconcile rel true (dk_revisions disk) t with
            | Some st => inr st
            | None => inl "unreachable: the directory was read"
            end
        end).

(** shadow.WriteState: the file, and the state that is read back from it. *)
Definition set_state (name : string) (st : option ShadowState) : run unit :=
  update (fun s => Build_Shell (ps_log s) (Build_Disk (dk_revisions (ps_disk s))
    (match st with Some st => <[name := st]> | None => delete name end (dk_states (ps_disk s))))).

Definition write_state (boriDir release : string) (st : ShadowState) : run (option string) :=
  made ← mkdir_all host boriDir;
  match made with
  | Some err => mret (Some (mkdir_error boriDir err))
  | None =>
      let path := path_join [boriDir; state_file release] in
      fault ← write_file host path (DShadowState st) false;
      _ ← match fault with
          | None | Some (CloseFault _ true) => set_state (state_file release) (Some st)
          | Some (CreateFault _) => mret tt
          | Some _ => set_state (state_file release) None
          end;
      mret (fault_error ("create " +:+ path) <$> fault)
  end.

Definition status_icon (status : string) : string :=
  if bool_decide (status = "True") then "✓ " else if bool_decide (status = "False") then "✗ " else "? ".

Definition condition_line (c : Condition) : string :=
  "    " +:+ status_icon (cn_Status c) +:+ pad_right 12 (cn_Type c) +:+ "  " +:+ cn_Message c.

Definition drift_icon (sync : string) : string :=
  if bool_decide (sync = "out-of-sync") then "≠" else if bool_decide (sync = "unknown") then "?" else "=".

Definition drift_line (d : DriftItem) : string :=
  "    " +:+ drift_icon (di_SyncStatus d) +:+ "  " +:+ pad_right 24 (di_Component d) +:+ "  desired: " +:+
  pad_right 10 (di_DesiredVersion d) +:+ "  actual: " +:+ orNone (di_ActualVersion d).

(** Degraded, or not installed. *)
Definition degraded (st : ShadowState) : bool :=
  existsb (fun c => bool_decide (cn_Type c = "Degraded") && bool_decide (cn_Status c = "True") ||
                    bool_decide (cn_Type c = "Installed") && bool_decide (cn_Status c = "False")) (sh_Conditions st).

Definition shadow_report (st : ShadowState) : list string :=
  ["[bori shadow] release: " +:+ sh_Release st;
   "  computed at:      " +:+ display_time (sh_ComputedAt st) +:+ " UTC";
   "  actual revision:  " +:+ orNone (sh_ActualRevision st); ""; "  Conditions:"] ++
  (condition_line <$> sh_Conditions st) ++ [""; "  Drift:"] ++ (drift_line <$> sh_Drift st).

Definition cmdShadowStatus (releaseName boriRoot boriDir : string) (outputJSON : bool) : run unit :=
  if bool_decide (releaseName = "") then usage_error "bori shadow status: --release is required"
  else match h_abs host boriRoot with
  | inl err => fatalf ("abs bori-root: " +:+ err)
  | inr abs =>
      match LoadReleaseByName abs releaseName with
      | inl err => fatalf ("load release " +:+ quote releaseName +:+ ": " +:+ err)
      | inr rel =>
          computed ← shadow_now boriDir rel;
          match computed with
          | inl err => fatalf ("shadow reconcile: " +:+ err)
          | inr st =>
              wrote ← write_state boriDir releaseName st;
              _ ← warned "persist shadow state" wrote;
              if outputJSON then print (DShadowState st)
              else _ ← say_all (shadow_report st); if degraded st then exit 1 else mret tt
          end
      end
  end.

(** ** cmdReconcile *)

(** One call of the pass: the adapter of that name on that component.  No
    adapter reads the output directory of the request, which is left empty. *)
Definition call_adapter (registry : gmap string DeployAdapter) (abs : string) (call : Call) : run DeployAnswer :=
  match registry !! dc_Adapter call with
  | Some a => adapter_deploy host a (Build_DeployRequest (dc_Component call) (dc_Environment call) false "" abs)
  | None => mret (Build_DeployAnswer None None)
  end.

(** The process after these calls. *)
Definition after_calls (registry : gmap string DeployAdapter) (abs : string) (s : Shell) (calls : list Call) : Shell :=
  foldl (fun s call => (call_adapter registry abs call s).2) s calls.

(** What surrounds a pass of the command line: the clock and the disk of [si],
    and its own adapters. *)
Definition cli_site (registry : gmap string DeployAdapter) (abs appsDir : string) (s : Shell) (si : Site) : Site := {|
  si_abs := inr abs; si_apps_dir := appsDir; si_clock := si_clock si; si_readable := si_readable si; si_write := si_write si; si_state := si_state si;
  si_deploy calls call :=
    match (call_adapter registry abs call (after_calls registry abs s calls)).1 with
    | Returned a => a
    | _ => Build_DeployAnswer None None
    end;
|}.

Definition reconcile_report (r : Result) : list string :=
  ["[bori reconcile] release: " +:+ re_Release r +:+ "  env: " +:+ re_Environment r +:+ "  run: " +:+ re_RunID r;
   "  drift:    " +:+ text_of_bool (re_DriftDetected r);
   "  deploy:   " +:+ re_DeployStatus r;
   "  promoted: " +:+ text_of_bool (re_Promoted r)] ++
  (if bool_decide (re_RevisionID r = "") then [] else ["  revision: " +:+ re_RevisionID r]) ++
  match re_ShadowState r with
  | None => []
  | Some st => "  conditions:" :: (condition_line <$> sh_Conditions st)
  end.

Definition reconcile_request (fl : ReconcileFlags) : Request :=
  Build_Request (kf_release fl) (kf_env fl) (kf_dry_run fl) false (kf_skip_if_in_sync fl) None.

Definition cmdReconcile (si : Site) (fl : ReconcileFlags) : run unit :=
  if bool_decide (kf_release fl = "") || bool_decide (kf_env fl = "")
  then usage_error "bori reconcile: --release and --env are required"
  else
    appsDir ← apps_dir host (kf_apps_dir fl) (kf_bori_root fl);
    match h_abs host (kf_bori_root fl) with
    | inl err => fatalf ("reconcile: abs bori-root: " +:+ err)
    | inr abs =>
        s ← ask (fun s => s);
        let registry := buildAdapterRegistry appsDir in
        match Run (dom registry) (cli_site registry abs appsDir s si) (reconcile_request fl) (ps_disk s) with
        | None => panic "unreachable: fuel"
        | Some oc =>
            _ ← update (fun s => Build_Shell (ps_log (after_calls registry abs s (oc_calls oc))) (oc_disk oc));
            match oc_result oc with
            | inl e => fatalf ("reconcile: " +:+ run_error (reconcile_request fl) e)
            | inr r =>
                _ ← say_all (reconcile_report r);
                if bool_decide (re_DeployStatus r = "failed") then exit 1 else mret tt
            end
        end
    end.

(** ** cmdReleaseApply *)
Definition cmdReleaseApply (name boriRoot namespace : string) (apply : bool) : run unit :=
  if bool_decide (name = "") then usage_error "bori release apply: --name is required"
  else match LoadReleaseByName boriRoot name with
  | inl err => fatalf ("load release " +:+ quote name +:+ ": " +:+ err)
  | inr rel =>
      let br := FromModelRelease rel namespace in
      if negb apply then print (DReleaseObject br)
      else
        ran ← exec host "" ["kubectl"; "apply"; "-f"; "-"] (Some (DReleaseObject br));
        match ran with Some err => fatalf ("kubectl apply: " +:+ err) | None => mret tt end
  end.

(** ** cmdReleaseSetImage *)
Definition set_image_ref (digest version gitSha : string) (ref : ComponentRef) : ComponentRef :=
  Build_ComponentRef (cf_Name ref) (if bool_decide (version = "") then cf_Version ref else version) digest
    (if bool_decide (gitSha = "") then cf_GitSha ref else gitSha).

(** The first entry of that name; [None] when there is none. *)
Fixpoint set_image (name digest version gitSha : string) (refs : list ComponentRef) : option (list ComponentRef) :=
  match refs with
  | [] => None
  | ref :: refs =>
      if bool_decide (cf_Name ref = name) then Some (set_image_ref digest version gitSha ref :: refs)
      else refs ← set_image name digest version gitSha refs; Some (ref :: refs)
  end.

Definition with_components (rel : BoriRelease) (refs : list ComponentRef) : BoriRelease :=
  Build_BoriRelease (rl_Name rel) refs (rl_Matrix rel) (rl_Policies rel) (rl_Promotion rel).

(** Removes the temporary file and gives up. *)
Definition discard (tmp what err : string) : run unit := _ ← remove host tmp; fatalf (what +:+ ": " +:+ err).

(** The file is written beside the old one and renamed over it. *)
Definition replace_file (path : string) (doc : document) : run unit :=
  l ← log;
  match h_temp host l (path_dir path) with
  | inl err => fatalf ("create temp file: " +:+ err)
  | inr tmp =>
      match h_temp_write host l tmp with
      | Some err => _ ← note (Spoiled tmp); discard tmp "write temp file" err
      | None =>
          _ ← note (Saved tmp doc);
          l ← log;
          match h_temp_close host l tmp with
          | Some err => discard tmp "close temp file" err
          | None =>
              match h_rename host l tmp path with
              | Some err => discard tmp ("rename " +:+ tmp +:+ " → " +:+ path) err
              | None => note (Renamed tmp path)
              end
          end
      end
  end.

Definition cmdReleaseSetImage (fl : SetImageFlags) : run unit :=
  if bool_decide (mf_release fl = "") || bool_decide (mf_component fl = "") || bool_decide (mf_image_digest fl = "")
  then usage_error "bori release set-image: --release, --component, and --image-digest are required"
  else
  let relPath := release_file (mf_bori_root fl) (mf_release fl) in
  match LoadRelease relPath with
  | inl err => fatalf ("load release " +:+ quote (mf_release fl) +:+ ": " +:+ err)
  | inr rel =>
      match set_image (mf_component fl) (mf_image_digest fl) (mf_version fl) (mf_git_sha fl) (rl_Components rel) with
      | None => fatalf ("component " +:+ quote (mf_component fl) +:+ " not found in release " +:+ quote (mf_release fl))
      | Some refs =>
          _ ← replace_file relPath (DRelease (with_components rel refs));
          say ("[bori] release " +:+ quote (mf_release fl) +:+ ": " +:+ mf_component fl +:+ " imageDigest → " +:+ mf_image_digest fl)
      end
  end.
End report.

(** * What the other commands promise (cmd/bori/main.go)

    bori reconcile that ends well did the whole work of its plan or skipped it;
    bori release set-image pins one entry and replaces the release file only by
    a complete one. *)

Section set_image.
Variables (name digest version gitSha : string).

(** Exactly the first entry of the name is changed. *)
Lemma set_image_first refs refs' :
  set_image name digest version gitSha refs = Some refs' <->
  exists l ref r, refs = l ++ (ref :: r) /\ (name ∉ names l) /\ cf_Name ref = name /\
    refs' = l ++ (set_image_ref digest version gitSha ref :: r).
Proof.
  revert refs'. induction refs as [|ref refs IH]; intros refs'; cbn [set_image].
  { split; [done|]. by intros ([|] & ? & ? & ? & _). }
  case_bool_decide as Hn.
  - split; [intros [= <-]; exists [], ref, refs; split_and!; [done| |done|done]; by apply not_elem_of_nil|].
    intros ([|x l] & ref' & r & E & Hl & Hr & ->); cbn in *; injection E as <- ->; [done|]. exfalso. apply Hl.
    rewrite Hn. apply elem_of_cons. by left.
  - rewrite stdpp.option.bind_Some. split.
    + intros (rs & Hrs & [= <-]). apply IH in Hrs as (l & ref' & r & -> & Hl & Hr & ->). exists (ref :: l), ref', r.
      split_and!; try done. cbn. rewrite not_elem_of_cons. by split; [|].
    + intros ([|x l] & ref' & r & E & Hl & Hr & ->); cbn in *; injection E as <- ->; [done|].
      exists (l ++ set_image_ref digest version gitSha ref' :: r). split; [|done]. apply IH. exists l, ref', r.
      split_and!; try done. cbn in Hl. by apply not_elem_of_cons in Hl as [_ ?].
Qed.

Lemma set_image_none refs : set_image name digest version gitSha refs = None <-> name ∉ names refs.
Proof.
  induction refs as [|ref refs IH]; cbn [set_image names fmap list_fmap]; [split; [intros _; apply not_elem_of_nil|done]|].
  rewrite not_elem_of_cons. case_bool_decide as Hn; [split; [done|by intros [Hne _]]|].
  destruct (set_image name digest version gitSha refs); cbn; split; try done.
  - intros [_ Hr]. by apply IH in Hr.
  - intros _. split; [by apply not_eq_sym|by apply IH].
Qed.

(** The names, and so the dependency order, stay. *)
Lemma set_image_names refs refs' : set_image name digest version gitSha refs = Some refs' -> names refs' = names refs.
Proof.
  intros (l & ref & r & -> & _ & _ & ->)%set_image_first. unfold names. by rewrite !fmap_app.
Qed.
End set_image.

Section report.
Context `{GoText} `{SortSlice} `{Files} `{References} `{DeployFiles} `{Manifests} `{DisplayTime}.
Variable host : Host.

(** Not the replacement of a file. *)
Definition in_place (e : event) : Prop := match e with Renamed _ _ => False | _ => True end.

(** What a replacement of the file [path] by [doc] does: the whole document is in
    a file of its own before that file takes the name. *)
Lemma replace_file_run path doc s : exists e l',
  replace_file host path doc s = (e, Build_Shell (ps_log s ++ l') (ps_disk s)) /\
  match e with
  | Returned _ => exists tmp, l' = [Saved tmp doc; Renamed tmp path]
  | Exited n => n = 1%Z /\ Forall in_place l'
  | Panicked _ => False
  end.
Proof.
  unfold replace_file. running. destruct (h_temp host (ps_log s) (path_dir path)) as [err|tmp].
  { unfold fatalf, warn. running. eexists _, [_]. split; [done|]. by repeat constructor. }
  assert (forall s1 what err, exists l', discard host tmp what err s1 = (Exited 1, Build_Shell (ps_log s1 ++ l') (ps_disk s1)) /\ Forall in_place l') as Hd.
  { intros s1 what err. unfold discard. rewrite bind_run, remove_run. destruct (h_remove host (ps_log s1) tmp); unfold fatalf, warn; running;
      cbn [ps_log ps_disk]; eexists; rewrite <- ?app_assoc; (split; [reflexivity|]); by repeat constructor. }
  destruct (h_temp_write host (ps_log s) tmp) as [err|]; running.
  { match goal with |- context [discard host tmp ?w ?x ?y] => destruct (Hd y w x) as (l' & -> & Hl) end. cbn [ps_log ps_disk].
    eexists _, (Spoiled tmp :: l'). rewrite <- app_assoc. split; [done|]. split; [done|by constructor]. }
  cbn [ps_log].
  destruct (h_temp_close host _ tmp) as [err|].
  { match goal with |- context [discard host tmp ?w ?x ?y] => destruct (Hd y w x) as (l' & -> & Hl) end. cbn [ps_log ps_disk].
    eexists _, (Saved tmp doc :: l'). rewrite <- app_assoc. split; [done|]. split; [done|by constructor]. }
  destruct (h_rename host _ tmp path) as [err|].
  { match goal with |- context [discard host tmp ?w ?x ?y] => destruct (Hd y w x) as (l' & -> & Hl) end. cbn [ps_log ps_disk].
    eexists _, (Saved tmp doc :: l'). rewrite <- app_assoc. split; [done|]. split; [done|by constructor]. }
  running. eexists _, [Saved tmp doc; Renamed tmp path]. cbn [ps_log ps_disk]. rewrite <- app_assoc. split; [done|by exists tmp].
Qed.

(** bori release set-image replaces release.yaml exactly when it returns,
    then by a complete file that was written beside it, and which holds the
    release with the first entry of the component changed and nothing else; in
    every other case it exits with 1 and no file took another's place. *)
Theorem cmdReleaseSetImage_spec fl s e s' :
  cmdReleaseSetImage host fl s = (e, s') ->
  exists l', s' = Build_Shell (ps_log s ++ l') (ps_disk s) /\
  match e with
  | Returned _ => exists tmp line rel l ref r, LoadReleaseByName (mf_bori_root fl) (mf_release fl) = inr rel /\
      rl_Components rel = l ++ ref :: r /\ (mf_component fl ∉ names l) /\ cf_Name ref = mf_component fl /\
      l' = [Saved tmp (DRelease (with_components rel
              (l ++ set_image_ref (mf_image_digest fl) (mf_version fl) (mf_git_sha fl) ref :: r)));
            Renamed tmp (release_file (mf_bori_root fl) (mf_release fl)); Said line]
  | Exited n => n = 1%Z /\ Forall in_place l'
  | Panicked _ => False
  end.
Proof.
  unfold cmdReleaseSetImage. destruct (_ || _).
  { unfold usage_error, warn. running. intros [= <- <-]. exists [Warned "bori release set-image: --release, --component, and --image-digest are required"].
    split; [done|]. by repeat constructor. }
  assert (forall msg, fatalf (A := unit) msg s = (e, s') -> exists l', s' = Build_Shell (ps_log s ++ l') (ps_disk s) /\
    e = Exited 1 /\ Forall in_place l') as Hf.
  { intros msg. unfold fatalf, warn. running. intros [= <- <-]. eexists. split; [done|]. by repeat constructor. }
  cbv zeta. change (LoadRelease (release_file ?r ?n)) with (LoadReleaseByName r n).
  destruct (LoadReleaseByName (mf_bori_root fl) (mf_release fl)) as [err|rel] eqn:El.
  { intros (l' & ? & -> & ?)%Hf. by exists l'. }
  destruct (set_image _ _ _ _ _) as [refs|] eqn:Es; [|intros (l' & ? & -> & ?)%Hf; by exists l'].
  apply set_image_first in Es as (l & ref & r & Er & Hl & Hn & ->). rewrite bind_run.
  destruct (replace_file_run (release_file (mf_bori_root fl) (mf_release fl)) (DRelease (with_components rel (l ++
    set_image_ref (mf_image_digest fl) (mf_version fl) (mf_git_sha fl) ref :: r))) s) as (e1 & l1 & -> & He1).
  destruct e1 as [[]|n|w]; [|intros [= <- <-]; by exists l1|done]. destruct He1 as [tmp ->]. unfold say. running. intros [= <- <-].
  cbn [ps_log ps_disk]. eexists. rewrite <- app_assoc. split; [done|]. by eexists tmp, _, rel, l, ref, r.
Qed.

(** ** bori reconcile *)

(** The work of a component, as the pass hands it to its adapter. *)
Definition call_work (registry : gmap string DeployAdapter) (abs : string) (call : Call) : list event :=
  match registry !! dc_Adapter call with
  | Some a => work host a (Build_DeployRequest (dc_Component call) (dc_Environment call) false "" abs) []
  | None => []
  end.

(** Calls that all succeeded did all their work. *)
Lemma calls_acted dir abs appsDir s si calls :
  let registry := buildAdapterRegistry dir in
  Forall (fun call => dc_Adapter call ∈ dom registry) calls ->
  all_succeeded (cli_site host registry abs appsDir s si) calls ->
  acted host (calls ≫= call_work registry abs) s (after_calls host registry abs s calls).
Proof.
  cbn zeta. set (registry := buildAdapterRegistry dir). induction calls as [|call calls IH] using rev_ind; intros Hreg Hs.
  { exists []. rewrite app_nil_r. split; [done|]. split; [done|apply accepted_nil]. }
  apply Forall_app in Hreg as [Hreg Hc]. apply Forall_cons in Hc as [[a Ha]%elem_of_dom _].
  assert (all_succeeded (cli_site host registry abs appsDir s si) calls) as Hs1.
  { intros i c Hi. specialize (Hs i c). rewrite take_app_le in Hs by (apply lookup_lt_Some in Hi; lia). apply Hs.
    by apply lookup_app_l_Some. }
  specialize (Hs (length calls) call). rewrite take_app_length in Hs. specialize (Hs (list_lookup_middle _ _ _ _ eq_refl)).
  unfold after_calls in *. rewrite foldl_app, bind_app. cbn [foldl mbind list_bind]. rewrite app_nil_r.
  eapply acted_app; [by apply IH|]. cbn [cli_site si_deploy] in Hs. unfold after_calls in Hs. set (s1 := foldl _ s calls) in *.
  unfold call_adapter, call_work in *. rewrite Ha in *.
  destruct (adapter_deploy_spec host a (Build_DeployRequest (dc_Component call) (dc_Environment call) false "" abs) s1)
    as (ans & l' & Hr & [_ _ _ Hd]). rewrite Hr in *. cbn [fst snd] in *.
  assert (da_Error ans = None) as Hnone. { unfold deploy_failed in Hs. destruct (da_Error ans); [by rewrite bool_decide_eq_true_2 in Hs|done]. }
  exists l'. split; [done|]. rewrite <- (work_here host a _ (ps_log s1)) by by apply (registry_external dir (dc_Adapter call)).
  by apply Hd.
Qed.

(** How a pass that may call adapters ends. *)
Lemma pass_ends reg si rq dk oc r :
  Run reg si rq dk = Some oc -> oc_result oc = inr r -> rq_DeployDryRun rq = false ->
  re_DeployStatus r = "failed" \/
  oc_calls oc = [] /\ (re_DeployStatus r = "skipped" /\ rq_SkipIfInSync rq = true \/ re_DeployStatus r = "skipped (dry-run)" /\ rq_DryRun rq = true) \/
  re_DeployStatus r = "success" /\ exists plan env, plan_of si rq = Some (inr plan) /\ pl_Violations plan = [] /\
    LoadEnvironmentByName (bori_root si) (rq_EnvName rq) = inr env /\ Forall2 (called reg (bori_root si) env) (pl_Components plan) (oc_calls oc) /\
    all_succeeded si (oc_calls oc).
Proof.
  intros Hr Hre Hdd. apply Run_cases in Hr. destruct Hr as [e|rel _ _ _ Hsk|rel plan _ _ Hpl Hv]; [done| |].
  { injection Hre as <-. right; left. split; [done|]. left. by split. }
  unfold execute in *. destruct (store si (new_revision si rel plan) dk) as [dk1 stored]. destruct (rq_DryRun rq) eqn:Hdry.
  { injection Hre as <-. right; left. split; [done|]. right. by split. }
  rewrite Hdd in *. unfold deploy_and_record in *. destruct (LoadEnvironmentByName (bori_root si) (rq_EnvName rq)) as [err|env] eqn:He; [done|].
  destruct (finish_pass _ _ _ _ _ _ _ _ _ _ _ eq_refl Hre) as (_ & _ & _ & Hc & Hs). rewrite Hs, Hc.
  destruct (dp_ok (deploy_all reg si env (pl_Components plan))) eqn:Hok; [|by left]. right; right. split; [done|].
  destruct (dy_ok _ _ _ _ _ (deploy_all_deployed reg si env (pl_Components plan)) Hok) as [Hcs Ha].
  rewrite (plan_deploys _ _ _ Hpl Hv) in Hcs. by exists plan, env.
Qed.

Lemma calls_work registry abs envName env cps calls :
  LoadEnvironmentByName abs envName = inr env -> Forall2 (called (dom registry) abs env) cps calls ->
  calls ≫= call_work registry abs = cps ≫= component_work host registry abs abs envName.
Proof.
  intros Henv. induction 1 as [|cp call cps calls (Ha & _ & He & comp & Hc & Hcc) _ IH]; [done|]. cbn [mbind list_bind]. rewrite IH. f_equal.
  unfold call_work, component_work, compForDeploy, envForDeploy. by rewrite Ha, He, Hc, Hcc, Henv.
Qed.

Lemma say_all_run lines s : exists l', say_all lines s = (Returned tt, Build_Shell (ps_log s ++ l') (ps_disk s)) /\ Forall idle l'.
Proof.
  revert s. induction lines as [|line lines IH]; intros s; cbn [say_all].
  { exists []. rewrite app_nil_r. split; [by destruct s|done]. }
  unfold say. running. destruct (IH (Build_Shell (ps_log s ++ [Said line]) (ps_disk s))) as (l' & -> & Hl). cbn [ps_log ps_disk].
  exists (Said line :: l'). rewrite <- app_assoc. split; [done|by constructor].
Qed.

(** bori reconcile never panics and exits only with 1.  When it returns it
    was told to skip or to plan only, and changed nothing in the cluster; or it
    did the whole work of every component of a plan without violations, in
    order, and each program succeeded. *)
Theorem cmdReconcile_spec si fl s e s' :
  cmdReconcile host si fl s = (e, s') ->
  match e with
  | Panicked _ => False
  | Exited n => n = 1%Z
  | Returned _ => exists w, acted host w s s' /\
      (w = [] /\ (kf_skip_if_in_sync fl = true \/ kf_dry_run fl = true) \/
       exists t runID dir abs plan, h_abs host (kf_bori_root fl) = inr abs /\
         Plan abs None t runID (kf_release fl) (kf_env fl) = Some (inr plan) /\ pl_Violations plan = [] /\
         w = pl_Components plan ≫= component_work host (buildAdapterRegistry dir) abs abs (kf_env fl))
  end.
Proof.
  unfold cmdReconcile. destruct (_ || _); [by intros [= <- _]|].
  rewrite bind_run. pose proof (apps_dir_noted host idle (kf_apps_dir fl) (kf_bori_root fl) s) as [I1 F1].
  pose proof (apps_dir_safe host (kf_apps_dir fl) (kf_bori_root fl) s) as Hs1.
  destruct (apps_dir host (kf_apps_dir fl) (kf_bori_root fl) s) as [[dir|n|w] s1]; [|by intros [= <- <-]|done]. cbn [snd] in I1.
  destruct (h_abs host (kf_bori_root fl)) as [err|abs]; [by intros [= <- _]|]. running. set (registry := buildAdapterRegistry dir).
  set (rq := reconcile_request fl). set (site := cli_site host registry abs dir s1 si).
  destruct (Run_total (dom registry) site rq (ps_disk s1)) as [oc Hoc]. rewrite Hoc. unfold update. running.
  set (s2 := Build_Shell _ _). destruct (oc_result oc) as [err|r] eqn:Hre; [by intros [= <- _]|].
  destruct (say_all_run (reconcile_report r) s2) as (l2 & Hl2 & Fl2). rewrite bind_run, Hl2. set (s3 := Build_Shell (ps_log s2 ++ l2) _).
  case_bool_decide as Hst; intros [= <- <-]; [done|].
  assert (forall w, acted host w s1 (after_calls host registry abs s1 (oc_calls oc)) -> acted host w s s3) as Hact.
  { intros w Ha. eapply idle_l; [exact I1|]. apply acted_logged with s2; [|by exists l2].
    destruct Ha as (l & El & Hw). exists l. by split. }
  destruct (pass_ends _ _ _ _ _ _ Hoc Hre eq_refl) as [Hf|[[Hc Hsk]|(_ & plan & env & Hp & Hv & He & Hcs & Hok)]]; [done| |].
  - exists []. split; [|left; split; [done|]; destruct Hsk as [[_ ?]|[_ ?]]; [by left|by right]].
    apply Hact. rewrite Hc. exists []. rewrite app_nil_r. split; [done|]. split; [done|apply accepted_nil].
  - change (bori_root site) with abs in *. eexists. split; [|right; eexists _, _, dir, abs, plan; split; [done|]; split; [exact Hp|]; split; [done|]; reflexivity].
    apply Hact. fold registry. rewrite <- (calls_work registry abs (kf_env fl) env _ _ He Hcs). apply (calls_acted dir abs dir s1 si); [|exact Hok].
    clear -Hcs. induction Hcs as [|cp call cps calls (Ha & Hin & _) _ IH]; constructor; [by rewrite Ha|done].
Qed.
End report.
