(* ===== verification/Flags.v ===== *)
(** * Command line flags (package flag): parsing and printing

    A flag set lists the names of its flags with their kinds; parsing yields the
    values that were given, or the reason for leaving.  The text of the usage
    message is left out. *)

From S2P Require Import Prelude Text Process.
From Stdlib Require Import Ascii.

Inductive flag_kind := StringFlag | BoolFlag | DurationFlag.
Inductive flag_value := VString (s : string) | VBool (b : bool) | VDuration (d : Duration).

(** time.ParseDuration, without the text of its error. *)
Class ParseDuration := { parse_duration : string -> option Duration }.

(** strconv.ParseBool *)
Definition parse_bool (s : string) : option bool :=
  if bool_decide (s ∈ ["1"; "t"; "T"; "TRUE"; "true"; "True"]) then Some true
  else if bool_decide (s ∈ ["0"; "f"; "F"; "FALSE"; "false"; "False"]) then Some false
  else None.

Abbreviation Formal := (gmap string flag_kind) (only parsing).
Abbreviation Actual := (gmap string flag_value) (only parsing).

(** One argument as Parse sees it: the end of the flags (and what remains), not
    a flag name, or a name with the value after "=". *)
Inductive argument :=
  | EndOfFlags
  | Terminator
  | BadSyntax
  | Flag (name : string) (value : option string).

Definition split_name (name : string) : argument :=
  match name with
  | EmptyString => BadSyntax
  | String c rest =>
      if bool_decide (c = "-"%char) || bool_decide (c = "="%char) then BadSyntax
      else match split_first "="%char rest with
      | Some (n, v) => Flag (String c n) (Some v)
      | None => Flag name None
      end
  end.

Definition read_argument (s : string) : argument :=
  match s with
  | String "-" (String "-" EmptyString) => Terminator
  | String "-" (String "-" name) => split_name name
  | String "-" (String c rest) => split_name (String c rest)
  | _ => EndOfFlags
  end.

Inductive parsed :=
  | Parsed (given : Actual) (rest : list string)
  | HelpWanted
  | Unparsed (why : string).

Section flags.
Context `{GoText} `{ParseDuration}.

Definition parse_value (k : flag_kind) (s : string) : option flag_value :=
  match k with
  | StringFlag => Some (VString s)
  | BoolFlag => VBool <$> parse_bool s
  | DurationFlag => VDuration <$> parse_duration s
  end.

Definition invalid (k : flag_kind) (name value : string) : string :=
  match k with
  | BoolFlag => "invalid boolean value " +:+ quote value +:+ " for -" +:+ name +:+ ": parse error"
  | _ => "invalid value " +:+ quote value +:+ " for flag -" +:+ name +:+ ": parse error"
  end.

(** FlagSet.Parse *)
Fixpoint Parse (formal : Formal) (given : Actual) (args : list string) : parsed :=
  match args with
  | [] => Parsed given []
  | s :: args' =>
      match read_argument s with
      | EndOfFlags => Parsed given args
      | Terminator => Parsed given args'
      | BadSyntax => Unparsed ("bad flag syntax: " +:+ s)
      | Flag name value =>
          match formal !! name, value, args' with
          | None, _, _ =>
              if bool_decide (name = "help") || bool_decide (name = "h") then HelpWanted
              else Unparsed ("flag provided but not defined: -" +:+ name)
          | Some BoolFlag, None, _ => Parse formal (<[name := VBool true]> given) args'
          | Some k, Some v, _ =>
              match parse_value k v with
              | Some x => Parse formal (<[name := x]> given) args'
              | None => Unparsed (invalid k name v)
              end
          | Some k, None, v :: args'' =>
              match parse_value k v with
              | Some x => Parse formal (<[name := x]> given) args''
              | None => Unparsed (invalid k name v)
              end
          | Some _, None, [] => Unparsed ("flag needs an argument: -" +:+ name)
          end
      end
  end.
End flags.

(** The value of a flag, or its default. *)
Definition string_flag (given : Actual) (name default : string) : string :=
  match given !! name with Some (VString s) => s | _ => default end.
Definition bool_flag (given : Actual) (name : string) : bool :=
  match given !! name with Some (VBool b) => b | _ => false end.
Definition duration_flag (given : Actual) (name : string) (default : Duration) : Duration :=
  match given !! name with Some (VDuration d) => d | _ => default end.

(** * Theorems *)

(** A name of a flag: not empty, no "-" in front and no "=". *)
Definition plain_name (name : string) : Prop :=
  match name with
  | EmptyString => False
  | String c rest => c <> "-"%char /\ c <> "="%char /\ split_first "="%char rest = None
  end.

Lemma split_first_none sep s v :
  split_first sep s = None -> split_first sep (s +:+ String sep v) = Some (s, v).
Proof.
  induction s as [|a s IH].
  - intros _. change (split_first sep (String sep v) = Some ("", v)). cbn [split_first]. by rewrite bool_decide_eq_true_2.
  - change (String a s +:+ String sep v) with (String a (s +:+ String sep v)). cbn [split_first]. case_bool_decide; [done|].
    intros Hs. destruct (split_first sep s); [done|]. by rewrite IH.
Qed.

(** The argument that sets a flag. *)
Definition set_flag (name value : string) : string := "--" +:+ name +:+ "=" +:+ value.

Lemma read_set_flag name value : plain_name name -> read_argument (set_flag name value) = Flag name (Some value).
Proof.
  destruct name as [|c rest]; [done|]. intros (Hd & He & Hs). unfold set_flag.
  change (split_name (String c (rest +:+ String "="%char value)) = Flag (String c rest) (Some value)). cbn [split_name].
  rewrite !bool_decide_eq_false_2 by done. cbn [orb]. by rewrite (split_first_none "="%char rest value Hs).
Qed.

Section roundtrip.
Context `{GoText} `{ParseDuration}.

(** A name, a text and the value it stands for, of a flag set. *)
Definition settable (formal : Formal) (f : string * string * flag_value) : Prop :=
  plain_name f.1.1 /\ exists k, formal !! f.1.1 = Some k /\ parse_value k f.1.2 = Some f.2.

(** What is written on a command line as --name=value is read back: the
    flags get the values the texts stand for, a later one over an earlier one,
    and what follows is left as it is. *)
Theorem Parse_set_flags formal fs rest : forall given, Forall (settable formal) fs ->
  Parse formal given (((fun f => set_flag f.1.1 f.1.2) <$> fs) ++ rest) =
  Parse formal (foldl (fun m f => <[f.1.1 := f.2]> m) given fs) rest.
Proof.
  induction fs as [|[[name value] v] fs IH]; intros given; [done|]. intros [(Hn & k & Hk & Hv) Hfs]%Forall_cons.
  cbn [fmap list_fmap app foldl fst snd Parse] in *. rewrite read_set_flag, Hk by done. destruct k; rewrite Hv; by apply IH.
Qed.
End roundtrip.
