(* ===== verification/Main.v ===== *)
(** * The bori command line (cmd/bori/main.go, cmd/bori/opsinteraction.go)

    The subcommands with their flags, and the dispatch on the arguments. *)

From S2P Require Import Prelude.
From S2P Require Import Measure.
From S2P Require Import HostSpec.
From S2P Require Import Deployers.
From S2P Require Import DeployCmdSpec.
From S2P Require Import ReportCmd.
From S2P Require Import Text.
From S2P Require Import Process.
From S2P Require Import Flags.
From S2P Require Import Release.
From S2P Require Import Loading.
From S2P Require Import Planner.
From S2P Require Import Revision.
From S2P Require Import Shadow.
From S2P Require Import Deploy.
From S2P Require Import DataPlane.
From S2P Require Import Render.
From S2P Require Import Artifact.
From S2P Require Import Host.
From S2P Require Import Gate.
From S2P Require Import GateRun.
From S2P Require Import VerifyCmd.
From S2P Require Import DeployCmd.

(** ** kubectl's JSON, decoded *)

(** Not JSON; an object of kind OperationalTarget; a list, with the kind of each
    item; or another kind.  Decoding the object or the list may fail. *)
Inductive ops_json :=
  | NotJson (err : string)
  | OneTarget (t : string + Row)
  | TargetList (items : string + list (string * Row))
  | OtherKind.

(** A file, or "-" for the standard input: why it cannot be opened or read. *)
Class OpsFiles := { ops_input : string -> string + ops_json }.

Section ops.
Context `{GoText} `{SortSlice} `{ParseDuration} `{OpsFiles}.

Abbreviation run A := (prog Shell A) (only parsing).

(** The kind of the first item that is no target. *)
Definition stray_kind (items : list (string * Row)) : option string :=
  fst <$> List.find (fun i => negb (bool_decide (i.1 = "")) && negb (bool_decide (i.1 = "OperationalTarget"))) items.

Definition readTargets (j : ops_json) : string + list Row :=
  match j with
  | NotJson err => inl ("input is not kubectl JSON: " +:+ err)
  | OneTarget (inl err) | TargetList (inl err) => inl err
  | OneTarget (inr t) => inr [t]
  | TargetList (inr items) =>
      match stray_kind items with
      | Some kind => inl ("item kind " +:+ quote kind +:+ " is not OperationalTarget")
      | None => inr (snd <$> items)
      end
  | OtherKind => inl "expected an OperationalTarget or a list of them"
  end.

Definition ops_flags : gmap string flag_kind := list_to_map [("f", StringFlag); ("o", StringFlag)].

(** The error, if any. *)
Definition runOpsInteraction (args : list string) : run (option string) :=
  match Parse ops_flags ∅ args with
  | HelpWanted => mret (Some "flag: help requested")
  | Unparsed why => _ ← warn why; mret (Some why)
  | Parsed given _ =>
      let format := string_flag given "o" "text" in
      match ops_input (string_flag given "f" "-") with
      | inl err => mret (Some err)
      | inr j =>
          match readTargets j with
          | inl err => mret (Some err)
          | inr ts =>
              if bool_decide (format = "text") then _ ← print (DText (RenderText ts)); mret None
              else if bool_decide (format = "json") then _ ← print (DInteraction (OverviewOf ts) ts); mret None
              else mret (Some ("unknown output format " +:+ quote format))
          end
      end
  end.

Definition cmdOps (args : list string) : run unit :=
  match args with
  | cmd :: args =>
      if bool_decide (cmd = "interaction") then
        failed ← runOpsInteraction args;
        match failed with Some err => usage_error ("bori ops interaction: " +:+ err) | None => mret tt end
      else usage_error "usage: bori ops interaction [-f <file>|-] [-o text|json]"
  | [] => usage_error "usage: bori ops interaction [-f <file>|-] [-o text|json]"
  end.
End ops.

(** ** Flag sets *)
Definition strings (names : list string) : gmap string flag_kind := list_to_map ((fun n => (n, StringFlag)) <$> names).
Definition with_bools (names : list string) (m : gmap string flag_kind) : gmap string flag_kind :=
  foldr (fun n m => <[n := BoolFlag]> m) m names.

Definition plan_formal : gmap string flag_kind := strings ["release"; "env"; "bori-root"; "bori-dir"].

Definition plan_flags (g : gmap string flag_value) : PlanFlags :=
  Build_PlanFlags (string_flag g "release" "") (string_flag g "env" "") (string_flag g "bori-root" ".") (string_flag g "bori-dir" ".bori").

Definition deploy_formal : gmap string flag_kind :=
  with_bools ["dry-run"] (strings ["release"; "env"; "bori-root"; "apps-dir"; "bori-dir"]).

Definition deploy_flags (g : gmap string flag_value) : DeployFlags :=
  Build_DeployFlags (string_flag g "release" "") (string_flag g "env" "") (string_flag g "bori-root" ".") (string_flag g "apps-dir" "")
    (string_flag g "bori-dir" ".bori") (bool_flag g "dry-run").

Definition verify_formal : gmap string flag_kind :=
  <["smoke-wait" := DurationFlag]> (with_bools ["v"] (strings
    ["release"; "env"; "bori-root"; "changed"; "apps-dir"; "profile"; "smoke-cmd"; "bori-dir"; "slint-gate"; "kube-namespace";
     "target"; "policy"; "fail-on"; "subject-id"; "window-id"; "slint-sa"; "curl-image"])).

Definition verify_flags (g : gmap string flag_value) : VerifyFlags := {|
  vf_release := string_flag g "release" ""; vf_env := string_flag g "env" ""; vf_bori_root := string_flag g "bori-root" ".";
  vf_changed := string_flag g "changed" ""; vf_apps_dir := string_flag g "apps-dir" ""; vf_profile := string_flag g "profile" "devspace";
  vf_smoke_cmd := string_flag g "smoke-cmd" ""; vf_smoke_wait := duration_flag g "smoke-wait" (10 * Second)%Z;
  vf_bori_dir := string_flag g "bori-dir" ".bori"; vf_slint_gate := string_flag g "slint-gate" "slint-gate";
  vf_kube_namespace := string_flag g "kube-namespace" "bori-system"; vf_target := string_flag g "target" "";
  vf_policy := string_flag g "policy" ""; vf_fail_on := string_flag g "fail-on" FailOnFailOrNoGrade;
  vf_subject_id := string_flag g "subject-id" ""; vf_window_id := string_flag g "window-id" "";
  vf_slint_sa := string_flag g "slint-sa" "kube-slint"; vf_curl_image := string_flag g "curl-image" "";
|}.

Definition reconcile_formal : gmap string flag_kind :=
  with_bools ["dry-run"; "skip-if-in-sync"; "v"] (strings ["release"; "env"; "bori-root"; "apps-dir"; "bori-dir"]).

Definition reconcile_flags (g : gmap string flag_value) : ReconcileFlags :=
  Build_ReconcileFlags (string_flag g "release" "") (string_flag g "env" "") (string_flag g "bori-root" ".") (string_flag g "apps-dir" "")
    (string_flag g "bori-dir" ".bori") (bool_flag g "dry-run") (bool_flag g "skip-if-in-sync").

Definition set_image_formal : gmap string flag_kind := strings ["release"; "component"; "image-digest"; "version"; "git-sha"; "bori-root"].

Definition set_image_flags (g : gmap string flag_value) : SetImageFlags :=
  Build_SetImageFlags (string_flag g "release" "") (string_flag g "component" "") (string_flag g "image-digest" "")
    (string_flag g "version" "") (string_flag g "git-sha" "") (string_flag g "bori-root" ".").

Definition usage_lines : list string := [
  "bori — genomic dataplane control plane gateway";
  "";
  "Usage:";
  "  bori plan              --release <name> --env <name> [--bori-root <dir>]";
  "  bori deploy            --release <name> --env <name> [--bori-root <dir>] [--apps-dir <dir>]";
  "  bori verify            [--release <name> --env <name>] [--changed <a,b>] [--bori-root <dir>]";
  "  bori verify            --target <name> --policy <path> --subject-id <id> --window-id <id> [--smoke-cmd <cmd>]";
  "  bori status            --run <run-id> [--bori-dir <dir>]";
  "  bori revision list     [--release <name>] [--bori-dir <dir>]";
  "  bori rollout plan      --release <name> --env <name> [--bori-root <dir>]";
  "  bori shadow status     --release <name> [--bori-root <dir>] [--bori-dir <dir>] [--json]";
  "  bori reconcile           --release <name> --env <name> [--bori-root <dir>] [--dry-run] [-v]";
  "  bori release apply       --name <name> [--bori-root <dir>] [--namespace <ns>] [--apply]";
  "  bori release set-image   --release <name> --component <name> --image-digest <sha256:...> [--version <v>] [--git-sha <sha>]";
  "  bori ops interaction     [-f <kubectl-json>|-] [-o text|json]   (read-only; renders OperationalTarget interaction summaries)"].

Section main.
Context `{GoText} `{SortSlice} `{Files} `{References} `{DeployFiles} `{ParseFloat} `{MapRange} `{KubeSlint} `{VerifyFiles}.
Context `{Manifests} `{DisplayTime} `{ParseDuration} `{OpsFiles}.
Variable ValidateSelectors : SLISpec -> option string.
Variable host : Host.
Variable session_end : list event -> SessionConfig -> option string.
Variable summary_file : list event -> string -> string + Summary.
Variable slint_token : string.
(** The clock and the disk of a pass. *)
Variable site : Site.

Abbreviation run A := (prog Shell A) (only parsing).

(** A command with flag.ExitOnError. *)
Definition with_flags (formal : gmap string flag_kind) (args : list string) (cmd : gmap string flag_value -> run unit) : run unit :=
  match Parse formal ∅ args with
  | HelpWanted => exit 0
  | Unparsed why => _ ← warn why; exit 2
  | Parsed given _ => cmd given
  end.

(** A command with subcommands of its own, [name] as in its messages. *)
Definition subcommand (name usage : string) (known : list (string * (list string -> run unit))) (args : list string) : run unit :=
  match args with
  | [] => usage_error usage
  | cmd :: args =>
      match List.find (fun k => bool_decide (k.1 = cmd)) known with
      | Some (_, run) => run args
      | None => usage_error ("bori " +:+ name +:+ ": unknown sub-command " +:+ quote cmd)
      end
  end.

Definition cmdRevision : list string -> run unit :=
  subcommand "revision" "usage: bori revision list [--release <name>] [--bori-dir <dir>]" [
    ("list", fun args => with_flags (strings ["release"; "bori-dir"]) args (fun g =>
       cmdRevisionList host (string_flag g "release" "") (string_flag g "bori-dir" ".bori")))].

Definition cmdRollout : list string -> run unit :=
  subcommand "rollout" "usage: bori rollout plan --release <name> --env <name>" [
    ("plan", fun args => with_flags plan_formal args (fun g => cmdRolloutPlan host (plan_flags g)))].

Definition cmdShadow : list string -> run unit :=
  subcommand "shadow" "usage: bori shadow status --release <name> [--bori-root <dir>]" [
    ("status", fun args => with_flags (with_bools ["json"] (strings ["release"; "bori-root"; "bori-dir"])) args (fun g =>
       cmdShadowStatus host (string_flag g "release" "") (string_flag g "bori-root" ".") (string_flag g "bori-dir" ".bori")
         (bool_flag g "json")))].

Definition release_usage : string :=
  "usage: bori release apply --name <name> [--bori-root <dir>] [--namespace <ns>] [--apply]" +:+ line_feed +:+
  "       bori release set-image --release <name> --component <name> --image-digest <sha256:...> [--version <v>] [--git-sha <sha>]".

Definition cmdRelease : list string -> run unit :=
  subcommand "release" release_usage [
    ("apply", fun args => with_flags (with_bools ["apply"] (strings ["name"; "bori-root"; "namespace"])) args (fun g =>
       cmdReleaseApply host (string_flag g "name" "") (string_flag g "bori-root" ".") (string_flag g "namespace" "bori-system") (bool_flag g "apply")));
    ("set-image", fun args => with_flags set_image_formal args (fun g => cmdReleaseSetImage host (set_image_flags g)))].

Definition commands : list (string * (list string -> run unit)) := [
  ("plan", fun args => with_flags plan_formal args (fun g => cmdPlan host (plan_flags g)));
  ("deploy", fun args => with_flags deploy_formal args (fun g => cmdDeploy host (deploy_flags g)));
  ("verify", fun args => with_flags verify_formal args (fun g =>
     cmdVerify ValidateSelectors host session_end summary_file slint_token (verify_flags g)));
  ("status", fun args => with_flags (strings ["run"; "bori-dir"]) args (fun g =>
     cmdStatus host (string_flag g "run" "") (string_flag g "bori-dir" ".bori")));
  ("revision", cmdRevision);
  ("rollout", cmdRollout);
  ("shadow", cmdShadow);
  ("reconcile", fun args => with_flags reconcile_formal args (fun g => cmdReconcile host site (reconcile_flags g)));
  ("release", cmdRelease);
  ("ops", cmdOps)].

Definition usage : run unit := warn (join line_feed usage_lines).

(** [args] are the arguments after the name of the program. *)
Definition main (args : list string) : run unit :=
  match args with
  | [] => _ ← usage; exit 1
  | cmd :: args =>
      match List.find (fun k => bool_decide (k.1 = cmd)) commands with
      | Some (_, run) => run args
      | None => _ ← warn ("bori: unknown subcommand " +:+ quote cmd); _ ← usage; exit 1
      end
  end.
End main.

(** * What the bori command line promises

    Subcommands that only look do not touch the cluster, whatever their
    arguments; and what is not a command changes nothing. *)

Section main.
Context `{GoText} `{SortSlice} `{Files} `{References} `{DeployFiles} `{ParseFloat} `{MapRange} `{KubeSlint} `{VerifyFiles}.
Context `{Manifests} `{DisplayTime} `{ParseDuration} `{OpsFiles}.
Variable ValidateSelectors : SLISpec -> option string.
Variable host : Host.
Variable session_end : list event -> SessionConfig -> option string.
Variable summary_file : list event -> string -> string + Summary.
Variable slint_token : string.
Variable site : Site.

Abbreviation main := (main ValidateSelectors host session_end summary_file slint_token site).

(** A program that only looks: it notes idle events, promotes nothing, does not
    panic, and exits with 0, 1 or 2. *)
Definition looks (m : prog Shell unit) : Prop := forall s e s', m s = (e, s') ->
  noted idle s s' /\ match e with Returned _ => True | Exited n => n ∈ [0; 1; 2]%Z | Panicked _ => False end.

Lemma looks_keeps m : keeps (noted idle) m -> safe m -> looks m.
Proof.
  intros Hk Hs s e s' Hr. destruct (Hk s) as [Hn Hf]. specialize (Hs s). rewrite Hr in Hn, Hf, Hs. split; [done|].
  destruct e as [x|n|w]; [done| |done]. cbn in Hf. subst n. set_solver.
Qed.

Lemma looks_warned line n : n ∈ [0; 1; 2]%Z -> looks (_ ← warn line; exit n).
Proof. intros Hn s e s'. unfold warn. running. intros [= <- <-]. split; [|done]. apply (warn_noted idle line s). Qed.

Lemma looks_with_flags formal args cmd : (forall g, looks (cmd g)) -> looks (with_flags formal args cmd).
Proof.
  intros Hc. unfold with_flags. destruct (Parse formal ∅ args) as [given rest| |why]; [apply Hc| |].
  - intros s e s' [= <- <-]. split; [reflexivity|]. set_solver.
  - apply looks_warned. set_solver.
Qed.

Lemma looks_subcommand name text known args :
  Forall (fun k => forall args, looks (k.2 args)) known -> looks (subcommand name text known args).
Proof.
  intros Hk. unfold subcommand. destruct args as [|cmd args]; [apply looks_warned; set_solver|].
  destruct (List.find _ known) as [[n run]|] eqn:Ef; [|apply looks_warned; set_solver].
  apply List.find_some in Ef as [Hin _]. rewrite Forall_forall in Hk. by apply (Hk (n, run)), list_elem_of_In.
Qed.

(** ** The commands that only look *)
Lemma say_all_noted P lines : Mild P -> keeps (noted P) (say_all lines).
Proof. intros HP. induction lines; cbn [say_all]; keeping. Qed.

Lemma say_all_safe lines : safe (say_all lines).
Proof. induction lines; cbn [say_all]; safely. Qed.

Lemma warned_safe what r : safe (warned what r).
Proof. destruct r; cbn [warned]; safely. Qed.

Lemma print_idle d : keeps (noted idle) (print d). Proof. by apply note_noted. Qed.
Lemma print_safe d : safe (print d). Proof. by intros s. Qed.

Lemma usage_error_noted {A} msg : keeps (noted idle) (usage_error msg : prog Shell A). Proof. unfold usage_error. keeping. Qed.
Lemma usage_error_safe {A} msg : safe (usage_error msg : prog Shell A). Proof. unfold usage_error. safely. Qed.

Lemma record_rollout_safe dir plan rev : safe (record_rollout host dir plan rev).
Proof. pose proof warned_safe. unfold record_rollout, write_rollout. safely. Qed.

Hint Resolve warned_noted planning_noted record_rollout_noted warn_all_noted say_all_noted print_idle usage_error_noted : prog.
Hint Resolve warned_safe planning_safe record_rollout_safe say_all_safe print_safe usage_error_safe : prog.

Lemma warn_all_safe lines : safe (warn_all lines).
Proof. induction lines; cbn [warn_all]; safely. Qed.
Hint Resolve warn_all_safe : prog.

Lemma cmdPlan_looks fl : looks (cmdPlan host fl).
Proof. apply looks_keeps; unfold cmdPlan, WritePlan, say_revision; cbn zeta; [keeping|safely]. Qed.

Lemma cmdRolloutPlan_looks fl : looks (cmdRolloutPlan host fl).
Proof. apply looks_keeps; unfold cmdRolloutPlan; cbn zeta; [keeping|safely]. Qed.

Lemma cmdStatus_looks id dir : looks (cmdStatus host id dir).
Proof. apply looks_keeps; unfold cmdStatus; [keeping|safely]. Qed.

Lemma cmdRevisionList_looks f dir : looks (cmdRevisionList host f dir).
Proof. apply looks_keeps; unfold cmdRevisionList, list_all; [keeping|safely]. Qed.

Lemma set_state_noted name st : keeps (noted idle) (set_state name st).
Proof.
  apply keeps_update. intros s. split; [exists []; by rewrite app_nil_r|]. by intros id rev.
Qed.
Lemma set_state_safe name st : safe (set_state name st). Proof. by intros s. Qed.
Hint Resolve set_state_noted set_state_safe : prog.

Lemma write_file_idle path doc removes :
  match doc with DStatus _ => False | _ => True end -> keeps (noted idle) (write_file host path doc removes).
Proof. intros Hd. unfold write_file. destruct removes; keeping; by apply note_noted. Qed.
Lemma write_file_safe path doc removes : safe (write_file host path doc removes). Proof. unfold write_file. safely. Qed.
Hint Resolve write_file_idle write_file_safe : prog.

Lemma cmdShadowStatus_looks rel root dir json : looks (cmdShadowStatus host rel root dir json).
Proof. apply looks_keeps; unfold cmdShadowStatus, shadow_now, write_state, list_all; cbn zeta; [keeping|safely]. Qed.

Lemma runOpsInteraction_noted args : keeps (noted idle) (runOpsInteraction args).
Proof. unfold runOpsInteraction. cbn zeta. keeping. Qed.
Lemma runOpsInteraction_safe args : safe (runOpsInteraction args).
Proof. unfold runOpsInteraction. cbn zeta. safely. Qed.
Hint Resolve runOpsInteraction_noted runOpsInteraction_safe : prog.

Lemma cmdOps_looks args : looks (cmdOps args).
Proof. apply looks_keeps; unfold cmdOps; [keeping|safely]. Qed.

(** The subcommands that change nothing but local records. *)
Definition looking : list string := ["plan"; "status"; "revision"; "rollout"; "shadow"; "ops"].

(** C25. A command that only looks -- plan, status, revision, rollout, shadow,
    ops, with any arguments, and any word that is no command -- runs no program,
    applies nothing, promotes nothing, never panics and exits with 0, 1 or 2. *)
Theorem main_looks args s e s' :
  (forall cmd, head args = Some cmd -> cmd ∈ looking \/ cmd ∉ ["deploy"; "verify"; "reconcile"; "release"]) ->
  main args s = (e, s') ->
  noted idle s s' /\ match e with Returned _ => True | Exited n => n ∈ [0; 1; 2]%Z | Panicked _ => False end.
Proof.
  intros Hcmd. revert s e s'. change (looks (main args)). destruct args as [|cmd args].
  { apply looks_warned. set_solver. }
  specialize (Hcmd cmd eq_refl). unfold Main.main. cbn [commands List.find fst].
  unfold looking in Hcmd. repeat (case_bool_decide as Heq; [subst cmd; try (exfalso; set_solver)|clear Heq]).
  - apply looks_with_flags. intros g. apply cmdPlan_looks.
  - apply looks_with_flags. intros g. apply cmdStatus_looks.
  - apply looks_subcommand. constructor; [|constructor]. intros a. apply looks_with_flags. intros g. apply cmdRevisionList_looks.
  - apply looks_subcommand. constructor; [|constructor]. intros a. apply looks_with_flags. intros g. apply cmdRolloutPlan_looks.
  - apply looks_subcommand. constructor; [|constructor]. intros a. apply looks_with_flags. intros g. apply cmdShadowStatus_looks.
  - apply cmdOps_looks.
  - apply looks_keeps; unfold usage; [keeping|safely].
Qed.
End main.
