(* ===== verification/DevSpace.v ===== *)
(** * bori-devspace (cmd/bori-devspace) and theorem

    The developer's gate: every registered app is scraped, smoked, scraped again
    and gated by slint-gate.  The apps are looked for beside the directory of the
    repository, which is looked for above the executable.  Lines printed only
    with -v are left out. *)

From S2P Require Import Prelude.
From S2P Require Import HostSpec.
From S2P Require Import DeployCmdSpec.
From S2P Require Import Text.
From S2P Require Import Process.
From S2P Require Import Flags.
From S2P Require Import Release.
From S2P Require Import Loading.
From S2P Require Import Planner.
From S2P Require Import Revision.
From S2P Require Import Shadow.
From S2P Require Import Deploy.
From S2P Require Import Artifact.
From S2P Require Import Host.
From S2P Require Import Gate.
From S2P Require Import GateRun.
From S2P Require Import Measure.
From S2P Require Import VerifyCmd.
From S2P Require Import VerifySpec.
From S2P Require Import Main.

Record DevFlags := {
  gf_profile : string;
  gf_apps_dir : string;
  gf_smoke_cmd : string;
  gf_smoke_wait : Duration;
  gf_out : string;
  gf_slint_gate : string;
}.

Definition dev_formal : gmap string flag_kind :=
  <["smoke-wait" := DurationFlag]> (with_bools ["v"] (strings ["profile"; "apps-dir"; "smoke-cmd"; "out"; "slint-gate"])).

Definition dev_flags (g : gmap string flag_value) : DevFlags :=
  Build_DevFlags (string_flag g "profile" "devspace") (string_flag g "apps-dir" "") (string_flag g "smoke-cmd" "")
    (duration_flag g "smoke-wait" (10 * Second)%Z) (string_flag g "out" "bori-gate-output") (string_flag g "slint-gate" "slint-gate").

Section devspace.
Context `{GoText} `{Files} `{DeployFiles} `{ParseFloat} `{MapRange} `{VerifyFiles}.
Variable host : Host.

Abbreviation run A := (prog Shell A) (only parsing).
Abbreviation vrun A := (prog (Shell * RunStatus) A) (only parsing).

(** discoverApps and scrapeMetrics *)
Definition app_target (c : Component) : Target := Build_Target (cc_Namespace c) (cc_Name c) (cc_Port c) (cc_MetricsPath c).

(** compStatuses and overall *)
Record Evaluated := { el_statuses : list CompStatus; el_overall : string }.

Definition add_status (p : Evaluated) (cs : CompStatus) (result : string) : Evaluated :=
  Build_Evaluated (el_statuses p ++ [cs]) (Max (el_overall p) result).

(** An app that could not be evaluated: its status stays NO_GRADE. *)
Definition skip_app (p : Evaluated) (c : Component) (what err result : string) : run Evaluated :=
  _ ← warn ("[bori] " +:+ cc_Name c +:+ ": " +:+ what +:+ ": " +:+ err);
  mret (add_status p (Build_CompStatus (cc_Name c) GateResultNoGrade err) result).

Definition gate_request (fl : DevFlags) (c : Component) (policyPath : string) (preAt postAt : Time) (before after : gmap string float64) :
    RunRequest :=
  Build_RunRequest (gf_profile fl) (cc_Name c) policyPath (Build_AppSnapshot preAt before) (Build_AppSnapshot postAt after)
    (path_join [gf_out fl; cc_Name c]).

Definition evaluate_app (fl : DevFlags) (p : Evaluated) (app : RegisteredApp) : run Evaluated :=
  let c := ra_Comp app in
  let policyPath := path_join [ra_BoriDir app; "policy." +:+ gf_profile fl +:+ ".yaml"] in
  st ← stat host policyPath;
  match st with
  | Absent => mret p
  | _ =>
      before ← ScrapeMetrics host (app_target c);
      match before with
      | inl err => skip_app p c "pre-smoke scrape" err GateResultNoGrade
      | inr before =>
          preAt ← now host;
          smoked ← runSmoke host (gf_smoke_cmd fl) (gf_smoke_wait fl);
          match smoked with
          | Some err => skip_app p c "smoke" err GateResultFail
          | None =>
              after ← ScrapeMetrics host (app_target c);
              match after with
              | inl err => skip_app p c "post-smoke scrape" err GateResultNoGrade
              | inr after =>
                  postAt ← now host;
                  result ← GateRunner_Run host (gf_slint_gate fl) (gate_request fl c policyPath preAt postAt before after);
                  match result with
                  | inl err => skip_app p c "gate" err GateResultNoGrade
                  | inr r =>
                      _ ← say ("[bori] " +:+ pad_right 20 (cc_Name c) +:+ " " +:+ rx_GateResult r +:+ " — " +:+ rx_Message r);
                      mret (add_status p (Build_CompStatus (cc_Name c) (rx_GateResult r) (rx_Message r)) (rx_GateResult r))
                  end
              end
          end
      end
  end.

Definition failed_names (css : list CompStatus) : list string :=
  ct_Name <$> List.filter (fun cs => bool_decide (ct_GateResult cs = GateResultFail)) css.

Definition dev_body (fl : DevFlags) (appsDir : string) : vrun unit :=
  found ← lift (Discover host appsDir);
  match found with
  | inl err => _ ← lift (warn ("[bori] discover apps: " +:+ err)); exit 1
  | inr [] =>
      _ ← lift (warn "[bori] no .bori/component.yaml files found — nothing to evaluate");
      _ ← set_status (set_outcome "Verified" GateResultPass []);
      exit 0
  | inr apps =>
      p ← lift (fold_prog (evaluate_app fl) (Build_Evaluated [] GateResultPass) apps);
      let overall := el_overall p in
      _ ← set_status (set_outcome (verified_phase overall) overall (el_statuses p));
      _ ← lift (say ("[bori] overall: " +:+ overall));
      if IsBlocking overall FailOnFail then
        _ ← lift (say ("[bori] failed: " +:+ join ", " (failed_names (el_statuses p)))); exit 1
      else mret tt
  end.

Definition dev_status (fl : DevFlags) (runID : string) (startedAt : Time) : RunStatus :=
  Build_RunStatus "bori.run.v1" runID "" "" (gf_profile fl) startedAt 0 "Failed" "NO_GRADE" [].

(** The loop of boriRoot, with fuel: a directory is longer than its parent. *)
Fixpoint climb (fuel : nat) (dir : string) : run string :=
  match fuel with
  | O => mret "."
  | S fuel =>
      found ← stat host (path_join [dir; "devspace.yaml"]);
      match found with
      | Present => mret dir
      | _ => let parent := path_dir dir in if bool_decide (parent = dir) then mret "." else climb fuel parent
      end
  end.

Definition boriRoot : run string :=
  match h_executable host with
  | None => mret "."
  | Some exe => let dir := path_dir exe in climb (S (String.length dir)) dir
  end.

Definition apps_dir (fl : DevFlags) : run string :=
  if bool_decide (gf_apps_dir fl = "") then root ← boriRoot; mret (path_join [root; ".."]) else mret (gf_apps_dir fl).

Definition devspace (fl : DevFlags) : run unit :=
  appsDir ← apps_dir fl;
  t0 ← now host;
  startedAt ← now host;
  with_var (dev_status fl (format_second t0) startedAt) (deferring (writeStatus host (gf_out fl)) (dev_body fl appsDir)).

Definition devspace_main `{ParseDuration} (args : list string) : run unit :=
  with_flags dev_formal args (fun g => devspace (dev_flags g)).
End devspace.

(** * What bori-devspace records

    Its status.json is written when it returns and when it panics, but not on
    the exits that report a failure. *)

Section devspace.
Context `{GoText} `{Files} `{DeployFiles} `{ParseFloat} `{MapRange} `{VerifyFiles}.
Variable host : Host.

Lemma GateRunner_Run_quiet bin req : keeps quiet (GateRunner_Run host bin req).
Proof. unfold GateRunner_Run. keeping. Qed.
Hint Resolve GateRunner_Run_quiet : prog.

Lemma evaluate_app_quiet fl p app : keeps quiet (evaluate_app host fl p app).
Proof. unfold evaluate_app, skip_app. cbn zeta. keeping. Qed.
Hint Resolve evaluate_app_quiet : prog.

Lemma discover_apps_quiet dir : keeps quiet (Discover host dir).
Proof. unfold Discover, discover_one. keeping. Qed.

(** ** The root of the repository *)
Definition has_devspace (s : Shell) (dir : string) : Prop :=
  h_stat host (ps_log s) (path_join [dir; "devspace.yaml"]) = Present.

#[export] Instance has_devspace_dec s dir : Decision (has_devspace s dir).
Proof. unfold has_devspace. destruct (h_stat _ _ _); [by left|by right..]. Defined.

(** The nearest of the directories above with the file. *)
Definition nearest (s : Shell) (es : list string) (dir : string) : Prop :=
  (exists up down, es = up ++ down /\ dir = rooted_path up /\ has_devspace s dir /\
     forall pre, pre `prefix_of` es -> length up < length pre -> ~ has_devspace s (rooted_path pre)) \/
  (dir = "." /\ forall pre, pre `prefix_of` es -> ~ has_devspace s (rooted_path pre)).

Lemma climb_nearest s es fuel : Forall plain_element es -> length es < fuel ->
  exists dir, climb host fuel (rooted_path es) s = (Returned dir, s) /\ nearest s es dir.
Proof.
  revert fuel. induction es as [|e es IH] using rev_ind; intros [|fuel] Hes Hf; [lia| |lia|].
  - cbn [climb]. unfold stat, log. running. fold (has_devspace s (rooted_path [])).
    destruct (decide (has_devspace s (rooted_path []))) as [Hd|Hd].
    + rewrite Hd. eexists. split; [done|]. left. exists [], []. split_and!; [done..|].
      intros pre Hp%prefix_nil_inv Hl. subst pre. cbn in Hl. lia.
    + exists ".". split; [by unfold has_devspace in Hd; destruct (h_stat _ _ _)|]. right. split; [done|]. by intros pre ->%prefix_nil_inv.
  - cbn [climb]. unfold stat, log. running. rewrite path_dir_rooted by done.
    destruct (decide (has_devspace s (rooted_path (es ++ [e])))) as [Hd|Hd].
    + rewrite Hd. eexists. split; [done|]. left. exists (es ++ [e]), []. rewrite app_nil_r. split_and!; [done..|].
      intros pre Hp%prefix_length Hl. lia.
    + rewrite bool_decide_eq_false_2.
      2: { intros E%rooted_inj; [|by apply Forall_app in Hes as [? _]|done]. apply (f_equal length) in E. rewrite length_app in E. cbn in E. lia. }
      destruct (IH fuel) as (dir & Hr & Hn); [by apply Forall_app in Hes as [? _]|rewrite length_app in Hf; cbn in Hf; lia|].
      exists dir. split; [by unfold has_devspace in Hd; destruct (h_stat _ _ _)|].
      assert (forall pre, pre `prefix_of` es ++ [e] -> pre `prefix_of` es \/ pre = es ++ [e]) as Hpre.
      { intros pre (k & Hk). destruct k as [|x k _] using rev_ind; [right; by rewrite app_nil_r in Hk|left].
        rewrite app_assoc in Hk. apply app_inj_tail in Hk as [-> _]. by exists k. }
      destruct Hn as [(up & down & -> & -> & Hu & Hno)|[-> Hno]].
      * left. exists up, (down ++ [e]). rewrite app_assoc. split_and!; [done..|].
        intros pre [Hp| ->]%Hpre Hl; [by apply Hno|done].
      * right. split; [done|]. intros pre [Hp| ->]%Hpre; [by apply Hno|done].
Qed.

(** The root that is found is the nearest directory above the executable that
    holds devspace.yaml, and "." when there is none; looking for it changes
    nothing, and the fuel is enough. *)
Theorem boriRoot_spec s es name : Forall plain_element (es ++ [name]) -> h_executable host = Some (rooted_path (es ++ [name])) ->
  exists dir, boriRoot host s = (Returned dir, s) /\ nearest s es dir.
Proof.
  intros Hes He. unfold boriRoot. rewrite He, path_dir_rooted by done. apply Forall_app in Hes as [Hes _].
  apply climb_nearest; [done|]. pose proof (rooted_length _ Hes). lia.
Qed.

Lemma climb_run fuel dir s : exists root, climb host fuel dir s = (Returned root, s).
Proof.
  revert dir. induction fuel as [|fuel IH]; intros dir; cbn [climb]; [by eexists|]. unfold stat, log. running.
  destruct (h_stat _ _ _); [by eexists|destruct (bool_decide _); [by eexists|apply IH]..].
Qed.

Lemma apps_dir_run fl s : exists dir, apps_dir host fl s = (Returned dir, s).
Proof.
  unfold apps_dir, boriRoot. destruct (bool_decide _); [|by eexists]. destruct (h_executable host) as [exe|]; [|by eexists].
  rewrite bind_run. destruct (climb_run (S (String.length (path_dir exe))) (path_dir exe) s) as [root ->]. by eexists.
Qed.

(** A status whose run did not fail, and says so. *)
Definition not_failed (st : RunStatus) : Prop :=
  IsBlocking (ru_Result st) FailOnFail = false /\ ru_Phase st = verified_phase (ru_Result st).

(** The status of a run that did not get to its end. *)
Definition unfinished (st : RunStatus) : Prop := ru_Phase st = "Failed" /\ ru_Result st = GateResultNoGrade.

Definition body_ends (s : Shell) (st0 : RunStatus) (e : ending unit) (s1 : Shell) (st1 : RunStatus) : Prop :=
  quiet s s1 /\
  match e with Returned _ => not_failed st1 | Exited n => n = 0%Z \/ n = 1%Z | Panicked _ => st1 = st0 end.

Lemma dev_body_ends fl dir s st0 e s1 st1 : dev_body host fl dir (s, st0) = (e, (s1, st1)) -> body_ends s st0 e s1 st1.
Proof.
  unfold dev_body. rewrite bind_run. unfold lift at 1. pose proof (discover_apps_quiet dir s) as [Q1 F1].
  destruct (Discover host dir s) as [[found|n|w] s2] eqn:Ed; cbn [fst snd] in *.
  2: { intros [= <- <- <-]. split; [done|]. right. exact F1. }
  2: { by intros [= <- <- <-]. }
  destruct found as [err|[|app apps]].
  - rewrite bind_run. unfold lift, warn. running. intros [= <- <- <-]. split; [|by right]. etrans; [exact Q1|].
    by apply (warn_quiet _ s2).
  - rewrite bind_run. unfold lift, warn, set_status, update. running. intros [= <- <- <-]. split; [|by left].
    etrans; [exact Q1|]. by apply (warn_quiet _ s2).
  - rewrite bind_run. unfold lift at 1. set (m := fold_prog _ _ _).
    assert (keeps quiet m) as Hm by (unfold m; keeping).
    pose proof (Hm s2) as [Q2 F2]. destruct (m s2) as [[p|n|w] s3]; cbn [fst snd] in *.
    2: { intros [= <- <- <-]. split; [by etrans|]. right. exact F2. }
    2: { intros [= <- <- <-]. split; [by etrans|done]. }
    rewrite bind_run. unfold set_status, update. rewrite bind_run. unfold lift at 1, say at 1. running. cbn [fst snd].
    set (s4 := Build_Shell _ _).
    assert (quiet s s4) as Q4. { etrans; [exact Q1|]. etrans; [exact Q2|]. apply (say_quiet _ s3). }
    destruct (IsBlocking (el_overall p) FailOnFail) eqn:Eb.
    + rewrite bind_run. unfold lift, say. running. intros [= <- <- <-]. split; [|by right]. etrans; [exact Q4|].
      apply (say_quiet _ s4).
    + intros [= <- <- <-]. split; [exact Q4|]. by split.
Qed.

(** bori-devspace writes a status only of a run that did not fail, or, when
    it panics, of one that did not get to its end: an exit, with 0 or 1, leaves
    none. *)
Theorem devspace_records fl s e s' :
  devspace host fl s = (e, s') ->
  exists l, ps_log s' = ps_log s ++ l /\
  match e with
  | Returned _ => Forall not_failed (omap status_of l)
  | Exited n => omap status_of l = [] /\ (n = 0%Z \/ n = 1%Z)
  | Panicked _ => Forall unfinished (omap status_of l)
  end.
Proof.
  unfold devspace. rewrite bind_run. destruct (apps_dir_run fl s) as [dir ->]. cbn beta match.
  rewrite bind_run, now_run. cbn beta match. rewrite bind_run, now_run. cbn beta match.
  set (t0 := h_now host _). set (t1 := h_now host _). set (s1 := Build_Shell _ (ps_disk s)). set (s2 := Build_Shell _ (ps_disk s1)).
  unfold with_var, deferring. set (st0 := dev_status _ _ _).
  assert (quiet s s2) as Q0 by (by etrans; [apply (now_quiet host s)|apply (now_quiet host s1)]).
  destruct (dev_body host fl dir (s2, st0)) as [e3 [s3 st3]] eqn:Eb. apply dev_body_ends in Eb as [Q3 He].
  assert (quiet s s3) as (l3 & E3 & O3) by by etrans.
  assert (forall P : RunStatus -> Prop, (forall t, P (set_finished t st3)) -> forall f : unit -> prog (Shell * RunStatus) unit, 
    (forall u p, (f u p).2 = p) -> exists l, ps_log ((writeStatus host (gf_out fl) ≫= f) (s3, st3)).2.1 = ps_log s ++ l /\ Forall P (omap status_of l)) as Hw.
  { intros P HP f Hf. destruct (writeStatus_run host (gf_out fl) s3 st3) as (t & s4 & Hw & ((l4 & E4 & F4) & _)).
    exists (l3 ++ l4). rewrite bind_run, Hw. rewrite Hf. cbn [fst]. rewrite E4, E3, <- app_assoc. split; [done|].
    rewrite omap_app, O3. cbn [app]. clear -F4 HP. induction F4 as [|ev l [_ Hev] _ IH]; [constructor|]. cbn.
    destruct Hev as [-> | ->]; [done|]. by constructor. }
  destruct e3 as [[]|n|w].
  - destruct (Hw not_failed ltac:(by intros t; destruct He) (fun u => mret u) ltac:(done)) as (l & El & Hl).
    destruct (writeStatus_run host (gf_out fl) s3 st3) as (t & s4 & Hws & _). rewrite bind_run, Hws in *. intros [= <- <-].
    by exists l.
  - intros [= <- <-]. exists l3. by split; [|split].
  - subst st3. destruct (Hw unfinished ltac:(done) (fun u => panic w) ltac:(done)) as (l & El & Hl).
    destruct (writeStatus_run host (gf_out fl) s3 st0) as (t & s4 & Hws & _). rewrite bind_run, Hws in *. intros [= <- <-].
    by exists l.
Qed.
End devspace.
