(* ===== verification/ActionTest.v ===== *)
(** * The reference actor and its helpers (pkg/action/actiontest)

    A provider that executes each key at most once, an approval identity by
    HMAC, a source of decisions and a journal whose writes can be made to fail.
    HMAC-SHA-256 is a parameter.  The calls of OnExecute are a list of the
    hand-offs executed. *)

From S2P Require Import Prelude.
From S2P Require Import Identity.
From S2P Require Import Predicate.
From S2P Require Import Contract.
From S2P Require Import Assessment.
From S2P Require Import Evaluator.
From S2P Require Import Profile.
From S2P Require Import ActionTypes.
From S2P Require Import Journal.
From S2P Require Import Proposal.
From S2P Require Import Recovery.
From S2P Require Import Engine.

(** ** Actor *)
Inductive Behaviour := Succeed | Failing | AcceptOnly | Refuse | Silent.

#[export] Instance Behaviour_eq_dec : EqDecision Behaviour.
Proof. solve_decision. Defined.

Record job := { jb_Handoff : Handoff; jb_Fence : N; jb_Behaviour : Behaviour; jb_polls : Z }.

Record Actor := {
  an_Default : Behaviour;
  an_PerAction : gmap string Behaviour;
  an_LoseReceipts : Z;
  an_DropSubmits : Z;
  an_highFence : N;
  an_jobs : gmap string job;
  an_Handoffs : list Handoff;
  an_Rejected : Z;
  an_Executions : gmap string Z;
  an_Forge : list Result;
  an_Executed : list Handoff;
}.

Definition NewActor (b : Behaviour) : Actor := Build_Actor b ∅ 0 0 0 ∅ [] 0 ∅ [] [].

Definition set_drops (n : Z) (a : Actor) : Actor :=
  Build_Actor (an_Default a) (an_PerAction a) (an_LoseReceipts a) n (an_highFence a) (an_jobs a) (an_Handoffs a) (an_Rejected a)
    (an_Executions a) (an_Forge a) (an_Executed a).

Definition set_losses (n : Z) (a : Actor) : Actor :=
  Build_Actor (an_Default a) (an_PerAction a) n (an_DropSubmits a) (an_highFence a) (an_jobs a) (an_Handoffs a) (an_Rejected a)
    (an_Executions a) (an_Forge a) (an_Executed a).

(** A hand-off arrives. *)
Definition arrived (h : Handoff) (a : Actor) : Actor :=
  Build_Actor (an_Default a) (an_PerAction a) (an_LoseReceipts a) (an_DropSubmits a) (an_highFence a) (an_jobs a)
    (an_Handoffs a ++ [h]) (an_Rejected a) (an_Executions a) (an_Forge a) (an_Executed a).

Definition rejected (a : Actor) : Actor :=
  Build_Actor (an_Default a) (an_PerAction a) (an_LoseReceipts a) (an_DropSubmits a) (an_highFence a) (an_jobs a)
    (an_Handoffs a) (an_Rejected a + 1) (an_Executions a) (an_Forge a) (an_Executed a).

Definition set_fence (f : N) (a : Actor) : Actor :=
  Build_Actor (an_Default a) (an_PerAction a) (an_LoseReceipts a) (an_DropSubmits a) f (an_jobs a)
    (an_Handoffs a) (an_Rejected a) (an_Executions a) (an_Forge a) (an_Executed a).

Definition set_job (k : string) (j : job) (a : Actor) : Actor :=
  Build_Actor (an_Default a) (an_PerAction a) (an_LoseReceipts a) (an_DropSubmits a) (an_highFence a) (<[k := j]> (an_jobs a))
    (an_Handoffs a) (an_Rejected a) (an_Executions a) (an_Forge a) (an_Executed a).

Definition execute_handoff (h : Handoff) (a : Actor) : Actor :=
  Build_Actor (an_Default a) (an_PerAction a) (an_LoseReceipts a) (an_DropSubmits a) (an_highFence a) (an_jobs a)
    (an_Handoffs a) (an_Rejected a) (<[h_Key h := (default 0 (an_Executions a !! h_Key h) + 1)%Z]> (an_Executions a))
    (an_Forge a) (an_Executed a ++ [h]).

Definition set_forge (rs : list Result) (a : Actor) : Actor :=
  Build_Actor (an_Default a) (an_PerAction a) (an_LoseReceipts a) (an_DropSubmits a) (an_highFence a) (an_jobs a)
    (an_Handoffs a) (an_Rejected a) (an_Executions a) rs (an_Executed a).

Definition behaviour_of (a : Actor) (h : Handoff) : Behaviour :=
  default (an_Default a) (an_PerAction a !! ActionRef_String (h_Action h)).

Definition actor_ref (key : string) : string := "actor:" +:+ key.

(** The job of the key: the one held, or a new one, executed unless refused.
    Its fence is that of the latest hand-off. *)
Definition take_on (b : Behaviour) (h : Handoff) (a : Actor) : job * Actor :=
  match an_jobs a !! h_Key h with
  | Some j =>
      let j := Build_job (jb_Handoff j) (h_Fence h) (jb_Behaviour j) (jb_polls j) in (j, set_job (h_Key h) j a)
  | None =>
      let j := Build_job h (h_Fence h) b 0 in
      let a := set_job (h_Key h) j a in
      (j, if bool_decide (b = Refuse) then a else execute_handoff h a)
  end.

(** [None] is an error. *)
Definition actor_Submit (h : Handoff) (a : Actor) : option Receipt * Actor :=
  if Z.ltb 0 (an_DropSubmits a) then (None, set_drops (an_DropSubmits a - 1) a)
  else
    let a := arrived h a in
    if N.ltb (h_Fence h) (an_highFence a) then (None, rejected a)
    else
      let a := set_fence (h_Fence h) a in
      let b := behaviour_of a h in
      if bool_decide (b = Silent) then (None, a)
      else
        let '(j, a) := take_on b h a in
        let rc := Build_Receipt (h_Key h) (h_Fence h) (h_Digest h) (negb (bool_decide (jb_Behaviour j = Refuse)))
                    (actor_ref (h_Key h)) in
        if Z.ltb 0 (an_LoseReceipts a) then (None, set_losses (an_LoseReceipts a - 1) a) else (Some rc, a).

Definition state_of (b : Behaviour) : string :=
  match b with
  | Succeed => ResultSucceeded
  | Failing => ResultFailed
  | Refuse => ResultRefused
  | _ => ResultPending
  end.

Definition actor_Result (key : string) (a : Actor) : Result * Actor :=
  match an_Forge a with
  | f :: fs => (f, set_forge fs a)
  | [] =>
      match an_jobs a !! key with
      | None => (Build_Result key 0 "" ResultUnknown "", a)
      | Some j =>
          let j := Build_job (jb_Handoff j) (jb_Fence j) (jb_Behaviour j) (jb_polls j + 1) in
          (Build_Result key (jb_Fence j) (h_Digest (jb_Handoff j)) (state_of (jb_Behaviour j)) (actor_ref key), set_job key j a)
      end
  end.

Definition Settle (key : string) (b : Behaviour) (a : Actor) : Actor :=
  match an_jobs a !! key with
  | Some j => set_job key (Build_job (jb_Handoff j) (jb_Fence j) b (jb_polls j)) a
  | None => a
  end.

Definition Live (key : string) (a : Actor) : bool :=
  match an_jobs a !! key with Some j => bool_decide (jb_Behaviour j = AcceptOnly) | None => false end.

Definition Ended (key : string) (a : Actor) : bool :=
  match an_jobs a !! key with
  | Some j => bool_decide (jb_Behaviour j = Succeed) || bool_decide (jb_Behaviour j = Failing)
  | None => false
  end.

Definition TotalExecutions (a : Actor) : Z := map_fold (fun _ c n => (n + c)%Z) 0%Z (an_Executions a).

Definition ExecutedKeys `{SortSlice} (a : Actor) : list string := sort_strings (elements (dom (an_Executions a))).

(** The calls of an actor. *)
Inductive actor_call := CallSubmit (h : Handoff) | CallResult (key : string) | CallSettle (key : string) (b : Behaviour).

Definition actor_step (a : Actor) (c : actor_call) : Actor :=
  match c with
  | CallSubmit h => (actor_Submit h a).2
  | CallResult key => (actor_Result key a).2
  | CallSettle key b => Settle key b a
  end.

(** ** The actor as the provider of an engine: it answers after the calls that
    are in the engine's log *)
Definition actor_event (a : Actor) (ev : Event) : Actor :=
  match ev with
  | EvPut _ _ => a
  | EvSubmit _ h _ => actor_step a (CallSubmit h)
  | EvResult _ key _ => actor_step a (CallResult key)
  end.

Definition replay (a : Actor) (log : list Event) : Actor := foldl actor_event a log.

Definition actor_providers (a : Actor) : Providers := {|
  Submit log _ h := (actor_Submit h (replay a log)).1;
  ProviderResult log _ key := Some (actor_Result key (replay a log)).1;
|}.

(** ** Signer *)
Class Hmac := { hmac_sha256 : string -> string -> string }.

Section signer.
Context `{Hmac}.

(** %d of UnixNano. *)
Definition payload (d : Decision_) : string :=
  d_ID d +:+ "|" +:+ d_ProposalID d +:+ "|" +:+ d_Digest d +:+ "|" +:+ d_Principal d +:+ "|" +:+ d_Verdict d +:+ "|" +:+
  pretty (d_DecidedAt d).

Definition Sign (d : Decision_) (key : string) : Decision_ :=
  Build_Decision_ (d_ID d) (d_ProposalID d) (d_Digest d) (d_Principal d) (d_Verdict d) (d_DecidedAt d) (hmac_sha256 key (payload d)).

(** The keys by principal. *)
Definition Verify (keys : gmap string string) (d : Decision_) : bool :=
  match keys !! d_Principal d with
  | Some k => negb (bool_decide (d_Proof d = "")) && bool_decide (hmac_sha256 k (payload d) = d_Proof d)
  | None => false
  end.
End signer.

(** ** Decisions *)
Definition Add_decision (d : Decision_) (ds : list Decision_) : list Decision_ := ds ++ [d].
Definition Remove_decisions (matches : Decision_ -> bool) (ds : list Decision_) : list Decision_ :=
  List.filter (fun d => negb (matches d)) ds.

(** ** FaultJournal: [fj_FailPhase] is [None] when it is empty *)
Record FaultJournal (J : Type) := {
  fj_Journal : J;
  fj_FailPuts : Z;
  fj_FailPhase : option Phase;
  fj_Failed : Z;
}.
Arguments Build_FaultJournal {J}. Arguments fj_Journal {J}. Arguments fj_FailPuts {J}. Arguments fj_FailPhase {J}. Arguments fj_Failed {J}.

Section fault_journal.
Context {J : Type} `{Journal J}.

Definition with_journal (f : FaultJournal J) (j : J) : FaultJournal J :=
  Build_FaultJournal j (fj_FailPuts f) (fj_FailPhase f) (fj_Failed f).

Definition injected (f : FaultJournal J) (r : AttemptRecord) : bool :=
  Z.ltb 0 (fj_FailPuts f) || bool_decide (fj_FailPhase f = Some (RPhase r)).

Definition fault_Put (r : AttemptRecord) (f : FaultJournal J) : (put_error + AttemptRecord) * FaultJournal J :=
  let fail := injected f r in
  let f := Build_FaultJournal (fj_Journal f) (if Z.ltb 0 (fj_FailPuts f) then fj_FailPuts f - 1 else fj_FailPuts f)
             (fj_FailPhase f) (if fail then fj_Failed f + 1 else fj_Failed f) in
  if fail then (inl ErrStore, f)
  else let '(r, j) := Put r (fj_Journal f) in (r, with_journal f j).

#[export] Instance fault_journal : Journal (FaultJournal J) := {|
  Durable f := Durable (fj_Journal f);
  Epoch f := let '(e, j) := Epoch (fj_Journal f) in (e, with_journal f j);
  List_ f := let '(l, j) := List_ (fj_Journal f) in (l, with_journal f j);
  Put := fault_Put;
|}.
End fault_journal.

(** * What the reference actor and its helpers promise

    The actor executes every key at most once, in the order of fences, whatever
    is submitted; a journal with injected faults is still lawful, so what is
    proved of the engine and of fleets holds with failing writes; and a decision
    is verified exactly when it bears the proof of its principal's key. *)

Definition executed_keys (a : Actor) : list string := h_Key <$> an_Executed a.

(** Nothing was handed to the actor yet. *)
Record unused (a : Actor) : Prop := {
  un_jobs : an_jobs a = ∅;
  un_Handoffs : an_Handoffs a = [];
  un_Executions : an_Executions a = ∅;
  un_Executed : an_Executed a = [];
}.

Record actor_ok (a : Actor) : Prop := {
  ao_executions : forall k, an_Executions a !! k = if bool_decide (k ∈ executed_keys a) then Some 1%Z else None;
  ao_once : NoDup (executed_keys a);
  ao_jobs : forall k, k ∈ executed_keys a -> is_Some (an_jobs a !! k);
  ao_delivered : an_Executed a `sublist_of` an_Handoffs a;
  ao_fences : StronglySorted N.le (h_Fence <$> an_Executed a);
  ao_newest : Forall (fun h => (h_Fence h <= an_highFence a)%N) (an_Executed a);
}.

Lemma unused_ok a : unused a -> actor_ok a.
Proof.
  intros [Hj Hh He Hx]. split; unfold executed_keys; rewrite ?Hj, ?Hh, ?He, ?Hx; cbn; try constructor.
  intros k Hk. by apply elem_of_nil in Hk.
Qed.

Lemma set_job_ok k j a : actor_ok a -> actor_ok (set_job k j a).
Proof.
  intros [H1 H2 H3 H4 H5 H6]. split; try done. intros k' Hk. cbn. destruct (decide (k = k')) as [<-|Hne].
  - by rewrite lookup_insert_eq.
  - rewrite lookup_insert_ne by done. by apply H3.
Qed.

Lemma StronglySorted_snoc_le l x : StronglySorted N.le l -> Forall (fun y => (y <= x)%N) l -> StronglySorted N.le (l ++ [x]).
Proof.
  induction 1 as [|y l Hs IH Hy]; intros Hx; cbn; [by repeat constructor|]. apply Forall_cons in Hx as [Hyx Hx].
  constructor; [by apply IH|]. apply Forall_app. split; [done|by constructor].
Qed.

Lemma actor_Submit_ok h a : actor_ok a -> actor_ok (actor_Submit h a).2.
Proof.
  intros Hok. unfold actor_Submit. destruct (Z.ltb 0 (an_DropSubmits a)); [by destruct Hok|].
  assert (actor_ok (arrived h a)) as Ha.
  { destruct Hok as [H1 H2 H3 H4 H5 H6]. split; try done. cbn. by apply sublist_inserts_r. }
  destruct (N.ltb_spec (h_Fence h) (an_highFence (arrived h a))) as [Hlt|Hle]; [by destruct Ha|].
  set (a1 := set_fence (h_Fence h) (arrived h a)).
  assert (actor_ok a1) as Ha1.
  { destruct Ha as [H1 H2 H3 H4 H5 H6]. split; try done. cbn in *. eapply Forall_impl; [exact H6|]. cbn. lia. }
  case_bool_decide; [done|].
  assert (actor_ok (take_on (behaviour_of a1 h) h a1).2) as Ht.
  { unfold take_on. destruct (an_jobs a1 !! h_Key h) as [j|] eqn:Ej; [by apply set_job_ok|]. cbn [snd].
    set (j := Build_job h (h_Fence h) (behaviour_of a1 h) 0). pose proof (set_job_ok (h_Key h) j a1 Ha1) as Hs.
    case_bool_decide; [done|]. destruct Hs as [H1 H2 H3 H4 H5 H6].
    assert (h_Key h ∉ executed_keys a1) as Hnew. { intros Hin. apply (ao_jobs _ Ha1) in Hin as [? Hin]. by rewrite Ej in Hin. }
    split; unfold executed_keys in *; cbn [an_Executed an_Executions an_jobs an_Handoffs an_highFence execute_handoff set_job] in *.
    - intros k. rewrite fmap_app. cbn [fmap list_fmap]. destruct (decide (k = h_Key h)) as [->|Hne].
      + rewrite lookup_insert_eq, H1, bool_decide_eq_false_2, bool_decide_eq_true_2 by (done || set_solver). done.
      + rewrite lookup_insert_ne, H1 by done. apply (f_equal (fun b : bool => if b then Some 1%Z else None)). apply bool_decide_ext. set_solver.
    - rewrite fmap_app. apply NoDup_app. split; [done|]. split; [|apply NoDup_singleton]. intros k Hk ->%list_elem_of_singleton. done.
    - intros k. rewrite fmap_app. intros [Hk|Hk]%elem_of_app; [by apply H3|]. apply list_elem_of_singleton in Hk as ->.
      by rewrite lookup_insert_eq.
    - apply (sublist_app (an_Executed a) (an_Handoffs a) [h] [h]); [apply (ao_delivered _ Hok)|done].
    - rewrite fmap_app. apply StronglySorted_snoc_le; [done|]. apply Forall_fmap. exact H6.
    - apply Forall_app. split; [exact H6|]. by constructor. }
  destruct (take_on (behaviour_of a1 h) h a1) as [j a2]. cbn [snd] in Ht. destruct (Z.ltb 0 (an_LoseReceipts a2)); [by destruct Ht|done].
Qed.

Lemma actor_step_ok a c : actor_ok a -> actor_ok (actor_step a c).
Proof.
  intros Hok. destruct c as [h|key|key b]; cbn [actor_step].
  - by apply actor_Submit_ok.
  - unfold actor_Result. destruct (an_Forge a); [|by destruct Hok]. destruct (an_jobs a !! key); [by apply set_job_ok|done].
  - unfold Settle. destruct (an_jobs a !! key); [by apply set_job_ok|done].
Qed.

Lemma actor_run_ok cs a : actor_ok a -> actor_ok (foldl actor_step a cs).
Proof. revert a. induction cs as [|c cs IH]; intros a Hok; cbn; [done|]. by apply IH, actor_step_ok. Qed.

(** Whatever is submitted, polled and settled, and however deliveries and
    receipts are lost: the actor executes each key at most once, only what was
    delivered to it, and never after a hand-off of a newer fence. *)
Theorem Actor_once a cs :
  unused a -> let a' := foldl actor_step a cs in
  NoDup (executed_keys a') /\
  (forall k, an_Executions a' !! k = if bool_decide (k ∈ executed_keys a') then Some 1%Z else None) /\
  an_Executed a' `sublist_of` an_Handoffs a' /\
  StronglySorted N.le (h_Fence <$> an_Executed a') /\ Forall (fun h => (h_Fence h <= an_highFence a')%N) (an_Executed a').
Proof. intros Hu. destruct (actor_run_ok cs a (unused_ok a Hu)). by split_and!. Qed.

(** ** The faulty journal is lawful *)
Section fault_journal.
Context {J : Type} `{!Journal J} `{!JournalLaws J}.

#[export] Instance fault_journal_laws : JournalLaws (FaultJournal J).
Proof.
  refine {| journal_ok f := journal_ok (fj_Journal f); newest f := newest (fj_Journal f); contents f := contents (fj_Journal f) |}.
  - intros f k r. apply key_law.
  - intros f ep f' Hok. cbn. destruct (Epoch (fj_Journal f)) as [e j] eqn:E. intros [= -> <-]. by apply (epoch_law _ _ _ Hok).
  - intros f f' Hok. cbn. destruct (Epoch (fj_Journal f)) as [e j] eqn:E. intros [= -> <-]. by apply (epoch_error_law _ _ Hok).
  - intros f l f' Hok. cbn. destruct (List_ (fj_Journal f)) as [e j] eqn:E. intros [= -> <-]. by apply (list_law _ _ _ Hok).
  - intros f f' Hok. cbn. destruct (List_ (fj_Journal f)) as [e j] eqn:E. intros [= -> <-]. by apply (list_error_law _ _ Hok).
  - intros r f r' f' Hok. cbn. unfold fault_Put. destruct (injected f r); [done|]. cbn.
    destruct (Put r (fj_Journal f)) as [p j] eqn:E. intros [= -> <-]. by apply (put_law _ _ _ _ Hok).
  - intros r f e f' Hok. cbn. unfold fault_Put. destruct (injected f r); [by intros [= _ <-]|]. cbn.
    destruct (Put r (fj_Journal f)) as [p j] eqn:E. intros [= -> <-]. by apply (put_error_law r (fj_Journal f) e j Hok).
Defined.

(** Injecting write failures keeps a lawful journal lawful: a failed write
    changes nothing that is stored, and any other call does what the journal
    underneath does. *)
Theorem FaultJournal_put r (f : FaultJournal J) answer f' :
  journal_ok f -> Put r f = (answer, f') ->
  if injected f r then answer = inl ErrStore /\ contents f' = contents f /\ newest f' = newest f /\ journal_ok f'
  else exists j', Put r (fj_Journal f) = (answer, j') /\ fj_Journal f' = j' /\ fj_FailPuts f' = fj_FailPuts f.
Proof.
  intros Hok. cbn [Put fault_journal]. unfold fault_Put. destruct (injected f r) eqn:Ei; [by intros [= <- <-]|]. cbn [fj_Journal].
  unfold injected in Ei. apply orb_false_iff in Ei as [-> _]. destruct (Put r (fj_Journal f)) as [p j]. intros [= <- <-]. by exists j.
Qed.
End fault_journal.

(** ** Decisions *)
Section signer.
Context `{Hmac}.

(** A signed decision is verified with the key of its principal; and what is
    verified bears exactly the proof that the key of its principal makes of it. *)
Theorem Verify_spec keys d :
  (forall key, keys !! d_Principal d = Some key -> hmac_sha256 key (payload d) <> "" -> Verify keys (Sign d key) = true) /\
  (Verify keys d = true <-> d_Proof d <> "" /\ exists key, keys !! d_Principal d = Some key /\ d = Sign d key).
Proof.
  split.
  - intros key Hk Hne. unfold Verify. cbn [Sign d_Principal d_Proof]. rewrite Hk, (bool_decide_eq_false_2 _ Hne). cbn [negb andb].
    by apply bool_decide_eq_true_2.
  - unfold Verify, Sign. destruct (keys !! d_Principal d) as [key|]; [|split; [done|by intros (_ & ? & ? & _)]].
    rewrite andb_true_iff, negb_true_iff, bool_decide_eq_false, bool_decide_eq_true. split.
    + intros [Hp Hh]. split; [done|]. exists key. split; [done|]. rewrite Hh. by destruct d.
    + intros [Hp (k & [= <-] & E)]. split; [done|]. apply (f_equal d_Proof) in E. by symmetry.
Qed.
End signer.
