(* ===== verification/OperatorCmd.v ===== *)
(** * bori-operator (cmd/bori-operator/main.go)

    What the operator sets up, in order, from its flags.  controller-runtime --
    schemes, the manager, the registration of controllers -- is the oracle
    [oh_fails]; reading the two configuration files and decoding them are
    parameters, what is made of them is the code's. *)

From S2P Require Import Prelude.
From S2P Require Import Predicate.
From S2P Require Import Contract.
From S2P Require Import Assessment.
From S2P Require Import Evaluator.
From S2P Require Import Proposal.
From S2P Require Import Recovery.
From S2P Require Import Fleet.
From S2P Require Import Text.
From S2P Require Import Identity.
From S2P Require Import Profile.
From S2P Require Import ActionTypes.
From S2P Require Import Journal.
From S2P Require Import Engine.
From S2P Require Import StepSpec.
From S2P Require Import Candidates.
From S2P Require Adapters.
From S2P Require Import Process.
From S2P Require Import Flags.
From S2P Require Import Deployers.
From S2P Require Import Main.

Record OperatorFlags := {
  of_bori_root : string;
  of_bori_dir : string;
  of_apps_dir : string;
  of_metrics_addr : string;
  of_health_addr : string;
  of_leader_elect : bool;
  of_requeue_interval : Duration;
  of_deploy_dry_run : bool;
  of_enable_operational : bool;
  of_operational_interval : Duration;
  of_provider_config : string;
  of_enable_interaction : bool;
  of_interaction_profile : string;
  of_enable_actions : bool;
}.

(** The flags of the logger, which zap binds, are left out. *)
Definition operator_formal : gmap string flag_kind :=
  <["requeue-interval" := DurationFlag]> (<["operational-requeue-interval" := DurationFlag]>
    (with_bools ["leader-elect"; "deploy-dry-run"; "enable-operational-assessment"; "enable-operational-interaction";
                 "enable-operational-actions"]
       (strings ["bori-root"; "bori-dir"; "apps-dir"; "metrics-bind-address"; "health-probe-bind-address";
                 "operational-provider-config"; "operational-interaction-profile"]))).

Definition operator_flags (g : gmap string flag_value) : OperatorFlags := {|
  of_bori_root := string_flag g "bori-root" "/bori"; of_bori_dir := string_flag g "bori-dir" "/bori/.bori";
  of_apps_dir := string_flag g "apps-dir" ""; of_metrics_addr := string_flag g "metrics-bind-address" ":8080";
  of_health_addr := string_flag g "health-probe-bind-address" ":8081"; of_leader_elect := bool_flag g "leader-elect";
  of_requeue_interval := duration_flag g "requeue-interval" (30 * Second)%Z; of_deploy_dry_run := bool_flag g "deploy-dry-run";
  of_enable_operational := bool_flag g "enable-operational-assessment";
  of_operational_interval := duration_flag g "operational-requeue-interval" (30 * Second)%Z;
  of_provider_config := string_flag g "operational-provider-config" "";
  of_enable_interaction := bool_flag g "enable-operational-interaction";
  of_interaction_profile := string_flag g "operational-interaction-profile" "";
  of_enable_actions := bool_flag g "enable-operational-actions";
|}.

(** The operational reconciler: its providers with the limits of the
    investigator, the interaction profile, the engine's configuration and
    journal. *)
Record OperationalSetup := {
  os_Interval : Duration;
  os_Providers : option (gmap ProviderIdentity Adapters.Adapter * Limits);
  os_Interaction : bool;
  os_Profile : option Profile;
  os_Actions : option (Config * MemJournal);
}.

Inductive setup :=
  | AddScheme (name : string)
  | NewManager (metrics health : string) (leaderElect : bool)
  | SetupDataPlane (boriRoot boriDir appsDir : string) (adapters : gmap string DeployAdapter) (dryRun : bool) (interval : Duration)
  | SetupRelease
  | SetupVerificationRun
  | SetupOperational (o : OperationalSetup)
  | AddCheck (name : string)
  | StartManager.

Record OperatorHost := {
  oh_abs : string -> string + string;
  oh_fails : list setup -> setup -> bool;
  oh_read_file : string -> string + string;
  oh_decode_config : string -> string + Adapters.ProvidersConfig;
  oh_decode_profile : string -> string + Profile;
}.

(** What was set up so far, and the errors logged. *)
Record Operator := { op_done : list setup; op_errors : list string }.

Abbreviation orun A := (prog Operator A) (only parsing).

Definition op_fatal {A} (msg : string) : orun A :=
  _ ← update (fun o => Build_Operator (op_done o) (op_errors o ++ [msg])); exit 1.

Section operator.
Context `{GoText} `{Adapters.Parsers}.
Variable host : OperatorHost.

(** One step of the setup, or the error that ends the process. *)
Definition attempt (step : setup) (failure : string) : orun unit :=
  done ← ask op_done;
  if oh_fails host done step then op_fatal failure
  else update (fun o => Build_Operator (op_done o ++ [step]) (op_errors o)).

Definition with_timeout (d : Duration) (l : Limits) : Limits :=
  Build_Limits (MaxCallsPerEpisode l) (MaxStepsPerEpisode l) (EpisodeDeadline l) d (MaxCandidates l) (MaxTraceEntries l)
    (MaxResidentEpisodes l) (MaxHeldObservations l) (EpisodeCooldown l) (RefreshMargin l) (RunSlice l).

(** investigate.ForConfig *)
Definition ForConfig (cfg : Adapters.ProvidersConfig) : Adapters.ConfigError + Limits :=
  match Adapters.per_call_timeout cfg with
  | inl err => inl err
  | inr d => inr (with_timeout d ReferenceLimits)
  end.

Definition operator_providers (path : string) : orun (option (gmap ProviderIdentity Adapters.Adapter * Limits)) :=
  if bool_decide (path = "") then mret None
  else match Adapters.LoadConfig (oh_read_file host) (oh_decode_config host) path with
  | inl _ => op_fatal "load provider config"
  | inr cfg =>
      match Adapters.BuildRegistry cfg true with
      | inl _ => op_fatal "build provider registry"
      | inr reg =>
          match ForConfig cfg with
          | inl _ => op_fatal "provider limits"
          | inr limits => mret (Some (reg, limits))
          end
      end
  end.

Definition operator_profile (fl : OperatorFlags) : orun (option Profile) :=
  if negb (of_enable_interaction fl) || bool_decide (of_interaction_profile fl = "") then mret None
  else match LoadProfile (oh_read_file host) (oh_decode_profile host) (of_interaction_profile fl) with
  | inl _ => op_fatal "load interaction profile"
  | inr p => mret (Some p)
  end.

(** The engine: no provider, no decisions, no verifier, a journal in memory. *)
Definition operator_engine (enabled : bool) : option (Config * MemJournal) :=
  if enabled then Some (Build_Config ∅ None None, NewMemJournal) else None.

Definition setup_operational (fl : OperatorFlags) : orun unit :=
  when (of_enable_operational fl)
    (providers ← operator_providers (of_provider_config fl);
     if negb (bool_decide (of_interaction_profile fl = "")) && negb (of_enable_interaction fl)
     then op_fatal "--operational-interaction-profile requires --enable-operational-interaction"
     else
       profile ← operator_profile fl;
       attempt (SetupOperational (Build_OperationalSetup (of_operational_interval fl) providers (of_enable_interaction fl) profile
                  (operator_engine (of_enable_actions fl))))
         "setup OperationalReconciler").

Definition operator_apps (fl : OperatorFlags) : orun string :=
  if bool_decide (of_apps_dir fl = "") then
    match oh_abs host (of_bori_root fl) with
    | inl err => op_fatal ("abs bori-root: " +:+ err)
    | inr abs => mret (path_join [abs; ".."])
    end
  else mret (of_apps_dir fl).

Definition start_manager : orun unit :=
  _ ← attempt (AddCheck "healthz") "add healthz check";
  _ ← attempt (AddCheck "readyz") "add readyz check";
  attempt StartManager "start manager".

Definition operator (fl : OperatorFlags) : orun unit :=
  appsDir ← operator_apps fl;
  _ ← attempt (AddScheme "client-go") "add client-go scheme";
  _ ← attempt (AddScheme "v1alpha1") "add v1alpha1 scheme";
  _ ← when (of_enable_operational fl) (attempt (AddScheme "ops v1alpha1") "add ops v1alpha1 scheme");
  _ ← attempt (NewManager (of_metrics_addr fl) (of_health_addr fl) (of_leader_elect fl)) "create manager";
  _ ← attempt (SetupDataPlane (of_bori_root fl) (of_bori_dir fl) appsDir (operator_registry appsDir) (of_deploy_dry_run fl)
                 (of_requeue_interval fl)) "setup DataPlaneReconciler";
  _ ← attempt SetupRelease "setup BoriReleaseReconciler";
  _ ← attempt SetupVerificationRun "setup BoriVerificationRunReconciler";
  if of_enable_actions fl && negb (of_enable_interaction fl)
  then op_fatal "--enable-operational-actions requires --enable-operational-interaction"
  else if (of_enable_interaction fl || negb (bool_decide (of_interaction_profile fl = ""))) && negb (of_enable_operational fl)
  then op_fatal "--enable-operational-interaction requires --enable-operational-assessment"
  else
    _ ← setup_operational fl;
    start_manager.
End operator.

(** * What the operator sets up

    The manager starts only under flags that agree with each other; actions are
    shown only with interaction and assessment enabled, and the engine they get
    hands nothing off, whatever its journal holds later.  A setup that fails
    exits with one error, before the manager starts. *)

Section operator.
Context `{GoText} `{SortSlice} `{Digests} `{Providers} `{Adapters.Parsers}.
Variable host : OperatorHost.

(** The flags agree. *)
Definition agreeing (fl : OperatorFlags) : Prop :=
  (of_enable_actions fl = true -> of_enable_interaction fl = true) /\
  (of_enable_interaction fl = true \/ of_interaction_profile fl <> "" -> of_enable_operational fl = true) /\
  (of_interaction_profile fl <> "" -> of_enable_interaction fl = true).

(** No step of an engine with this configuration hands anything off, whatever
    its memory, and whatever the journal has come to hold. *)
Definition hands_nothing_off (cfg : Config) : Prop :=
  forall inp en (j : MemJournal), mem_ok j ->
  forall out en' j' log, Step cfg inp en j = (out, en', j', log) -> forall provider h answer, EvSubmit provider h answer ∉ log.

(** The providers of the assessment: none are asked for, or the file that is
    named holds a configuration that builds them, with a timeout in range. *)
Definition configured (path : string) (o : option (gmap ProviderIdentity Adapters.Adapter * Limits)) : Prop :=
  match o with
  | None => path = ""
  | Some (reg, l) => path <> "" /\ (0 < PerCallTimeout l <= Adapters.MaxPerCallTimeout)%Z /\
      exists cfg, Adapters.LoadConfig (oh_read_file host) (oh_decode_config host) path = inr cfg /\ Adapters.BuildRegistry cfg true = inr reg
  end.

(** The profile: none is asked for, or the file that is named holds it, and it
    is within its bounds. *)
Definition profiled (path : string) (o : option Profile) : Prop :=
  match o with
  | None => path = ""
  | Some p => path <> "" /\ wf_profile p /\
      exists b, oh_read_file host path = inr b /\ oh_decode_profile host b = inr p
  end.

(** What a step of the setup may be, given the flags. *)
Definition permitted (fl : OperatorFlags) (step : setup) : Prop :=
  match step with
  | SetupOperational s =>
      of_enable_operational fl = true /\ os_Interaction s = of_enable_interaction fl /\
      configured (of_provider_config fl) (os_Providers s) /\ profiled (of_interaction_profile fl) (os_Profile s) /\
      match os_Actions s with
      | Some (cfg, j) => of_enable_actions fl = true /\ of_enable_interaction fl = true /\ Durable j = false /\ hands_nothing_off cfg
      | None => of_enable_actions fl = false
      end
  | SetupDataPlane _ _ _ adapters dryRun _ => adapters !! "kustomize" = Some KubeApply /\ adapters !! "manifest" = Some KubeApply /\
      dryRun = of_deploy_dry_run fl
  | StartManager => agreeing fl
  | _ => True
  end.

Lemma no_provider_hands_nothing_off : hands_nothing_off (Build_Config ∅ None None).
Proof.
  intros inp en j Hj out en' j' log Hs. eapply (Step_sends_nothing mem_ok); [exact (laws_versioned (J := MemJournal))|exact Hj| |exact Hs].
  by right.
Qed.

(** How a part of the setup may end: with an error logged and exit status 1, or
    having set up what [Q] says. *)
Definition sets_up (fl : OperatorFlags) {A} (m : orun A) (Q : A -> list setup -> Prop) : Prop :=
  forall done e o, m (Build_Operator done []) = (e, o) ->
  match e with
  | Returned x => exists more, op_done o = done ++ more /\ op_errors o = [] /\ Forall (permitted fl) more /\ Q x more
  | Exited n => n = 1%Z /\ (exists more, op_done o = done ++ more /\ Forall (fun s => s <> StartManager /\ permitted fl s) more) /\
      exists msg, op_errors o = [msg]
  | Panicked _ => False
  end.

Definition starts_not {A} (_ : A) (more : list setup) : Prop := Forall (fun s => s <> StartManager) more.

Lemma sets_up_ret fl {A} (x : A) (Q : A -> list setup -> Prop) : Q x [] -> sets_up fl (mret x) Q.
Proof. intros HQ done e o [= <- <-]. exists []. by rewrite app_nil_r. Qed.

Lemma sets_up_fatal fl {A} msg (Q : A -> list setup -> Prop) : sets_up fl (op_fatal msg) Q.
Proof.
  intros done e o [= <- <-]. split; [done|]. split; [|by exists msg]. exists []. by rewrite app_nil_r.
Qed.

Lemma sets_up_attempt fl step msg :
  permitted fl step -> sets_up fl (attempt host step msg) (fun _ more => more = [step]).
Proof.
  intros Hp done e o. unfold attempt. running. cbn [op_done].
  destruct (oh_fails host done step); [apply (sets_up_fatal fl msg (fun (_ : unit) more => more = [step]))|]. intros [= <- <-].
  exists [step]. by repeat constructor.
Qed.

Lemma sets_up_bind fl {A B} (m : orun A) (f : A -> orun B) Q R :
  sets_up fl m Q -> (forall x more, Q x more -> starts_not x more) ->
  (forall x more, Q x more -> sets_up fl (f x) (fun y more' => R y (more ++ more'))) -> sets_up fl (m ≫= f) R.
Proof.
  intros Hm Hs Hf done e o. rewrite bind_run. destruct (m (Build_Operator done [])) as [e1 o1] eqn:E1. specialize (Hm _ _ _ E1).
  destruct e1 as [x|n|w]; [|by intros [= <- <-]|done]. destruct Hm as (more & Hd & He & Hp & HQ).
  assert (o1 = Build_Operator (done ++ more) []) as -> by (destruct o1; cbn in *; by subst). intros Hr.
  specialize (Hf x more HQ _ _ _ Hr). destruct e as [y|n|w]; [| |done].
  - destruct Hf as (more' & -> & -> & Hp' & HR). exists (more ++ more'). rewrite app_assoc. split_and!; [done..| |done]. by apply Forall_app.
  - destruct Hf as (-> & (more' & -> & Hp') & Herr). split; [done|]. split; [|done]. exists (more ++ more'). rewrite app_assoc.
    split; [done|]. apply Forall_app. split; [|done]. apply Forall_and. split; [|done]. by apply (Hs x).
Qed.

Lemma sets_up_weaken fl {A} (m : orun A) (Q R : A -> list setup -> Prop) :
  sets_up fl m Q -> (forall x more, Q x more -> R x more) -> sets_up fl m R.
Proof. intros Hm HQR done e o Hr. specialize (Hm _ _ _ Hr). destruct e; [|done..]. destruct Hm as (more & ? & ? & ? & ?). eauto 10. Qed.

(** The next step is attempted; the rest follows. *)
Lemma sets_up_then fl {B} step msg (m : orun B) R :
  permitted fl step -> step <> StartManager -> sets_up fl m (fun y more => R y (step :: more)) ->
  sets_up fl (_ ← attempt host step msg; m) R.
Proof.
  intros Hp Hs Hm. eapply sets_up_bind; [by apply sets_up_attempt| |].
  - intros ? more ->. by apply Forall_singleton.
  - intros ? more ->. exact Hm.
Qed.

Lemma operator_providers_sets_up fl :
  sets_up fl (operator_providers host (of_provider_config fl)) (fun p more => more = [] /\ configured (of_provider_config fl) p).
Proof.
  unfold operator_providers. case_bool_decide as Hc; [by apply sets_up_ret|].
  destruct (Adapters.LoadConfig _ _ _) as [err|cfg] eqn:Ec; [apply sets_up_fatal|].
  destruct (Adapters.BuildRegistry cfg true) as [err|reg] eqn:Er; [apply sets_up_fatal|].
  unfold ForConfig. destruct (Adapters.per_call_timeout cfg) as [err|d] eqn:Ed; [apply sets_up_fatal|].
  apply sets_up_ret. split; [done|]. split_and!; [done|by eapply Adapters.per_call_timeout_bounds..|by exists cfg].
Qed.

Lemma operator_profile_sets_up fl :
  (of_interaction_profile fl <> "" -> of_enable_interaction fl = true) ->
  sets_up fl (operator_profile host fl) (fun p more => more = [] /\ profiled (of_interaction_profile fl) p).
Proof.
  intros Hi. unfold operator_profile. destruct (negb _ || _) eqn:Eb.
  { apply sets_up_ret. split; [done|]. destruct (decide (of_interaction_profile fl = "")) as [|Hne]; [done|].
    rewrite (Hi Hne), bool_decide_eq_false_2 in Eb; done. }
  destruct (LoadProfile _ _ _) as [err|p] eqn:Ep; [apply sets_up_fatal|]. apply orb_false_iff in Eb as [_ Eb%bool_decide_eq_false].
  apply LoadProfile_inr in Ep as (b & Hb & Hd & Hw). apply sets_up_ret. split; [done|]. split_and!; [done..|by exists b].
Qed.

Lemma setup_operational_sets_up fl :
  (of_enable_actions fl = true -> of_enable_interaction fl = true) ->
  sets_up fl (setup_operational host fl)
    (fun _ more => starts_not tt more /\ (of_interaction_profile fl <> "" -> of_enable_operational fl = true -> of_enable_interaction fl = true)).
Proof.
  intros Ha. unfold setup_operational, when. destruct (of_enable_operational fl) eqn:Eo; [|apply sets_up_ret; split; [constructor|by intros]].
  eapply sets_up_bind; [apply operator_providers_sets_up|by intros ? ? [-> _]; constructor|]. intros providers ? [-> Hp].
  destruct (negb _ && _) eqn:Eb; [apply sets_up_fatal|].
  assert (of_interaction_profile fl <> "" -> of_enable_interaction fl = true) as Hi.
  { intros Hne. rewrite bool_decide_eq_false_2 in Eb by done. by destruct (of_enable_interaction fl). }
  eapply sets_up_bind; [by apply operator_profile_sets_up|by intros ? ? [-> _]; constructor|]. intros profile ? [-> Hpr].
  eapply sets_up_weaken; [apply sets_up_attempt|].
  - cbn. split_and!; [done..|]. unfold operator_engine. destruct (of_enable_actions fl) eqn:Ea; [|done].
    split_and!; [done|by apply Ha|done|apply no_provider_hands_nothing_off].
  - intros _ ? ->. split; [by apply Forall_singleton|intros Hne _; by apply Hi].
Qed.

Lemma operator_sets_up fl :
  sets_up fl (operator host fl) (fun _ more => last more = Some StartManager).
Proof.
  unfold operator. apply (sets_up_bind _ _ _ (fun _ more => more = [])).
  { unfold operator_apps. case_bool_decide; [|by apply sets_up_ret]. destruct (oh_abs host _); [apply sets_up_fatal|by apply sets_up_ret]. }
  { intros ? ? ->. constructor. }
  intros appsDir ? ->. do 2 (apply sets_up_then; [done..|]).
  apply (sets_up_bind _ _ _ (fun _ more => starts_not tt more)); [|done|].
  { unfold when. destruct (of_enable_operational fl); [|apply sets_up_ret; constructor]. eapply sets_up_weaken; [by apply sets_up_attempt|].
    intros _ ? ->. by apply Forall_singleton. }
  intros _ scheme _. do 4 (apply sets_up_then; [done..|]).
  destruct (of_enable_actions fl && _) eqn:Ea; [apply sets_up_fatal|].
  destruct ((_ || _) && _) eqn:Ei; [apply sets_up_fatal|].
  assert (of_enable_actions fl = true -> of_enable_interaction fl = true) as Hact.
  { destruct (of_enable_actions fl), (of_enable_interaction fl); done. }
  assert (of_enable_interaction fl = true \/ of_interaction_profile fl <> "" -> of_enable_operational fl = true) as Hint.
  { intros Hor. destruct (of_enable_operational fl); [done|]. rewrite andb_true_r in Ei. apply orb_false_iff in Ei as [Ei1 Ei2].
    rewrite negb_false_iff, bool_decide_eq_true in Ei2. rewrite Ei1 in Hor. by destruct Hor. }
  eapply sets_up_bind; [by apply setup_operational_sets_up|by intros [] ? [? _]|]. intros _ ops [_ Hprof].
  unfold start_manager. do 2 (apply sets_up_then; [done..|]). eapply sets_up_weaken; [apply sets_up_attempt|].
  - split_and!; [done..|]. intros Hne. apply Hprof; [done|]. apply Hint. by right.
  - intros _ ? ->. cbn [app]. by repeat first [rewrite last_cons | rewrite last_app].
Qed.

(** C24. Whatever the flags, the files and what controller-runtime answers: the
    operator either exits with status 1 and one error before the manager starts,
    or it starts the manager, last and under flags that agree.  What it set up
    follows the flags: manifests are applied in process, the assessment has the
    providers of the configuration that was named, with a timeout in range, and
    the profile that was named, within its bounds, and actions come only with
    interaction, with a journal that does not survive a restart and an engine
    that never hands anything off. *)
Theorem operator_setup fl e o :
  operator host fl (Build_Operator [] []) = (e, o) ->
  Forall (permitted fl) (op_done o) /\
  (e = Returned tt /\ op_errors o = [] /\ last (op_done o) = Some StartManager \/
   e = Exited 1 /\ (exists msg, op_errors o = [msg]) /\ StartManager ∉ op_done o).
Proof.
  intros Hr. pose proof (operator_sets_up fl _ _ _ Hr) as Hs. destruct e as [[]|n|w]; [| |done].
  - destruct Hs as (more & -> & He & Hp & Hl). split; [done|]. by left.
  - destruct Hs as (-> & (more & -> & Hp) & He). apply Forall_and in Hp as [Hns Hp]. split; [done|]. right. split_and!; [done..|].
    cbn. rewrite Forall_forall in Hns. intros Hin. by apply (Hns StartManager).
Qed.
End operator.
