(* ===== verification/DemoCli.v ===== *)
(** * Commands on a small host, on which their theorems are evaluated, with
    counterexamples to comments of the code *)

From S2P Require Import Prelude OpsSpec Text Process Flags.
From S2P Require Import Release Loading Planner DemoRelease Revision Shadow Deploy DemoDeploy.
From S2P Require Import DataPlane.
From S2P Require Import Redact Render Artifact Host Gate GateRun.
From S2P Require Import Measure VerifyCmd VerifySpec Deployers DeployCmd.
From S2P Require Import HostSpec DeployCmdSpec.
From S2P Require Import ReportCmd Main DevSpace.
From Stdlib Require Import Floats.SpecFloat.

(** ** The host: every second something happens; programs succeed or fail *)
Definition demo_time (l : list event) : Time := (5000000000 + 1000000000 * Z.of_nat (length l))%Z.

Definition demo_host (ok : bool) (gate : string) : Host := {|
  h_now := demo_time;
  h_getenv _ := "";
  h_executable := Some "/src/bori/bin/bori-devspace";
  h_abs p := inr ("/" +:+ p);
  h_stat _ _ := Present;
  h_mkdir _ _ := None;
  h_write _ _ := None;
  h_remove _ _ := NotThere;
  h_run _ _ _ := if ok then None else Some "exit status 1";
  h_lookpath _ := None;
  h_output _ _ := inr "slint-gate v1.2.0";
  h_write_revision _ _ := (Written, "");
  h_list _ := None;
  h_gate_file _ _ := inr (gate, "measured");
  h_port _ := inr 40000%Z;
  h_forward _ := None;
  h_request _ := None;
  h_get _ := inr (Build_HttpAnswer 200 "requests_total 1" None);
  h_read_status _ _ := inl "no such file";
  h_temp _ dir := inr (dir +:+ "/.release-1.yaml");
  h_temp_write _ _ := None;
  h_temp_close _ _ := None;
  h_rename _ _ _ := None;
|}.

#[export] Instance demo_float : ParseFloat := {|
  parse_float s := if decide (s = "1") then Some (SpecFloat.S754_finite false 4503599627370496 (-52)) else None;
|}.

#[export] Instance demo_kube_slint : KubeSlint := {|
  MetricRef := string * bool;
  LabelMatcher := string;
  Comparability := string * string;
  LabelEq l v := l +:+ "=" +:+ v;
  LabelRegexp l v := l +:+ "=~" +:+ v;
  SelectMetric name _ ls := (name +:+ join "," ls, true);
  WithEmptyMatch r _ := r;
  ref_Key := fst;
  ref_has_selector := snd;
  cm_Complete c := negb (bool_decide (c.1 = "")) && negb (bool_decide (c.2 = ""));
  cm_SubjectID := fst;
  cm_SourceConfigID := snd;
  SchemaVersionTrust := "slo.v4";
  StatusSkip := "skip";
  ServiceURLHTTP := "http://%s";
|}.

#[export] Instance demo_verify_files : VerifyFiles := {|
  decode_policy _ := inl "no policy";
  decode_app n := inr (Build_Component n "" 0 "" "");
  read_dir _ := inr [("api", true); ("notes.txt", false)];
|}.

#[export] Instance demo_manifests : Manifests := {|
  yaml_docs _ := inr ([ObjectDoc "Service" "v1" "api"; BlankDoc], None);
  kustomization_resources _ := None;
  manifest_dir _ := inr [("api.yaml", false); ("kustomization.yaml", false)];
  apply_object _ _ _ := None;
|}.

#[export] Instance demo_display : DisplayTime := {| display_time t := pretty t |}.
#[export] Instance demo_duration : ParseDuration := {| parse_duration s := if decide (s = "1s") then Some Second else None |}.
#[export] Instance demo_ops_files : OpsFiles := {| ops_input _ := inr (TargetList (inr [])) |}.

(** The release on disk, without namespaces that are not allowed. *)
#[local] Instance cli_files : Files := {|
  read_file := read_from (repository "/" ["web"; "api"; "db"] ++ repository "." ["web"; "api"; "db"] ++
    [("apps/api/.bori/component.yaml", "api"); ("//api/.bori/component.yaml", "api")]);
  decode_release _ := inr stable_release;
  decode_environment n := inr (demo_environment n);
  decode_component n := match demo_comps !! n with Some c => inr c | None => inl "no such component" end;
  decode_matrix _ := inl "no matrix";
|}.

Definition start : Shell := Build_Shell [] demo_disk.

Definition outcome {A} (r : ending A * Shell) : Z * list event := (exit_status r.1, ps_log r.2).

(** The statuses written and the programs run. *)
Definition statuses (l : list event) : list (string * string) := (fun st => (ru_Phase st, ru_Result st)) <$> omap status_of l.
Definition programs (l : list event) : list (list string) := omap (fun e => match e with Ran _ argv _ => Some argv | _ => None end) l.

(** ** bori deploy *)
Definition demo_deploy (dryRun : bool) : DeployFlags := Build_DeployFlags "lab" "dev" "." "" ".bori" dryRun.

Definition deployed_lab (ok dryRun : bool) : ending unit * Shell := cmdDeploy (demo_host ok "PASS") (demo_deploy dryRun) start.

Example deploy_succeeds :
  let '(status, l) := outcome (deployed_lab true false) in
  status = 0%Z /\ statuses l = [("Deployed", "PASS")] /\ head (programs l) = Some ["kubectl"; "apply"; "-k"; "/db/config/overlays/default"].
Proof. vm_compute. repeat split. Qed.

Example deploy_fails :
  let '(status, l) := outcome (deployed_lab false false) in
  status = 1%Z /\ statuses l = [] /\
  (fun r => rv_PromotionStatus r) <$> list_revisions (dk_revisions (ps_disk (deployed_lab false false).2)) = ["failed"; "promoted"].
Proof. vm_compute. repeat split. Qed.

(** A dry run runs nothing, and promotes the revision it planned. *)
Example dry_run_promotes :
  let '(status, l) := outcome (deployed_lab true true) in
  status = 0%Z /\ programs l = [] /\
  (fun r => rv_PromotionStatus r) <$> list_revisions (dk_revisions (ps_disk (deployed_lab true true).2)) = ["promoted"; "promoted"].
Proof. vm_compute. repeat split. Qed.

(** A deployed revision that nothing verified counts as verified. *)
Example deployed_counts_as_verified :
  match shadow_reconcile stable_release true (dk_revisions (ps_disk (deployed_lab true false).2)) 0 with
  | Some st => (fun c => cn_Status c) <$> List.find (fun c => bool_decide (cn_Type c = ConditionVerified)) (sh_Conditions st)
  | None => None
  end = Some "True".
Proof. vm_compute. reflexivity. Qed.

Lemma cmdDeploy_spec_witness : complete (demo_host true "PASS") (demo_deploy false) start (deployed_lab true false).2.
Proof.
  assert (cmdDeploy (demo_host true "PASS") (demo_deploy false) start = (Returned tt, (deployed_lab true false).2)) as Hr
    by (vm_compute; reflexivity).
  exact (cmdDeploy_spec (demo_host true "PASS") (demo_deploy false) start (Returned tt) (deployed_lab true false).2 Hr).
Defined.

(** ** bori verify *)
Definition demo_verify (release target cmd : string) : VerifyFlags :=
  Build_VerifyFlags release "dev" "." "" "" "devspace" cmd Second ".bori" "slint-gate" "bori-system" target
    "policy.yaml" FailOnFailOrNoGrade "subject" "window" "kube-slint" "".

(** The summary that the producer wrote for bori-operator. *)
Definition demo_summary : Summary :=
  Build_Summary "slo.v4" ((fun id => Build_SummaryResult id "pass" (Some float_zero) ""
    ("subject", "bori/cmd-bori/target-profile/bori-operator/v1")) <$> boriOperatorIntents).

Definition verified_by (ok : bool) (gate : string) (fl : VerifyFlags) : ending unit * Shell :=
  cmdVerify (fun _ => None) (demo_host ok gate) (fun _ _ => None) (fun _ _ => inr demo_summary) "" fl start.

Example verify_target_passes :
  let '(status, l) := outcome (verified_by true "PASS" (demo_verify "" "bori-operator" "")) in
  status = 0%Z /\ statuses l = [("Verified", "PASS")].
Proof. vm_compute. repeat split. Qed.

Example verify_target_blocks :
  let '(status, l) := outcome (verified_by true "FAIL" (demo_verify "" "bori-operator" "")) in
  status = 1%Z /\ statuses l = [("Failed", "FAIL")].
Proof. vm_compute. repeat split. Qed.

Example verify_apps :
  let '(status, l) := outcome (verified_by true "WARN" (demo_verify "" "" "")) in
  status = 0%Z /\ statuses l = [("Verified", "WARN")].
Proof. vm_compute. repeat split. Qed.


(** On a full disk the deferred write leaves no status; the exit status is 0 all
    the same. *)
Definition full_disk_host : Host :=
  let h := demo_host true "PASS" in
  Build_Host (h_now h) (h_getenv h) (h_executable h) (h_abs h) (h_stat h) (h_mkdir h) (fun _ _ => Some (CreateFault "no space"))
    (h_remove h) (h_run h) (h_lookpath h)
    (h_output h) (h_write_revision h) (h_list h) (h_gate_file h) (h_port h) (h_forward h) (h_request h)
    (h_get h) (h_read_status h) (h_temp h) (h_temp_write h) (h_temp_close h) (h_rename h).

Example verify_on_full_disk :
  let '(status, l) := outcome (with_var (verify_status (demo_verify "" "" "") "r" 0)
                        (deferring (writeStatus full_disk_host "run") (nothing_to_evaluate "no targets")) start) in
  status = 0%Z /\ statuses l = [] /\
  last l = Some (Warned "[bori] warning: could not write status.json: create run/status.json: no space").
Proof. vm_compute. repeat split. Qed.

Lemma cmdVerify_target_witness :
  exists f prof result, lookupProfile (fun _ => None) "bori-operator" = inr prof /\ IsBlocking result f = false.
Proof.
  assert (verified_by true "PASS" (demo_verify "" "bori-operator" "") =
          (Returned tt, (verified_by true "PASS" (demo_verify "" "bori-operator" "")).2)) as Hr by (vm_compute; reflexivity).
  assert (vf_target (demo_verify "" "bori-operator" "") <> "") as Hne by (vm_compute; discriminate).
  destruct (cmdVerify_target (fun _ => None) (demo_host true "PASS") (fun _ _ => None) (fun _ _ => inr demo_summary) ""
    (demo_verify "" "bori-operator" "") start _ Hne Hr)
    as (f & prof & req & s1 & s2 & path & bin & outDir & result & _ & Hp & _ & _ & _ & _ & _ & Hb).
  exists f, prof, result. exact (conj Hp Hb).
Defined.

(** A run that exits early leaves no status.json: an unknown release, and a
    metrics endpoint that never answers, which panics after the file. *)
Example verify_unknown_release : outcome (verified_by true "PASS" (demo_verify "nope" "" "")) =
  (1%Z, [Ticked; Ticked; Ticked; Warned ("[bori] plan: load release " +:+ quote "nope" +:+ ": read /releases/nope/release.yaml: no such file")]).
Proof. vm_compute. reflexivity. Qed.

(** ** The metrics of a service *)
Definition silent_host : Host :=
  let h := demo_host true "PASS" in
  Build_Host (h_now h) (h_getenv h) (h_executable h) (h_abs h) (h_stat h) (h_mkdir h) (h_write h) (h_remove h) (h_run h) (h_lookpath h)
    (h_output h) (h_write_revision h) (h_list h) (h_gate_file h) (h_port h) (h_forward h) (h_request h)
    (fun _ => inl "connection refused") (h_read_status h) (h_temp h) (h_temp_write h) (h_temp_close h) (h_rename h).

(** An endpoint that never answers is not reported as not ready: the process
    panics. *)
Example unready_endpoint_panics :
  (ScrapeMetrics silent_host (Build_Target "default" "api" 8080 "/metrics") start).1 =
  Panicked "runtime error: invalid memory address or nil pointer dereference".
Proof. vm_compute. reflexivity. Qed.

(** A label stays part of the name; a label value with a blank hides the sample. *)
Example labels_stay_in_names :
  map_to_list (fst (ParsePromText ("a{code=|200|} 1" +:+ line_feed +:+ "b{path=|x y|} 1" +:+ line_feed +:+ "c 1") None)) =
  map_to_list (<["a{code=|200|}" := SpecFloat.S754_finite false 4503599627370496 (-52)]>
    (<["c" := SpecFloat.S754_finite false 4503599627370496 (-52)]> ∅)).
Proof. vm_compute. reflexivity. Qed.

(** A gate that cannot run is reported with the result of an earlier run. *)
Example stale_gate_result :
  match (GateRunner_Run (demo_host false "PASS") "slint-gate"
           (Build_RunRequest "devspace" "api" "p.yaml" (Build_AppSnapshot 0 ∅) (Build_AppSnapshot 1 ∅) "out") start).1 with
  | Returned (inr r) => rx_GateResult r
  | _ => ""
  end = "PASS".
Proof. vm_compute. reflexivity. Qed.

(** A result of no known name outranks nothing but PASS and WARN, hides a later
    NO_GRADE and blocks nowhere but under WARN. *)
Example unknown_result_passes :
  Max "BROKEN" GateResultNoGrade = "BROKEN" /\ IsBlocking "BROKEN" FailOnFailOrNoGrade = false /\
  IsBlocking GateResultNoGrade FailOnFailOrNoGrade = true.
Proof. vm_compute. repeat split. Qed.

(** A version that does not parse is not sufficient, and "1.2" is not [0,0,0]. *)
Example versions_parsed : versionSufficient "dev" RequiredSlintGateVersion = false /\ parseSemver "1.2" = (1, 2, 0)%Z.
Proof. vm_compute. split; reflexivity. Qed.

(** ** Adapters *)

(** The namespace that is checked is the one the component file declares; ko
    applies to another. *)
Example ko_ignores_namespace :
  let c := Build_BoriComponent "api" "i" [] "safe" None None "" [] 0 "" in
  target_namespace c = "safe" /\
  programs (ps_log (adapter_deploy (demo_host true "PASS") (Ko "apps")
    (Build_DeployRequest c (Build_BoriEnvironment "dev" ["safe"]) false "out" "/repo") start).2) =
  [["ko"; "apply"; "-f"; "config/"; "--namespace"; "api-system"]].
Proof. vm_compute. split; reflexivity. Qed.

(** ** bori reconcile, bori release set-image *)
Definition demo_reconcile_flags : ReconcileFlags := Build_ReconcileFlags "lab" "dev" "." "" ".bori" false false.

Definition reconciled_lab (ok : bool) : ending unit * Shell :=
  cmdReconcile (demo_host ok "PASS") (demo_site ok 5000000000) demo_reconcile_flags start.

Example reconcile_deploys :
  let '(status, l) := outcome (reconciled_lab true) in
  status = 0%Z /\ (fun p => firstn 3 p) <$> programs l =
    [["kubectl"; "apply"; "-k"]; ["kubectl"; "set"; "image"]; ["kubectl"; "rollout"; "status"]].
Proof. vm_compute. repeat split. Qed.

Lemma cmdReconcile_spec_witness :
  exists w, acted (demo_host true "PASS") w start (reconciled_lab true).2 /\ length w = 3.
Proof.
  assert (reconciled_lab true = (Returned tt, (reconciled_lab true).2)) as Hr by (vm_compute; reflexivity).
  destruct (cmdReconcile_spec (demo_host true "PASS") (demo_site true 5000000000) demo_reconcile_flags start (Returned tt) _ Hr)
    as (w & Ha & _).
  exists w. split; [exact Ha|]. destruct Ha as (l & El & <- & _). cbn [start ps_log app] in El. rewrite <- El. vm_compute. reflexivity.
Defined.

Definition demo_set_image (component : string) : SetImageFlags := Build_SetImageFlags "lab" component "sha256:bb" "" "" ".".

Definition pinned_db : ending unit * Shell := cmdReleaseSetImage (demo_host true "PASS") (demo_set_image "db") start.

Lemma cmdReleaseSetImage_spec_witness :
  exists rel l ref r, rl_Components rel = l ++ ref :: r /\ cf_Name ref = "db" /\ ("db" ∉ names l).
Proof.
  assert (pinned_db = (Returned tt, pinned_db.2)) as Hr by (vm_compute; reflexivity).
  destruct (cmdReleaseSetImage_spec (demo_host true "PASS") (demo_set_image "db") start (Returned tt) pinned_db.2 Hr)
    as (l' & _ & tmp & line & rel & l & ref & r & _ & Hc & Hl & Hn & _).
  exists rel, l, ref, r. exact (conj Hc (conj Hn Hl)).
Defined.

Example set_image_unknown : (outcome (cmdReleaseSetImage (demo_host true "PASS") (demo_set_image "web") start)).1 = 1%Z.
Proof. vm_compute. reflexivity. Qed.

(** ** The command line *)
Definition bori (args : list string) : ending unit * Shell :=
  main (fun _ => None) (demo_host true "PASS") (fun _ _ => None) (fun _ _ => inr demo_summary) "" (demo_site true 5000000000) args start.

Example no_arguments : (outcome (bori [])).1 = 1%Z.
Proof. vm_compute. reflexivity. Qed.

Example bad_flag : (outcome (bori ["deploy"; "--releases"; "lab"])).1 = 2%Z.
Proof. vm_compute. reflexivity. Qed.

Example deploy_by_name : bori ["deploy"; "--release=lab"; "-env"; "dev"] = deployed_lab true false.
Proof. vm_compute. reflexivity. Qed.

Lemma main_looks_witness : noted idle start (bori ["plan"; "--release=lab"; "--env=dev"]).2.
Proof.
  assert (forall cmd, head ["plan"; "--release=lab"; "--env=dev"] = Some cmd ->
            cmd ∈ looking \/ cmd ∉ ["deploy"; "verify"; "reconcile"; "release"]) as Hl
    by (intros cmd [= <-]; left; apply (bool_decide_unpack _); vm_compute; exact I).
  exact (proj1 (main_looks (fun _ => None) (demo_host true "PASS") (fun _ _ => None) (fun _ _ => inr demo_summary) ""
    (demo_site true 5000000000) ["plan"; "--release=lab"; "--env=dev"] start (bori ["plan"; "--release=lab"; "--env=dev"]).1
    (bori ["plan"; "--release=lab"; "--env=dev"]).2 Hl (surjective_pairing _))).
Defined.

(** ** bori-devspace *)
Definition demo_dev (cmd : string) : DevFlags := Build_DevFlags "devspace" "apps" cmd Second "out" "slint-gate".

Definition evaluated (ok : bool) (gate cmd : string) : ending unit * Shell := devspace (demo_host ok gate) (demo_dev cmd) start.

Example devspace_passes : statuses (ps_log (evaluated true "PASS" "").2) = [("Verified", "PASS")].
Proof. vm_compute. reflexivity. Qed.

(** A failure leaves no status; one of the smoke command names no app. *)
Example devspace_fails :
  let '(status, l) := outcome (evaluated true "FAIL" "") in
  status = 1%Z /\ statuses l = [] /\ last l = Some (Said "[bori] failed: api").
Proof. vm_compute. repeat split. Qed.

Example devspace_smoke_fails :
  let '(status, l) := outcome (evaluated false "PASS" "false") in status = 1%Z /\ last l = Some (Said "[bori] failed: ").
Proof. vm_compute. repeat split. Qed.

(** The root of the repository, two directories above the executable. *)
Definition nested_host : Host :=
  let h := demo_host true "PASS" in
  Build_Host (h_now h) (h_getenv h) (h_executable h) (h_abs h)
    (fun _ p => if decide (p = "/src/bori/devspace.yaml") then Present else Absent) (h_mkdir h) (h_write h) (h_remove h) (h_run h)
    (h_lookpath h) (h_output h) (h_write_revision h) (h_list h) (h_gate_file h) (h_port h) (h_forward h) (h_request h)
    (h_get h) (h_read_status h) (h_temp h) (h_temp_write h) (h_temp_close h) (h_rename h).

Example root_above : (boriRoot nested_host start).1 = Returned "/src/bori".
Proof. vm_compute. reflexivity. Qed.

Lemma boriRoot_spec_witness : nearest nested_host start ["src"; "bori"; "bin"] "/src/bori".
Proof.
  destruct (boriRoot_spec nested_host start ["src"; "bori"; "bin"] "bori-devspace") as (dir & Hr & Hn).
  - repeat constructor; done.
  - vm_compute. reflexivity.
  - assert (boriRoot nested_host start = (Returned "/src/bori", start)) as Hv by (vm_compute; reflexivity).
    rewrite Hv in Hr. injection Hr as <-. exact Hn.
Defined.

Lemma devspace_records_witness : Forall not_failed (omap status_of (ps_log (evaluated true "PASS" "").2)).
Proof.
  assert (evaluated true "PASS" "" = (Returned tt, (evaluated true "PASS" "").2)) as Hr by (vm_compute; reflexivity).
  destruct (devspace_records (demo_host true "PASS") (demo_dev "") start (Returned tt) _ Hr) as (l & Hl & Hf).
  rewrite Hl. exact Hf.
Defined.
