(* ===== verification/DemoOperator.v ===== *)
(** * The operator and the reference actor on small inputs *)

From S2P Require Import Prelude Text.
From S2P Require Import Identity Predicate Profile ActionTypes Journal Engine DemoEngine Candidates.
From S2P Require Adapters.
From S2P Require Import DemoAdapters.
From S2P Require Import ActionTest.
From S2P Require Import Process Flags Deployers Main OperatorCmd.

(** ** The operator *)
Definition demo_operator_host (fails : list setup -> setup -> bool) : OperatorHost := {|
  oh_abs p := inr ("/" +:+ p);
  oh_fails := fails;
  oh_read_file path := if bool_decide (path = "profile.json") then inr "p" else inl "no such file";
  oh_decode_config _ := inl "not yaml";
  oh_decode_profile _ := inr demo_profile;
|}.

Definition demo_operator_flags (operational interaction actions : bool) : OperatorFlags :=
  Build_OperatorFlags "bori" ".bori" "" ":8080" ":8081" false Second false operational Second "" interaction (if interaction then "profile.json" else "") actions.

Definition ran_operator (operational interaction actions : bool) : ending unit * Operator :=
  operator (demo_operator_host (fun _ _ => false)) (demo_operator_flags operational interaction actions) (Build_Operator [] []).

Example operator_starts :
  (ran_operator true true true).1 = Returned tt /\ last (op_done (ran_operator true true true).2) = Some StartManager.
Proof. vm_compute. split; reflexivity. Qed.

(** A file that is not there ends the setup. *)
Example operator_without_profile :
  op_errors (operator (demo_operator_host (fun _ _ => false))
    (Build_OperatorFlags "bori" ".bori" "" ":8080" ":8081" false Second false true Second "" true "missing.json" false) (Build_Operator [] [])).2 =
  ["load interaction profile"].
Proof. vm_compute. reflexivity. Qed.

Example operator_refuses :
  ((ran_operator true false true).1, op_errors (ran_operator true false true).2) =
  (Exited 1, ["--enable-operational-actions requires --enable-operational-interaction"]).
Proof. vm_compute. reflexivity. Qed.

Lemma operator_setup_witness :
  Forall (permitted (demo_operator_host (fun _ _ => false)) (demo_operator_flags true true true)) (op_done (ran_operator true true true).2).
Proof.
  exact (proj1 (operator_setup (demo_operator_host (fun _ _ => false)) (demo_operator_flags true true true)
    (ran_operator true true true).1 (ran_operator true true true).2 (surjective_pairing _))).
Defined.

(** ** The reference actor *)
Definition sent (key : string) (fence : N) : Handoff :=
  Build_Handoff key fence "p" "d" (Build_ActionRef "restart" "1") "owner" (Build_TargetIdentity "ns" "web" "uid") "uid"
    (Build_ContractIdentity "ns" "c" "u" "1") (Build_CapabilityType "web" "serve" "1") [] (Build_Approval KindHuman "ann" "d1").

(** A resent key is executed once, a hand-off of an older fence not at all. *)
Example actor_executes_once :
  executed_keys (foldl actor_step (NewActor Succeed)
    [CallSubmit (sent "a" 1); CallSubmit (sent "a" 2); CallSubmit (sent "b" 1); CallResult "a"]) = ["a"].
Proof. vm_compute. reflexivity. Qed.

Lemma Actor_once_witness : NoDup (executed_keys (foldl actor_step (NewActor Succeed) [CallSubmit (sent "a" 1); CallSubmit (sent "a" 2)])).
Proof.
  assert (unused (NewActor Succeed)) as Hu by (split; reflexivity).
  exact (proj1 (Actor_once (NewActor Succeed) [CallSubmit (sent "a" 1); CallSubmit (sent "a" 2)] Hu)).
Defined.
